(* ===== verification/_CoqProject ===== *)
-Q . S2P
Prelude.v
Buffer.v
Channel.v
Poller.v
EventLoop.v
Timestamp.v
Timers.v
Sockets.v
TcpConnection.v
ConnFrame.v
TcpServer.v
Reactor.v
ReactorSafe.v
ReactorTurn.v
ReactorServer.v
LoopThread.v
Connector.v
Strings.v
Config.v
ConfigTypes.v
Queues.v
Pools.v
Ftp.v
FtpTransfer.v
FtpConn.v
Miniftpd.v
FtpCtrl.v
FileUtils.v
LoopThreads.v
SysUtils.v
CStr.v
Threads.v
Logging.v
Idioms.v
Lifetime.v
