(* ===== verification/Prelude.v ===== *)
(** * A verification development of MOBAN

    MOBAN is a C++ code base of three layers: [src/deps/common] (time, strings, configuration, files, logging,
    queues and thread pools), [src/plugins/Muduo] (a reactor network library) and two FTP examples built on them,
    [src/example/miniftpd] and the blocking helpers of [src/example/miniftpd_c]. This library models the layers as
    executable functions and step relations and proves what each part promises to the next.

    ** How code becomes definitions

    A function that can stop the program returns an [outcome]: a value or the [fault] that ends it (failed
    [assert], undefined behaviour, [exit(EXIT_FAILURE)], [std::terminate], an exception). Objects are records, passed and returned.
    Machine integers are [Z] with their wrap-around written out ([u16] ... [i64]); the bytes of strings and
    buffers are [list ascii]; [double] is binary64 of the Standard Library's [SpecFloat]. Critical sections are
    atomic functions and threads are step relations that interleave them. System calls, the clock, third-party
    parsers and user callbacks are arguments or classes with laws ([EpollKernel], [EventfdKernel],
    [SocketKernel], [AcceptKernel], [Files]); the laws have instances, on which the witnesses run.
    A comment before a definition names the file and the first line of the code it translates.

    ** The files

    - [Prelude]: outcomes, characters, printing of numbers, integer widths, the shared automation.
    - [Buffer] (buffer.h, buffer.cpp): the byte buffer over its vector. It refines a queue of bytes; the integer
      codec round-trips; consuming too much fails an assertion.
    - [Channel] and [Poller] (Channel, EPollPoller): interest masks and dispatch; map, indices and kernel agree
      through every sequence of updates.
    - [EventLoop] and [LoopThreads] (EventLoop): the loop's operations, and their interleaving with other
      threads: functors run once and in order and no wakeup is lost.
    - [Timestamp], [Timers] (timestamp, Timer, TimerId, TimerQueue): printing and calendar; the timer queue with
      its heap of timers, adding, cancelling, expiring and restarting.
    - [TcpConnection]: the state machine of a connection over a socket with partial reads and writes; every run
      keeps its invariant and the stream carries the accepted messages whole and in order.
    - [Reactor] (the callbacks and functors bound in TcpConnection, TcpServer, Acceptor): one loop with its server
      and all their connections. [ConnFrame] says what an operation of a connection leaves alone; [ReactorSafe] has
      the invariant of the whole and the steps of its handlers, [ReactorTurn] the turn of the loop, [ReactorServer]
      every run: nothing a client or the kernel does stops the server, and table, poller and queue stay consistent.
    - [Lifetime] (TcpConnection, TcpServer): the references to a connection held by the table, by functors and by
      other threads; when functors find it alive, and the interleavings in which they do not.
    - [Sockets] (socketOps, InetAddress, socket), [TcpServer] (Acceptor, EventLoopThreadPool, TcpServer),
      [LoopThread] (EventLoopThread), [Connector] (Connector, TcpClient): addresses, accepting with a spare
      descriptor, the table of connections, the life of a loop thread, connecting with back-off.
    - [Strings] (string_utils), [Config] (config, config_value, config_json, config_parser): splitting, trimming
      and number literals; loading a document, paths and typed access. [ConfigTypes]: loaded trees are well-typed
      and each instance of [get] is a typed partial function on them.
    - [Queues], [Pools] (count_down_latch, blocking_queue, bounded_blocking_queue, both thread pools): refinement
      of a list, drainage of the pool, the limit of the backlog.
    - [Ftp], [FtpTransfer] (ftp_session): the commands of a session, then its transfers with their disk tasks,
      functors and data connection. Sessions are confined to their directory; RETR delivers exactly the file and
      LIST every entry, in a bounded number of rounds, however the kernel takes the writes. [FtpConn]: the
      connections of [Ftp] are those of [TcpConnection], by refinement.
    - [Miniftpd] (main.cpp of miniftpd): a session per control connection, and what keeps it alive. [FtpCtrl]: main,
      session and control connection composed over any loop and socket; the replies reach the client in order.
    - [FileUtils] (file_utils): reading, writing, and atomic replacement, over every failure of a system call.
    - [SysUtils], [CStr] (sysutils.cpp, str.cpp of miniftpd_c): whole transfers, lines, waits with a limit; the
      string helpers of the command reader.
    - [Threads], [Logging] (current_thread, thread, demangle, short_file; logging): thread names and the thread object; the
      registry of loggers and the cleaning of log directories. [Idioms] (defer, singleton): scope guards, and the
      static that several threads may initialise.

    ** How the parts interact

    [Channel] calls its loop through the class [LoopServices]; [EventLoop] implements it over [Poller], and
    [TcpConnection], [TcpServer] and [Connector] are clients proved against it; the connections that server and client
    make are [TcpConnection]s with their callbacks ([accepted_connection], [client_connects]). [Pools] is about
    the class [Monitor], which the thread pool's own queue and the [BlockingQueue] of [Queues] implement. [TcpConnection] uses [Buffer]
    through its refinement lemmas. [Ftp] runs on connections reduced to what the session sees of them (state, callback
    set, output waiting); [FtpConn] proves that every run of the calls a session makes on a [TcpConnection] is a run
    of the reduced one, with the same functors posted and the same bytes accepted. [Miniftpd] runs a session from
    the events of its control connection and follows the references to it. In [FtpCtrl] the session is the user of a
    [TcpConnection]: the loop has the session's world beside it, and what the session says is sent on the connection.
    [Reactor] is the other way to compose: [EventLoop], [EPollPoller], [Channel], [Acceptor], [TcpServer] and every
    [TcpConnection] in one world with one heap of channels, run by [EventLoop.loop_turn] itself. It has the server without a
    thread pool, whose connections live in the base loop. Other threads come in through [send], [shutdown] and [forceClose],
    each as one step between two turns, by a thread that holds a reference; [Lifetime] shows the interleavings that go
    wrong when such a call is cut in two by a close.

    ** Bounds and fuel

    Loops of the code are structural recursion where the data shrinks. The others carry fuel: the length of the
    input for the scanning loops of [Strings], [Config] and [Ftp]; for [FileUtils] and [SysUtils] the bytes to
    transfer plus the interruptions still to come, since each turn uses one of either; the buffer size for
    [readline]. The theorems give the result for that fuel, so it is enough and the loops end; in [FileUtils] and
    [SysUtils] running out would be the fault [Undefined], which the theorems exclude.
    The runs of [Reactor] need no fuel: each step is one turn, with the list of reports that [epoll_wait] gives. A turn is
    considered below 10^9 connections made, so that their names fit the code's 31 characters and differ, and while the
    eventfd's counter has room for the turn's wakeups below 2^64 - 2, so that no write to it would block. Of [epoll_wait] the
    model asks that it reports each registered descriptor at most once, with the pointer it was registered with, and a hang-up
    without input only without urgent input, as TCP sockets of Linux do ([ready_ok], [coherent]).

    ** Not modelled

    The CUDA, HIP and host shims of [deps/common/di] (renames of vendor calls),
    [noncopyable] and [callbacks.h] (deleted operations and type aliases), the sinks and patterns of
    spdlog, tests, build scripts and third-party code. Log lines are left out everywhere. *)

From Stdlib Require Export ZArith Ascii String Lia.
From stdpp Require Export base tactics numbers list strings gmap fin_maps relations.

#[global] Open Scope Z_scope.
#[global] Set Default Goal Selector "!".

(** * Outcomes of C++ code *)

(** The exceptions the modelled code throws, with the text the code builds. *)
Inductive exn :=
| LengthError
| BadAlloc
| BadWeakPtr
| BadFunctionCall
| BadAnyCast
| OutOfRange (what : string)
| InvalidArgument (what : string)
| RuntimeError (what : string)
| ConfigError (what : string)
| SystemError (code : Z) (what : string).

(** Every way a function of the program stops without returning a value: a failed [assert],
    undefined behaviour, [exit(EXIT_FAILURE)], [std::terminate()], or an exception. *)
Inductive fault :=
| AssertFail
| Undefined
| ExitFailure
| Terminate
| Throw (e : exn).

(** The result of running code: a value or a fault. *)
Inductive outcome (A : Type) :=
| Ok (a : A)
| Fault (f : fault).
Arguments Ok {A} a.
Arguments Fault {A} f.

#[global] Instance outcome_ret : MRet outcome := fun A a => Ok a.
#[global] Instance outcome_bind : MBind outcome := fun A B k m =>
  match m with Ok a => k a | Fault f => Fault f end.
#[global] Instance outcome_fmap : FMap outcome := fun A B g m =>
  match m with Ok a => Ok (g a) | Fault f => Fault f end.

(** [assert(b)] of <cassert>, with assertions enabled. *)
Definition assert_ (b : bool) : outcome unit := if b then Ok tt else Fault AssertFail.

(** Run [m] only when the condition of an [if] without [else] holds. *)
Definition when {S : Type} (b : bool) (m : S → outcome S) (s : S) : outcome S :=
  if b then m s else Ok s.

Lemma bind_ok {A B : Type} (a : A) (k : A → outcome B) : (x ← Ok a; k x) = k a.
Proof. reflexivity. Qed.

Lemma bind_fault {A B : Type} (f : fault) (k : A → outcome B) : (x ← Fault f; k x) = Fault f.
Proof. reflexivity. Qed.

Lemma bind_inv {A B : Type} (m : outcome A) (k : A → outcome B) (b : B) :
  (x ← m; k x) = Ok b → ∃ a, m = Ok a ∧ k a = Ok b.
Proof. destruct m as [a|f]; cbn; [eauto|discriminate]. Qed.

Lemma bind_assoc {A B C : Type} (m : outcome A) (k : A → outcome B) (h : B → outcome C) :
  (y ← (x ← m; k x); h y) = (x ← m; y ← k x; h y).
Proof. by destruct m. Qed.

Lemma assert_true (b : bool) : b = true → assert_ b = Ok tt.
Proof. by intros ->. Qed.

(** Left-to-right execution of a loop body over a list, stopping at the first fault. *)
Fixpoint foldM {A S : Type} (body : A → S → outcome S) (l : list A) (s : S) : outcome S :=
  match l with
  | [] => Ok s
  | x :: l' => s' ← body x s; foldM body l' s'
  end.

Lemma foldM_app {A S : Type} (body : A → S → outcome S) l1 l2 s :
  foldM body (l1 ++ l2) s = (s' ← foldM body l1 s; foldM body l2 s').
Proof. revert s; induction l1 as [|x l1 IH]; intros s; [done|]. cbn. destruct (body x s); cbn; [apply IH|done]. Qed.

(** A loop whose body keeps an invariant and never faults runs to the end. *)
Lemma foldM_invariant {A S : Type} (I : S → Prop) (body : A → S → outcome S) (l : list A) s :
  I s → (∀ x s, x ∈ l → I s → ∃ s', body x s = Ok s' ∧ I s') →
  ∃ s', foldM body l s = Ok s' ∧ I s'.
Proof.
  revert s; induction l as [|x l IH]; intros s Hs Hbody; [by exists s|].
  destruct (Hbody x s) as (s1 & E1 & I1); [set_solver|done|]. cbn. rewrite E1. cbn.
  apply IH; [done|]. intros y t Hy; apply Hbody; set_solver.
Qed.

(** * Characters and strings *)

(** A C++ [char] is one of 256 values; a [std::string] or [std::string_view] is a list of them. *)
Abbreviation char := ascii.
Abbreviation chars := (list ascii).

Declare Scope chars_scope.
Delimit Scope chars_scope with chars.

(** [$"text"] is the C++ literal "text" as a list of characters. *)
Notation "'$' s" := (list_ascii_of_string s%string) (at level 5, s at level 1, only parsing) : stdpp_scope.

Definition char_code (c : char) : Z := Z.of_N (N_of_ascii c).
Definition char_of_code (z : Z) : char := ascii_of_N (Z.to_N (z mod 256)).

Lemma char_code_range (c : char) : 0 <= char_code c < 256.
Proof. unfold char_code. pose proof (N_ascii_bounded c). lia. Qed.

Lemma char_of_code_code (c : char) : char_of_code (char_code c) = c.
Proof.
  unfold char_of_code. rewrite Z.mod_small by apply char_code_range.
  unfold char_code. rewrite N2Z.id. apply ascii_N_embedding.
Qed.

Lemma char_code_of_code (z : Z) : char_code (char_of_code z) = z mod 256.
Proof.
  unfold char_of_code, char_code. pose proof (Z.mod_pos_bound z 256 ltac:(lia)).
  rewrite N_ascii_embedding by lia. lia.
Qed.

Lemma char_code_inj (a b : char) : char_code a = char_code b → a = b.
Proof. intros E. by rewrite <-(char_of_code_code a), <-(char_of_code_code b), E. Qed.

(** The text a C function sees behind a [const char*]: everything before the first NUL. *)
Fixpoint c_str (s : chars) : chars :=
  match s with
  | [] => []
  | c :: s' => if decide (c = "000"%char) then [] else c :: c_str s'
  end.

(** Turn the boolean comparisons of a context into the propositions they decide. *)
Ltac bool_prop :=
  repeat match goal with
  | H : (_ <? _) = true |- _ => apply Z.ltb_lt in H
  | H : (_ <? _) = false |- _ => apply Z.ltb_ge in H
  | H : (_ <=? _) = true |- _ => apply Z.leb_le in H
  | H : (_ <=? _) = false |- _ => apply Z.leb_gt in H
  | H : (_ =? _) = true |- _ => apply Z.eqb_eq in H
  | H : (_ =? _) = false |- _ => apply Z.eqb_neq in H
  | H : andb _ _ = true |- _ => apply andb_true_iff in H as [? ?]
  | H : orb _ _ = false |- _ => apply orb_false_iff in H as [? ?]
  | H : negb _ = true |- _ => apply negb_true_iff in H
  | H : negb _ = false |- _ => apply negb_false_iff in H
  end.

(** * Formatting *)

Definition digit (n : Z) : char := char_of_code (48 + n).
Definition is_digit (c : char) : bool := (48 <=? char_code c) && (char_code c <=? 57).

(** The decimal digits of a non-negative number; [fuel] bounds the number of digits. *)
Fixpoint digits (fuel : nat) (n : Z) : chars :=
  match fuel with
  | O => []
  | S fuel => if n <? 10 then [digit n] else digits fuel (n / 10) ++ [digit (n mod 10)]
  end.
Definition udec (n : Z) : chars := digits (S (Z.to_nat (Z.log2 n))) n.

(** [%d]: the decimal text of an integer. *)
Definition dec (z : Z) : chars := if z <? 0 then "-"%char :: udec (- z) else udec z.

(** The value of a string of digits, read from the left. *)
Definition dval (s : chars) : Z := foldl (fun a c => 10 * a + (char_code c - 48)) 0 s.

(** Fill on the left to a minimum width. *)
Definition fill (c : char) (w : nat) (s : chars) : chars := replicate (w - length s) c ++ s.

(** [%0wd]: zeros after the sign. *)
Definition dec0 (w : nat) (z : Z) : chars :=
  if z <? 0 then "-"%char :: fill "0" (w - 1) (udec (- z)) else fill "0" w (udec z).

(** [snprintf(buf, n, ...)] of the text [s]: what is in [buf] afterwards, read as a C string. *)
Definition snprintf (n : Z) (s : chars) : chars := take (Z.to_nat (n - 1)) s.

Lemma digit_code n : 0 <= n < 10 → char_code (digit n) = 48 + n.
Proof. intros. unfold digit. rewrite char_code_of_code, Z.mod_small; lia. Qed.

Lemma digit_is_digit n : 0 <= n < 10 → is_digit (digit n) = true.
Proof. intros. unfold is_digit. rewrite digit_code by done. apply andb_true_iff. rewrite !Z.leb_le. lia. Qed.

Lemma digits_fuel n : 0 <= n → n < 10 ^ Z.of_nat (S (Z.to_nat (Z.log2 n))).
Proof.
  intros. destruct (decide (n = 0)) as [->|]; [done|].
  pose proof (Z.log2_nonneg n). destruct (Z.log2_spec n ltac:(lia)) as [_ L].
  eapply Z.lt_le_trans; [exact L|]. rewrite Nat2Z.inj_succ, Z2Nat.id by done. apply Z.pow_le_mono_l. lia.
Qed.

Lemma digits_val fuel n : 0 <= n < 10 ^ Z.of_nat fuel → dval (digits fuel n) = n.
Proof.
  revert n; induction fuel as [|fuel IH]; intros n Hn; [cbn in *; lia|]. cbn [digits].
  destruct (n <? 10) eqn:E; bool_prop.
  - unfold dval; cbn [foldl]. rewrite digit_code by lia. lia.
  - unfold dval. rewrite foldl_app. cbn [foldl]. fold (dval (digits fuel (n / 10))).
    pose proof (Z.mod_pos_bound n 10 ltac:(lia)). rewrite digit_code by lia.
    rewrite IH; [rewrite (Z.div_mod n 10) at 3; lia|].
    rewrite Nat2Z.inj_succ, Z.pow_succ_r in Hn by lia. split; [apply Z.div_pos; lia|].
    apply Z.div_lt_upper_bound; lia.
Qed.

Lemma udec_val n : 0 <= n → dval (udec n) = n.
Proof. intros. apply digits_val. split; [done|]. by apply digits_fuel. Qed.

Lemma digits_Forall fuel n : 0 <= n → Forall (fun c => is_digit c = true) (digits fuel n).
Proof.
  revert n; induction fuel as [|fuel IH]; intros n Hn; cbn [digits]; [constructor|].
  pose proof (Z.mod_pos_bound n 10 ltac:(lia)). destruct (n <? 10) eqn:E; bool_prop.
  - repeat constructor. apply digit_is_digit. lia.
  - apply Forall_app. split; [apply IH, Z.div_pos; lia|]. repeat constructor. by apply digit_is_digit.
Qed.

Lemma udec_digits n : 0 <= n → Forall (fun c => is_digit c = true) (udec n).
Proof. apply digits_Forall. Qed.

Lemma digits_length fuel n k : 0 <= n < 10 ^ Z.of_nat k → (0 < k)%nat → (length (digits fuel n) <= k)%nat.
Proof.
  revert n k; induction fuel as [|fuel IH]; intros n k Hn Hk; cbn [digits]; [cbn; lia|].
  destruct (n <? 10) eqn:E; bool_prop; [cbn; lia|].
  rewrite length_app. cbn. destruct k as [|[|k]]; [lia|cbn in Hn; lia|].
  enough (length (digits fuel (n / 10)) <= S k)%nat by lia.
  apply IH; [|lia]. rewrite Nat2Z.inj_succ, Z.pow_succ_r in Hn by lia.
  split; [apply Z.div_pos; lia|]. apply Z.div_lt_upper_bound; lia.
Qed.

Lemma udec_length n k : 0 <= n < 10 ^ Z.of_nat k → (0 < k)%nat → (length (udec n) <= k)%nat.
Proof. apply digits_length. Qed.

Lemma udec_nonempty n : udec n ≠ [].
Proof. unfold udec. cbn [digits]. destruct (n <? 10); [done|]. by destruct (digits _ _). Qed.

Lemma udec_inj a b : 0 <= a → 0 <= b → udec a = udec b → a = b.
Proof. intros Ha Hb E. by rewrite <-(udec_val a), <-(udec_val b), E. Qed.

(** Leading zeros do not change the value. *)
Lemma dval_fill w s : dval (fill "0" w s) = dval s.
Proof.
  unfold dval, fill. rewrite foldl_app. f_equal.
  induction (w - length s)%nat as [|k IH]; cbn; [done|]. exact IH.
Qed.

Lemma fill_length c w s : length (fill c w s) = Nat.max w (length s).
Proof. unfold fill. rewrite length_app, length_replicate. lia. Qed.

Lemma dec0_nonneg w z : 0 <= z → dec0 w z = fill "0" w (udec z).
Proof. intros. unfold dec0. by rewrite (proj2 (Z.ltb_ge _ _)). Qed.

Lemma dec_nonneg z : 0 <= z → dec z = udec z.
Proof. intros. unfold dec. by rewrite (proj2 (Z.ltb_ge _ _)). Qed.

Lemma snprintf_short n s : Z.of_nat (length s) < n → snprintf n s = s.
Proof. intros. unfold snprintf. apply take_ge. lia. Qed.

(** * Substring search *)

(** Does [l] start with [pat]? *)
Fixpoint is_prefix (pat l : chars) : bool :=
  match pat, l with
  | [], _ => true
  | p :: pat', c :: l' => bool_decide (p = c) && is_prefix pat' l'
  | _ :: _, [] => false
  end.

(** The index of the first occurrence of [pat] in [l]: [std::search], [string_view::find]. *)
Fixpoint find_sub (pat l : chars) : option nat :=
  if is_prefix pat l then Some 0%nat
  else match l with [] => None | _ :: l' => S <$> find_sub pat l' end.

Lemma is_prefix_spec (pat l : chars) : is_prefix pat l = true ↔ ∃ r, l = pat ++ r.
Proof.
  revert l; induction pat as [|p pat IH]; intros l; cbn; [split; eauto|].
  destruct l as [|c l]; [split; [done|by intros (r & ?)]|].
  rewrite andb_true_iff, bool_decide_eq_true, IH. split.
  - by intros [-> (r & ->)]; exists r.
  - intros (r & [= -> ->]); eauto.
Qed.

(** A found index splits the text around the first occurrence. *)
Lemma find_sub_Some (pat l : chars) (i : nat) :
  find_sub pat l = Some i →
  ∃ a b, l = a ++ pat ++ b ∧ length a = i ∧ ∀ j, (j < i)%nat → is_prefix pat (drop j l) = false.
Proof.
  revert i; induction l as [|c l IH]; intros i; cbn [find_sub].
  - destruct (is_prefix pat []) eqn:E; [|done]. intros [= <-].
    apply is_prefix_spec in E as (r & E). exists [], r. split_and!; [exact E|done|lia].
  - destruct (is_prefix pat (c :: l)) eqn:E.
    + intros [= <-]. apply is_prefix_spec in E as (r & E). exists [], r.
      split_and!; [exact E|done|lia].
    + intros H. destruct (find_sub pat l) as [k|] eqn:F; [|done]. injection H as <-.
      destruct (IH k eq_refl) as (a & b & -> & Ha & Hmin). exists (c :: a), b.
      split_and!; [done|by cbn; rewrite Ha|]. intros [|j] Hj; [done|]. apply Hmin. lia.
Qed.

Lemma find_sub_None (pat l : chars) : find_sub pat l = None → ∀ a b, l ≠ a ++ pat ++ b.
Proof.
  induction l as [|c l IH]; cbn [find_sub]; intros H a b E.
  - destruct (is_prefix pat []) eqn:P; [done|].
    destruct a; [|done]. rewrite E in P. cbn in P.
    by rewrite (proj2 (is_prefix_spec _ _)) in P by eauto.
  - destruct (is_prefix pat (c :: l)) eqn:P; [done|]. destruct (find_sub pat l) eqn:F; [done|].
    destruct a as [|x a].
    + rewrite E in P. cbn in P. by rewrite (proj2 (is_prefix_spec _ _)) in P by eauto.
    + injection E as -> E. by eapply IH.
Qed.

(** The converse: the first decomposition is the one found. *)
Lemma find_sub_first (pat a b : chars) :
  (∀ j, (j < length a)%nat → is_prefix pat (drop j (a ++ pat ++ b)) = false) →
  find_sub pat (a ++ pat ++ b) = Some (length a).
Proof.
  induction a as [|x a IH]; intros Hmin.
  - cbn [app length]. assert (E : is_prefix pat (pat ++ b) = true) by (apply is_prefix_spec; eauto).
    destruct (pat ++ b) as [|c l]; cbn [find_sub]; by rewrite E.
  - assert (E : is_prefix pat (x :: a ++ pat ++ b) = false) by (apply (Hmin 0%nat); cbn; lia).
    cbn [app find_sub length]. rewrite E, IH; [done|].
    intros j Hj. apply (Hmin (S j)). cbn. lia.
Qed.

(** * Machine integers *)

(** Values of w-bit types are integers; [u64] and friends write out the wrap-around. *)
Definition u16 (z : Z) : Z := z mod 2 ^ 16.
Definition u32 (z : Z) : Z := z mod 2 ^ 32.
Definition u64 (z : Z) : Z := z mod 2 ^ 64.
Definition i8 (z : Z) : Z := (z + 2 ^ 7) mod 2 ^ 8 - 2 ^ 7.
Definition i16 (z : Z) : Z := (z + 2 ^ 15) mod 2 ^ 16 - 2 ^ 15.
Definition i32 (z : Z) : Z := (z + 2 ^ 31) mod 2 ^ 32 - 2 ^ 31.
Definition i64 (z : Z) : Z := (z + 2 ^ 63) mod 2 ^ 64 - 2 ^ 63.

Definition INT64_MIN : Z := - 2 ^ 63.
Definition INT64_MAX : Z := 2 ^ 63 - 1.
Definition UINT64_MAX : Z := 2 ^ 64 - 1.
Definition INT_MAX : Z := 2 ^ 31 - 1.
Definition PTRDIFF_MAX : Z := 2 ^ 63 - 1.

Lemma u64_small (z : Z) : 0 <= z < 2 ^ 64 → u64 z = z.
Proof. apply Z.mod_small. Qed.

Lemma i64_small (z : Z) : INT64_MIN <= z <= INT64_MAX → i64 z = z.
Proof. unfold INT64_MIN, INT64_MAX, i64. intros. rewrite Z.mod_small; lia. Qed.

Lemma i32_small (z : Z) : - 2 ^ 31 <= z < 2 ^ 31 → i32 z = z.
Proof. unfold i32. intros. rewrite Z.mod_small; lia. Qed.

Lemma i16_small (z : Z) : - 2 ^ 15 <= z < 2 ^ 15 → i16 z = z.
Proof. unfold i16. intros. rewrite Z.mod_small; lia. Qed.

Lemma i8_small (z : Z) : - 2 ^ 7 <= z < 2 ^ 7 → i8 z = z.
Proof. unfold i8. intros. rewrite Z.mod_small; lia. Qed.

(** The signed reading of the unsigned image of a signed value is the value. *)
Lemma i32_u32 (z : Z) : - 2 ^ 31 <= z < 2 ^ 31 → i32 (u32 z) = z.
Proof. unfold i32, u32. intros. rewrite Z.add_mod_idemp_l by lia. rewrite Z.mod_small; lia. Qed.

Lemma i16_u16 (z : Z) : - 2 ^ 15 <= z < 2 ^ 15 → i16 (u16 z) = z.
Proof. unfold i16, u16. intros. rewrite Z.add_mod_idemp_l by lia. rewrite Z.mod_small; lia. Qed.

Lemma i8_u8 (z : Z) : - 2 ^ 7 <= z < 2 ^ 7 → i8 (z mod 2 ^ 8) = z.
Proof. unfold i8. intros. rewrite Z.add_mod_idemp_l by lia. rewrite Z.mod_small; lia. Qed.

(** The length of a list as a machine-size value. *)
Definition zlen {A : Type} (l : list A) : Z := Z.of_nat (length l).

Lemma zlen_nonneg {A : Type} (l : list A) : 0 <= zlen l.
Proof. unfold zlen. lia. Qed.

Lemma zlen_app {A : Type} (l k : list A) : zlen (l ++ k) = zlen l + zlen k.
Proof. unfold zlen. rewrite length_app. lia. Qed.

Lemma zlen_nil {A : Type} : zlen (@nil A) = 0.
Proof. reflexivity. Qed.

Lemma zlen_cons {A : Type} (x : A) (l : list A) : zlen (x :: l) = zlen l + 1.
Proof. unfold zlen. cbn [length]. lia. Qed.

Lemma zlen_0 {A : Type} (l : list A) : zlen l = 0 → l = [].
Proof. destruct l; unfold zlen; cbn; [done|lia]. Qed.

(** * Automation *)

Create HintDb moban.
#[export] Hint Resolve zlen_nonneg char_code_range : moban.
#[export] Hint Rewrite @zlen_app @zlen_nil @zlen_cons : moban.

(** Unfold one bind of a successful run: from [(x ← m; k x) = Ok b] get the value of [m]. *)
Ltac bind_inv H :=
  let a := fresh "a" in let E := fresh "E" in
  apply bind_inv in H as (a & E & H).

(** Decide a boolean comparison in the goal by arithmetic. *)
Ltac zdec b :=
  let E := fresh "E" in destruct b eqn:E; bool_prop; try (exfalso; lia).
