(* ===== verification/Buffer.v ===== *)
(** * Buffer: the byte buffer of the network library

    Models [plugins/Muduo/muduo/net/buffer.h] and [buffer.cpp]: a [std::vector<char>] with a read
    and a write index, a reserved prefix for prepending, and the big-endian integer codec. Pointers
    into the buffer are offsets from [begin()]; an access outside the vector is [Undefined]; sizes
    wrap at 64 bits. The specification is a plain byte queue, and [buffer_refines_queue] shows that
    every operation implements it. *)

From S2P Require Import Prelude.

(** ** The vector underneath *)

(** Reading [len] bytes from offset [off]. *)
Definition vec_read (v : chars) (off len : Z) : outcome chars :=
  if (0 <=? off) && (0 <=? len) && (off + len <=? zlen v)
  then Ok (take (Z.to_nat len) (drop (Z.to_nat off) v)) else Fault Undefined.

(** Overwriting the bytes from offset [off] with [data]. *)
Definition vec_write (v : chars) (off : Z) (data : chars) : outcome chars :=
  if (0 <=? off) && (off + zlen data <=? zlen v)
  then Ok (take (Z.to_nat off) v ++ data ++ drop (Z.to_nat (off + zlen data)) v)
  else Fault Undefined.

(** [std::copy(v + first, v + last, v + dest)] inside one vector: undefined when [dest] lies in the
    copied range. *)
Definition vec_copy (v : chars) (first last dest : Z) : outcome chars :=
  if (first <=? dest) && (dest <? last) then Fault Undefined
  else data ← vec_read v first (last - first); vec_write v dest data.

(** [std::vector<char>::resize]: value-initialised growth, [std::length_error] above [max_size]. *)
Definition vec_resize (v : chars) (n : Z) : outcome chars :=
  if PTRDIFF_MAX <? n then Fault (Throw LengthError)
  else Ok (take (Z.to_nat n) v ++ replicate (Z.to_nat n - length v) "000"%char).

(** ** State *)

(* @src buffer.h | std::vector<char> buffer_; | static const char KCRLF | Buffer *)
Record Buffer := mkBuffer { buffer_ : chars; readerIndex_ : Z; writeIndex_ : Z }.

(* @src buffer.h | static const size_t kCheapprepend *)
Definition kCheapprepend : Z := 8.
(* @src buffer.h | static const size_t kInitialSize *)
Definition kInitialSize : Z := 1024.
(* @src buffer.cpp | const char Buffer::KCRLF[] *)
Definition KCRLF : chars := ["013"%char; "010"%char].

(* @src buffer.cpp | size_t Buffer::readableBytes() *)
Definition readableBytes (b : Buffer) : Z := u64 (writeIndex_ b - readerIndex_ b).
(* @src buffer.cpp | size_t Buffer::writeableBytes() *)
Definition writeableBytes (b : Buffer) : Z := u64 (zlen (buffer_ b) - writeIndex_ b).
(* @src buffer.cpp | size_t Buffer::prependableBytes() *)
Definition prependableBytes (b : Buffer) : Z := readerIndex_ b.
(* @src buffer.cpp | const char* Buffer::peek() *)
Definition peek (b : Buffer) : Z := readerIndex_ b.
(* @src buffer.cpp | char* Buffer::beginWrite() *)
Definition beginWrite (b : Buffer) : Z := writeIndex_ b.

(* @src buffer.cpp | Buffer::Buffer() | assert(prependableBytes() == kCheapprepend); *)
Definition newBuffer : outcome Buffer :=
  let b := mkBuffer (replicate (Z.to_nat (kCheapprepend + kInitialSize)) "000"%char)
             kCheapprepend kCheapprepend in
  assert_ (readableBytes b =? 0);;
  assert_ (writeableBytes b =? kInitialSize);;
  assert_ (prependableBytes b =? kCheapprepend);;
  Ok b.

(* @src buffer.cpp | void Buffer::swap(Buffer& rhs) *)
Definition swap (b rhs : Buffer) : Buffer * Buffer :=
  (mkBuffer (buffer_ rhs) (readerIndex_ rhs) (writeIndex_ rhs),
   mkBuffer (buffer_ b) (readerIndex_ b) (writeIndex_ b)).

(** ** Searching *)

(** [std::search(first, last, KCRLF, KCRLF + 2)]: the offset found, [last] when there is none. *)
Definition search_crlf (b : Buffer) (first last : Z) : outcome Z :=
  data ← vec_read (buffer_ b) first (last - first);
  Ok (match find_sub KCRLF data with Some i => first + Z.of_nat i | None => last end).

(* @src buffer.cpp | const char* Buffer::findCRLF() *)
Definition findCRLF (b : Buffer) : outcome (option Z) :=
  crlf ← search_crlf b (peek b) (beginWrite b);
  Ok (if crlf =? beginWrite b then None else Some crlf).

(* @src buffer.cpp | const char* Buffer::findCRLF(const char* start) *)
Definition findCRLF_from (b : Buffer) (start : Z) : outcome (option Z) :=
  assert_ (peek b <=? start);;
  assert_ (start <=? beginWrite b);;
  crlf ← search_crlf b start (beginWrite b);
  Ok (if crlf =? beginWrite b then None else Some crlf).

(** ** Consuming *)

(* @src buffer.cpp | void Buffer::retrieveAll() *)
Definition retrieveAll (b : Buffer) : Buffer :=
  mkBuffer (buffer_ b) kCheapprepend kCheapprepend.

(* @src buffer.cpp | void Buffer::retrieve(size_t len) *)
Definition retrieve (b : Buffer) (len : Z) : outcome Buffer :=
  assert_ (len <=? readableBytes b);;
  if len <? readableBytes b
  then Ok (mkBuffer (buffer_ b) (u64 (readerIndex_ b + len)) (writeIndex_ b))
  else Ok (retrieveAll b).

(* @src buffer.cpp | void Buffer::retrieveUntil(const char* end) *)
Definition retrieveUntil (b : Buffer) (end_ : Z) : outcome Buffer :=
  assert_ (peek b <=? end_);;
  assert_ (end_ <=? beginWrite b);;
  retrieve b (u64 (end_ - peek b)).

(* @src buffer.cpp | void Buffer::retrieveInt32() *)
Definition retrieveInt32 (b : Buffer) : outcome Buffer := retrieve b 4.
(* @src buffer.cpp | void Buffer::retrieveInt16() *)
Definition retrieveInt16 (b : Buffer) : outcome Buffer := retrieve b 2.
(* @src buffer.cpp | void Buffer::retrieveInt8() *)
Definition retrieveInt8 (b : Buffer) : outcome Buffer := retrieve b 1.

(* @src buffer.cpp | std::string Buffer::retrieveAsString(size_t len) *)
Definition retrieveAsString (b : Buffer) (len : Z) : outcome (chars * Buffer) :=
  assert_ (len <=? readableBytes b);;
  result ← vec_read (buffer_ b) (peek b) len;
  b' ← retrieve b len;
  Ok (result, b').

(* @src buffer.cpp | std::string Buffer::retrieveAllAsString() *)
Definition retrieveAllAsString (b : Buffer) : outcome (chars * Buffer) :=
  retrieveAsString b (readableBytes b).

(** ** Producing *)

(* @src buffer.cpp | void Buffer::hasWritten(size_t len) *)
Definition hasWritten (b : Buffer) (len : Z) : Buffer :=
  mkBuffer (buffer_ b) (readerIndex_ b) (u64 (writeIndex_ b + len)).

(* @src buffer.cpp | void Buffer::makeSpace(size_t len) *)
Definition makeSpace (b : Buffer) (len : Z) : outcome Buffer :=
  if u64 (writeableBytes b + prependableBytes b) <? u64 (len + kCheapprepend) then
    v ← vec_resize (buffer_ b) (u64 (writeIndex_ b + len));
    Ok (mkBuffer v (readerIndex_ b) (writeIndex_ b))
  else
    assert_ (kCheapprepend <? readerIndex_ b);;
    let readable := readableBytes b in
    v ← vec_copy (buffer_ b) (readerIndex_ b) (writeIndex_ b) kCheapprepend;
    let b' := mkBuffer v kCheapprepend (u64 (kCheapprepend + readable)) in
    assert_ (readableBytes b' =? readable);;
    Ok b'.

(* @src buffer.cpp | void Buffer::ensureWriteableBytes(size_t len) *)
Definition ensureWriteableBytes (b : Buffer) (len : Z) : outcome Buffer :=
  b' ← when (writeableBytes b <? len) (fun b => makeSpace b len) b;
  assert_ (len <=? writeableBytes b');;
  Ok b'.

(* @src buffer.cpp | void Buffer::append(const char* data, size_t len) *)
Definition append (b : Buffer) (data : chars) : outcome Buffer :=
  b ← ensureWriteableBytes b (zlen data);
  v ← vec_write (buffer_ b) (beginWrite b) data;
  Ok (hasWritten (mkBuffer v (readerIndex_ b) (writeIndex_ b)) (zlen data)).

(* @src buffer.cpp | void Buffer::prepend(const void* data, size_t len) *)
Definition prepend (b : Buffer) (data : chars) : outcome Buffer :=
  assert_ (zlen data <=? prependableBytes b);;
  let r := u64 (readerIndex_ b - zlen data) in
  v ← vec_write (buffer_ b) r data;
  Ok (mkBuffer v r (writeIndex_ b)).

(* @src buffer.cpp | void Buffer::shrink(size_t reserve) *)
Definition shrink (b : Buffer) (reserve : Z) : outcome Buffer :=
  other ← newBuffer;
  other ← ensureWriteableBytes other (u64 (readableBytes b + reserve));
  '(s, b) ← retrieveAllAsString b;
  other ← append other s;
  let '(b, _) := swap b other in
  Ok b.

(** ** The integer codec

    The host is little-endian: [htonl] and [htons] swap bytes, and copying an integer to memory
    writes its least significant byte first. *)

(** The [n] bytes of [z] in memory order. *)
Fixpoint le_bytes (n : nat) (z : Z) : chars :=
  match n with O => [] | S n' => char_of_code z :: le_bytes n' (z / 256) end.

(** The integer a [memcpy] of these bytes gives. *)
Fixpoint le_value (s : chars) : Z :=
  match s with [] => 0 | c :: s' => char_code c + 256 * le_value s' end.

(** [htonl], [ntohl], [htons], [ntohs]: byte reversal of an n-byte unsigned integer. *)
Definition byteswap (n : nat) (z : Z) : Z := le_value (rev (le_bytes n z)).

(* @src buffer.cpp | void Buffer::appendInt32(int32_t x) *)
Definition appendInt32 (b : Buffer) (x : Z) : outcome Buffer :=
  append b (le_bytes 4 (byteswap 4 (u32 x))).
(* @src buffer.cpp | void Buffer::appendInt16(int16_t x) *)
Definition appendInt16 (b : Buffer) (x : Z) : outcome Buffer :=
  append b (le_bytes 2 (byteswap 2 (u16 x))).
(* @src buffer.cpp | void Buffer::appendInt8(int8_t x) *)
Definition appendInt8 (b : Buffer) (x : Z) : outcome Buffer := append b [char_of_code x].

(* @src buffer.cpp | int32_t Buffer::peekInt32() *)
Definition peekInt32 (b : Buffer) : outcome Z :=
  assert_ (4 <=? readableBytes b);;
  be32 ← vec_read (buffer_ b) (peek b) 4;
  Ok (i32 (byteswap 4 (le_value be32))).
(* @src buffer.cpp | int16_t Buffer::peekInt16() *)
Definition peekInt16 (b : Buffer) : outcome Z :=
  assert_ (2 <=? readableBytes b);;
  be16 ← vec_read (buffer_ b) (peek b) 2;
  Ok (i16 (byteswap 2 (le_value be16))).
(* @src buffer.cpp | int8_t Buffer::peekInt8() *)
Definition peekInt8 (b : Buffer) : outcome Z :=
  assert_ (1 <=? readableBytes b);;
  x ← vec_read (buffer_ b) (peek b) 1;
  Ok (i8 (le_value x)).

(* @src buffer.cpp | int32_t Buffer::readInt32() *)
Definition readInt32 (b : Buffer) : outcome (Z * Buffer) :=
  result ← peekInt32 b; b' ← retrieveInt32 b; Ok (result, b').
(* @src buffer.cpp | int16_t Buffer::readInt16() *)
Definition readInt16 (b : Buffer) : outcome (Z * Buffer) :=
  result ← peekInt16 b; b' ← retrieveInt16 b; Ok (result, b').
(* @src buffer.cpp | int8_t Buffer::readInt_8() *)
Definition readInt_8 (b : Buffer) : outcome (Z * Buffer) :=
  result ← peekInt8 b; b' ← retrieveInt8 b; Ok (result, b').

(* @src buffer.cpp | void Buffer::prependInt32(int32_t x) *)
Definition prependInt32 (b : Buffer) (x : Z) : outcome Buffer :=
  prepend b (le_bytes 4 (byteswap 4 (u32 x))).
(* @src buffer.cpp | void Buffer::prependInt16(int16_t x) *)
Definition prependInt16 (b : Buffer) (x : Z) : outcome Buffer :=
  prepend b (le_bytes 2 (byteswap 2 (u16 x))).
(* @src buffer.cpp | void Buffer::prependInt8(int8_t x) *)
Definition prependInt8 (b : Buffer) (x : Z) : outcome Buffer := prepend b [char_of_code x].

(** ** Reading from a descriptor *)

(** What [readv(2)] gave: an errno, or the bytes received, in order. *)
Inductive readv_result := ReadvError (errno : Z) | ReadvBytes (data : chars).

Definition extrabuff_size : Z := 65536.

(** [readv] on the two blocks fills the writable part of the vector first and the stack block with
    what is left; the value returned is the byte count (or -1), with the saved errno. *)
(* @src buffer.cpp | ssize_t Buffer::readFd(int fd, int* saveErrno) *)
Definition readFd (b : Buffer) (saveErrno : Z) (r : readv_result) : outcome (Z * Z * Buffer) :=
  let writable := writeableBytes b in
  match r with
  | ReadvError errno => Ok (-1, errno, b)
  | ReadvBytes data =>
      let n := zlen data in
      let first := take (Z.to_nat writable) data in
      let extrabuff := drop (Z.to_nat writable) data in
      v ← vec_write (buffer_ b) (writeIndex_ b) first;
      if n <=? writable
      then Ok (n, saveErrno, mkBuffer v (readerIndex_ b) (u64 (writeIndex_ b + n)))
      else
        b' ← append (mkBuffer v (readerIndex_ b) (zlen v)) extrabuff;
        Ok (n, saveErrno, b')
  end.

(** ** Representation *)

(** [rep b pre data post]: the vector is [pre ++ data ++ post], the indices delimit [data], and the
    size is one a vector can have. *)
Definition rep (b : Buffer) (pre data post : chars) : Prop :=
  buffer_ b = pre ++ data ++ post ∧ readerIndex_ b = zlen pre ∧
  writeIndex_ b = zlen pre + zlen data ∧ zlen (pre ++ data ++ post) <= PTRDIFF_MAX.

(** The readable bytes. *)
Definition content (b : Buffer) : chars :=
  take (Z.to_nat (writeIndex_ b - readerIndex_ b)) (drop (Z.to_nat (readerIndex_ b)) (buffer_ b)).

(** The class invariant: [0 <= readerIndex_ <= writeIndex_ <= size()], room for the prefix the
    buffer falls back to when it is emptied, and a representable size. *)
Definition wf (b : Buffer) : Prop :=
  0 <= readerIndex_ b <= writeIndex_ b ∧ writeIndex_ b <= zlen (buffer_ b) <= PTRDIFF_MAX ∧
  kCheapprepend <= zlen (buffer_ b).

Lemma take_zlen {A : Type} (l k : list A) n : n = zlen l → take (Z.to_nat n) (l ++ k) = l.
Proof. intros ->. unfold zlen. rewrite Nat2Z.id. apply take_app_length. Qed.

Lemma drop_zlen {A : Type} (l k : list A) n : n = zlen l → drop (Z.to_nat n) (l ++ k) = k.
Proof. intros ->. unfold zlen. rewrite Nat2Z.id. apply drop_app_length. Qed.

Lemma zlen_take {A : Type} (l : list A) n : 0 <= n <= zlen l → zlen (take (Z.to_nat n) l) = n.
Proof. unfold zlen. intros. rewrite length_take. lia. Qed.

Lemma zlen_drop {A : Type} (l : list A) n : 0 <= n <= zlen l → zlen (drop (Z.to_nat n) l) = zlen l - n.
Proof. unfold zlen. intros. rewrite length_drop. lia. Qed.

Lemma zlen_replicate {A : Type} (x : A) n : zlen (replicate n x) = Z.of_nat n.
Proof. unfold zlen. by rewrite length_replicate. Qed.

Lemma rep_content b pre data post : rep b pre data post → content b = data.
Proof.
  intros (Hb & Hr & Hw & _). unfold content. rewrite Hb, Hr, Hw.
  rewrite (drop_zlen pre) by done. apply take_zlen. lia.
Qed.

Lemma rep_wf b pre data post :
  rep b pre data post → kCheapprepend <= zlen (pre ++ data ++ post) → wf b.
Proof.
  intros (Hb & Hr & Hw & Hs) H8. unfold wf. rewrite Hb, Hr, Hw.
  revert Hs H8. rewrite !zlen_app.
  pose proof (zlen_nonneg pre). pose proof (zlen_nonneg data). pose proof (zlen_nonneg post). lia.
Qed.

Lemma wf_rep b :
  wf b → ∃ pre post, rep b pre (content b) post ∧ kCheapprepend <= zlen (pre ++ content b ++ post).
Proof.
  intros (Hrw & Hws & H8).
  set (r := Z.to_nat (readerIndex_ b)). set (n := Z.to_nat (writeIndex_ b - readerIndex_ b)).
  exists (take r (buffer_ b)), (drop n (drop r (buffer_ b))).
  unfold rep, content. fold r n. rewrite (take_drop n), (take_drop r).
  assert (Hl : zlen (take r (buffer_ b)) = readerIndex_ b) by (apply zlen_take; lia).
  assert (Hd : zlen (take n (drop r (buffer_ b))) = writeIndex_ b - readerIndex_ b).
  { apply zlen_take. unfold r. rewrite zlen_drop; lia. }
  rewrite Hl, Hd. split_and!; [done|done|lia|lia|lia].
Qed.

(** Bounds a representation gives to every index computation: what makes the wrap-around harmless. *)
Ltac rep_bounds :=
  repeat match goal with
  | H : rep _ _ _ _ |- _ => destruct H as (? & ? & ? & ?)
  end;
  unfold PTRDIFF_MAX in *;
  repeat match goal with
  | H : context [zlen (_ ++ _)] |- _ => rewrite zlen_app in H
  end;
  repeat match goal with
  | |- context [zlen (_ ++ _)] => rewrite zlen_app
  end;
  repeat match goal with
  | x : chars |- _ => lazymatch goal with H : 0 <= zlen x |- _ => fail | _ => pose proof (zlen_nonneg x) end
  end.

Lemma rep_readable b pre data post : rep b pre data post → readableBytes b = zlen data.
Proof. intros H. rep_bounds. unfold readableBytes. rewrite u64_small; lia. Qed.

Lemma rep_writeable b pre data post : rep b pre data post → writeableBytes b = zlen post.
Proof. intros H. unfold writeableBytes. destruct H as (-> & Hr & -> & Hs). rep_bounds. rewrite u64_small; lia. Qed.

Lemma rep_prependable b pre data post : rep b pre data post → prependableBytes b = zlen pre.
Proof. by intros (_ & ? & _). Qed.

(** ** Lemmas on the vector *)

Lemma vec_read_mid pre data post : vec_read (pre ++ data ++ post) (zlen pre) (zlen data) = Ok data.
Proof.
  unfold vec_read. rewrite (drop_zlen pre), take_zlen by done.
  pose proof (zlen_nonneg pre); pose proof (zlen_nonneg data); pose proof (zlen_nonneg post).
  rewrite !zlen_app, !(proj2 (Z.leb_le _ _)) by lia. done.
Qed.

Lemma vec_write_mid pre old new post :
  zlen old = zlen new → vec_write (pre ++ old ++ post) (zlen pre) new = Ok (pre ++ new ++ post).
Proof.
  intros E. unfold vec_write.
  pose proof (zlen_nonneg pre); pose proof (zlen_nonneg new); pose proof (zlen_nonneg post).
  rewrite !zlen_app, !(proj2 (Z.leb_le _ _)) by lia. cbn.
  rewrite (take_zlen pre) by done. rewrite (app_assoc pre old), drop_zlen by (rewrite zlen_app; lia). done.
Qed.

Lemma split_at {A : Type} (l : list A) (n : Z) :
  0 <= n <= zlen l → ∃ a b, l = a ++ b ∧ zlen a = n ∧ zlen b = zlen l - n.
Proof.
  intros H. exists (take (Z.to_nat n) l), (drop (Z.to_nat n) l).
  rewrite take_drop, zlen_take, zlen_drop by lia. done.
Qed.

(** Compaction: copying the readable bytes down to [dest] in front of them. *)
Lemma vec_copy_down pre data post dest :
  0 <= dest < zlen pre →
  ∃ pre' post', vec_copy (pre ++ data ++ post) (zlen pre) (zlen pre + zlen data) dest
                  = Ok (pre' ++ data ++ post') ∧ zlen pre' = dest ∧
                zlen post' = zlen pre - dest + zlen post.
Proof.
  intros Hd. unfold vec_copy. rewrite (proj2 (Z.leb_gt _ _)) by lia. cbn.
  replace (zlen pre + zlen data - zlen pre) with (zlen data) by lia.
  rewrite vec_read_mid. cbn.
  destruct (split_at (pre ++ data) dest) as (p1 & rest & E1 & L1 & L1').
  { rewrite zlen_app. pose proof (zlen_nonneg data). lia. }
  rewrite zlen_app in L1'.
  destruct (split_at rest (zlen data)) as (old & p2 & E2 & L2 & L2').
  { pose proof (zlen_nonneg data). lia. }
  exists p1, (p2 ++ post).
  assert (EE : pre ++ data ++ post = p1 ++ old ++ (p2 ++ post)).
  { rewrite app_assoc, E1, E2. by rewrite !app_assoc. }
  rewrite EE, <-L1, vec_write_mid by done. rewrite zlen_app. split_and!; [done|done|lia].
Qed.

(** ** Every operation on a represented buffer *)

Lemma newBuffer_rep :
  ∃ b pre post, newBuffer = Ok b ∧ rep b pre [] post ∧ zlen pre = kCheapprepend ∧ zlen post = kInitialSize.
Proof.
  eexists _, (replicate 8 "000"%char), (replicate 1024 "000"%char).
  split; [vm_compute; reflexivity|]. split; [|done].
  unfold rep. cbn [buffer_ readerIndex_ writeIndex_].
  split_and!; [vm_compute; reflexivity|done|done|by vm_compute].
Qed.

Lemma retrieveAll_rep b pre data post :
  rep b pre data post → kCheapprepend <= zlen (pre ++ data ++ post) →
  ∃ pre' post', rep (retrieveAll b) pre' [] post' ∧ zlen pre' = kCheapprepend.
Proof.
  intros (Hb & Hr & Hw & Hs) H8.
  destruct (split_at (pre ++ data ++ post) kCheapprepend) as (p & q & E & Lp & Lq).
  { unfold kCheapprepend in *. lia. }
  exists p, q. unfold rep, retrieveAll. cbn [buffer_ readerIndex_ writeIndex_ app]. rewrite Hb, E, Lp. rewrite E in Hs.
  rewrite zlen_nil. split_and!; [done|done|lia|done|done].
Qed.

Lemma retrieve_rep b pre d1 d2 post :
  rep b pre (d1 ++ d2) post → kCheapprepend <= zlen (pre ++ (d1 ++ d2) ++ post) →
  ∃ b' pre' post', retrieve b (zlen d1) = Ok b' ∧ rep b' pre' d2 post' ∧
    zlen (pre' ++ d2 ++ post') = zlen (pre ++ (d1 ++ d2) ++ post).
Proof.
  intros H H8. pose proof (rep_readable _ _ _ _ H) as Hread. unfold retrieve. rewrite Hread.
  rewrite zlen_app. pose proof (zlen_nonneg d1); pose proof (zlen_nonneg d2).
  rewrite (proj2 (Z.leb_le _ _)) by lia. cbn [assert_ mbind outcome_bind].
  destruct (zlen d1 <? zlen d1 + zlen d2) eqn:E; bool_prop.
  - eexists _, (pre ++ d1), post. split; [done|]. destruct H as (Hb & Hr & Hw & Hs).
    rewrite !zlen_app in *. split; [|lia].
    unfold rep; cbn. rewrite Hb, Hr, Hw. rewrite <-!app_assoc in *. rewrite !zlen_app in *.
    unfold PTRDIFF_MAX in *. pose proof (zlen_nonneg pre); pose proof (zlen_nonneg post).
    rewrite u64_small by lia. split_and!; [done|lia..].
  - assert (d2 = []) as -> by (apply zlen_0; lia).
    destruct (retrieveAll_rep b pre (d1 ++ []) post H H8) as (p & q & H' & _).
    exists (retrieveAll b), p, q. split_and!; [done|done|].
    destruct H as (Hb & _), H' as (Hb' & _). cbn in Hb'. rewrite Hb in Hb'. by rewrite Hb'.
Qed.

Lemma retrieve_too_much b pre data post len :
  rep b pre data post → zlen data < len → retrieve b len = Fault AssertFail.
Proof.
  intros H Hlt. unfold retrieve. rewrite (rep_readable _ _ _ _ H).
  by rewrite (proj2 (Z.leb_gt _ _)) by lia.
Qed.

Lemma vec_resize_grow v n :
  zlen v <= n <= PTRDIFF_MAX → ∃ z, vec_resize v n = Ok (v ++ z) ∧ zlen z = n - zlen v.
Proof.
  intros H. unfold vec_resize. rewrite (proj2 (Z.ltb_ge _ _)) by lia.
  exists (replicate (Z.to_nat n - length v) "000"%char). unfold zlen in *.
  rewrite length_replicate. rewrite take_ge by lia. split; [done|lia].
Qed.

Lemma makeSpace_rep b pre data post len :
  rep b pre data post → zlen post < len →
  writeIndex_ b + len <= PTRDIFF_MAX ∨ len + kCheapprepend <= zlen post + zlen pre →
  ∃ b' pre' post', makeSpace b len = Ok b' ∧ rep b' pre' data post' ∧ len <= zlen post' ∧
    zlen (pre' ++ data ++ post') =
      (if zlen post + zlen pre <? len + kCheapprepend then writeIndex_ b + len
       else zlen (pre ++ data ++ post)).
Proof.
  intros H Hpost Hlen. unfold makeSpace.
  rewrite (rep_writeable _ _ _ _ H), (rep_prependable _ _ _ _ H).
  pose proof (rep_readable _ _ _ _ H) as Hread. destruct H as (Hb & Hr & Hw & Hs).
  rewrite !zlen_app in *. unfold PTRDIFF_MAX, kCheapprepend in *.
  pose proof (zlen_nonneg pre); pose proof (zlen_nonneg post); pose proof (zlen_nonneg data).
  rewrite !u64_small by lia.
  destruct (zlen post + zlen pre <? len + 8) eqn:E; bool_prop.
  - destruct (vec_resize_grow (buffer_ b) (writeIndex_ b + len)) as (z & Ez & Lz).
    { rewrite Hb, !zlen_app. unfold PTRDIFF_MAX. lia. }
    rewrite Ez. cbn. eexists _, pre, (post ++ z). split; [done|].
    rewrite Hb, !zlen_app in Lz. unfold rep; cbn [buffer_ readerIndex_ writeIndex_]. rewrite Hb, !zlen_app.
    unfold PTRDIFF_MAX. rewrite <-!app_assoc. split_and!; [done|lia..].
  - rewrite (proj2 (Z.ltb_lt _ _)) by lia. cbn [assert_ mbind outcome_bind].
    rewrite Hb, Hr, Hw, Hread.
    destruct (vec_copy_down pre data post 8) as (p & q & Ec & Lp & Lq); [lia|].
    rewrite Ec. cbn [mbind outcome_bind]. unfold readableBytes. cbn [readerIndex_ writeIndex_].
    rewrite !u64_small by lia. replace (8 + zlen data - 8) with (zlen data) by lia.
    rewrite Z.eqb_refl. cbn. eexists _, p, q. split; [done|].
    unfold rep; cbn [buffer_ readerIndex_ writeIndex_]. rewrite !zlen_app, Lp.
    unfold PTRDIFF_MAX. split_and!; [done|lia..].
Qed.

Lemma ensure_rep b pre data post len :
  rep b pre data post → writeIndex_ b + len <= PTRDIFF_MAX ∨ len + kCheapprepend <= zlen post + zlen pre →
  ∃ b' pre' post', ensureWriteableBytes b len = Ok b' ∧ rep b' pre' data post' ∧ len <= zlen post' ∧
    zlen (pre ++ data ++ post) <= zlen (pre' ++ data ++ post').
Proof.
  intros H Hlen. unfold ensureWriteableBytes, when.
  rewrite (rep_writeable _ _ _ _ H).
  destruct (zlen post <? len) eqn:E; bool_prop.
  - destruct (makeSpace_rep b pre data post len H) as (b' & p & q & Em & H' & Hq & Hz); [lia|done|].
    rewrite Em. cbn. rewrite (rep_writeable _ _ _ _ H'), (proj2 (Z.leb_le _ _)) by lia.
    exists b', p, q. split_and!; [done..|].
    destruct (_ <? _) eqn:E' in Hz; bool_prop; [|lia]. rewrite Hz.
    destruct H as (_ & _ & -> & _). rewrite !zlen_app. lia.
  - cbn. rewrite (rep_writeable _ _ _ _ H), (proj2 (Z.leb_le _ _)) by lia.
    exists b, pre, post. split_and!; [done..|lia].
Qed.

Lemma append_rep b pre data post new :
  rep b pre data post → writeIndex_ b + zlen new <= PTRDIFF_MAX ∨ zlen new + kCheapprepend <= zlen post + zlen pre →
  ∃ b' pre' post', append b new = Ok b' ∧ rep b' pre' (data ++ new) post' ∧
    zlen (pre ++ data ++ post) <= zlen (pre' ++ (data ++ new) ++ post').
Proof.
  intros H Hlen. unfold append.
  destruct (ensure_rep b pre data post (zlen new) H Hlen) as (b1 & p & q & -> & H1 & Hq & Hz).
  cbn [mbind outcome_bind]. destruct (split_at q (zlen new)) as (old & q' & -> & Lo & Lq).
  { pose proof (zlen_nonneg new). lia. }
  destruct H1 as (Hb & Hr & Hw & Hs). unfold beginWrite. rewrite Hb, Hw.
  replace (zlen p + zlen data) with (zlen (p ++ data)) by apply zlen_app.
  rewrite (app_assoc p data), vec_write_mid by done. cbn [mbind outcome_bind].
  unfold hasWritten. cbn [buffer_ readerIndex_ writeIndex_]. rewrite !zlen_app in *.
  unfold PTRDIFF_MAX in *. pose proof (zlen_nonneg p); pose proof (zlen_nonneg data);
  pose proof (zlen_nonneg new); pose proof (zlen_nonneg q').
  rewrite u64_small by lia. eexists _, p, q'. split; [done|].
  unfold rep; cbn [buffer_ readerIndex_ writeIndex_]. rewrite <-!app_assoc, !zlen_app.
  unfold PTRDIFF_MAX. split_and!; [done|lia..].
Qed.

Lemma prepend_rep b pre data post new :
  rep b pre data post → zlen new <= zlen pre →
  ∃ b' pre', prepend b new = Ok b' ∧ rep b' pre' (new ++ data) post ∧
    zlen (pre' ++ (new ++ data) ++ post) = zlen (pre ++ data ++ post).
Proof.
  intros H Hlen. unfold prepend. rewrite (rep_prependable _ _ _ _ H).
  rewrite (proj2 (Z.leb_le _ _)) by lia. cbn [assert_ mbind outcome_bind].
  destruct H as (Hb & Hr & Hw & Hs). pose proof (zlen_nonneg new).
  destruct (split_at pre (zlen pre - zlen new)) as (p & old & -> & Lp & Lo); [lia|].
  rewrite !zlen_app in *. unfold PTRDIFF_MAX in *.
  pose proof (zlen_nonneg p); pose proof (zlen_nonneg data); pose proof (zlen_nonneg post).
  rewrite Hr, u64_small by lia. replace (zlen p + zlen old - zlen new) with (zlen p) by lia.
  rewrite Hb, <-app_assoc, vec_write_mid by lia. cbn [mbind outcome_bind].
  eexists _, p. split; [done|]. unfold rep; cbn [buffer_ readerIndex_ writeIndex_].
  rewrite Hw, <-!app_assoc, !zlen_app. unfold PTRDIFF_MAX. split_and!; [done|lia..].
Qed.

Lemma readFd_rep b pre data post e new :
  rep b pre data post → zlen new <= writeableBytes b + extrabuff_size →
  zlen new <= writeableBytes b ∨ zlen (pre ++ data ++ post) + extrabuff_size <= PTRDIFF_MAX →
  ∃ b' pre' post', readFd b e (ReadvBytes new) = Ok (zlen new, e, b') ∧
    rep b' pre' (data ++ new) post' ∧
    zlen (pre ++ data ++ post) <= zlen (pre' ++ (data ++ new) ++ post').
Proof.
  intros H Hn Hmax. unfold readFd. rewrite (rep_writeable _ _ _ _ H) in *.
  pose proof (zlen_nonneg pre); pose proof (zlen_nonneg data); pose proof (zlen_nonneg new); pose proof (zlen_nonneg post).
  destruct H as (Hb & Hr & Hw & Hs).
  destruct (zlen new <=? zlen post) eqn:E; bool_prop.
  - rewrite (take_ge new) by (unfold zlen in *; lia).
    destruct (split_at post (zlen new)) as (old & q & -> & Lo & Lq); [lia|].
    rewrite Hb, Hw, <-zlen_app, (app_assoc pre data), vec_write_mid by done.
    cbn [mbind outcome_bind]. unfold PTRDIFF_MAX in *. rewrite !zlen_app in *. rewrite u64_small by lia.
    eexists _, pre, q. split; [done|]. unfold rep; cbn [buffer_ readerIndex_ writeIndex_].
    rewrite <-!app_assoc, !zlen_app. unfold PTRDIFF_MAX. split_and!; [done|lia..].
  - destruct (split_at new (zlen post)) as (n1 & n2 & -> & L1 & L2); [lia|].
    rewrite (take_zlen n1), (drop_zlen n1) by lia.
    pose proof (vec_write_mid (pre ++ data) post n1 [] ltac:(lia)) as Ew.
    rewrite !app_nil_r, zlen_app in Ew. rewrite Hb, Hw, (app_assoc pre data), Ew. cbn [mbind outcome_bind].
    assert (Hrep1 : rep (mkBuffer ((pre ++ data) ++ n1) (readerIndex_ b) (zlen ((pre ++ data) ++ n1)))
                   pre (data ++ n1) []).
    { unfold rep; cbn [buffer_ readerIndex_ writeIndex_]. rewrite !app_nil_r, <-!app_assoc, !zlen_app in *.
      unfold PTRDIFF_MAX in *. split_and!; [done|lia..]. }
    destruct (append_rep _ _ _ _ n2 Hrep1) as (b' & p & q & -> & H' & Hz).
    { cbn [writeIndex_]. unfold extrabuff_size, PTRDIFF_MAX in *. rewrite !zlen_app in *. lia. }
    cbn. rewrite <-app_assoc in H'. exists b', p, q. split_and!; [done..|].
    rewrite !zlen_app, zlen_nil in *. lia.
Qed.

(** ** The codec *)

Lemma length_le_bytes n z : length (le_bytes n z) = n.
Proof. revert z; induction n as [|n IH]; intros z; cbn; [done|by rewrite IH]. Qed.

Lemma le_value_range s : 0 <= le_value s < 256 ^ zlen s.
Proof.
  induction s as [|c s IH]; [done|]. rewrite zlen_cons. cbn [le_value].
  rewrite Z.pow_add_r by (auto with moban; lia). pose proof (char_code_range c). lia.
Qed.

Lemma le_value_bytes n z : le_value (le_bytes n z) = z mod 256 ^ Z.of_nat n.
Proof.
  revert z; induction n as [|n IH]; intros z; cbn [le_bytes le_value]; [by rewrite Z.mod_1_r|].
  rewrite IH, char_code_of_code, Nat2Z.inj_succ, Z.pow_succ_r by lia.
  rewrite (Z.rem_mul_r z 256) by lia. done.
Qed.

Lemma le_bytes_value s : le_bytes (length s) (le_value s) = s.
Proof.
  induction s as [|c s IH]; [done|]. cbn [length le_bytes le_value].
  pose proof (char_code_range c). f_equal.
  - apply char_code_inj. rewrite char_code_of_code, Z.mul_comm, Z.mod_add by lia. by apply Z.mod_small.
  - by rewrite Z.mul_comm, Z.div_add, Z.div_small by lia.
Qed.

(** What [htonl] followed by a copy to memory writes: the bytes most significant first. *)
Lemma le_bytes_byteswap n z : le_bytes n (byteswap n z) = rev (le_bytes n z).
Proof.
  unfold byteswap. rewrite <-(length_le_bytes n z) at 1. rewrite <-length_rev. apply le_bytes_value.
Qed.

Lemma byteswap_value n s : length s = n → byteswap n (le_value s) = le_value (rev s).
Proof. intros <-. unfold byteswap. by rewrite le_bytes_value. Qed.

(** ** The specification: a byte queue *)

(** The bytes of an [n]-byte integer, most significant first, and back. *)
Definition be_bytes (n : nat) (z : Z) : chars := rev (le_bytes n z).
Definition be_value (s : chars) : Z := le_value (rev s).

Lemma be_value_bytes n z : be_value (be_bytes n z) = z mod 256 ^ Z.of_nat n.
Proof. unfold be_value, be_bytes. by rewrite rev_involutive, le_value_bytes. Qed.

Inductive buf_op :=
| OAppend (d : chars) | OPrepend (d : chars) | OEnsure (n : Z) | OShrink (n : Z)
| ORetrieve (n : Z) | ORetrieveAll | ORetrieveAsString (n : Z) | ORetrieveAllAsString
| OAppendInt32 (x : Z) | OAppendInt16 (x : Z) | OAppendInt8 (x : Z)
| OPrependInt32 (x : Z) | OPrependInt16 (x : Z) | OPrependInt8 (x : Z)
| OReadInt32 | OReadInt16 | OReadInt8 | OReadFd (d : chars).

Inductive buf_res := RUnit | RString (s : chars) | RInt (z : Z).

(** What each operation does to the queue of readable bytes; [None]: more is consumed than there is. *)
Definition queue_op (c : chars) (o : buf_op) : option (buf_res * chars) :=
  let consume n f := if zlen c <? n then None
                     else Some (f (take (Z.to_nat n) c), drop (Z.to_nat n) c) in
  match o with
  | OAppend d | OReadFd d => Some (RUnit, c ++ d)
  | OPrepend d => Some (RUnit, d ++ c)
  | OEnsure _ | OShrink _ => Some (RUnit, c)
  | ORetrieve n => consume n (fun _ => RUnit)
  | ORetrieveAll => Some (RUnit, [])
  | ORetrieveAsString n => consume n RString
  | ORetrieveAllAsString => Some (RString c, [])
  | OAppendInt32 x => Some (RUnit, c ++ be_bytes 4 x)
  | OAppendInt16 x => Some (RUnit, c ++ be_bytes 2 x)
  | OAppendInt8 x => Some (RUnit, c ++ be_bytes 1 x)
  | OPrependInt32 x => Some (RUnit, be_bytes 4 x ++ c)
  | OPrependInt16 x => Some (RUnit, be_bytes 2 x ++ c)
  | OPrependInt8 x => Some (RUnit, be_bytes 1 x ++ c)
  | OReadInt32 => consume 4 (fun s => RInt (i32 (be_value s)))
  | OReadInt16 => consume 2 (fun s => RInt (i16 (be_value s)))
  | OReadInt8 => consume 1 (fun s => RInt (i8 (be_value s)))
  end.

(** The same operations on the buffer. *)
Definition run_op (b : Buffer) (o : buf_op) : outcome (buf_res * Buffer) :=
  let unit (m : outcome Buffer) := b' ← m; Ok (RUnit, b') in
  let int (m : outcome (Z * Buffer)) := '(z, b') ← m; Ok (RInt z, b') in
  let str (m : outcome (chars * Buffer)) := '(s, b') ← m; Ok (RString s, b') in
  match o with
  | OAppend d => unit (append b d) | OPrepend d => unit (prepend b d)
  | OEnsure n => unit (ensureWriteableBytes b n) | OShrink n => unit (shrink b n)
  | ORetrieve n => unit (retrieve b n) | ORetrieveAll => Ok (RUnit, retrieveAll b)
  | ORetrieveAsString n => str (retrieveAsString b n)
  | ORetrieveAllAsString => str (retrieveAllAsString b)
  | OAppendInt32 x => unit (appendInt32 b x) | OAppendInt16 x => unit (appendInt16 b x)
  | OAppendInt8 x => unit (appendInt8 b x)
  | OPrependInt32 x => unit (prependInt32 b x) | OPrependInt16 x => unit (prependInt16 b x)
  | OPrependInt8 x => unit (prependInt8 b x)
  | OReadInt32 => int (readInt32 b) | OReadInt16 => int (readInt16 b) | OReadInt8 => int (readInt_8 b)
  | OReadFd d => '(_, _, b') ← readFd b 0 (ReadvBytes d); Ok (RUnit, b')
  end.

(** When an operation is within the sizes a vector can have: the caller's obligation. A prepend must
    fit the free prefix, [readv] delivers at most what its two blocks hold. *)
Definition fits (b : Buffer) (o : buf_op) : Prop :=
  let grow n := 0 <= n ∧ writeIndex_ b + n <= PTRDIFF_MAX in
  match o with
  | OAppend d => grow (zlen d) | OEnsure n => grow n
  | OShrink n => 0 <= n ∧ kCheapprepend + readableBytes b + n <= PTRDIFF_MAX
  | OAppendInt32 _ => grow 4 | OAppendInt16 _ => grow 2 | OAppendInt8 _ => grow 1
  | OPrepend d => zlen d <= prependableBytes b
  | OPrependInt32 _ => 4 <= prependableBytes b | OPrependInt16 _ => 2 <= prependableBytes b
  | OPrependInt8 _ => 1 <= prependableBytes b
  | ORetrieve n | ORetrieveAsString n => 0 <= n
  | OReadFd d => zlen d <= writeableBytes b + extrabuff_size ∧
                 zlen (buffer_ b) + extrabuff_size <= PTRDIFF_MAX
  | _ => True
  end.

(** ** The operations against the invariant: the lemmas other components use *)

Lemma readable_content b : wf b → readableBytes b = zlen (content b).
Proof. intros (p & q & H & _)%wf_rep. by apply rep_readable in H. Qed.

Lemma newBuffer_ok : ∃ b, newBuffer = Ok b ∧ wf b ∧ content b = [].
Proof.
  destruct newBuffer_rep as (b & p & q & E & H & Lp & Lq). exists b.
  split_and!; [done| |by eapply rep_content].
  eapply rep_wf; [done|]. rewrite !zlen_app, Lp, Lq. done.
Qed.

Lemma append_ok b d :
  wf b → writeIndex_ b + zlen d <= PTRDIFF_MAX →
  ∃ b', append b d = Ok b' ∧ wf b' ∧ content b' = content b ++ d.
Proof.
  intros (p & q & H & H8)%wf_rep Hd.
  destruct (append_rep b p _ q d H (or_introl Hd)) as (b' & p' & q' & E & H' & Hz).
  exists b'. split_and!; [done| |by eapply rep_content].
  eapply rep_wf; [done|lia].
Qed.

(** [append] of any data: it works, or the vector cannot grow that far. *)
Lemma append_total b d :
  wf b → zlen d <= PTRDIFF_MAX →
  append b d = Fault (Throw LengthError) ∨ ∃ b', append b d = Ok b' ∧ wf b' ∧ content b' = content b ++ d.
Proof.
  intros (p & q & H & H8)%wf_rep Hd.
  destruct (decide (writeIndex_ b + zlen d <= PTRDIFF_MAX ∨ zlen d + kCheapprepend <= zlen q + zlen p)) as [Hf|Hf].
  - right. destruct (append_rep b p _ q d H Hf) as (b' & p' & q' & E & H' & Hz).
    exists b'. split_and!; [done| |by eapply rep_content]. eapply rep_wf; [done|lia].
  - left. unfold append, ensureWriteableBytes, when. rewrite (rep_writeable _ _ _ _ H).
    pose proof H as (Hb & Hr & Hw & Hs). rewrite !zlen_app in Hs. pose proof (zlen_nonneg p). pose proof (zlen_nonneg q).
    pose proof (zlen_nonneg (content b)). unfold PTRDIFF_MAX, kCheapprepend in *.
    rewrite (proj2 (Z.ltb_lt _ _)) by lia. unfold makeSpace.
    rewrite (rep_writeable _ _ _ _ H), (rep_prependable _ _ _ _ H). unfold kCheapprepend.
    rewrite !u64_small by lia. rewrite (proj2 (Z.ltb_lt _ _)) by lia. unfold vec_resize, PTRDIFF_MAX.
    by rewrite (proj2 (Z.ltb_lt _ _)) by lia.
Qed.

Lemma prepend_ok b d :
  wf b → zlen d <= prependableBytes b →
  ∃ b', prepend b d = Ok b' ∧ wf b' ∧ content b' = d ++ content b.
Proof.
  intros (p & q & H & H8)%wf_rep Hd. rewrite (rep_prependable _ _ _ _ H) in Hd.
  destruct (prepend_rep b p _ q d H Hd) as (b' & p' & E & H' & Hz).
  exists b'. split_and!; [done| |by eapply rep_content].
  eapply rep_wf; [done|lia].
Qed.

Lemma ensure_ok b n :
  wf b → writeIndex_ b + n <= PTRDIFF_MAX →
  ∃ b', ensureWriteableBytes b n = Ok b' ∧ wf b' ∧ content b' = content b ∧ n <= writeableBytes b'.
Proof.
  intros (p & q & H & H8)%wf_rep Hn.
  destruct (ensure_rep b p _ q n H (or_introl Hn)) as (b' & p' & q' & E & H' & Hq & Hz).
  exists b'. split_and!; [done| |by eapply rep_content|by rewrite (rep_writeable _ _ _ _ H')].
  eapply rep_wf; [done|lia].
Qed.

Lemma retrieve_ok b n :
  wf b → 0 <= n <= zlen (content b) →
  ∃ b', retrieve b n = Ok b' ∧ wf b' ∧ content b' = drop (Z.to_nat n) (content b).
Proof.
  intros (p & q & H & H8)%wf_rep Hn.
  destruct (split_at (content b) n Hn) as (d1 & d2 & E & L1 & L2). rewrite E in H, H8.
  destruct (retrieve_rep b p d1 d2 q H H8) as (b' & p' & q' & Er & H' & Hz).
  rewrite L1 in Er. exists b'. split_and!; [done| |].
  - eapply rep_wf; [done|lia].
  - rewrite E, (drop_zlen d1) by done. by eapply rep_content.
Qed.

Lemma retrieveAll_ok b : wf b → wf (retrieveAll b) ∧ content (retrieveAll b) = [].
Proof.
  intros (p & q & H & H8)%wf_rep.
  destruct (retrieveAll_rep b p _ q H H8) as (p' & q' & H' & L').
  split; [|by eapply rep_content]. eapply rep_wf; [done|].
  rewrite zlen_app, L'. pose proof (zlen_nonneg ([] ++ q')). lia.
Qed.

Lemma retrieve_fault b n : wf b → zlen (content b) < n → retrieve b n = Fault AssertFail.
Proof. intros (p & q & H & _)%wf_rep Hn. by eapply retrieve_too_much. Qed.

(** Reading a prefix of the readable bytes in place. *)
Lemma read_content b n :
  wf b → 0 <= n <= zlen (content b) →
  vec_read (buffer_ b) (peek b) n = Ok (take (Z.to_nat n) (content b)).
Proof.
  intros (p & q & H & _)%wf_rep Hn.
  destruct (split_at (content b) n Hn) as (d1 & d2 & E & L1 & L2).
  rewrite E in *. destruct H as (Hb & Hr & _). unfold peek. rewrite Hb, Hr, <-L1, <-!app_assoc, vec_read_mid.
  by rewrite (take_zlen d1).
Qed.

Lemma retrieveAsString_ok b n :
  wf b → 0 <= n <= zlen (content b) →
  ∃ b', retrieveAsString b n = Ok (take (Z.to_nat n) (content b), b') ∧ wf b' ∧
    content b' = drop (Z.to_nat n) (content b).
Proof.
  intros Hwf Hn. unfold retrieveAsString.
  rewrite (readable_content b Hwf), (proj2 (Z.leb_le _ _)), (read_content b n Hwf Hn) by lia. cbn [assert_ mbind outcome_bind].
  destruct (retrieve_ok b n Hwf Hn) as (b' & -> & ? & ?). eauto.
Qed.

Lemma retrieveAllAsString_ok b :
  wf b → ∃ b', retrieveAllAsString b = Ok (content b, b') ∧ wf b' ∧ content b' = [].
Proof.
  intros Hwf. unfold retrieveAllAsString. rewrite (readable_content b Hwf).
  pose proof (zlen_nonneg (content b)).
  destruct (retrieveAsString_ok b (zlen (content b)) Hwf) as (b' & -> & ? & Hc); [lia|].
  unfold zlen in *. rewrite Nat2Z.id in *. rewrite firstn_all. rewrite drop_all in Hc. eauto.
Qed.

Lemma shrink_ok b n :
  wf b → 0 <= n → kCheapprepend + readableBytes b + n <= PTRDIFF_MAX →
  ∃ b', shrink b n = Ok b' ∧ wf b' ∧ content b' = content b.
Proof.
  intros Hwf Hn Hfit. unfold shrink. rewrite (readable_content b Hwf) in *.
  pose proof (zlen_nonneg (content b)) as Hc.
  destruct newBuffer_rep as (o & p & q & Eo & Ho & Lp & Lq). rewrite Eo. cbn [mbind outcome_bind].
  unfold PTRDIFF_MAX, kCheapprepend in *. rewrite u64_small by lia.
  destruct (ensure_rep o p [] q (zlen (content b) + n) Ho) as (o1 & p1 & q1 & E1 & Ho1 & Hq1 & Hz1).
  { destruct Ho as (_ & _ & -> & _). rewrite zlen_nil. unfold PTRDIFF_MAX. lia. }
  rewrite E1. cbn [mbind outcome_bind].
  destruct (retrieveAllAsString_ok b Hwf) as (b1 & -> & _ & _). cbn [mbind outcome_bind].
  destruct (append_rep o1 p1 [] q1 (content b) Ho1) as (o2 & p2 & q2 & -> & Ho2 & Hz2).
  { destruct Ho1 as (_ & _ & -> & Hs). rewrite !zlen_app, zlen_nil in *. unfold PTRDIFF_MAX in *. lia. }
  cbn. eexists. split; [done|].
  assert (Ho2' : rep (mkBuffer (buffer_ o2) (readerIndex_ o2) (writeIndex_ o2)) p2 (content b) q2)
    by exact Ho2.
  split; [|by eapply rep_content]. eapply rep_wf; [exact Ho2'|].
  cbn [app] in Hz2. rewrite !zlen_app, !zlen_nil in *. unfold kCheapprepend, kInitialSize in *. lia.
Qed.

Lemma readFd_ok b e d :
  wf b → zlen d <= writeableBytes b + extrabuff_size → zlen (buffer_ b) + extrabuff_size <= PTRDIFF_MAX →
  ∃ b', readFd b e (ReadvBytes d) = Ok (zlen d, e, b') ∧ wf b' ∧ content b' = content b ++ d.
Proof.
  intros (p & q & H & H8)%wf_rep Hd Hs.
  destruct (readFd_rep b p _ q e d H Hd) as (b' & p' & q' & E & H' & Hz).
  { right. by destruct H as (<- & _). }
  exists b'. split_and!; [done| |by eapply rep_content]. eapply rep_wf; [done|lia].
Qed.

(** Reading an [n]-byte integer from the front. *)
(** [readFd] of any bytes [readv] can deliver: it works, or the vector cannot grow that far. *)
Lemma readFd_total b e d :
  wf b → zlen d <= writeableBytes b + extrabuff_size →
  readFd b e (ReadvBytes d) = Fault (Throw LengthError) ∨
  ∃ b', readFd b e (ReadvBytes d) = Ok (zlen d, e, b') ∧ wf b' ∧ content b' = content b ++ d.
Proof.
  intros Hwf Hd. pose proof Hwf as (p & q & H & H8)%wf_rep.
  destruct (decide (zlen d <= writeableBytes b)) as [Hs|Hs].
  { right. destruct (readFd_rep b p _ q e d H Hd (or_introl Hs)) as (b' & p' & q' & E & H' & Hz).
    exists b'. split_and!; [done| |by eapply rep_content]. eapply rep_wf; [done|lia]. }
  unfold readFd. rewrite (proj2 (Z.leb_gt _ _)) by lia. rewrite (rep_writeable _ _ _ _ H) in *.
  pose proof H as (Hb & Hr & Hw & Hmax). pose proof (zlen_nonneg q). pose proof (zlen_nonneg d).
  destruct (split_at d (zlen q)) as (n1 & n2 & -> & L1 & L2); [lia|].
  rewrite (take_zlen n1), (drop_zlen n1) by lia.
  pose proof (vec_write_mid (p ++ content b) q n1 [] ltac:(lia)) as Ew.
  rewrite !app_nil_r, zlen_app in Ew. rewrite Hb, Hw, (app_assoc p), Ew. cbn [mbind outcome_bind].
  set (b1 := mkBuffer ((p ++ content b) ++ n1) _ _).
  assert (Hrep1 : rep b1 p (content b ++ n1) []).
  { unfold rep, b1; cbn [buffer_ readerIndex_ writeIndex_]. rewrite !app_nil_r, <-!app_assoc, !zlen_app in *.
    split_and!; [done|lia..]. }
  destruct (append_total b1 n2) as [->|(b' & -> & Hb' & Hc')]; [|rewrite zlen_app in Hd; unfold extrabuff_size, PTRDIFF_MAX in *; lia|by left|].
  { eapply rep_wf; [exact Hrep1|]. rewrite !zlen_app, zlen_nil in *. unfold kCheapprepend in *. lia. }
  right. exists b'. cbn. split_and!; [done|done|]. by rewrite Hc', (rep_content _ _ _ _ Hrep1), app_assoc.
Qed.

Lemma read_front b n :
  wf b → Z.of_nat n <= zlen (content b) →
  vec_read (buffer_ b) (peek b) (Z.of_nat n) = Ok (take n (content b)) ∧
  byteswap n (le_value (take n (content b))) = be_value (take n (content b)).
Proof.
  intros Hwf Hn. rewrite (read_content b _ Hwf) by lia. rewrite Nat2Z.id. split; [done|].
  apply byteswap_value. rewrite length_take. unfold zlen in Hn. lia.
Qed.

(** Writing an integer's low bytes does not see its wrap-around. *)
Lemma le_bytes_wrap n m z : (n <= m)%nat → le_bytes n (z mod 256 ^ Z.of_nat m) = le_bytes n z.
Proof.
  revert m z; induction n as [|n IH]; intros m z Hm; [done|]. destruct m as [|m]; [lia|]. cbn [le_bytes].
  rewrite Nat2Z.inj_succ, Z.pow_succ_r by lia. rewrite (Z.rem_mul_r z 256) by lia.
  f_equal.
  - apply char_code_inj. rewrite !char_code_of_code.
    by rewrite (Z.mul_comm 256), Z.mod_add, Z.mod_mod by lia.
  - rewrite (Z.mul_comm 256), Z.div_add by lia.
    rewrite (Z.div_small (z mod 256)), Z.add_0_l by (apply Z.mod_pos_bound; lia). apply IH. lia.
Qed.

Lemma wire_int32 x : le_bytes 4 (byteswap 4 (u32 x)) = be_bytes 4 x.
Proof. rewrite le_bytes_byteswap. unfold be_bytes, u32. by rewrite (le_bytes_wrap 4 4). Qed.

Lemma wire_int16 x : le_bytes 2 (byteswap 2 (u16 x)) = be_bytes 2 x.
Proof. rewrite le_bytes_byteswap. unfold be_bytes, u16. by rewrite (le_bytes_wrap 2 2). Qed.

Lemma zlen_be_bytes n x : zlen (be_bytes n x) = Z.of_nat n.
Proof. unfold zlen, be_bytes. by rewrite length_rev, length_le_bytes. Qed.

(** Consuming an integer: what the three readers share. *)
Lemma read_int_ok b (n : nat) (peekInt : Buffer → outcome Z) (conv : chars → Z) :
  wf b → Z.of_nat n <= zlen (content b) →
  peekInt b = Ok (conv (take n (content b))) →
  ∃ b', (result ← peekInt b; b' ← retrieve b (Z.of_nat n); Ok (result, b'))
          = Ok (conv (take n (content b)), b') ∧ wf b' ∧ content b' = drop n (content b).
Proof.
  intros Hwf Hn ->. cbn [mbind outcome_bind].
  destruct (retrieve_ok b (Z.of_nat n) Hwf) as (b' & -> & ? & Hc); [lia|].
  rewrite Nat2Z.id in Hc. cbn. eauto.
Qed.

Lemma peekInt32_ok b :
  wf b → 4 <= zlen (content b) → peekInt32 b = Ok (i32 (be_value (take 4 (content b)))).
Proof.
  intros Hwf Hn. unfold peekInt32. rewrite (readable_content b Hwf), (proj2 (Z.leb_le _ _)) by lia.
  destruct (read_front b 4 Hwf Hn) as (E & E2). cbn [assert_ mbind outcome_bind].
  change (Z.of_nat 4) with 4 in E. rewrite E. cbn [mbind outcome_bind]. by rewrite E2.
Qed.

Lemma peekInt16_ok b :
  wf b → 2 <= zlen (content b) → peekInt16 b = Ok (i16 (be_value (take 2 (content b)))).
Proof.
  intros Hwf Hn. unfold peekInt16. rewrite (readable_content b Hwf), (proj2 (Z.leb_le _ _)) by lia.
  destruct (read_front b 2 Hwf Hn) as (E & E2). cbn [assert_ mbind outcome_bind].
  change (Z.of_nat 2) with 2 in E. rewrite E. cbn [mbind outcome_bind]. by rewrite E2.
Qed.

Lemma peekInt8_ok b :
  wf b → 1 <= zlen (content b) → peekInt8 b = Ok (i8 (be_value (take 1 (content b)))).
Proof.
  intros Hwf Hn. unfold peekInt8. rewrite (readable_content b Hwf), (proj2 (Z.leb_le _ _)) by lia.
  destruct (read_front b 1 Hwf Hn) as (E & _). cbn [assert_ mbind outcome_bind].
  change (Z.of_nat 1) with 1 in E. rewrite E. cbn [mbind outcome_bind].
  destruct (content b) as [|c l]; [by cbn in Hn|]. reflexivity.
Qed.

(** The queue refinement of the operations that consume [n] bytes, and of those that do not. *)
Lemma refines_consuming b o c' r :
  wf b → fits b o → queue_op (content b) o = Some (r, c') →
  match o with ORetrieve _ | ORetrieveAsString _ | OReadInt32 | OReadInt16 | OReadInt8 => True | _ => False end →
  ∃ b', run_op b o = Ok (r, b') ∧ wf b' ∧ content b' = c'.
Proof.
  intros Hwf Hfit Hq Ho. destruct o; try done; cbn [queue_op fits] in *;
    destruct (_ <? _) eqn:E in Hq; bool_prop; try done; injection Hq as <- <-; cbn [run_op].
  - destruct (retrieve_ok b n Hwf) as (b' & -> & ? & ?); [lia|]. cbn. eauto.
  - destruct (retrieveAsString_ok b n Hwf) as (b' & -> & ? & ?); [lia|]. cbn. eauto.
  - destruct (read_int_ok b 4 peekInt32 (fun s => i32 (be_value s)) Hwf) as (b' & Er & ? & ?);
      [lia|by apply peekInt32_ok|].
    unfold readInt32, retrieveInt32. change 4 with (Z.of_nat 4) at 1. rewrite Er. cbn. eauto.
  - destruct (read_int_ok b 2 peekInt16 (fun s => i16 (be_value s)) Hwf) as (b' & Er & ? & ?);
      [lia|by apply peekInt16_ok|].
    unfold readInt16, retrieveInt16. change 2 with (Z.of_nat 2) at 1. rewrite Er. cbn. eauto.
  - destruct (read_int_ok b 1 peekInt8 (fun s => i8 (be_value s)) Hwf) as (b' & Er & ? & ?);
      [lia|by apply peekInt8_ok|].
    unfold readInt_8, retrieveInt8. change 1 with (Z.of_nat 1) at 1. rewrite Er. cbn. eauto.
Qed.

Lemma refines_appending b o c' r :
  wf b → fits b o → queue_op (content b) o = Some (r, c') →
  match o with ORetrieve _ | ORetrieveAsString _ | OReadInt32 | OReadInt16 | OReadInt8 => False | _ => True end →
  ∃ b', run_op b o = Ok (r, b') ∧ wf b' ∧ content b' = c'.
Proof.
  intros Hwf Hfit Hq Ho. destruct o; try done; cbn [queue_op fits] in *; injection Hq as <- <-; cbn [run_op];
    unfold appendInt32, appendInt16, appendInt8, prependInt32, prependInt16, prependInt8;
    rewrite ?wire_int32, ?wire_int16;
    try match goal with
    | |- context [append b ?d] => destruct (append_ok b d Hwf) as (b' & -> & ? & Hc)
    | |- context [prepend b ?d] => destruct (prepend_ok b d Hwf) as (b' & -> & ? & Hc)
    end;
    try (rewrite ?zlen_be_bytes; unfold zlen in *; cbn; lia);
    try (cbn; by eauto).
  - destruct (ensure_ok b n Hwf) as (b' & -> & ? & ? & ?); [lia|]. cbn; eauto.
  - destruct (shrink_ok b n Hwf) as (b' & -> & ? & ?); [lia|lia|]. cbn; eauto.
  - destruct (retrieveAll_ok b Hwf); eauto.
  - destruct (retrieveAllAsString_ok b Hwf) as (b' & -> & ? & ?). cbn; eauto.
  - destruct (readFd_ok b 0 d Hwf) as (b' & -> & ? & ?); [lia|lia|]. cbn; eauto.
Qed.

Lemma refines_queue b o r c' :
  wf b → fits b o → queue_op (content b) o = Some (r, c') →
  ∃ b', run_op b o = Ok (r, b') ∧ wf b' ∧ content b' = c'.
Proof.
  intros. destruct o; (eapply refines_consuming; [done..|exact I]) || (eapply refines_appending; [done..|exact I]).
Qed.

(** ** Properties *)

(** C3. Every operation of a well-formed buffer, within the sizes a vector can have, does what the
    byte queue does: it returns (no failed assertion, no access outside the vector, no exception),
    gives the queue's result, keeps the invariant, and leaves the queue's content readable. *)
Theorem buffer_refines_queue (b : Buffer) (o : buf_op) (r : buf_res) (c' : chars)
  (Hwf : wf b) (Hfit : fits b o) (Hq : queue_op (content b) o = Some (r, c')) :
  ∃ b', run_op b o = Ok (r, b') ∧ wf b' ∧ content b' = c'.
Proof. by apply refines_queue. Qed.

Lemma buffer_refines_queue_witness :
  ∃ b0 b, newBuffer = Ok b0 ∧ run_op b0 (OAppend ($"hello")) = Ok (RUnit, b) ∧
    content b = $"hello".
Proof.
  destruct newBuffer_ok as (b0 & E0 & Hwf & Hc).
  destruct (buffer_refines_queue b0 (OAppend ($"hello")) RUnit ($"hello")) as (b & Eb & _ & Hc').
  - exact Hwf.
  - vm_compute in E0. injection E0 as <-. by vm_compute.
  - by rewrite Hc.
  - eauto.
Defined.

(** An operation that consumes more bytes than are readable never returns stale bytes or moves
    the indices past each other: it fails the assertion, on every consuming operation. *)
Theorem buffer_underflow_asserts (b : Buffer) (o : buf_op)
  (Hwf : wf b) (Hq : queue_op (content b) o = None) : run_op b o = Fault AssertFail.
Proof.
  destruct o; try done; cbn [queue_op] in Hq; destruct (_ <? _) eqn:E in Hq; try done; bool_prop; cbn [run_op].
  - by rewrite retrieve_fault.
  - unfold retrieveAsString. by rewrite (readable_content b Hwf), (proj2 (Z.leb_gt _ _)) by lia.
  - unfold readInt32, peekInt32. by rewrite (readable_content b Hwf), (proj2 (Z.leb_gt _ _)) by lia.
  - unfold readInt16, peekInt16. by rewrite (readable_content b Hwf), (proj2 (Z.leb_gt _ _)) by lia.
  - unfold readInt_8, peekInt8. by rewrite (readable_content b Hwf), (proj2 (Z.leb_gt _ _)) by lia.
Qed.

Lemma buffer_underflow_asserts_witness :
  ∃ b, newBuffer = Ok b ∧ run_op b OReadInt32 = Fault AssertFail.
Proof.
  destruct newBuffer_ok as (b & E & Hwf & Hc). exists b. split; [exact E|].
  apply (buffer_underflow_asserts b OReadInt32 Hwf). by rewrite Hc.
Defined.

(** Prepending an encoded integer and reading it back, at any width. *)
Lemma codec_roundtrip b (po ro : buf_op) n x (conv : Z → Z) :
  wf b → fits b po → queue_op (content b) po = Some (RUnit, be_bytes n x ++ content b) →
  (∀ b', fits b' ro) →
  (∀ c, queue_op c ro = if zlen c <? Z.of_nat n then None
                        else Some (RInt (conv (be_value (take n c))), drop n c)) →
  conv (x mod 256 ^ Z.of_nat n) = x →
  ∃ b1 b2, run_op b po = Ok (RUnit, b1) ∧ content b1 = be_bytes n x ++ content b ∧
           run_op b1 ro = Ok (RInt x, b2) ∧ content b2 = content b.
Proof.
  intros Hwf Hfit Hpo Hfro Hro Hconv.
  destruct (refines_queue b po _ _ Hwf Hfit Hpo) as (b1 & E1 & W1 & C1).
  assert (El : length (be_bytes n x) = n) by (unfold be_bytes; by rewrite length_rev, length_le_bytes).
  destruct (refines_queue b1 ro (RInt x) (content b) W1 (Hfro b1)) as (b2 & E2 & W2 & C2); [|by eauto 10].
  pose proof (zlen_nonneg (content b)).
  rewrite Hro, C1, zlen_app, zlen_be_bytes, (proj2 (Z.ltb_ge _ _)) by lia.
  rewrite (take_app_length' _ _ n), (drop_app_length' _ _ n), be_value_bytes by done. by rewrite Hconv.
Qed.

(** C4. The integer codec round trips at every width: prepending an in-range [int32_t], [int16_t] or
    [int8_t] and reading it back gives the integer and the bytes that were there before, and the
    bytes on the wire are the big-endian representation. *)
Theorem int_codec_roundtrip (b : Buffer) (x32 x16 x8 : Z)
  (Hwf : wf b) (Hroom : 4 <= prependableBytes b)
  (H32 : - 2 ^ 31 <= x32 < 2 ^ 31) (H16 : - 2 ^ 15 <= x16 < 2 ^ 15) (H8 : - 2 ^ 7 <= x8 < 2 ^ 7) :
  (∃ b1 b2, prependInt32 b x32 = Ok b1 ∧ content b1 = be_bytes 4 x32 ++ content b ∧
            readInt32 b1 = Ok (x32, b2) ∧ content b2 = content b) ∧
  (∃ b1 b2, prependInt16 b x16 = Ok b1 ∧ content b1 = be_bytes 2 x16 ++ content b ∧
            readInt16 b1 = Ok (x16, b2) ∧ content b2 = content b) ∧
  (∃ b1 b2, prependInt8 b x8 = Ok b1 ∧ content b1 = be_bytes 1 x8 ++ content b ∧
            readInt_8 b1 = Ok (x8, b2) ∧ content b2 = content b).
Proof.
  pose proof (i8_u8 x8 H8). pose proof (i16_u16 x16 H16). pose proof (i32_u32 x32 H32).
  split_and!.
  - destruct (codec_roundtrip b (OPrependInt32 x32) OReadInt32 4 x32 i32) as (b1 & b2 & E1 & C1 & E2 & C2);
      [done..|]. cbn in E1, E2. bind_inv E1. bind_inv E2. destruct a0. simplify_eq. eauto 10.
  - destruct (codec_roundtrip b (OPrependInt16 x16) OReadInt16 2 x16 i16) as (b1 & b2 & E1 & C1 & E2 & C2);
      [done|cbn; lia|done..|]. cbn in E1, E2. bind_inv E1. bind_inv E2. destruct a0. simplify_eq. eauto 10.
  - destruct (codec_roundtrip b (OPrependInt8 x8) OReadInt8 1 x8 i8) as (b1 & b2 & E1 & C1 & E2 & C2);
      [done|cbn; lia|done..|]. cbn in E1, E2. bind_inv E1. bind_inv E2. destruct a0. simplify_eq. eauto 10.
Qed.

Lemma int_codec_roundtrip_witness :
  ∃ b b1 b2, newBuffer = Ok b ∧ prependInt32 b (-2) = Ok b1 ∧ readInt32 b1 = Ok (-2, b2).
Proof.
  destruct newBuffer_ok as (b & E & Hwf & Hc).
  destruct (int_codec_roundtrip b (-2) (-300) 127 Hwf) as ((b1 & b2 & E1 & _ & E2 & _) & _ & _).
  - vm_compute in E. injection E as <-. by vm_compute.
  - lia.
  - lia.
  - lia.
  - exists b, b1, b2. done.
Defined.

(** [std::search] over the readable bytes is the search in the content. *)
Lemma search_content b :
  wf b → search_crlf b (peek b) (beginWrite b) =
    Ok (match find_sub KCRLF (content b) with
        | Some i => peek b + Z.of_nat i | None => beginWrite b end).
Proof.
  intros Hwf. unfold search_crlf, beginWrite, peek.
  assert (Hl : writeIndex_ b - readerIndex_ b = zlen (content b)).
  { destruct (wf_rep b Hwf) as (p & q & (_ & -> & -> & _) & _). lia. }
  rewrite Hl. fold (peek b). rewrite read_content by (auto using zlen_nonneg with lia).
  unfold zlen. rewrite Nat2Z.id, firstn_all. done.
Qed.

(** The result of [findCRLF] as a split of the content around its first CRLF. *)
Lemma findCRLF_spec b :
  wf b →
  (∃ line rest, content b = line ++ KCRLF ++ rest ∧ find_sub KCRLF (content b) = Some (length line) ∧
     findCRLF b = Ok (Some (peek b + zlen line))) ∨
  (find_sub KCRLF (content b) = None ∧ findCRLF b = Ok None).
Proof.
  intros Hwf. unfold findCRLF. rewrite search_content by done. cbn [mbind outcome_bind].
  destruct (find_sub KCRLF (content b)) as [i|] eqn:F.
  - left. destruct (find_sub_Some _ _ _ F) as (line & rest & Hc & <- & _).
    exists line, rest. split_and!; [done|done|].
    destruct (wf_rep b Hwf) as (p & q & (_ & Hr & Hw & _) & _). unfold beginWrite, peek.
    destruct (_ =? _) eqn:E; [|done]. bool_prop. rewrite Hw, Hr, Hc, !zlen_app in E.
    pose proof (zlen_nonneg rest). change (zlen KCRLF) with 2 in E. unfold zlen in *. lia.
  - right. rewrite Z.eqb_refl. done.
Qed.

(** Taking a line off the buffer: what remains after [retrieveUntil(crlf + 2)]. *)
Lemma retrieve_line b line rest :
  wf b → content b = line ++ KCRLF ++ rest →
  ∃ b', retrieveUntil b (peek b + zlen line + 2) = Ok b' ∧ wf b' ∧ content b' = rest.
Proof.
  intros Hwf Hc. unfold retrieveUntil.
  destruct (wf_rep b Hwf) as (p & q & (_ & Hr & Hw & Hs) & _).
  pose proof (zlen_nonneg line); pose proof (zlen_nonneg rest); pose proof (zlen_nonneg p).
  pose proof (zlen_nonneg q). rewrite !zlen_app in Hs. assert (Hz : zlen (content b) = zlen line + 2 + zlen rest).
  { rewrite Hc, !zlen_app. change (zlen KCRLF) with 2. lia. }
  unfold peek, beginWrite. rewrite !(proj2 (Z.leb_le _ _)) by lia. cbn [assert_ mbind outcome_bind].
  replace (readerIndex_ b + zlen line + 2 - readerIndex_ b) with (zlen line + 2) by lia.
  unfold PTRDIFF_MAX in Hs. rewrite u64_small by lia.
  destruct (retrieve_ok b (zlen line + 2) Hwf) as (b' & -> & ? & Hd); [lia|].
  exists b'. split_and!; [done|done|]. rewrite Hd, Hc, app_assoc. apply drop_zlen.
  rewrite zlen_app. done.
Qed.

(** C5. Line framing: [findCRLF] finds the first CRLF of the readable bytes, so the line it delimits
    holds no CRLF, [retrieveUntil(crlf + 2)] leaves exactly what follows it, and when it returns
    [nullptr] no CRLF is readable. *)
Theorem findCRLF_frames_a_line (b : Buffer) (Hwf : wf b) :
  (∃ line rest b', content b = line ++ KCRLF ++ rest ∧
     findCRLF b = Ok (Some (peek b + zlen line)) ∧ find_sub KCRLF line = None ∧
     retrieveUntil b (peek b + zlen line + 2) = Ok b' ∧ wf b' ∧ content b' = rest) ∨
  (findCRLF b = Ok None ∧ ∀ l1 l2, content b ≠ l1 ++ KCRLF ++ l2).
Proof.
  destruct (findCRLF_spec b Hwf) as [(line & rest & Hc & Hf & He)|(Hf & He)].
  - left. destruct (retrieve_line b line rest Hwf Hc) as (b' & Er & W' & C').
    exists line, rest, b'. split_and!; [done..| |done|done|done].
    destruct (find_sub KCRLF line) as [i|] eqn:F; [|done].
    destruct (find_sub_Some _ _ _ F) as (l1 & l2 & -> & Hi & _).
    destruct (find_sub_Some _ _ _ Hf) as (_ & _ & _ & _ & Hmin).
    specialize (Hmin (length l1)). rewrite Hc, <-!app_assoc, drop_app_length in Hmin.
    assert (E : is_prefix KCRLF (KCRLF ++ l2 ++ KCRLF ++ rest) = true) by (apply is_prefix_spec; eauto).
    rewrite Hmin in E; [done|]. rewrite !length_app. cbn. lia.
  - right. split; [done|]. by apply find_sub_None.
Qed.

Lemma findCRLF_frames_a_line_witness :
  ∃ b, wf b ∧ content b = $"USER x" ++ KCRLF ++ $"PA" ∧
    ((∃ line rest b', content b = line ++ KCRLF ++ rest ∧
       findCRLF b = Ok (Some (peek b + zlen line)) ∧ find_sub KCRLF line = None ∧
       retrieveUntil b (peek b + zlen line + 2) = Ok b' ∧ wf b' ∧ content b' = rest) ∨
     (findCRLF b = Ok None ∧ ∀ l1 l2, content b ≠ l1 ++ KCRLF ++ l2)).
Proof.
  set (b := mkBuffer ($"USER x" ++ KCRLF ++ $"PA") 0 10).
  assert (Hwf : wf b) by (unfold wf, b; cbn; unfold PTRDIFF_MAX; split_and!; by vm_compute).
  exists b. split; [exact Hwf|]. split; [reflexivity|].
  exact (findCRLF_frames_a_line b Hwf).
Defined.

(** Space is reused before the vector grows: [makeSpace] compacts in place when the free bytes
    (beyond the reserved prefix) are enough, and otherwise grows to exactly the needed size; in both
    cases the content is kept and [len] bytes are writable. *)
Theorem makeSpace_reuses_space (b : Buffer) (len : Z)
  (Hwf : wf b) (Hlow : writeableBytes b < len) (Hmax : writeIndex_ b + len <= PTRDIFF_MAX) :
  ∃ b', makeSpace b len = Ok b' ∧ wf b' ∧ content b' = content b ∧ len <= writeableBytes b' ∧
    zlen (buffer_ b') = (if writeableBytes b + prependableBytes b <? len + kCheapprepend
                         then writeIndex_ b + len else zlen (buffer_ b)).
Proof.
  destruct (wf_rep b Hwf) as (p & q & H & H8).
  rewrite (rep_writeable _ _ _ _ H), (rep_prependable _ _ _ _ H) in *.
  destruct (makeSpace_rep b p _ q len H Hlow (or_introl Hmax)) as (b' & p' & q' & E & H' & Hq & Hz).
  exists b'. rewrite (rep_writeable _ _ _ _ H').
  assert (Hb : buffer_ b = p ++ content b ++ q) by apply H.
  assert (Hb' : buffer_ b' = p' ++ content b ++ q') by apply H'.
  rewrite Hb, Hb', Hz. split_and!; [done| |by eapply rep_content|done|done].
  eapply rep_wf; [done|]. destruct (_ <? _) in Hz; [|by rewrite Hz].
  assert (Hw : writeIndex_ b = zlen p + zlen (content b)) by apply H.
  rewrite Hz. rewrite !zlen_app in H8. lia.
Qed.

Lemma makeSpace_reuses_space_witness :
  ∃ b', makeSpace (mkBuffer (replicate 20 "000"%char) 12 18) 5 = Ok b' ∧ zlen (buffer_ b') = 20 ∧
        5 <= writeableBytes b'.
Proof.
  destruct (makeSpace_reuses_space (mkBuffer (replicate 20 "000"%char) 12 18) 5) as (b' & E & _ & _ & H & Hz).
  - unfold wf, PTRDIFF_MAX; cbn. split_and!; by vm_compute.
  - by vm_compute.
  - by vm_compute.
  - exists b'. split; [exact E|]. split; [rewrite Hz; by vm_compute|exact H].
Defined.
