(* ===== verification/Channel.v ===== *)
(** * Channel: one descriptor's registration and event dispatch

    Models [plugins/Muduo/muduo/net/Channel.h] and [Channel.cpp]. A channel is owned by its
    component and passed by value here; [id_] stands for its address, which is what the poller
    keeps. The callbacks a channel stores are values of a type [CB] of the client's choice, run by
    the client's interpreter. Calls on the owning [EventLoop] go through [LoopServices]. *)

From S2P Require Import Prelude.

(** ** Event masks of <poll.h> *)

Definition POLLIN : Z := 1.
Definition POLLPRI : Z := 2.
Definition POLLOUT : Z := 4.
Definition POLLERR : Z := 8.
Definition POLLHUP : Z := 16.
Definition POLLNVAL : Z := 32.
Definition POLLRDHUP : Z := 8192.

(** [e & mask] as a C condition. *)
Definition has (e mask : Z) : bool := negb (Z.land e mask =? 0).

(* @src Channel.cpp | const int Channel::KNoneEvent *)
Definition KNoneEvent : Z := 0.
(* @src Channel.cpp | const int Channel::KReadEvent *)
Definition KReadEvent : Z := Z.lor POLLIN POLLPRI.
(* @src Channel.cpp | const int Channel::KWriteEvent *)
Definition KWriteEvent : Z := POLLOUT.

(* @src Channel.h | EventLoop* loop_; | EventCallback errorCallback_; | Channel *)
Record Channel (CB : Type) := mkChannel {
  id_ : nat;
  loop_ : nat;
  fd_ : Z;
  events_ : Z;
  revents_ : Z;
  index_ : Z;
  logHup_ : bool;
  tie_ : option nat;
  tied_ : bool;
  eventHandling_ : bool;
  readCallback_ : option CB;
  writeCallback_ : option CB;
  closeCallback_ : option CB;
  errorCallback_ : option CB
}.
Arguments mkChannel {CB}.
Arguments id_ {CB}.
Arguments loop_ {CB}.
Arguments fd_ {CB}.
Arguments events_ {CB}.
Arguments revents_ {CB}.
Arguments index_ {CB}.
Arguments logHup_ {CB}.
Arguments tie_ {CB}.
Arguments tied_ {CB}.
Arguments eventHandling_ {CB}.
Arguments readCallback_ {CB}.
Arguments writeCallback_ {CB}.
Arguments closeCallback_ {CB}.
Arguments errorCallback_ {CB}.

Section Channel.
Context {CB : Type}.
Implicit Types (c : Channel CB).

(* @src Channel.cpp | Channel::Channel(EventLoop* loop, int fd) | eventHandling_(false) {} *)
Definition newChannel (id loop : nat) (fd : Z) : Channel CB :=
  mkChannel id loop fd 0 0 (-1) true None false false None None None None.

(** Assignments to one member. *)
Definition with_events (e : Z) c : Channel CB :=
  mkChannel (id_ c) (loop_ c) (fd_ c) e (revents_ c) (index_ c) (logHup_ c) (tie_ c) (tied_ c)
    (eventHandling_ c) (readCallback_ c) (writeCallback_ c) (closeCallback_ c) (errorCallback_ c).
(* @src Channel.cpp | void Channel::set_revents(int revt) *)
Definition set_revents (r : Z) c : Channel CB :=
  mkChannel (id_ c) (loop_ c) (fd_ c) (events_ c) r (index_ c) (logHup_ c) (tie_ c) (tied_ c)
    (eventHandling_ c) (readCallback_ c) (writeCallback_ c) (closeCallback_ c) (errorCallback_ c).
(* @src Channel.cpp | void Channel::set_index(int idx) *)
Definition set_index (i : Z) c : Channel CB :=
  mkChannel (id_ c) (loop_ c) (fd_ c) (events_ c) (revents_ c) i (logHup_ c) (tie_ c) (tied_ c)
    (eventHandling_ c) (readCallback_ c) (writeCallback_ c) (closeCallback_ c) (errorCallback_ c).
Definition with_handling (b : bool) c : Channel CB :=
  mkChannel (id_ c) (loop_ c) (fd_ c) (events_ c) (revents_ c) (index_ c) (logHup_ c) (tie_ c) (tied_ c)
    b (readCallback_ c) (writeCallback_ c) (closeCallback_ c) (errorCallback_ c).

(* @src Channel.cpp | void Channel::tie(const std::shared_ptr<void>& obj) *)
Definition tie (obj : nat) c : Channel CB :=
  mkChannel (id_ c) (loop_ c) (fd_ c) (events_ c) (revents_ c) (index_ c) (logHup_ c) (Some obj) true
    (eventHandling_ c) (readCallback_ c) (writeCallback_ c) (closeCallback_ c) (errorCallback_ c).
(* @src Channel.cpp | void Channel::setReadCallback( *)
Definition setReadCallback (cb : CB) c : Channel CB :=
  mkChannel (id_ c) (loop_ c) (fd_ c) (events_ c) (revents_ c) (index_ c) (logHup_ c) (tie_ c) (tied_ c)
    (eventHandling_ c) (Some cb) (writeCallback_ c) (closeCallback_ c) (errorCallback_ c).
(* @src Channel.cpp | void Channel::setWriteCallback( *)
Definition setWriteCallback (cb : CB) c : Channel CB :=
  mkChannel (id_ c) (loop_ c) (fd_ c) (events_ c) (revents_ c) (index_ c) (logHup_ c) (tie_ c) (tied_ c)
    (eventHandling_ c) (readCallback_ c) (Some cb) (closeCallback_ c) (errorCallback_ c).
(* @src Channel.cpp | void Channel::setCloseCallback( *)
Definition setCloseCallback (cb : CB) c : Channel CB :=
  mkChannel (id_ c) (loop_ c) (fd_ c) (events_ c) (revents_ c) (index_ c) (logHup_ c) (tie_ c) (tied_ c)
    (eventHandling_ c) (readCallback_ c) (writeCallback_ c) (Some cb) (errorCallback_ c).
(* @src Channel.cpp | void Channel::setErrorCallback( *)
Definition setErrorCallback (cb : CB) c : Channel CB :=
  mkChannel (id_ c) (loop_ c) (fd_ c) (events_ c) (revents_ c) (index_ c) (logHup_ c) (tie_ c) (tied_ c)
    (eventHandling_ c) (readCallback_ c) (writeCallback_ c) (closeCallback_ c) (Some cb).

(* @src Channel.cpp | void Channel::doNotLogHup() *)
Definition doNotLogHup c : Channel CB :=
  mkChannel (id_ c) (loop_ c) (fd_ c) (events_ c) (revents_ c) (index_ c) false (tie_ c) (tied_ c)
    (eventHandling_ c) (readCallback_ c) (writeCallback_ c) (closeCallback_ c) (errorCallback_ c).
(** The destructor. *)
(* @src Channel.cpp | Channel::~Channel() *)
Definition destroy_channel c : outcome unit := assert_ (negb (eventHandling_ c)).

(* @src Channel.cpp | bool Channel::isNoneEvent() *)
Definition isNoneEvent c : bool := events_ c =? KNoneEvent.
(* @src Channel.cpp | bool Channel::isWriting() *)
Definition isWriting c : bool := has (events_ c) KWriteEvent.
End Channel.

(** ** The services of the owning loop *)

(** What a channel's owner calls on its [EventLoop]: [isInLoopThread], [updateChanel],
    [removeChannel], [queueInLoop]. [T] is the type of queued functors, [W] the loop's state.
    The loop may change the channel's [index_], so the channel is passed through. *)
Class LoopServices (CB T W : Type) := {
  inLoopThread : W → bool;
  updateChanel : Channel CB → W → outcome (Channel CB * W);
  removeChannel : Channel CB → W → outcome (Channel CB * W);
  queueInLoop : T → W → outcome W
}.

(** What the loop promises to the owner of a channel. [chan_ok c w]: [w] is [c]'s loop and agrees with
    its registration state; once a channel is removed a new one may use its descriptor. [removable c w]: [c] is not waiting to be dispatched. [can_queue n w]: the
    wakeup counter can take [n] more writes. [queued w]: the functors waiting to run. *)
Class LoopLaws (CB T W : Type) `{LS : LoopServices CB T W} := {
  chan_ok : Channel CB → W → Prop;
  removable : Channel CB → W → Prop;
  can_queue : nat → W → Prop;
  queued : W → list T;
  chan_ok_same c d w : id_ d = id_ c → loop_ d = loop_ c → fd_ d = fd_ c → index_ d = index_ c →
    chan_ok c w → chan_ok d w;
  removable_same c d w : id_ d = id_ c → removable c w → removable d w;
  can_queue_mono n m w : (m <= n)%nat → can_queue n w → can_queue m w;
  update_law c w : inLoopThread w = true → chan_ok c w →
    ∃ i w', updateChanel c w = Ok (set_index i c, w') ∧ chan_ok (set_index i c) w' ∧
      queued w' = queued w ∧ inLoopThread w' = true ∧ (∀ n, can_queue n w → can_queue n w') ∧
      (∀ d, removable d w → removable d w') ∧
      (∀ d, fd_ d ≠ fd_ c → chan_ok d w → chan_ok d w');
  remove_law c w : inLoopThread w = true → chan_ok c w → removable c w →
    ∃ i w', removeChannel c w = Ok (set_index i c, w') ∧ chan_ok (set_index i c) w' ∧
      queued w' = queued w ∧ inLoopThread w' = true ∧ (∀ n, can_queue n w → can_queue n w') ∧
      (∀ d, fd_ d ≠ fd_ c → chan_ok d w → chan_ok d w') ∧
      (∀ d, loop_ d = loop_ c → fd_ d = fd_ c → index_ d = -1 → chan_ok d w');
  queue_law n t w : can_queue (S n) w →
    ∃ w', queueInLoop t w = Ok w' ∧ queued w' = queued w ++ [t] ∧ inLoopThread w' = inLoopThread w ∧
      can_queue n w' ∧ (∀ d, chan_ok d w → chan_ok d w') ∧ (∀ d, removable d w → removable d w')
}.

(** A loop with other state beside it serves in the same way. *)
Section Beside.
Context {CB T W : Type} `{LS : LoopServices CB T W} (X : Type).

#[global] Instance beside_services : LoopServices CB T (W * X) := {|
  inLoopThread w := inLoopThread w.1;
  updateChanel c w := '(c, v) ← updateChanel c w.1; Ok (c, (v, w.2));
  removeChannel c w := '(c, v) ← removeChannel c w.1; Ok (c, (v, w.2));
  queueInLoop t w := v ← queueInLoop t w.1; Ok (v, w.2)
|}.

#[global] Instance beside_laws `{LL : !LoopLaws CB T W} : LoopLaws CB T (W * X).
Proof.
  refine {| chan_ok c w := chan_ok c w.1; removable c w := removable c w.1;
            can_queue n w := can_queue n w.1; queued w := queued w.1 |}.
  - intros c d [w x]. apply chan_ok_same.
  - intros c d [w x]. apply removable_same.
  - intros n m [w x]. apply can_queue_mono.
  - intros c [w x] Ht Hc. cbn in *. destruct (update_law c w Ht Hc) as (i & w' & -> & L). by exists i, (w', x).
  - intros c [w x] Ht Hc Hr. cbn in *. destruct (remove_law c w Ht Hc Hr) as (i & w' & -> & L). by exists i, (w', x).
  - intros n t [w x] Q. cbn in *. destruct (queue_law n t w Q) as (w' & -> & L). by exists (w', x).
Defined.
End Beside.

Section Registration.
Context {CB T W : Type} `{LS : LoopServices CB T W}.
Implicit Types (c : Channel CB) (w : W).

(** [EventLoop::assertInLoopThread]: exits the process in any other thread. *)
Definition assertInLoop w : outcome unit := if inLoopThread w then Ok tt else Fault ExitFailure.

(* @src Channel.cpp | void Channel::update() *)
Definition update c w : outcome (Channel CB * W) := updateChanel c w.
(* @src Channel.cpp | void Channel::enableReading() *)
Definition enableReading c w : outcome (Channel CB * W) :=
  update (with_events (Z.lor (events_ c) KReadEvent) c) w.
(* @src Channel.cpp | void Channel::enableWriting() *)
Definition enableWriting c w : outcome (Channel CB * W) :=
  update (with_events (Z.lor (events_ c) KWriteEvent) c) w.
(* @src Channel.cpp | void Channel::disableWriting() *)
Definition disableWriting c w : outcome (Channel CB * W) :=
  update (with_events (Z.land (events_ c) (Z.lnot KWriteEvent)) c) w.
(* @src Channel.cpp | void Channel::disableAll() *)
Definition disableAll c w : outcome (Channel CB * W) := update (with_events KNoneEvent c) w.
(* @src Channel.cpp | void Channel::remove() *)
Definition remove c w : outcome (Channel CB * W) :=
  assert_ (isNoneEvent c);; removeChannel c w.
End Registration.

(** ** Dispatch *)

Section Dispatch.
(** [get]/[put] access the channel inside the client's state, [alive] tells whether a tied object
    still has an owner ([weak_ptr::lock]), [run] executes a stored callback. *)
Context {CB W : Type}.
Context (get : W → Channel CB) (put : Channel CB → W → W) (alive : nat → W → bool).
Context (run : CB → W → outcome W).

(** Invoke a [std::function] member when it is not empty. *)
Definition call (cb : option CB) (w : W) : outcome W :=
  match cb with Some f => run f w | None => Ok w end.

(* @src Channel.cpp | void Channel::handleEventWithGuard( *)
Definition handleEventWithGuard (w : W) : outcome W :=
  let w := put (with_handling true (get w)) w in
  w ← when (has (revents_ (get w)) POLLHUP && negb (has (revents_ (get w)) POLLIN))
        (fun w => call (closeCallback_ (get w)) w) w;
  w ← when (has (revents_ (get w)) (Z.lor POLLERR POLLNVAL))
        (fun w => call (errorCallback_ (get w)) w) w;
  w ← when (has (revents_ (get w)) (Z.lor (Z.lor POLLIN POLLPRI) POLLRDHUP))
        (fun w => call (readCallback_ (get w)) w) w;
  w ← when (has (revents_ (get w)) POLLOUT)
        (fun w => call (writeCallback_ (get w)) w) w;
  Ok (put (with_handling false (get w)) w).

(* @src Channel.cpp | void Channel::handleEvent(const common *)
Definition handleEvent (w : W) : outcome W :=
  let c := get w in
  if tied_ c then
    match tie_ c with
    | Some obj => when (alive obj w) handleEventWithGuard w
    | None => Ok w
    end
  else handleEventWithGuard w.

(** ** Properties *)

(** The callbacks an event mask selects, in dispatch order. *)
Definition selected (c : Channel CB) : list CB :=
  let pick b o := if (b : bool) then option_list o else [] in
  pick (has (revents_ c) POLLHUP && negb (has (revents_ c) POLLIN)) (closeCallback_ c) ++
  pick (has (revents_ c) (Z.lor POLLERR POLLNVAL)) (errorCallback_ c) ++
  pick (has (revents_ c) (Z.lor (Z.lor POLLIN POLLPRI) POLLRDHUP)) (readCallback_ c) ++
  pick (has (revents_ c) POLLOUT) (writeCallback_ c).

(** The part of a channel the dispatch reads. *)
Definition same_dispatch (c c' : Channel CB) : Prop :=
  revents_ c' = revents_ c ∧ readCallback_ c' = readCallback_ c ∧ writeCallback_ c' = writeCallback_ c ∧
  closeCallback_ c' = closeCallback_ c ∧ errorCallback_ c' = errorCallback_ c.

Context (get_put : ∀ c w, get (put c w) = c).
Context (run_keeps : ∀ f w w', run f w = Ok w' → same_dispatch (get w) (get w')).

(** Run the callbacks of [l], then clear the handling flag. *)
Definition finish (l : list CB) (w : W) : outcome W :=
  w1 ← foldM run l w; Ok (put (with_handling false (get w1)) w1).

(** One stage of the dispatch, followed by the rest. *)
Lemma stage (b : Channel CB → bool) (o : Channel CB → option CB) l2 (k : W → outcome W) c0 w :
  same_dispatch c0 (get w) →
  (∀ c, same_dispatch c0 c → b c = b c0 ∧ o c = o c0) →
  (∀ w', same_dispatch c0 (get w') → k w' = finish l2 w') →
  (w' ← when (b (get w)) (fun w => call (o (get w)) w) w; k w') =
  finish ((if b c0 then option_list (o c0) else []) ++ l2) w.
Proof.
  intros Hs Hbo Hk. destruct (Hbo _ Hs) as [Hb Ho]. unfold when. rewrite Hb, Ho.
  destruct (b c0); [|by apply Hk]. destruct (o c0) as [f|]; [|by apply Hk].
  unfold finish. cbn. destruct (run f w) as [w'|] eqn:E; [|done]. cbn. apply Hk.
  pose proof (run_keeps f w w' E) as (?&?&?&?&?). destruct Hs as (?&?&?&?&?).
  unfold same_dispatch. split_and!; congruence.
Qed.

Lemma guard_dispatch w :
  handleEventWithGuard w = finish (selected (get w)) (put (with_handling true (get w)) w).
Proof.
  set (c0 := get w). set (w0 := put (with_handling true c0) w).
  assert (H0 : same_dispatch c0 (get w0)) by (unfold w0; rewrite get_put; done).
  unfold handleEventWithGuard, selected. fold c0 w0.
  apply (stage (fun c => has (revents_ c) POLLHUP && negb (has (revents_ c) POLLIN)) closeCallback_ _ _ c0);
    [done|by intros c (->&?&?&->&?)|].
  clear H0; intros w1 H1.
  apply (stage (fun c => has (revents_ c) (Z.lor POLLERR POLLNVAL)) errorCallback_ _ _ c0);
    [done|by intros c (->&?&?&?&->)|].
  clear w1 H1; intros w1 H1.
  apply (stage (fun c => has (revents_ c) (Z.lor (Z.lor POLLIN POLLPRI) POLLRDHUP)) readCallback_ _ _ c0);
    [done|by intros c (->&->&?&?&?)|].
  clear w1 H1; intros w1 H1.
  rewrite <-(app_nil_r (if has (revents_ c0) POLLOUT then _ else _)).
  apply (stage (fun c => has (revents_ c) POLLOUT) writeCallback_ _ _ c0);
    [done|by intros c (->&?&->&?&?)|done].
Qed.

(** C6. Event dispatch: a poll result runs exactly the close, error, read and write callbacks its
    mask selects, in that order; and when the channel is tied to an object that no longer has an
    owner, nothing is run at all. *)
Theorem dispatch_selected (w : W) :
  handleEvent w =
  if tied_ (get w) && negb (from_option (fun obj => alive obj w) false (tie_ (get w))) then Ok w
  else finish (selected (get w)) (put (with_handling true (get w)) w).
Proof.
  rewrite <-guard_dispatch. unfold handleEvent, when.
  destruct (tied_ (get w)); [|done]. destruct (tie_ (get w)) as [o|]; cbn; [|done].
  by destruct (alive o w).
Qed.
End Dispatch.

(** A client whose state is the channel and the list of callbacks run so far. *)
Definition log_run (f : nat) (w : Channel nat * list nat) : outcome (Channel nat * list nat) :=
  Ok (w.1, w.2 ++ [f]).

Lemma dispatch_selected_witness :
  handleEvent fst (fun c w => (c, w.2)) (fun _ _ => true) log_run
    (set_revents (Z.lor POLLHUP POLLOUT)
       (setCloseCallback 1%nat (setWriteCallback 2%nat (newChannel 0 0 5))), [])
  = Ok (set_revents (Z.lor POLLHUP POLLOUT)
       (setCloseCallback 1%nat (setWriteCallback 2%nat (newChannel 0 0 5))), [1%nat; 2%nat]).
Proof.
  rewrite (dispatch_selected fst (fun c w => (c, w.2)) (fun _ _ => true) log_run).
  - reflexivity.
  - reflexivity.
  - intros f w w' [= <-]. by repeat split.
Defined.
