(* ===== verification/Poller.v ===== *)
(** * EPollPoller: the registration of channels with epoll

    Models [plugins/Muduo/muduo/net/EPollPoller.h] and [EpollPoller.cpp]. The kernel's side is the
    class [EpollKernel]: [epoll_ctl(2)] with its interest list as the specification sees it, and the
    documented results of the three operations as [EpollLaws]. *)

From S2P Require Import Prelude Channel.

(** ** The kernel interface *)

Inductive epoll_op := EPOLL_CTL_ADD | EPOLL_CTL_MOD | EPOLL_CTL_DEL.

(** [epoll_ctl op fd events ptr k] gives the return value and the new kernel state;
    [interest k] is the interest list: the mask and user pointer registered for each descriptor. *)
Class EpollKernel (K : Type) := {
  epoll_ctl : epoll_op → Z → Z → nat → K → Z * K;
  interest : K → gmap Z (Z * nat)
}.

(** epoll_ctl(2): ADD registers a descriptor that is not registered, MOD changes and DEL removes one
    that is; otherwise the call fails and nothing changes. *)
Class EpollLaws (K : Type) `{EpollKernel K} := {
  ctl_add fd ev p k : interest k !! fd = None →
    ∃ k', epoll_ctl EPOLL_CTL_ADD fd ev p k = (0, k') ∧ interest k' = <[fd := (ev, p)]> (interest k);
  ctl_mod fd ev p k : is_Some (interest k !! fd) →
    ∃ k', epoll_ctl EPOLL_CTL_MOD fd ev p k = (0, k') ∧ interest k' = <[fd := (ev, p)]> (interest k);
  ctl_del fd ev p k : is_Some (interest k !! fd) →
    ∃ k', epoll_ctl EPOLL_CTL_DEL fd ev p k = (0, k') ∧ interest k' = delete fd (interest k);
  ctl_add_fail fd ev p k : is_Some (interest k !! fd) →
    ∃ k', epoll_ctl EPOLL_CTL_ADD fd ev p k = (-1, k') ∧ interest k' = interest k;
  ctl_absent_fail op fd ev p k : op ≠ EPOLL_CTL_ADD → interest k !! fd = None →
    ∃ k', epoll_ctl op fd ev p k = (-1, k') ∧ interest k' = interest k
}.

(** A kernel that satisfies the laws: the interest list itself. *)
Definition list_ctl (op : epoll_op) (fd ev : Z) (p : nat) (k : gmap Z (Z * nat)) : Z * gmap Z (Z * nat) :=
  match op, k !! fd with
  | EPOLL_CTL_ADD, None => (0, <[fd := (ev, p)]> k)
  | EPOLL_CTL_MOD, Some _ => (0, <[fd := (ev, p)]> k)
  | EPOLL_CTL_DEL, Some _ => (0, delete fd k)
  | _, _ => (-1, k)
  end.
#[global] Instance list_kernel : EpollKernel (gmap Z (Z * nat)) :=
  {| epoll_ctl := list_ctl; interest := fun k => k |}.
#[global] Instance list_kernel_laws : EpollLaws (gmap Z (Z * nat)).
Proof.
  split; cbn; unfold list_ctl.
  - intros ???? ->. eauto.
  - intros ???? [? ->]. eauto.
  - intros ???? [? ->]. eauto.
  - intros ???? [? ->]. eauto.
  - intros [] ???? ? ->; [done|eauto..].
Qed.

(** ** State *)

(* @src EpollPoller.cpp | const int KNew *)
Definition KNew : Z := -1.
(* @src EpollPoller.cpp | const int KAdded *)
Definition KAdded : Z := 1.
(* @src EpollPoller.cpp | const int KDeleted *)
Definition KDeleted : Z := 2.
(* @src EPollPoller.h | static const int KInitEventListSize *)
Definition KInitEventListSize : Z := 16.

(** [events_size] is [events_.size()]: the contents of [events_] are only the last [epoll_wait]'s. *)
(* @src EPollPoller.h | using EventList | EventLoop* loop_; | EPollPoller *)
Record EPollPoller (K : Type) := mkPoller {
  events_size : Z;
  channels_ : gmap Z nat;
  kernel : K
}.
Arguments mkPoller {K}.
Arguments events_size {K}.
Arguments channels_ {K}.
Arguments kernel {K}.

Section Poller.
Context {CB K : Type} `{EK : EpollKernel K}.
Implicit Types (p : EPollPoller K) (c : Channel CB).

(** The outcome of [epoll_create] is an argument; the interest list starts as the kernel made it. *)
(* @src EpollPoller.cpp | EPollPoller::EPollPoller(EventLoop* loop) | exit(EXIT_FAILURE); *)
Definition newPoller (epollfd : Z) (k : K) : outcome (EPollPoller K) :=
  if epollfd <? 0 then Fault ExitFailure else Ok (mkPoller KInitEventListSize ∅ k).

(* @src EpollPoller.cpp | void EPollPoller::update(int operation, Channel* channel) *)
Definition poller_update (operation : epoll_op) c p : outcome (EPollPoller K) :=
  let '(ret, k) := epoll_ctl operation (fd_ c) (events_ c) (id_ c) (kernel p) in
  let p := mkPoller (events_size p) (channels_ p) k in
  if ret <? 0 then
    match operation with EPOLL_CTL_DEL => Ok p | _ => Fault ExitFailure end
  else Ok p.

(* @src EpollPoller.cpp | void EPollPoller::updateChannel(Channel* channel) *)
Definition poller_updateChannel (inLoop : bool) c p : outcome (Channel CB * EPollPoller K) :=
  if negb inLoop then Fault ExitFailure else
  let index := index_ c in
  if (index =? KNew) || (index =? KDeleted) then
    let fd := fd_ c in
    p ← (if index =? KNew then
           assert_ (bool_decide (channels_ p !! fd = None));;
           Ok (mkPoller (events_size p) (<[fd := id_ c]> (channels_ p)) (kernel p))
         else
           assert_ (bool_decide (is_Some (channels_ p !! fd)));;
           Ok p);
    let c := set_index KAdded c in
    p ← poller_update EPOLL_CTL_ADD c p;
    Ok (c, p)
  else if isNoneEvent c then
    p ← poller_update EPOLL_CTL_DEL c p;
    Ok (set_index KDeleted c, p)
  else
    p ← poller_update EPOLL_CTL_MOD c p;
    Ok (c, p).

(* @src EpollPoller.cpp | void EPollPoller::removeChannel(Channel* channel) *)
Definition poller_removeChannel (inLoop : bool) c p : outcome (Channel CB * EPollPoller K) :=
  if negb inLoop then Fault ExitFailure else
  let index := index_ c in
  let p := mkPoller (events_size p) (delete (fd_ c) (channels_ p)) (kernel p) in
  p ← when (index =? KAdded) (poller_update EPOLL_CTL_DEL c) p;
  Ok (set_index KNew c, p).

(** What [epoll_wait] returned: an error, or the ready list of (mask, pointer). *)
Inductive wait_result := WaitError | WaitReady (ready : list (Z * nat)).

(** The pointers are followed in the heap of live channels; a dangling one is undefined behaviour. *)
(* @src EpollPoller.cpp | void EPollPoller::fillActiveChannel(int numEvents, *)
Definition fillActiveChannel (size : Z) (ready : list (Z * nat)) (heap : gmap nat (Channel CB))
    (activeChannels : list nat) : outcome (gmap nat (Channel CB) * list nat) :=
  assert_ (zlen ready <=? size);;
  foldM (fun (ev : Z * nat) (st : gmap nat (Channel CB) * list nat) =>
           let '(heap, active) := st in
           match heap !! ev.2 with
           | None => Fault Undefined
           | Some c => Ok (<[ev.2 := set_revents ev.1 c]> heap, active ++ [ev.2])
           end) ready (heap, activeChannels).

(* @src EpollPoller.cpp | common::base::Timestamp EPollPoller::poll(int timeoutMs, *)
Definition poll (r : wait_result) (now : Z) (heap : gmap nat (Channel CB)) p
    : outcome (Z * gmap nat (Channel CB) * list nat * EPollPoller K) :=
  match r with
  | WaitReady ready =>
      if 0 <? zlen ready then
        '(heap, active) ← fillActiveChannel (events_size p) ready heap [];
        let p := if zlen ready =? events_size p
                 then mkPoller (u64 (Z.shiftl (events_size p) 1)) (channels_ p) (kernel p) else p in
        Ok (now, heap, active, p)
      else Ok (now, heap, [], p)
  | WaitError => Ok (now, heap, [], p)
  end.

(** ** The invariant of one channel *)

(** What [index_] says about the poller and the kernel: a new channel is nowhere, an added one is in
    both, a deleted one only in the poller's map. *)
Definition registered c p : Prop :=
  (index_ c = KNew ∧ channels_ p !! fd_ c = None ∧ interest (kernel p) !! fd_ c = None) ∨
  (index_ c = KAdded ∧ channels_ p !! fd_ c = Some (id_ c) ∧
     ∃ ev, interest (kernel p) !! fd_ c = Some (ev, id_ c)) ∨
  (index_ c = KDeleted ∧ channels_ p !! fd_ c = Some (id_ c) ∧ interest (kernel p) !! fd_ c = None).

(** Nothing changed for the other descriptors. *)
Definition frame (fd : Z) p p' : Prop :=
  ∀ fd', fd' ≠ fd → channels_ p' !! fd' = channels_ p !! fd' ∧
                    interest (kernel p') !! fd' = interest (kernel p) !! fd'.

Context `{EL : !EpollLaws K}.

Lemma registered_events e c p : registered (with_events e c) p ↔ registered c p.
Proof. done. Qed.

(** The kernel mask of a channel: what a poll can report for it. *)
Definition mask_of c p : option Z := fst <$> interest (kernel p) !! fd_ c.

Lemma update_channel_spec c p :
  registered c p →
  ∃ i p', poller_updateChannel true c p = Ok (set_index i c, p') ∧ registered (set_index i c) p' ∧
    frame (fd_ c) p p' ∧
    i = (if (index_ c =? KAdded) && isNoneEvent c then KDeleted else KAdded) ∧
    mask_of c p' = (if (index_ c =? KAdded) && isNoneEvent c then None else Some (events_ c)).
Proof.
  intros Hreg. unfold poller_updateChannel, poller_update, mask_of, registered. cbn [negb].
  destruct Hreg as [(Hi & Hc & Hk)|[(Hi & Hc & ev & Hk)|(Hi & Hc & Hk)]]; rewrite Hi; cbn.
  - rewrite bool_decide_eq_true_2 by done. cbn.
    destruct (ctl_add (fd_ c) (events_ c) (id_ c) (kernel p) Hk) as (k' & -> & Hk').
    eexists _, _. split; [done|]. cbn. rewrite Hk', !lookup_insert_eq.
    split_and!; [right; left; eauto| |done|done]. intros fd' ?. cbn. by rewrite Hk', !lookup_insert_ne.
  - destruct (isNoneEvent c) eqn:En; cbn.
    + destruct (ctl_del (fd_ c) (events_ c) (id_ c) (kernel p)) as (k' & -> & Hk'); [eauto|].
      eexists _, _. split; [done|]. cbn. rewrite Hk', lookup_delete_eq.
      split_and!; [right; right; eauto| |done|done]. intros fd' ?. cbn. by rewrite Hk', lookup_delete_ne.
    + destruct (ctl_mod (fd_ c) (events_ c) (id_ c) (kernel p)) as (k' & -> & Hk'); [eauto|].
      exists KAdded. eexists. split; [destruct c; cbn in *; by subst|]. cbn. rewrite Hk', lookup_insert_eq.
      split_and!; [right; left; eauto| |done|done]. intros fd' ?. cbn. by rewrite Hk', lookup_insert_ne.
  - rewrite bool_decide_eq_true_2 by eauto. cbn.
    destruct (ctl_add (fd_ c) (events_ c) (id_ c) (kernel p) Hk) as (k' & -> & Hk').
    eexists _, _. split; [done|]. cbn. rewrite Hk', lookup_insert_eq.
    split_and!; [right; left; eauto| |done|done]. intros fd' ?. cbn. by rewrite Hk', lookup_insert_ne.
Qed.

Lemma remove_channel_spec c p :
  registered c p →
  ∃ p', poller_removeChannel true c p = Ok (set_index KNew c, p') ∧ registered (set_index KNew c) p' ∧
    frame (fd_ c) p p'.
Proof.
  intros Hreg. unfold poller_removeChannel, poller_update, when, registered. cbn [negb].
  destruct Hreg as [(Hi & Hc & Hk)|[(Hi & Hc & ev & Hk)|(Hi & Hc & Hk)]]; rewrite Hi; cbn.
  - eexists. split; [done|]. cbn. rewrite lookup_delete_eq. split; [left; done|].
    intros fd' ?. cbn. by rewrite lookup_delete_ne.
  - destruct (ctl_del (fd_ c) (events_ c) (id_ c) (kernel p)) as (k' & -> & Hk'); [eauto|].
    eexists. split; [done|]. cbn. rewrite Hk', !lookup_delete_eq. split; [left; done|].
    intros fd' ?. cbn. by rewrite Hk', !lookup_delete_ne.
  - eexists. split; [done|]. cbn. rewrite lookup_delete_eq. split; [left; done|].
    intros fd' ?. cbn. by rewrite lookup_delete_ne.
Qed.
End Poller.

(** ** All the channels of a loop *)

Section Registry.
Context {CB K : Type} `{EK : EpollKernel K} `{EL : !EpollLaws K}.

(** The live channels by address, and the poller. *)
Record registry := mkRegistry { reg_heap : gmap nat (Channel CB); reg_poller : EPollPoller K }.

(** What the owners of channels do: create one on a descriptor nobody else watches, change its
    events, remove it once it watches nothing, and destroy it once it is removed. *)
Inductive reg_step : registry → registry → Prop :=
| step_new s id loop fd :
    reg_heap s !! id = None → (∀ i c, reg_heap s !! i = Some c → fd_ c ≠ fd) →
    reg_step s (mkRegistry (<[id := newChannel id loop fd]> (reg_heap s)) (reg_poller s))
| step_update s id c e c' p' :
    reg_heap s !! id = Some c →
    poller_updateChannel true (with_events e c) (reg_poller s) = Ok (c', p') →
    reg_step s (mkRegistry (<[id := c']> (reg_heap s)) p')
| step_remove s id c c' p' :
    reg_heap s !! id = Some c → isNoneEvent c = true →
    poller_removeChannel true c (reg_poller s) = Ok (c', p') →
    reg_step s (mkRegistry (<[id := c']> (reg_heap s)) p')
| step_destroy s id c :
    reg_heap s !! id = Some c → index_ c = KNew →
    reg_step s (mkRegistry (delete id (reg_heap s)) (reg_poller s)).

(** Every live channel is registered as its [index_] says, descriptors are not shared, and every
    registration of the poller or the kernel points to a live channel. *)
Definition reg_inv (s : registry) : Prop :=
  (∀ id c, reg_heap s !! id = Some c → id_ c = id ∧ registered c (reg_poller s)) ∧
  (∀ i j c d, reg_heap s !! i = Some c → reg_heap s !! j = Some d → fd_ c = fd_ d → i = j) ∧
  (∀ fd id, channels_ (reg_poller s) !! fd = Some id → ∃ c, reg_heap s !! id = Some c ∧ fd_ c = fd) ∧
  (∀ fd ev id, interest (kernel (reg_poller s)) !! fd = Some (ev, id) →
     ∃ c, reg_heap s !! id = Some c ∧ fd_ c = fd).

Lemma registered_frame c p p' fd :
  frame fd p p' → fd_ c ≠ fd → registered c p → registered (CB := CB) c p'.
Proof. intros Hf Hne. destruct (Hf _ Hne) as [E1 E2]. unfold registered. by rewrite E1, E2. Qed.

(** Replacing a channel by one with the same address and descriptor, registered in the new poller. *)
Lemma reg_inv_replace s id c c' p' :
  reg_inv s → reg_heap s !! id = Some c → id_ c' = id_ c → fd_ c' = fd_ c →
  frame (fd_ c) (reg_poller s) p' → registered c' p' →
  reg_inv (mkRegistry (<[id := c']> (reg_heap s)) p').
Proof.
  intros (Hreg & Hfd & Hch & Hin) Hc Hid Hfd' Hf Hreg'. destruct (Hreg id c Hc) as [Hidc _].
  assert (Hlive : ∀ fd i, (∃ d, reg_heap s !! i = Some d ∧ fd_ d = fd) →
    ∃ d, <[id := c']> (reg_heap s) !! i = Some d ∧ fd_ d = fd).
  { intros fd i (d & Hd & E). destruct (decide (i = id)) as [->|Hne].
    - exists c'. rewrite lookup_insert_eq. split; [done|]. simplify_eq. done.
    - exists d. by rewrite lookup_insert_ne. }
  split_and!; cbn.
  - intros i d. destruct (decide (i = id)) as [->|Hne].
    + rewrite lookup_insert_eq. intros [= <-]. split; [congruence|done].
    + rewrite lookup_insert_ne by done. intros Hd. split; [by apply Hreg|].
      eapply registered_frame; [done| |by apply (Hreg i)]. intros E. apply Hne. by eapply Hfd.
  - intros i j d1 d2 H1 H2 E.
    assert (Hget : ∀ k d, <[id := c']> (reg_heap s) !! k = Some d → ∃ d0, reg_heap s !! k = Some d0 ∧ fd_ d0 = fd_ d).
    { intros k d. destruct (decide (k = id)) as [->|Hk]; [rewrite lookup_insert_eq; intros [= <-]; eauto|].
      rewrite lookup_insert_ne by done. eauto. }
    destruct (Hget i d1 H1) as (e1 & ? & E1), (Hget j d2 H2) as (e2 & ? & E2).
    apply (Hfd i j e1 e2); [done..|congruence].
  - intros fd i Hl. apply Hlive. destruct (decide (fd = fd_ c)) as [->|Hne].
    + assert (i = id) as -> by (destruct Hreg' as [(?&Hx&_)|[(?&Hx&_)|(?&Hx&_)]]; rewrite Hfd' in Hx; congruence).
      eauto.
    + destruct (Hf fd Hne) as [E _]. rewrite E in Hl. by apply Hch.
  - intros fd ev i Hl. apply Hlive. destruct (decide (fd = fd_ c)) as [->|Hne].
    + assert (i = id) as ->.
      { destruct Hreg' as [(?&_&Hx)|[(?&_&ev'&Hx)|(?&_&Hx)]]; rewrite Hfd' in Hx; congruence. }
      eauto.
    + destruct (Hf fd Hne) as [_ E]. rewrite E in Hl. by eapply Hin.
Qed.

(** A channel created on an unused descriptor. *)
Lemma reg_inv_new s id loop fd :
  reg_inv s → reg_heap s !! id = None → (∀ i c, reg_heap s !! i = Some c → fd_ c ≠ fd) →
  reg_inv (mkRegistry (<[id := newChannel id loop fd]> (reg_heap s)) (reg_poller s)).
Proof.
  intros (Hreg & Hun & Hch & Hin) Hid Hfd.
  assert (Hkeep : ∀ i (P : Channel CB → Prop), (∃ d, reg_heap s !! i = Some d ∧ P d) →
    ∃ d, <[id := newChannel id loop fd]> (reg_heap s) !! i = Some d ∧ P d).
  { intros i P (d & Hd & HP). exists d. rewrite lookup_insert_ne by congruence. done. }
  split_and!; cbn.
  - intros i d. destruct (decide (i = id)) as [->|Hne].
    + rewrite lookup_insert_eq. intros [= <-]. split; [done|]. left. cbn. split_and!; [done| |].
      * destruct (channels_ _ !! fd) as [k|] eqn:E; [|done]. destruct (Hch _ _ E) as (d & Hd & <-). by destruct (Hfd k d).
      * destruct (interest _ !! fd) as [[ev k]|] eqn:E; [|done]. destruct (Hin _ _ _ E) as (d & Hd & <-). by destruct (Hfd k d).
    + rewrite lookup_insert_ne by done. apply Hreg.
  - intros i j d1 d2. destruct (decide (i = id)) as [->|Hi], (decide (j = id)) as [->|Hj];
      rewrite ?lookup_insert_eq, ?lookup_insert_ne by done; [done| | |apply Hun].
    + intros [= <-] H2 E. cbn in E. by destruct (Hfd j d2).
    + intros H1 [= <-] E. cbn in E. by destruct (Hfd i d1).
  - intros ???. by apply Hkeep, Hch.
  - intros ????. by eapply Hkeep, Hin.
Qed.

(** A removed channel destroyed. *)
Lemma reg_inv_destroy s id c :
  reg_inv s → reg_heap s !! id = Some c → index_ c = KNew →
  reg_inv (mkRegistry (delete id (reg_heap s)) (reg_poller s)).
Proof.
  intros (Hreg & Hun & Hch & Hin) Hc Hi. destruct (Hreg id c Hc) as [_ Hr].
  assert (Hkeep : ∀ i fd, channels_ (reg_poller s) !! fd = Some i ∨
        (∃ ev, interest (kernel (reg_poller s)) !! fd = Some (ev, i)) →
     (∃ d, reg_heap s !! i = Some d ∧ fd_ d = fd) → ∃ d, delete id (reg_heap s) !! i = Some d ∧ fd_ d = fd).
  { intros i fd Hl (d & Hd & E). destruct (decide (i = id)) as [->|Hne].
    - simplify_eq. destruct Hr as [(_&E1&E2)|[(E1&_)|(E1&_)]]; [|rewrite Hi in E1; done..].
      destruct Hl as [Hl|[ev Hl]]; congruence.
    - exists d. by rewrite lookup_delete_ne. }
  split_and!; cbn.
  - intros i d [_ H1]%lookup_delete_Some. by apply Hreg.
  - intros i j d1 d2 [_ H1]%lookup_delete_Some [_ H2]%lookup_delete_Some. by eapply Hun.
  - intros fd i Hl. apply Hkeep; eauto.
  - intros fd ev i Hl. apply Hkeep; eauto.
Qed.

Lemma reg_inv_step s s' : reg_inv s → reg_step s s' → reg_inv s'.
Proof.
  intros Hinv Hstep. destruct Hstep as [s id loop fd Hid Hfd|s id c e c' p' Hc Hu|s id c c' p' Hc Hn Hr|s id c Hc Hi].
  - by apply reg_inv_new.
  - destruct (proj1 Hinv id c Hc) as [Hid Hreg].
    destruct (update_channel_spec (with_events e c) (reg_poller s)) as (i & p1 & E1 & R1 & F1 & _); [done|].
    rewrite E1 in Hu. injection Hu as <- <-.
    by apply (reg_inv_replace s id c (set_index i (with_events e c))).
  - destruct (proj1 Hinv id c Hc) as [Hid Hreg].
    destruct (remove_channel_spec c (reg_poller s) Hreg) as (p1 & E1 & R1 & F1).
    rewrite E1 in Hr. injection Hr as <- <-.
    by apply (reg_inv_replace s id c (set_index KNew c)).
  - by eapply reg_inv_destroy.
Qed.

Lemma reg_inv_init k : interest k = ∅ → reg_inv (mkRegistry ∅ (mkPoller KInitEventListSize ∅ k)).
Proof. intros Hk. split_and!; cbn; rewrite ?Hk; intros *; by rewrite lookup_empty. Qed.

Lemma reg_inv_reachable k s :
  interest k = ∅ → rtc reg_step (mkRegistry ∅ (mkPoller KInitEventListSize ∅ k)) s → reg_inv s.
Proof.
  intros Hk Hs. remember (mkRegistry _ _) as s0 eqn:E0. assert (H0 : reg_inv s0) by (subst; by apply reg_inv_init).
  clear E0. induction Hs as [|s1 s2 s3 H12 _ IH]; [done|]. apply IH. by eapply reg_inv_step.
Qed.

(** Delivering a ready list to live channels only. *)
Lemma fill_live ready (heap : gmap nat (Channel CB)) active :
  (∀ ev, ev ∈ ready → is_Some (heap !! ev.2)) →
  ∃ heap', foldM (fun (ev : Z * nat) (st : gmap nat (Channel CB) * list nat) =>
           let '(heap, active) := st in
           match heap !! ev.2 with
           | None => Fault Undefined
           | Some c => Ok (<[ev.2 := set_revents ev.1 c]> heap, active ++ [ev.2])
           end) ready (heap, active) = Ok (heap', active ++ ready.*2) ∧ dom heap' = dom heap.
Proof.
  revert heap active; induction ready as [|[m i] ready IH]; intros heap active Hl; cbn.
  - rewrite app_nil_r. eauto.
  - destruct (Hl (m, i)) as [c Hc]; [set_solver|]. cbn in Hc. rewrite Hc. cbn.
    destruct (IH (<[i := set_revents m c]> heap) (active ++ [i])) as (h' & -> & Hd).
    { intros ev Hev. rewrite lookup_insert_is_Some. destruct (decide (i = ev.2)); [by left|].
      right. split; [done|]. apply Hl. set_solver. }
    exists h'. rewrite <-app_assoc. split; [done|]. rewrite Hd, dom_insert_L.
    assert (i ∈ dom heap) by (apply elem_of_dom; eauto). set_solver.
Qed.

End Registry.

