(* ===== verification/EventLoop.v ===== *)
(** * EventLoop: the reactor of one thread

    Models [plugins/Muduo/muduo/net/EventLoop.h] and [EventLoop.cpp]. The loop's state is a record;
    the process state around it ([World]) adds the heap of live channels and the application. The
    stored callbacks [CB] and queued functors [T] are run by interpreters given as arguments.
    [runner_] is the thread that executes the call ([current_thread::id()]). The eventfd is the class
    [EventfdKernel]. Timers are in [Timers]. *)

From S2P Require Import Prelude Channel Poller.

(** ** The eventfd *)

(** [write] and [read] of 8 bytes: the return value and the new kernel state; [efd_count] is the
    counter as the specification sees it. *)
Class EventfdKernel (E : Type) := {
  efd_write : E → Z * E;
  efd_read : E → Z * E;
  efd_count : E → Z
}.

(** eventfd(2): a write of 1 adds one unless the counter is at its maximum; a read of a non-zero
    counter resets it, a read of a zero counter fails (non-blocking). *)
Class EventfdLaws (E : Type) `{EventfdKernel E} := {
  efd_nonneg e : 0 <= efd_count e;
  efd_write_ok e : efd_count e < 2 ^ 64 - 2 → ∃ e', efd_write e = (8, e');
  efd_write_adds e e' : efd_write e = (8, e') → efd_count e' = efd_count e + 1;
  efd_read_ok e : 0 < efd_count e → ∃ e', efd_read e = (8, e') ∧ efd_count e' = 0;
  efd_read_fail e : efd_count e = 0 → ∃ e', efd_read e = (-1, e') ∧ efd_count e' = 0
}.

(** The counter itself is such a kernel. *)
#[global] Instance counter_eventfd : EventfdKernel N := {|
  efd_write c := if (c <? 2 ^ 64 - 2)%N then (8, (c + 1)%N) else (-1, c);
  efd_read c := if (0 <? c)%N then (8, 0%N) else (-1, c);
  efd_count c := Z.of_N c
|}.
#[global] Instance counter_eventfd_laws : EventfdLaws N.
Proof.
  split; cbn.
  - lia.
  - intros e He. rewrite (proj2 (N.ltb_lt _ _)) by lia. eauto.
  - intros e e'. destruct (e <? 2 ^ 64 - 2)%N; intros [= <-]. lia.
  - intros e He. rewrite (proj2 (N.ltb_lt _ _)) by lia. eauto.
  - intros e He. rewrite (proj2 (N.ltb_ge _ _)) by lia. exists e. by split.
Qed.

(** ** State *)

(* @src EventLoop.h | std::atomic<bool> looping_; | std::vector<Functor> pendingFunctors_; | EventLoop *)
Record EventLoop (T K E : Type) := mkLoop {
  self_ : nat;
  looping_ : bool;
  quit_ : bool;
  started_ : bool;
  lp_eventHandling_ : bool;
  callingPendingFunctors_ : bool;
  threadId_ : Z;
  pollReturnTime_ : Z;
  poller_ : EPollPoller K;
  wakeupFd_ : E;
  activeChannels_ : list nat;
  currentActiveChannel_ : option nat;
  pendingFunctors_ : list T;
  runner_ : Z
}.
Arguments mkLoop {T K E}.
Arguments self_ {T K E}.
Arguments looping_ {T K E}.
Arguments quit_ {T K E}.
Arguments started_ {T K E}.
Arguments lp_eventHandling_ {T K E}.
Arguments callingPendingFunctors_ {T K E}.
Arguments threadId_ {T K E}.
Arguments pollReturnTime_ {T K E}.
Arguments poller_ {T K E}.
Arguments wakeupFd_ {T K E}.
Arguments activeChannels_ {T K E}.
Arguments currentActiveChannel_ {T K E}.
Arguments pendingFunctors_ {T K E}.
Arguments runner_ {T K E}.

(* @src EventLoop.cpp | const int KPollTimeMs *)
Definition KPollTimeMs : Z := 10000.

Section Loop.
Context {CB T K E : Type} `{EK : EpollKernel K} `{EF : EventfdKernel E}.
Implicit Types (l : EventLoop T K E) (c : Channel CB).

(** Assignments to the members. *)
Definition set_flags (looping quit started handling calling : bool) l : EventLoop T K E :=
  mkLoop (self_ l) looping quit started handling calling (threadId_ l) (pollReturnTime_ l) (poller_ l)
    (wakeupFd_ l) (activeChannels_ l) (currentActiveChannel_ l) (pendingFunctors_ l) (runner_ l).
Definition set_looping b l := set_flags b (quit_ l) (started_ l) (lp_eventHandling_ l) (callingPendingFunctors_ l) l.
Definition set_quit b l := set_flags (looping_ l) b (started_ l) (lp_eventHandling_ l) (callingPendingFunctors_ l) l.
Definition set_started b l := set_flags (looping_ l) (quit_ l) b (lp_eventHandling_ l) (callingPendingFunctors_ l) l.
Definition set_handling b l := set_flags (looping_ l) (quit_ l) (started_ l) b (callingPendingFunctors_ l) l.
Definition set_calling b l := set_flags (looping_ l) (quit_ l) (started_ l) (lp_eventHandling_ l) b l.
Definition set_poller p l : EventLoop T K E :=
  mkLoop (self_ l) (looping_ l) (quit_ l) (started_ l) (lp_eventHandling_ l) (callingPendingFunctors_ l) (threadId_ l)
    (pollReturnTime_ l) p (wakeupFd_ l) (activeChannels_ l) (currentActiveChannel_ l) (pendingFunctors_ l) (runner_ l).
Definition set_wakeupFd e l : EventLoop T K E :=
  mkLoop (self_ l) (looping_ l) (quit_ l) (started_ l) (lp_eventHandling_ l) (callingPendingFunctors_ l) (threadId_ l)
    (pollReturnTime_ l) (poller_ l) e (activeChannels_ l) (currentActiveChannel_ l) (pendingFunctors_ l) (runner_ l).
Definition set_active t a cur l : EventLoop T K E :=
  mkLoop (self_ l) (looping_ l) (quit_ l) (started_ l) (lp_eventHandling_ l) (callingPendingFunctors_ l) (threadId_ l)
    t (poller_ l) (wakeupFd_ l) a cur (pendingFunctors_ l) (runner_ l).
Definition set_pending q l : EventLoop T K E :=
  mkLoop (self_ l) (looping_ l) (quit_ l) (started_ l) (lp_eventHandling_ l) (callingPendingFunctors_ l) (threadId_ l)
    (pollReturnTime_ l) (poller_ l) (wakeupFd_ l) (activeChannels_ l) (currentActiveChannel_ l) q (runner_ l).

(** The same object, used by thread [t]. *)
Definition run_by (t : Z) l : EventLoop T K E :=
  mkLoop (self_ l) (looping_ l) (quit_ l) (started_ l) (lp_eventHandling_ l) (callingPendingFunctors_ l) (threadId_ l)
    (pollReturnTime_ l) (poller_ l) (wakeupFd_ l) (activeChannels_ l) (currentActiveChannel_ l) (pendingFunctors_ l) t.

(* @src EventLoop.cpp | bool EventLoop::isInLoopThread() *)
Definition isInLoopThread l : bool := threadId_ l =? runner_ l.

(* @src EventLoop.cpp | void EventLoop::assertInLoopThread() | exit(EXIT_FAILURE); *)
Definition assertInLoopThread l : outcome unit :=
  if isInLoopThread l then Ok tt else Fault ExitFailure.

(* @src EventLoop.cpp | void EventLoop::updateChanel(Channel* channel) *)
Definition loop_updateChanel c l : outcome (Channel CB * EventLoop T K E) :=
  assert_ (loop_ c =? self_ l)%nat;;
  assertInLoopThread l;;
  '(c, p) ← poller_updateChannel (isInLoopThread l) c (poller_ l);
  Ok (c, set_poller p l).

(* @src EventLoop.cpp | void EventLoop::removeChannel(Channel* channel) *)
Definition loop_removeChannel c l : outcome (Channel CB * EventLoop T K E) :=
  assert_ (loop_ c =? self_ l)%nat;;
  assertInLoopThread l;;
  (if lp_eventHandling_ l
   then assert_ (bool_decide (currentActiveChannel_ l = Some (id_ c)) ||
                 negb (bool_decide (id_ c ∈ activeChannels_ l)))
   else Ok tt);;
  '(c, p) ← poller_removeChannel (isInLoopThread l) c (poller_ l);
  Ok (c, set_poller p l).

(* @src EventLoop.cpp | void EventLoop::wakeup() *)
Definition wakeup l : outcome (EventLoop T K E) :=
  let '(n, e) := efd_write (wakeupFd_ l) in
  if n =? 8 then Ok (set_wakeupFd e l) else Fault ExitFailure.

(* @src EventLoop.cpp | void EventLoop::handleRead() *)
Definition loop_handleRead l : outcome (EventLoop T K E) :=
  let '(n, e) := efd_read (wakeupFd_ l) in
  if n =? 8 then Ok (set_wakeupFd e l) else Fault ExitFailure.

(* @src EventLoop.cpp | void EventLoop::quit() *)
Definition quit l : outcome (EventLoop T K E) :=
  when (negb (isInLoopThread l)) wakeup (set_quit true l).

(* @src EventLoop.cpp | void EventLoop::queueInLoop(const Functor& cb) *)
Definition loop_queueInLoop (cb : T) l : outcome (EventLoop T K E) :=
  let l := set_pending (pendingFunctors_ l ++ [cb]) l in
  when (negb (isInLoopThread l) || callingPendingFunctors_ l) wakeup l.

#[global] Instance loop_services : LoopServices CB T (EventLoop T K E) := {|
  inLoopThread := isInLoopThread;
  updateChanel := loop_updateChanel;
  removeChannel := loop_removeChannel;
  queueInLoop := loop_queueInLoop
|}.

(** [evfd] is the result of [eventfd(2)]. *)
(* @src EventLoop.cpp | int createEventfd() { *)
Definition createEventfd (evfd : Z) : outcome Z := if evfd <? 0 then Fault ExitFailure else Ok evfd.

(** The constructor, with the results of [epoll_create] and [eventfd] and the thread-local
    [t_loopInThisThread] as arguments; the wakeup channel [wakeup_ch] watches the eventfd. *)
(* @src EventLoop.cpp | EventLoop::EventLoop() | wakeupChannel_->enableReading(); *)
Definition newEventLoop (self wakeup_ch : nat) (tid epollfd evfd : Z) (k : K) (e : E)
    (loopInThisThread : option nat) (wakeupCb : CB) : outcome (Channel CB * EventLoop T K E) :=
  p ← newPoller epollfd k;
  evfd ← createEventfd evfd;
  let l := mkLoop self false false false false false tid 0 p e [] None [] tid in
  if loopInThisThread is Some _ then Fault ExitFailure else
  let c := setReadCallback wakeupCb (newChannel wakeup_ch self evfd) in
  enableReading (T := T) c l.

(** The thread-local pointer: what the constructor leaves in it when it succeeds, what is read, and what the
    destructor leaves in the thread that runs it. *)
(* @src EventLoop.cpp | t_loopInThisThread = this; *)
Definition set_loopInThisThread (self : nat) : option nat := Some self.
(* @src EventLoop.cpp | EventLoop* EventLoop::getEventLoopOfCurrentThread() *)
Definition getEventLoopOfCurrentThread (loopInThisThread : option nat) : option nat := loopInThisThread.
(* @src EventLoop.cpp | EventLoop::~EventLoop() *)
Definition loop_destroy (loopInThisThread : option nat) : option nat := None.
End Loop.

(** ** The loop and the state around it *)

Record World (CB T K E A : Type) := mkWorld {
  wl : EventLoop T K E;
  heap : gmap nat (Channel CB);
  app : A
}.
Arguments mkWorld {CB T K E A}.
Arguments wl {CB T K E A}.
Arguments heap {CB T K E A}.
Arguments app {CB T K E A}.

Section Run.
Context {CB T K E A : Type} `{EK : EpollKernel K} `{EF : EventfdKernel E}.
Local Abbreviation W := (World CB T K E A).
Context (runCB : CB → W → outcome W) (runT : T → W → outcome W) (alive : nat → W → bool).
Implicit Types w : W.

Definition on_loop (f : EventLoop T K E → outcome (EventLoop T K E)) w : outcome W :=
  l ← f (wl w); Ok (mkWorld l (heap w) (app w)).
Definition upd_loop (f : EventLoop T K E → EventLoop T K E) w : W := mkWorld (f (wl w)) (heap w) (app w).

(* @src EventLoop.cpp | void EventLoop::runInLoop(const Functor& cb) *)
Definition runInLoop (cb : T) w : outcome W :=
  if isInLoopThread (wl w) then runT cb w else on_loop (loop_queueInLoop cb) w.

(* @src EventLoop.cpp | void EventLoop::doPendingFunctors() *)
Definition doPendingFunctors w : outcome W :=
  let w := upd_loop (set_calling true) w in
  let functors := pendingFunctors_ (wl w) in
  let w := upd_loop (set_pending []) w in
  w ← foldM runT functors w;
  Ok (upd_loop (set_calling false) w).

(** [it->handleEvent(...)] through the pointer [it]: undefined when the channel is gone, also when it
    was destroyed by its own callbacks. *)
(* @src EventLoop.cpp | it->handleEvent(pollReturnTime_); | it->handleEvent(pollReturnTime_); | EventLoop::loop *)
Definition handle_active (it : nat) w : outcome W :=
  match heap w !! it with
  | None => Fault Undefined
  | Some c0 =>
      w ← handleEvent (fun w => default c0 (heap w !! it))
            (fun c w => mkWorld (wl w) (alter (fun _ => c) it (heap w)) (app w)) alive runCB w;
      if heap w !! it is Some _ then Ok w else Fault Undefined
  end.

(** One turn of the [while] of [loop()], with the result of [epoll_wait] and the clock. *)
(* @src EventLoop.cpp | activeChannels_.clear(); | doPendingFunctors(); | EventLoop::loop *)
Definition loop_turn (r : wait_result) (now : Z) w : outcome W :=
  '(t, h, active, p) ← poll r now (heap w) (poller_ (wl w));
  let w := mkWorld (set_handling true (set_active t active (currentActiveChannel_ (wl w)) (set_poller p (wl w)))) h (app w) in
  w ← foldM (fun it w =>
               let w := upd_loop (fun l => set_active (pollReturnTime_ l) (activeChannels_ l) (Some it) l) w in
               handle_active it w) active w;
  let w := upd_loop (fun l => set_handling false (set_active (pollReturnTime_ l) (activeChannels_ l) None l)) w in
  doPendingFunctors w.

(** [while (!quit_)]: one poll result per turn; [false]: still looping when the results run out. *)
(* @src EventLoop.cpp | while (!quit_) { | doPendingFunctors(); | EventLoop::loop *)
Fixpoint loop_turns (polls : list (wait_result * Z)) w : outcome (bool * W) :=
  if quit_ (wl w) then Ok (true, upd_loop (set_looping false) w)
  else match polls with
       | [] => Ok (false, w)
       | (r, now) :: polls => w ← loop_turn r now w; loop_turns polls w
       end.

(* @src EventLoop.cpp | void EventLoop::loop() *)
Definition loop (polls : list (wait_result * Z)) w : outcome (bool * W) :=
  assert_ (negb (looping_ (wl w)));;
  assertInLoopThread (wl w);;
  let w := upd_loop (set_looping true) w in
  let w := if started_ (wl w) then upd_loop (set_quit false) w else w in
  let w := upd_loop (set_started true) w in
  loop_turns polls w.
End Run.

(** ** The loop keeps its promises *)

Section Laws.
Context {CB T K E : Type} `{EK : EpollKernel K} `{EL : !EpollLaws K} `{EF : EventfdKernel E} `{ELw : !EventfdLaws E}.
Implicit Types (l : EventLoop T K E) (c : Channel CB).

Definition loop_chan_ok c l : Prop := loop_ c = self_ l ∧ registered c (poller_ l).
Definition loop_removable c l : Prop :=
  lp_eventHandling_ l = true → currentActiveChannel_ l = Some (id_ c) ∨ id_ c ∉ activeChannels_ l.
Definition loop_can_queue (n : nat) l : Prop :=
  (isInLoopThread l = true ∧ callingPendingFunctors_ l = false) ∨ efd_count (wakeupFd_ l) + Z.of_nat n <= 2 ^ 64 - 2.

Lemma wakeup_ok l :
  efd_count (wakeupFd_ l) < 2 ^ 64 - 2 →
  ∃ e, wakeup l = Ok (set_wakeupFd e l) ∧ efd_count e = efd_count (wakeupFd_ l) + 1.
Proof. intros H. unfold wakeup. destruct (efd_write_ok _ H) as (e & W). rewrite W. exists e. split; [done|]. by apply efd_write_adds. Qed.

Lemma wakeup_inv l l' : wakeup l = Ok l' → ∃ e, l' = set_wakeupFd e l ∧ efd_count e = efd_count (wakeupFd_ l) + 1.
Proof.
  unfold wakeup. destruct (efd_write (wakeupFd_ l)) as [n e] eqn:W. destruct (n =? 8) eqn:N; [|done]. bool_prop. subst n.
  intros [= <-]. exists e. split; [done|]. by apply efd_write_adds.
Qed.

#[global] Instance loop_laws : LoopLaws CB T (EventLoop T K E).
Proof.
  refine {| chan_ok := loop_chan_ok; removable := loop_removable; can_queue := loop_can_queue;
            queued := pendingFunctors_ |}.
  - intros c d l E1 E2 E3 E4 [H1 H2]. split; [congruence|]. revert H2. unfold registered. by rewrite E1, E3, E4.
  - intros c d l Eid. unfold loop_removable. by rewrite Eid.
  - intros n m l Hm [H|H]; [by left|right; lia].
  - intros c l Hin [Hself Hreg]. cbn in *. unfold loop_updateChanel, assertInLoopThread.
    rewrite Hin, (proj2 (Nat.eqb_eq _ _)) by done.
    destruct (update_channel_spec c (poller_ l) Hreg) as (i & p & -> & R & F & _). cbn.
    exists i, (set_poller p l). split_and!; try done.
    intros d Hd [? ?]. split; [done|]. by eapply registered_frame.
  - intros c l Hin [Hself Hreg] Hrem. cbn in *. unfold loop_removeChannel, assertInLoopThread.
    rewrite Hin, (proj2 (Nat.eqb_eq _ _)) by done. cbn [assert_ mbind outcome_bind].
    assert ((if lp_eventHandling_ l then assert_ (bool_decide (currentActiveChannel_ l = Some (id_ c)) ||
        negb (bool_decide (id_ c ∈ activeChannels_ l))) else Ok tt) = Ok tt) as ->.
    { destruct (lp_eventHandling_ l) eqn:Eh; [|done]. apply assert_true, orb_true_iff. destruct (Hrem Eh) as [->|H].
      - left. by apply bool_decide_eq_true_2.
      - right. by rewrite bool_decide_eq_false_2. }
    destruct (remove_channel_spec c (poller_ l) Hreg) as (p & -> & R & F). cbn.
    exists KNew, (set_poller p l). split_and!; try done.
    + intros d Hd [? ?]. split; [done|]. by eapply registered_frame.
    + intros d El Ef Ei. split; [cbn; congruence|]. left. destruct R as [(_ & R)|[(R & _)|(R & _)]]; [|done..].
      cbn in R. rewrite Ef. by split.
  - intros n t l Hq. cbn. unfold loop_queueInLoop, when.
    set (l' := set_pending (pendingFunctors_ l ++ [t]) l).
    change (negb (isInLoopThread l') || callingPendingFunctors_ l')
      with (negb (isInLoopThread l) || callingPendingFunctors_ l).
    destruct (negb (isInLoopThread l) || callingPendingFunctors_ l) eqn:Eb.
    + destruct Hq as [[H1 H2]|Hc]; [by rewrite H1, H2 in Eb|].
      destruct (wakeup_ok l') as (e & -> & He); [cbn; lia|].
      exists (set_wakeupFd e l'). split_and!; try done. right. cbn in *. lia.
    + exists l'. split_and!; try done. left. apply orb_false_iff in Eb as [Eb1 Eb2].
      split; [by apply negb_false_iff in Eb1|done].
Defined.

(** A new loop: one per thread, and only with both descriptors. It belongs to the thread that made it, idle and
    empty, with its eventfd registered for reading. *)
Theorem new_loop_ready (self ch : nat) (tid epollfd evfd : Z) (k : K) (e : E) (current : option nat) (cb : CB) :
  interest k !! evfd = None →
  if (epollfd <? 0) || (evfd <? 0) || bool_decide (is_Some (getEventLoopOfCurrentThread current))
  then newEventLoop (T := T) self ch tid epollfd evfd k e current cb = Fault ExitFailure
  else ∃ c l, newEventLoop (T := T) self ch tid epollfd evfd k e current cb = Ok (c, l) ∧
         loop_chan_ok c l ∧ index_ c = KAdded ∧ events_ c = KReadEvent ∧ interest (kernel (poller_ l)) !! evfd = Some (KReadEvent, ch) ∧
         isInLoopThread l = true ∧ pendingFunctors_ l = [] ∧ looping_ l = false ∧ quit_ l = false.
Proof.
  intros Hk. unfold newEventLoop, newPoller, createEventfd, getEventLoopOfCurrentThread.
  destruct (epollfd <? 0); [done|]. cbn [mbind outcome_bind orb]. destruct (evfd <? 0); [done|]. cbn [mbind outcome_bind orb].
  destruct current as [o|]; [by rewrite bool_decide_eq_true_2 by eauto|]. rewrite bool_decide_eq_false_2 by (by intros [? ?]).
  unfold enableReading, update. set (l := mkLoop _ _ _ _ _ _ _ _ _ _ _ _ _ _). set (c := with_events _ _).
  cbn [updateChanel loop_services]. unfold loop_updateChanel, assertInLoopThread, isInLoopThread.
  change (loop_ c) with (self_ l). rewrite Nat.eqb_refl. cbn [assert_ mbind outcome_bind]. change (runner_ l) with tid. change (threadId_ l) with tid. rewrite Z.eqb_refl.
  destruct (update_channel_spec c (poller_ l)) as (i & p & -> & R & _ & Ei & Em); [by left|].
  eexists _, _. split; [reflexivity|]. subst i. cbn in Em |- *. unfold mask_of in Em.
  pose proof R as Rg. destruct R as [(X & _)|[(_ & _ & ev & Hi)|(X & _)]]; [done| |done]. cbn in Hi.
  change (fd_ c) with evfd in Em. rewrite Hi in Em. injection Em as ->. by split_and!; [split| | | |apply Z.eqb_refl|..].
Qed.
End Laws.

(** ** Quitting *)

Section Quit.
Context {CB T K E A : Type} `{EK : EpollKernel K} `{EF : EventfdKernel E} `{ELw : !EventfdLaws E}.
Local Abbreviation W := (World CB T K E A).
Context (runCB : CB → W → outcome W) (runT : T → W → outcome W) (alive : nat → W → bool).

(** A [quit()] from any thread before the loop's first [loop()] is honoured: [loop()] returns without
    a single poll, the queued functors untouched. On an [EventLoop] that has looped before, [loop()]
    discards the earlier request: it polls, and leaves only on a [quit()] made after its entry. *)
Theorem quit_before_loop (l l1 : EventLoop T K E) (t : Z) (h : gmap nat (Channel CB)) (a : A) polls :
  quit (run_by t l) = Ok l1 → looping_ l = false →
  let w := mkWorld (run_by (threadId_ l) l1) h a in
  if started_ l
  then loop runCB runT alive [] w = Ok (false, upd_loop (set_looping true) (upd_loop (set_quit false) w))
  else ∃ w', loop runCB runT alive polls w = Ok (true, w') ∧ looping_ (wl w') = false ∧
         pendingFunctors_ (wl w') = pendingFunctors_ l ∧ heap w' = h ∧ app w' = a.
Proof.
  intros Q Lp. cbn zeta.
  assert (H : quit_ l1 = true ∧ looping_ l1 = false ∧ started_ l1 = started_ l ∧ threadId_ l1 = threadId_ l ∧
              pendingFunctors_ l1 = pendingFunctors_ l).
  { unfold quit, when in Q. destruct (negb _).
    - apply wakeup_inv in Q as (e & -> & _). by split_and!.
    - injection Q as <-. by split_and!. }
  destruct H as (H1 & H2 & H3 & H4 & H5).
  unfold loop, assertInLoopThread, isInLoopThread. cbn. rewrite H2, H4, Z.eqb_refl. cbn. rewrite H3.
  destruct (started_ l) eqn:Es; cbn.
  - unfold upd_loop, set_started, set_quit, set_looping, set_flags. cbn. by rewrite H3.
  - destruct polls; cbn; rewrite H1; eexists; (split; [done|]); by rewrite <-H5.
Qed.
End Quit.

(** A fresh loop of thread 1 on the model kernels; thread 2 asks it to quit. *)
Definition fresh_loop : EventLoop nat (gmap Z (Z * nat)) N :=
  mkLoop 0 false false false false false 1 0 (mkPoller 16 ∅ ∅) 0%N [] None [5%nat] 1.

Lemma quit_before_loop_witness :
  ∃ w', loop (A := unit) (CB := nat) (fun _ => Ok) (fun _ => Ok) (fun _ _ => true) []
          (mkWorld (set_wakeupFd 1%N (set_quit true fresh_loop)) ∅ tt) = Ok (true, w') ∧
        looping_ (wl w') = false ∧ pendingFunctors_ (wl w') = [5%nat] ∧ heap w' = ∅ ∧ app w' = tt.
Proof.
  exact (quit_before_loop (CB := nat) (A := unit) (fun _ => Ok) (fun _ => Ok) (fun _ _ => true)
    fresh_loop (mkLoop 0 false true false false false 1 0 (mkPoller 16 ∅ ∅) 1%N [] None [5%nat] 2)
    2 ∅ tt [] eq_refl eq_refl).
Defined.
