(* ===== verification/Timestamp.v ===== *)
(** * Timestamp: microseconds since the epoch

    Models [deps/common/base/timestamp.h] and [timestamp.cpp]. A timestamp is its 64-bit count of
    microseconds. [double] is the binary64 format of the Standard Library's [SpecFloat], with its
    rounding; [gmtime_r] is the Gregorian calendar of the C library. *)

From Stdlib Require Import SpecFloat.
From S2P Require Import Prelude.

(** ** double *)

Abbreviation double := spec_float.
Definition double_of_Z (z : Z) : double := binary_normalize 53 1024 z 0 false.
Definition dmul : double → double → double := SFmul 53 1024.
Definition ddiv : double → double → double := SFdiv 53 1024.

(** [static_cast<int64_t>(d)]: truncation; undefined when the result does not fit. *)
Definition int64_of_double (d : double) : outcome Z :=
  match d with
  | S754_zero _ => Ok 0
  | S754_finite s m e =>
      let a := if 0 <=? e then Z.pos m * 2 ^ e else Z.pos m / 2 ^ (- e) in
      let z := if s then - a else a in
      if (INT64_MIN <=? z) && (z <=? INT64_MAX) then Ok z else Fault Undefined
  | _ => Fault Undefined
  end.

(** Signed 64-bit addition: overflow is undefined. *)
Definition add_i64 (a b : Z) : outcome Z :=
  if (INT64_MIN <=? a + b) && (a + b <=? INT64_MAX) then Ok (a + b) else Fault Undefined.

Lemma add_i64_ok a b : INT64_MIN <= a + b <= INT64_MAX → add_i64 a b = Ok (a + b).
Proof. intros [? ?]. unfold add_i64. by rewrite (proj2 (Z.leb_le _ _)), (proj2 (Z.leb_le _ _)). Qed.

Lemma add_i64_inv a b z : add_i64 a b = Ok z → z = a + b.
Proof. unfold add_i64. by case_match; intros [= <-]. Qed.

(** ** Timestamp *)

Abbreviation Timestamp := Z (only parsing).
(* @src timestamp.h | static constexpr int kMicroSecondsPerSecond *)
Definition kMicroSecondsPerSecond : Z := 1000 * 1000.

(* @src timestamp.cpp | Timestamp Timestamp::invalid() *)
Definition invalid : Timestamp := 0.
(* @src timestamp.cpp | bool Timestamp::valid() *)
Definition valid (t : Timestamp) : bool := 0 <? t.
(* @src timestamp.cpp | time_t Timestamp::seconds_since_epoch() *)
Definition seconds_since_epoch (t : Timestamp) : Z := t ÷ kMicroSecondsPerSecond.
(** [Timestamp::now] from the [timeval] that [gettimeofday] fills. *)
(* @src timestamp.cpp | Timestamp Timestamp::now() *)
Definition now_of (tv_sec tv_usec : Z) : Timestamp := tv_sec * kMicroSecondsPerSecond + tv_usec.
(* @src timestamp.h | inline bool operator< *)
Definition ts_lt (a b : Timestamp) : bool := a <? b.
(* @src timestamp.h | inline bool operator== *)
Definition ts_eq (a b : Timestamp) : bool := a =? b.
(* @src timestamp.h | inline double time_difference( *)
Definition time_difference (high low : Timestamp) : outcome double :=
  diff ← add_i64 high (- low);
  Ok (ddiv (double_of_Z diff) (double_of_Z kMicroSecondsPerSecond)).
(* @src timestamp.h | inline Timestamp add_time( *)
Definition add_time (t : Timestamp) (seconds : double) : outcome Timestamp :=
  delta ← int64_of_double (dmul seconds (double_of_Z kMicroSecondsPerSecond));
  add_i64 t delta.

(* @src timestamp.cpp | std::string Timestamp::to_string() *)
Definition to_string (t : Timestamp) : chars :=
  let seconds := t ÷ kMicroSecondsPerSecond in
  let microseconds := Z.rem t kMicroSecondsPerSecond in
  snprintf 31 (dec seconds ++ $"." ++ dec0 6 microseconds).

(** ** gmtime_r *)

Record tm := mkTm { tm_year : Z; tm_mon : Z; tm_mday : Z; tm_hour : Z; tm_min : Z; tm_sec : Z }.

(** The calendar: leap years, the days of a month, the days before a date. *)
Definition leap (y : Z) : bool := ((y mod 4 =? 0) && negb (y mod 100 =? 0)) || (y mod 400 =? 0).
Definition days_in_month (y m : Z) : Z :=
  if m =? 2 then if leap y then 29 else 28
  else if (m =? 4) || (m =? 6) || (m =? 9) || (m =? 11) then 30 else 31.
Definition days_in_year (y : Z) : Z := if leap y then 366 else 365.

(** Years are counted from March: the days before year [y] and, in it, before month [m]. *)
Definition year_base (y : Z) : Z :=
  let era := y / 400 in
  let yoe := y - era * 400 in
  era * 146097 + yoe * 365 + yoe / 4 - yoe / 100.
Definition month_base (m : Z) : Z := (153 * (if m <=? 2 then m + 9 else m - 3) + 2) / 5.

(** Days from 1970-01-01 to the day [d] of month [m] of year [y]. *)
Definition days_from_civil (y m d : Z) : Z :=
  year_base (if m <=? 2 then y - 1 else y) + month_base m + d - 1 - 719468.

(** The year of a day of a 400-year era and the day's number in it; the date in a year; the date of a
    day number. *)
Definition year_of_doe (doe : Z) : Z * Z :=
  let c := Z.min (doe / 36524) 3 in
  let r := doe - c * 36524 in
  let q := r / 1461 in
  let r' := r - q * 1461 in
  let y := Z.min (r' / 365) 3 in
  (100 * c + 4 * q + y, r' - y * 365).
Definition month_of_doy (doy : Z) : Z * Z :=
  let mp := (5 * doy + 2) / 153 in
  (if mp <? 10 then mp + 3 else mp - 9, doy - (153 * mp + 2) / 5 + 1).
Definition civil_from_days (z : Z) : Z * Z * Z :=
  let era := (z + 719468) / 146097 in
  let '(yoe, doy) := year_of_doe ((z + 719468) mod 146097) in
  let '(m, d) := month_of_doy doy in
  ((if m <=? 2 then yoe + 1 else yoe) + era * 400, m, d).

Definition gmtime_r (seconds : Z) : tm :=
  let day := seconds / 86400 in
  let s := seconds mod 86400 in
  let '(y, m, d) := civil_from_days day in
  mkTm (y - 1900) (m - 1) d (s / 3600) (s mod 3600 / 60) (s mod 60).

(* @src timestamp.cpp | std::string Timestamp::to_formatted_string() *)
Definition to_formatted_string (t : Timestamp) : chars :=
  let seconds := t ÷ kMicroSecondsPerSecond in
  let microseconds := Z.rem t kMicroSecondsPerSecond in
  let tm_time := gmtime_r seconds in
  snprintf 80 (fill " " 4 (dec (tm_year tm_time + 1900)) ++ dec0 2 (tm_mon tm_time + 1) ++
    dec0 2 (tm_mday tm_time) ++ $" " ++ dec0 2 (tm_hour tm_time) ++ $":" ++ dec0 2 (tm_min tm_time) ++
    $":" ++ dec0 2 (tm_sec tm_time) ++ $"." ++ dec0 6 microseconds).

(** ** The calendar is right *)

(** A boolean test on an interval, by evaluation. *)
Fixpoint all_from (P : Z → bool) (n : nat) (k : Z) : bool :=
  match n with O => true | S n => P k && all_from P n (k + 1) end.

Lemma all_from_spec (P : Z → bool) n a k : all_from P n a = true → a <= k < a + Z.of_nat n → P k = true.
Proof.
  revert a; induction n as [|n IH]; intros a H Hk; [lia|]. cbn in H. apply andb_true_iff in H as [H1 H2].
  destruct (decide (k = a)) as [->|]; [done|]. eapply IH; [done|lia].
Qed.

Lemma mod_shift_era a e n : n ≠ 0 → (400 mod n = 0) → (a + e * 400) mod n = a mod n.
Proof.
  intros Hn H. apply Z.mod_divide in H as [c Hc]; [|done]. rewrite Hc, Z.mul_assoc. by rewrite Z.mod_add.
Qed.

Lemma leap_shift y e : leap (y + e * 400) = leap y.
Proof. unfold leap. by rewrite (mod_shift_era y e 4), (mod_shift_era y e 100), (mod_shift_era y e 400). Qed.

Lemma days_from_civil_shift y m d e : days_from_civil (y + e * 400) m d = days_from_civil y m d + e * 146097.
Proof.
  unfold days_from_civil. set (y' := if m <=? 2 then y - 1 else y).
  assert ((if m <=? 2 then y + e * 400 - 1 else y + e * 400) = y' + e * 400) as -> by (subst y'; case_match; lia).
  unfold year_base. rewrite Z.div_add by lia.
  replace (y' + e * 400 - (y' / 400 + e) * 400) with (y' - y' / 400 * 400) by lia. lia.
Qed.

Lemma year_of_doe_ok doe :
  0 <= doe < 146097 →
  let '(yoe, doy) := year_of_doe doe in
  0 <= yoe < 400 ∧ year_base yoe + doy = doe ∧ 0 <= doy <= 365 ∧ (doy = 365 → leap (yoe + 1) = true).
Proof.
  intros H. unfold year_of_doe.
  set (c := Z.min (doe / 36524) 3). set (r := doe - c * 36524).
  set (q := r / 1461). set (r' := r - q * 1461). set (y := Z.min (r' / 365) 3).
  assert (Hc : 0 <= c <= 3 ∧ 0 <= r <= 36524 ∧ (r = 36524 → c = 3)) by (subst r c; Z.div_mod_to_equations; lia).
  assert (Hq : 0 <= q <= 24 ∧ 0 <= r' <= 1460) by (subst r' q; Z.div_mod_to_equations; lia).
  assert (Hy : 0 <= y <= 3 ∧ 0 <= r' - y * 365 <= 365 ∧ (r' - y * 365 = 365 → y = 3))
    by (subst y; Z.div_mod_to_equations; lia).
  clearbody y. assert (Er : r = q * 1461 + r') by (subst r'; lia). clearbody r'. clearbody q.
  assert (Ed : doe = c * 36524 + r) by (subst r; lia). clearbody r. clearbody c.
  unfold year_base, leap. split_and!; [lia|lia|Z.div_mod_to_equations; lia|lia|lia|].
  intros E. destruct (decide (q = 24)) as [->|].
  - assert (c = 3) as -> by lia. assert (y = 3) as -> by lia. done.
  - apply orb_true_iff. left. rewrite andb_true_iff, negb_true_iff, Z.eqb_eq, Z.eqb_neq.
    Z.div_mod_to_equations. lia.
Qed.

(** Every day of a year comes back from its date. *)
Definition month_ok (doy : Z) : bool :=
  let '(m, d) := month_of_doy doy in
  (month_base m + d - 1 =? doy) && (1 <=? m) && (m <=? 12) && (1 <=? d) &&
  (d <=? if m =? 2 then if doy =? 365 then 29 else 28 else days_in_month 0 m).

Lemma month_of_doy_ok doy :
  0 <= doy <= 365 →
  let '(m, d) := month_of_doy doy in
  month_base m + d - 1 = doy ∧ 1 <= m <= 12 ∧ 1 <= d ∧
  d <= if m =? 2 then if doy =? 365 then 29 else 28 else days_in_month 0 m.
Proof.
  intros H. assert (O : month_ok doy = true) by (apply (all_from_spec month_ok 366 0); [by vm_compute|lia]).
  unfold month_ok in O. destruct (month_of_doy doy) as [m d]. bool_prop. lia.
Qed.

Lemma civil_from_days_ok z :
  let '(y, m, d) := civil_from_days z in
  days_from_civil y m d = z ∧ 1 <= m <= 12 ∧ 1 <= d <= days_in_month y m.
Proof.
  unfold civil_from_days. pose proof (Z.mod_pos_bound (z + 719468) 146097 ltac:(lia)) as B.
  pose proof (Z.div_mod (z + 719468) 146097 ltac:(lia)) as D.
  pose proof (year_of_doe_ok _ B) as Y. destruct (year_of_doe _) as [yoe doy].
  destruct Y as (Y1 & Y2 & Y3 & Y4). pose proof (month_of_doy_ok doy Y3) as M.
  destruct (month_of_doy doy) as [m d]. destruct M as (M1 & M2 & M3 & M4).
  rewrite days_from_civil_shift. split_and!; [| lia | lia | lia |].
  - unfold days_from_civil. destruct (m <=? 2); [replace (yoe + 1 - 1) with yoe by lia|]; lia.
  - etrans; [exact M4|]. unfold days_in_month. rewrite leap_shift.
    destruct (m =? 2) eqn:Em; [|done]. bool_prop. subst m. change (2 <=? 2) with true. cbn iota.
    destruct (doy =? 365) eqn:E5; bool_prop; [by rewrite (Y4 E5)|case_match; lia].
Qed.

Definition feb_ok (y : Z) : bool := days_from_civil y 3 1 =? days_from_civil y 2 1 + days_in_month y 2.

Lemma feb_era y : 0 <= y < 400 → days_from_civil y 3 1 = days_from_civil y 2 1 + days_in_month y 2.
Proof. intros. apply Z.eqb_eq, (all_from_spec feb_ok 400 0); [by vm_compute|lia]. Qed.

Lemma feb_counts y : days_from_civil y 3 1 = days_from_civil y 2 1 + days_in_month y 2.
Proof.
  rewrite (Z.div_mod y 400) by lia. pose proof (Z.mod_pos_bound y 400 ltac:(lia)) as B.
  replace (400 * (y / 400) + y mod 400) with (y mod 400 + y / 400 * 400) by lia.
  rewrite !days_from_civil_shift. unfold days_in_month. rewrite leap_shift.
  fold (days_in_month (y mod 400) 2).
  rewrite (feb_era (y mod 400)) by lia. unfold days_in_month. lia.
Qed.

Lemma month_step m : 1 <= m < 12 → m ≠ 2 → month_base (m + 1) = month_base m + days_in_month 0 m.
Proof.
  intros. assert (m = 1 ∨ m = 3 ∨ m = 4 ∨ m = 5 ∨ m = 6 ∨ m = 7 ∨ m = 8 ∨ m = 9 ∨ m = 10 ∨ m = 11) as C by lia.
  by destruct C as [->|[->|[->|[->|[->|[->|[->|[->|[->| ->]]]]]]]]].
Qed.

(** The day count is the calendar's: it starts at 0 on 1970-01-01, grows by one per day of a month, and by
    the lengths of the months. *)
Lemma days_from_civil_counts y m d :
  days_from_civil 1970 1 1 = 0 ∧ days_from_civil y m (d + 1) = days_from_civil y m d + 1 ∧
  (1 <= m < 12 → days_from_civil y (m + 1) 1 = days_from_civil y m 1 + days_in_month y m) ∧
  days_from_civil (y + 1) 1 1 = days_from_civil y 12 1 + days_in_month y 12.
Proof.
  split; [reflexivity|]. split; [unfold days_from_civil; lia|]. split.
  - intros Hm. destruct (decide (m = 2)) as [->|]; [apply feb_counts|].
    unfold days_from_civil. rewrite month_step by done.
    replace (m + 1 <=? 2) with (m <=? 2) by (zdec (m <=? 2); zdec (m + 1 <=? 2); done).
    unfold days_in_month. rewrite (proj2 (Z.eqb_neq m 2)) by done. lia.
  - unfold days_from_civil, days_in_month. change (1 <=? 2) with true. change (12 <=? 2) with false. cbn iota.
    replace (y + 1 - 1) with y by lia. change (month_base 1) with 306. change (month_base 12) with 275. cbn. lia.
Qed.

(** ** Properties *)

Lemma gmtime_ok s :
  let t := gmtime_r s in
  days_from_civil (tm_year t + 1900) (tm_mon t + 1) (tm_mday t) * 86400 +
    tm_hour t * 3600 + tm_min t * 60 + tm_sec t = s ∧
  0 <= tm_mon t < 12 ∧ 1 <= tm_mday t <= days_in_month (tm_year t + 1900) (tm_mon t + 1) ∧
  0 <= tm_hour t < 24 ∧ 0 <= tm_min t < 60 ∧ 0 <= tm_sec t < 60.
Proof.
  unfold gmtime_r. pose proof (civil_from_days_ok (s / 86400)) as C.
  destruct (civil_from_days (s / 86400)) as [[y m] d]. cbn.
  replace (y - 1900 + 1900) with y by lia. replace (m - 1 + 1) with m by lia.
  destruct C as (-> & Hm & Hd). pose proof (Z.mod_pos_bound s 86400 ltac:(lia)).
  pose proof (Z.div_mod s 86400 ltac:(lia)). generalize dependent (s mod 86400). generalize (s / 86400).
  intros q x Hx ->. Z.div_mod_to_equations. lia.
Qed.

Lemma quot_rem_nonneg t : 0 <= t →
  t ÷ kMicroSecondsPerSecond = t / 1000000 ∧ Z.rem t kMicroSecondsPerSecond = t mod 1000000 ∧
  t / 1000000 * 1000000 + t mod 1000000 = t ∧ 0 <= t mod 1000000 < 1000000 ∧ 0 <= t / 1000000.
Proof.
  intros. unfold kMicroSecondsPerSecond. rewrite Z.quot_div_nonneg, Z.rem_mod_nonneg by lia.
  split_and!; [done..| | | |]; try (Z.div_mod_to_equations; lia).
Qed.

(** C9. Printing a timestamp loses nothing: for a time from the epoch on, [to_string] is the seconds in
    decimal, a dot and six digits of microseconds, fits its buffer, and the two numbers read back give
    the timestamp. *)
Theorem to_string_reads_back t :
  0 <= t <= INT64_MAX →
  ∃ s us, to_string t = s ++ $"." ++ us ∧ length us = 6%nat ∧ (length (to_string t) <= 20)%nat ∧
    Forall (fun c => is_digit c = true) s ∧ dval s * kMicroSecondsPerSecond + dval us = t.
Proof.
  intros [H0 Hmax]. destruct (quot_rem_nonneg t H0) as (E1 & E2 & E3 & E4 & E5).
  assert (Hs : t / 1000000 < 10 ^ Z.of_nat 13) by (apply Z.div_lt_upper_bound; unfold INT64_MAX in *; cbn in *; lia).
  pose proof (udec_length (t / 1000000) 13 ltac:(lia) ltac:(lia)).
  pose proof (udec_length (t mod 1000000) 6 ltac:(cbn; lia) ltac:(lia)).
  exists (udec (t / 1000000)), (fill "0" 6 (udec (t mod 1000000))).
  unfold to_string. rewrite E1, E2, dec0_nonneg, dec_nonneg by lia.
  assert (Ell : (length (udec (t / 1000000) ++ $"." ++ fill "0" 6 (udec (t mod 1000000))) <= 20)%nat).
  { rewrite !length_app, fill_length. cbn [length list_ascii_of_string]. lia. }
  rewrite snprintf_short by lia. rewrite fill_length, dval_fill, !udec_val by lia.
  split_and!; [done|lia|done|by apply udec_digits|unfold kMicroSecondsPerSecond; lia].
Qed.

Lemma to_string_reads_back_witness :
  to_string 1700000000000042 = $"1700000000.000042" ∧
  ∃ s us, to_string 1700000000000042 = s ++ $"." ++ us ∧ dval s * kMicroSecondsPerSecond + dval us = 1700000000000042.
Proof.
  split; [reflexivity|].
  destruct (to_string_reads_back 1700000000000042 ltac:(by vm_compute)) as (s & us & E & _ & _ & _ & V). eauto.
Defined.

Lemma dec0_length w z k : 0 <= z < 10 ^ Z.of_nat k → (0 < k <= w)%nat → length (dec0 w z) = w.
Proof.
  intros H Hk. rewrite dec0_nonneg, fill_length by lia. pose proof (udec_length z k H ltac:(lia)). lia.
Qed.

Lemma dec0_length2 z : 0 <= z < 100 → length (dec0 2 z) = 2%nat.
Proof. intros. apply (dec0_length 2 z 2); [done|lia]. Qed.

Lemma dec0_length6 z : 0 <= z < 1000000 → length (dec0 6 z) = 6%nat.
Proof. intros. apply (dec0_length 6 z 6); [done|lia]. Qed.

(** A date from 1970 on has a year that is not negative, and at most one per 365 days. *)
Lemma year_bound y m d : 0 <= days_from_civil y m d → 1 <= m <= 12 → 1 <= d <= 31 →
  0 <= y ∧ 365 * (y - 1) <= days_from_civil y m d + 719468.
Proof.
  unfold days_from_civil. intros H Hm Hd.
  assert (0 <= month_base m <= 337).
  { unfold month_base. case_match; bool_prop; Z.div_mod_to_equations; lia. }
  revert H. set (y' := if m <=? 2 then y - 1 else y). assert (y - 1 <= y' <= y) by (subst y'; case_match; lia).
  unfold year_base. clearbody y'. Z.div_mod_to_equations. lia.
Qed.

(** C10. The formatted time is the UTC calendar time: for a timestamp from the epoch on, the fields
    [to_formatted_string] prints are a date of the Gregorian calendar and a time of day whose distance
    from 1970-01-01 00:00:00, in the calendar's day count, is the timestamp; nothing is cut off. *)
Theorem formatted_is_utc t :
  0 <= t <= INT64_MAX →
  ∃ y m d h mi s us,
    to_formatted_string t = fill " " 4 (dec y) ++ dec0 2 m ++ dec0 2 d ++ $" " ++ dec0 2 h ++ $":" ++
      dec0 2 mi ++ $":" ++ dec0 2 s ++ $"." ++ dec0 6 us ∧
    1 <= m <= 12 ∧ 1 <= d <= days_in_month y m ∧ 0 <= h < 24 ∧ 0 <= mi < 60 ∧ 0 <= s < 60 ∧ 0 <= us < 1000000 ∧
    (days_from_civil y m d * 86400 + h * 3600 + mi * 60 + s) * 1000000 + us = t.
Proof.
  intros [H0 Hmax]. destruct (quot_rem_nonneg t H0) as (E1 & E2 & E3 & E4 & E5).
  unfold to_formatted_string. rewrite E1, E2.
  destruct (gmtime_ok (t / 1000000)) as (G & Gm & Gd & Gh & Gi & Gs).
  set (g := gmtime_r (t / 1000000)) in *.
  exists (tm_year g + 1900), (tm_mon g + 1), (tm_mday g), (tm_hour g), (tm_min g), (tm_sec g), (t mod 1000000).
  split; [|split_and!; lia].
  assert (Hd : 0 <= days_from_civil (tm_year g + 1900) (tm_mon g + 1) (tm_mday g)) by lia.
  assert (days_in_month (tm_year g + 1900) (tm_mon g + 1) <= 31) by (unfold days_in_month; repeat case_match; lia).
  destruct (year_bound _ _ _ Hd ltac:(lia) ltac:(lia)) as [Y1 Y2].
  assert (Hy : tm_year g + 1900 < 10 ^ Z.of_nat 6) by (unfold INT64_MAX in *; cbn in *; lia).
  apply snprintf_short. rewrite !length_app, fill_length, dec_nonneg by done.
  pose proof (udec_length (tm_year g + 1900) 6 ltac:(lia) ltac:(lia)).
  rewrite !dec0_length2, dec0_length6 by lia.
  cbn [length list_ascii_of_string]. lia.
Qed.

Lemma formatted_is_utc_witness :
  to_formatted_string 1709210096123456 = $"20240229 12:34:56.123456" ∧
  ∃ y m d h mi s us,
    to_formatted_string 1709210096123456 = fill " " 4 (dec y) ++ dec0 2 m ++ dec0 2 d ++ $" " ++ dec0 2 h ++ $":" ++
      dec0 2 mi ++ $":" ++ dec0 2 s ++ $"." ++ dec0 6 us ∧
    (days_from_civil y m d * 86400 + h * 3600 + mi * 60 + s) * 1000000 + us = 1709210096123456.
Proof.
  split; [by vm_compute|].
  destruct (formatted_is_utc 1709210096123456 ltac:(by vm_compute))
    as (y & m & d & h & mi & s & us & E & _ & _ & _ & _ & _ & _ & V).
  exists y, m, d, h, mi, s, us. by split.
Defined.
