(* ===== verification/Timers.v ===== *)
(** * Timers: the timer queue of a loop

    Models [plugins/Muduo/muduo/net/Timer.h], [Timer.cpp], [TimerId.h], [TimerQueue.h], [TimerQueue.cpp]
    and the timer functions of [EventLoop.cpp]. A [Timer*] is an address, [tq_heap] the live timers.
    [operator new] is the argument [alloc], which may hand out a freed address again. The ordered sets
    are a strictly sorted list ([timers_]) and a finite set ([activeTimers_]). Each operation takes the
    clock readings it makes as arguments. *)

From Stdlib Require Import SpecFloat Sorting.Sorted.
From S2P Require Import Prelude Channel Timestamp.

(** ** Timer and TimerId *)

(* @src Timer.h | const TimerCallback callback_; | static std::atomic_int64_t numCreated_; | Timer *)
Record Timer (C : Type) := mkTimer {
  callback_ : C;
  expiration_ : Timestamp;
  interval_ : double;
  repeat_ : bool;
  sequence_ : Z
}.
Arguments mkTimer {C}.
Arguments callback_ {C}.
Arguments expiration_ {C}.
Arguments interval_ {C}.
Arguments repeat_ {C}.
Arguments sequence_ {C}.

(* @src TimerId.h | class TimerId { | }; *)
Record TimerId := mkTimerId { timer_ : Z; sequenct_ : Z }.

(** The pair [ActiveTimer]. *)
(* @src TimerQueue.h | using ActiveTimer = *)
Definition ActiveTimer (i : TimerId) : Z * Z := (timer_ i, sequenct_ i).

Section Timer.
Context {C : Type}.

(** The constructor, with the counter before it. *)
(* @src Timer.cpp | Timer::Timer(TimerCallback cb, | sequence_(++numCreated_) {} *)
Definition newTimer (cb : C) (when : Timestamp) (interval : double) (numCreated : Z) : Timer C :=
  mkTimer cb when interval (SFltb (double_of_Z 0) interval) (i64 (numCreated + 1)).

(* @src Timer.cpp | void Timer::restart(common *)
Definition restart (now : Timestamp) (t : Timer C) : outcome (Timer C) :=
  e ← (if repeat_ t then add_time now (interval_ t) else Ok invalid);
  Ok (mkTimer (callback_ t) e (interval_ t) (repeat_ t) (sequence_ t)).
End Timer.

(** ** The ordered set of entries *)

(** [std::pair<Timestamp, Timer*>], compared lexicographically. *)
(* @src TimerQueue.h | using Entry = *)
Definition Entry : Type := Timestamp * Z.
Definition entry_lt (a b : Entry) : bool := (a.1 <? b.1) || ((a.1 =? b.1) && (a.2 <? b.2)).

(** [std::set::insert]: the set afterwards and whether the element was new. *)
Fixpoint set_insert (e : Entry) (l : list Entry) : list Entry * bool :=
  match l with
  | [] => ([e], true)
  | x :: l' =>
      if entry_lt e x then (e :: l, true)
      else if entry_lt x e then let '(r, b) := set_insert e l' in (x :: r, b)
      else (l, false)
  end.

(** [std::set::erase(key)]: the set afterwards and the number of elements removed. *)
Definition set_erase (e : Entry) (l : list Entry) : list Entry * nat :=
  (base.filter (fun x => x ≠ e) l, if decide (e ∈ l) then 1%nat else 0%nat).

(** The elements before and from [lower_bound(s)]. *)
Fixpoint lower_bound (s : Entry) (l : list Entry) : list Entry * list Entry :=
  match l with
  | [] => ([], [])
  | x :: l' => if entry_lt x s then let '(a, b) := lower_bound s l' in (x :: a, b) else ([], l)
  end.

(** ** TimerQueue *)

Definition UINTPTR_MAX : Z := 2 ^ 64 - 1.

(** [tq_inloop]: the calling thread is the loop's. [armed_]: the deadline the timerfd was last set to
    and the relative time passed to [timerfd_settime], none since it last fired. *)
(* @src TimerQueue.h | EventLoop* loop_; | ActiveTimerSet cancelingTimers_; | TimerQueue *)
Record TimerQueue (C : Type) := mkTQ {
  timers_ : list Entry;
  activeTimers_ : gset (Z * Z);
  callingExpiredTimers_ : bool;
  cancelingTimers_ : gset (Z * Z);
  tq_heap : gmap Z (Timer C);
  numCreated_ : Z;
  armed_ : option (Timestamp * (Z * Z));
  tq_inloop : bool
}.
Arguments mkTQ {C}.
Arguments timers_ {C}.
Arguments activeTimers_ {C}.
Arguments callingExpiredTimers_ {C}.
Arguments cancelingTimers_ {C}.
Arguments tq_heap {C}.
Arguments numCreated_ {C}.
Arguments armed_ {C}.
Arguments tq_inloop {C}.

(* @src TimerQueue.cpp | timespec howMuchTimeFromNow( *)
Definition howMuchTimeFromNow (when now : Timestamp) : outcome (Z * Z) :=
  d ← add_i64 when (- now);
  let microseconds := if d <? 100 then 100 else d in
  Ok (microseconds ÷ kMicroSecondsPerSecond, Z.rem microseconds kMicroSecondsPerSecond * 1000).

Section Queue.
Context {C : Type} (alloc : gmap Z (Timer C) → option Z).
Implicit Types q : TimerQueue C.

Definition set_timers l a h q : TimerQueue C :=
  mkTQ l a (callingExpiredTimers_ q) (cancelingTimers_ q) h (numCreated_ q) (armed_ q) (tq_inloop q).
Definition set_canceling b s q : TimerQueue C :=
  mkTQ (timers_ q) (activeTimers_ q) b s (tq_heap q) (numCreated_ q) (armed_ q) (tq_inloop q).
Definition set_armed a q : TimerQueue C :=
  mkTQ (timers_ q) (activeTimers_ q) (callingExpiredTimers_ q) (cancelingTimers_ q) (tq_heap q) (numCreated_ q) a (tq_inloop q).
Definition set_heap h q : TimerQueue C := set_timers (timers_ q) (activeTimers_ q) h q.

(** [loop_->assertInLoopThread()]. *)
Definition tq_assertInLoop q : outcome unit := if tq_inloop q then Ok tt else Fault ExitFailure.
(** [assert(timers_.size() == activeTimers_.size())]. *)
Definition assert_sizes q : outcome unit := assert_ (length (timers_ q) =? size (activeTimers_ q))%nat.
(** Access through a [Timer*]. *)
Definition deref (p : Z) q : outcome (Timer C) :=
  match tq_heap q !! p with Some t => Ok t | None => Fault Undefined end.

(* @src TimerQueue.cpp | void resetTimerfd( *)
Definition resetTimerfd (clk : Timestamp) (expiration : Timestamp) q : outcome (TimerQueue C) :=
  ts ← howMuchTimeFromNow expiration clk; Ok (set_armed (Some (expiration, ts)) q).

(** Whatever [read] returns, the expiration is taken off the descriptor. *)
(* @src TimerQueue.cpp | void readTimerfd( *)
Definition readTimerfd q : TimerQueue C := set_armed None q.

(* @src TimerQueue.cpp | bool TimerQueue::insert(Timer* timer) *)
Definition insert (p : Z) q : outcome (bool * TimerQueue C) :=
  tq_assertInLoop q;;
  assert_sizes q;;
  t ← deref p q;
  let when := expiration_ t in
  let earliestChanged := match timers_ q with [] => true | e :: _ => when <? e.1 end in
  let '(l, new) := set_insert (when, p) (timers_ q) in
  assert_ new;;
  assert_ (negb (bool_decide ((p, sequence_ t) ∈ activeTimers_ q)));;
  let q := set_timers l ({[(p, sequence_ t)]} ∪ activeTimers_ q) (tq_heap q) q in
  assert_sizes q;;
  Ok (earliestChanged, q).

(* @src TimerQueue.cpp | void TimerQueue::addTimerInLoop(Timer* timer) *)
Definition addTimerInLoop (clk : Timestamp) (p : Z) q : outcome (TimerQueue C) :=
  tq_assertInLoop q;;
  '(earliestChanged, q) ← insert p q;
  t ← deref p q;
  when earliestChanged (resetTimerfd clk (expiration_ t)) q.

(* @src TimerQueue.cpp | void TimerQueue::cancelInLoop(TimerId timerId) *)
Definition cancelInLoop (i : TimerId) q : outcome (TimerQueue C) :=
  tq_assertInLoop q;;
  assert_sizes q;;
  q ← (if decide (ActiveTimer i ∈ activeTimers_ q) then
         t ← deref (timer_ i) q;
         let '(l, n) := set_erase (expiration_ t, timer_ i) (timers_ q) in
         assert_ (n =? 1)%nat;;
         Ok (set_timers l (activeTimers_ q ∖ {[ActiveTimer i]}) (delete (timer_ i) (tq_heap q)) q)
       else if callingExpiredTimers_ q
       then Ok (set_canceling true ({[ActiveTimer i]} ∪ cancelingTimers_ q) q)
       else Ok q);
  assert_sizes q;;
  Ok q.

(** One iteration of the loop that removes the expired entries from [activeTimers_]. *)
Definition erase_active (e : Entry) q : outcome (TimerQueue C) :=
  t ← deref e.2 q;
  assert_ (bool_decide ((e.2, sequence_ t) ∈ activeTimers_ q));;
  Ok (set_timers (timers_ q) (activeTimers_ q ∖ {[(e.2, sequence_ t)]}) (tq_heap q) q).

(* @src TimerQueue.cpp | std::vector<TimerQueue::Entry> TimerQueue::getExpired( *)
Definition getExpired (now : Timestamp) q : outcome (list Entry * TimerQueue C) :=
  assert_sizes q;;
  let '(expired, rest) := lower_bound (now, UINTPTR_MAX) (timers_ q) in
  assert_ (match rest with [] => true | e :: _ => now <? e.1 end);;
  let q := set_timers rest (activeTimers_ q) (tq_heap q) q in
  q ← foldM erase_active expired q;
  assert_sizes q;;
  Ok (expired, q).

(** One iteration of the loop of [reset]. *)
Definition reset_one (now : Timestamp) (e : Entry) q : outcome (TimerQueue C) :=
  t ← deref e.2 q;
  if repeat_ t && negb (bool_decide ((e.2, sequence_ t) ∈ cancelingTimers_ q)) then
    t ← restart now t;
    let q := set_heap (<[e.2 := t]> (tq_heap q)) q in
    '(_, q) ← insert e.2 q;
    Ok q
  else Ok (set_heap (delete e.2 (tq_heap q)) q).

(* @src TimerQueue.cpp | void TimerQueue::reset(const std::vector<Entry>& expired, *)
Definition reset (expired : list Entry) (now clk : Timestamp) q : outcome (TimerQueue C) :=
  q ← foldM (reset_one now) expired q;
  nextExpire ← match timers_ q with
               | [] => Ok invalid
               | e :: _ => t ← deref e.2 q; Ok (expiration_ t)
               end;
  when (valid nextExpire) (resetTimerfd clk nextExpire) q.

(** [handleRead], with the readings of the clock on entry and in [reset], and the interpreter of the
    timers' callbacks. *)
(* @src TimerQueue.cpp | void TimerQueue::handleRead() *)
Definition handleRead (run : C → TimerQueue C → outcome (TimerQueue C)) (now clk : Timestamp) q : outcome (TimerQueue C) :=
  tq_assertInLoop q;;
  let q := readTimerfd q in
  '(expired, q) ← getExpired now q;
  let q := set_canceling true ∅ q in
  q ← foldM (fun e q => t ← deref e.2 q; run (callback_ t) q) expired q;
  let q := set_canceling false (cancelingTimers_ q) q in
  reset expired now clk q.

(** The functors the queue gives to [EventLoop::runInLoop]. *)
Inductive tq_functor :=
| AddTimerInLoop (timer : Z)
| CancelInLoop (i : TimerId).

Definition run_functor (clk : Timestamp) (f : tq_functor) q : outcome (TimerQueue C) :=
  match f with
  | AddTimerInLoop p => addTimerInLoop clk p q
  | CancelInLoop i => cancelInLoop i q
  end.

(** [runInLoop]: run at once in the loop's thread, otherwise left to be queued. *)
Definition tq_runInLoop (clk : Timestamp) (f : tq_functor) q : outcome (list tq_functor * TimerQueue C) :=
  if tq_inloop q then q ← run_functor clk f q; Ok ([], q) else Ok ([f], q).

(* @src TimerQueue.cpp | TimerId TimerQueue::addTimer( *)
Definition addTimer (clk : Timestamp) (cb : C) (when : Timestamp) (interval : double) q :
    outcome (TimerId * list tq_functor * TimerQueue C) :=
  match alloc (tq_heap q) with
  | None => Fault (Throw BadAlloc)
  | Some p =>
      let t := newTimer cb when interval (numCreated_ q) in
      let q := mkTQ (timers_ q) (activeTimers_ q) (callingExpiredTimers_ q) (cancelingTimers_ q)
                 (<[p := t]> (tq_heap q)) (sequence_ t) (armed_ q) (tq_inloop q) in
      '(fs, q) ← tq_runInLoop clk (AddTimerInLoop p) q;
      Ok (mkTimerId p (sequence_ t), fs, q)
  end.

(* @src TimerQueue.cpp | void TimerQueue::cancel(TimerId timerId) *)
Definition cancel (clk : Timestamp) (i : TimerId) q : outcome (list tq_functor * TimerQueue C) :=
  tq_runInLoop clk (CancelInLoop i) q.

(* @src EventLoop.cpp | void EventLoop::cancel(TimerId timerId) *)
Definition loop_cancel (clk : Timestamp) (i : TimerId) q : outcome (list tq_functor * TimerQueue C) := cancel clk i q.
(* @src EventLoop.cpp | TimerId EventLoop::runAt( *)
Definition runAt (clk : Timestamp) (time : Timestamp) (cb : C) q := addTimer clk cb time (double_of_Z 0) q.
(* @src EventLoop.cpp | TimerId EventLoop::runAfter( *)
Definition runAfter (clk now : Timestamp) (delay : double) (cb : C) q :=
  time ← add_time now delay; runAt clk time cb q.
(* @src EventLoop.cpp | TimerId EventLoop::runEvery( *)
Definition runEvery (clk now : Timestamp) (interval : double) (cb : C) q :=
  time ← add_time now interval; addTimer clk cb time interval q.

(** [timerfd] is the result of [timerfd_create(2)]. *)
(* @src TimerQueue.cpp | int createTimerfd() { *)
Definition createTimerfd (timerfd : Z) : outcome Z := if timerfd <? 0 then Fault ExitFailure else Ok timerfd.
(** The constructor, with the result of [timerfd_create]: the timerfd's channel is registered with the
    loop for reading. *)
Definition empty_queue : TimerQueue C := mkTQ [] ∅ false ∅ ∅ 0 None true.
(* @src TimerQueue.cpp | TimerQueue::TimerQueue(EventLoop* loop) *)
Definition newTimerQueue {CB T W : Type} `{LoopServices CB T W} (ch loop : nat) (timerfd : Z) (rd : CB) (w : W) :
    outcome (Channel CB * W * TimerQueue C) :=
  timerfd ← createTimerfd timerfd;
  '(c, w) ← enableReading (setReadCallback rd (newChannel ch loop timerfd)) w;
  Ok (c, w, empty_queue).
(** The destructor deletes the timers of [timers_]. *)
(* @src TimerQueue.cpp | TimerQueue::~TimerQueue() *)
Definition destroy q : TimerQueue C :=
  set_heap (foldr (fun e h => delete e.2 h) (tq_heap q) (timers_ q)) q.
End Queue.

(** ** The ordered set *)

Definition entry_ltP (a b : Entry) : Prop := entry_lt a b = true.

Lemma entry_lt_spec a b : entry_ltP a b ↔ a.1 < b.1 ∨ (a.1 = b.1 ∧ a.2 < b.2).
Proof. unfold entry_ltP, entry_lt. rewrite orb_true_iff, andb_true_iff, !Z.ltb_lt, Z.eqb_eq. done. Qed.

Lemma entry_trichotomy a b : entry_lt a b = false → entry_lt b a = false → a = b.
Proof.
  intros H1 H2. destruct a as [a1 a2], b as [b1 b2].
  assert (¬ entry_ltP (a1, a2) (b1, b2)) as N1 by (unfold entry_ltP; congruence).
  assert (¬ entry_ltP (b1, b2) (a1, a2)) as N2 by (unfold entry_ltP; congruence).
  rewrite entry_lt_spec in N1, N2. cbn in *. f_equal; lia.
Qed.

Abbreviation sorted := (StronglySorted entry_ltP).

Lemma set_insert_new e l : sorted l → e ∉ l → ∃ l', set_insert e l = (l', true) ∧ l' ≡ₚ e :: l ∧ sorted l'.
Proof.
  induction l as [|x l IH]; intros S N; cbn.
  - exists [e]. split_and!; [done..|]. repeat constructor.
  - inversion S as [|? ? S' F]; subst. destruct (entry_lt e x) eqn:E1.
    + eexists; split_and!; [done..|]. constructor; [done|]. constructor; [done|].
      eapply Forall_impl; [exact F|]. intros y Hy. apply entry_lt_spec. apply entry_lt_spec in E1, Hy. lia.
    + destruct (entry_lt x e) eqn:E2.
      * destruct IH as (l' & -> & P & S2); [done|set_solver|]. exists (x :: l'). split_and!; [done| |].
        -- rewrite P. apply Permutation_swap.
        -- constructor; [done|]. rewrite P. by constructor.
      * exfalso. apply N. rewrite (entry_trichotomy e x) by done. set_solver.
Qed.

Lemma sorted_filter (P : Entry → Prop) `{!∀ x, Decision (P x)} l : sorted l → sorted (base.filter P l).
Proof.
  induction 1 as [|x l S IH F]; [constructor|]. rewrite filter_cons. destruct (decide (P x)); [|done].
  constructor; [done|]. rewrite Forall_forall in *. intros y Hy. apply list_elem_of_filter in Hy as [_ Hy]. auto.
Qed.

Lemma sorted_NoDup l : sorted l → NoDup l.
Proof.
  induction 1 as [|x l S IH F]; constructor; [|done]. intros H. rewrite Forall_forall in F.
  apply F, entry_lt_spec in H. lia.
Qed.

Lemma erase_absent (e : Entry) (l : list Entry) : e ∉ l → base.filter (fun x => x ≠ e) l = l.
Proof.
  induction l as [|x l IH]; intros N; [done|]. rewrite filter_cons_True by set_solver. rewrite IH; set_solver.
Qed.

Lemma erase_perm (e : Entry) (l : list Entry) : NoDup l → e ∈ l → l ≡ₚ e :: base.filter (fun x => x ≠ e) l.
Proof.
  induction 1 as [|x l N D IH]; intros H; [set_solver|]. rewrite filter_cons. destruct (decide (x ≠ e)) as [n|n].
  - rewrite Permutation_swap, <-IH by set_solver. done.
  - apply dec_stable in n as ->. by rewrite erase_absent.
Qed.

Lemma lower_bound_spec now l :
  sorted l → Forall (fun e => e.2 < UINTPTR_MAX) l →
  ∃ a b, lower_bound (now, UINTPTR_MAX) l = (a, b) ∧ l = a ++ b ∧
    Forall (fun e => e.1 <= now) a ∧ Forall (fun e => now < e.1) b ∧ sorted b.
Proof.
  induction 1 as [|x l S IH F]; intros B; cbn; [exists [], []; split_and!; by try constructor|].
  inversion B; subst. destruct IH as (a & b & -> & -> & A1 & B1 & S'); [done|].
  destruct (entry_lt x (now, UINTPTR_MAX)) eqn:E.
  - exists (x :: a), b. split_and!; try done. constructor; [|done]. apply entry_lt_spec in E. cbn in E. lia.
  - exists [], (x :: a ++ b). assert (now < x.1).
    { assert (¬ entry_ltP x (now, UINTPTR_MAX)) as N by (unfold entry_ltP; congruence).
      rewrite entry_lt_spec in N. cbn in N. lia. }
    split_and!; try done; [|by constructor]. constructor; [done|]. eapply Forall_impl; [exact F|].
    intros y Hy. apply entry_lt_spec in Hy. cbn in *. lia.
Qed.

(** ** Invariant *)

Section Invariant.
Context {C : Type} (alloc : gmap Z (Timer C) → option Z).
Implicit Types (q : TimerQueue C) (t : Timer C).

(** Times whose differences and sums stay within 64 bits. *)
Definition time_ok (z : Z) : Prop := - 2 ^ 61 <= z <= 2 ^ 61.
Definition interval_ok (i : double) : Prop :=
  ∃ d, int64_of_double (dmul i (double_of_Z kMicroSecondsPerSecond)) = Ok d ∧ 0 <= d <= 2 ^ 60.
Definition timer_ok t : Prop := time_ok (expiration_ t) ∧ (repeat_ t = true → interval_ok (interval_ t)).
(** A reading of the clock. *)
Definition clock_ok (z : Z) : Prop := 0 < z <= 2 ^ 60.

Definition key (h : gmap Z (Timer C)) (e : Entry) : Z * Z := (e.2, from_option sequence_ 0 (h !! e.2)).

(** [tq_inv q H]: [timers_] is ordered and agrees with the expirations, [activeTimers_] holds exactly
    the same timers, [H] are the live timers outside both sets (expired and being run, or not yet
    added), and no other timer is allocated; sequence numbers identify timers. *)
Record tq_inv q (H : list Z) : Prop := {
  inv_sorted : sorted (timers_ q);
  inv_exp e : e ∈ timers_ q → ∃ t, tq_heap q !! e.2 = Some t ∧ expiration_ t = e.1;
  inv_active : activeTimers_ q = list_to_set (key (tq_heap q) <$> timers_ q);
  inv_nodup : NoDup ((timers_ q).*2 ++ H);
  inv_dom : dom (tq_heap q) = list_to_set ((timers_ q).*2 ++ H);
  inv_seq p t : tq_heap q !! p = Some t → sequence_ t <= numCreated_ q;
  inv_seq_inj p p' t t' : tq_heap q !! p = Some t → tq_heap q !! p' = Some t' → sequence_ t = sequence_ t' → p = p';
  inv_ok p t : tq_heap q !! p = Some t → timer_ok t ∧ p < UINTPTR_MAX;
  inv_thread : tq_inloop q = true;
  inv_count : 0 <= numCreated_ q <= INT64_MAX
}.

Lemma key_NoDup h (l : list Entry) : NoDup (l.*2) → NoDup (key h <$> l).
Proof.
  intros N. apply (NoDup_fmap_1 fst). rewrite <-list_fmap_compose. exact N.
Qed.

Lemma inv_sizes q H : tq_inv q H → assert_sizes q = Ok tt.
Proof.
  intros I. unfold assert_sizes. apply assert_true, Nat.eqb_eq. rewrite (inv_active _ _ I).
  rewrite size_list_to_set, length_fmap; [done|]. apply key_NoDup.
  pose proof (inv_nodup _ _ I) as N. by apply NoDup_app in N as (N & _).
Qed.

Lemma inv_assert q H : tq_inv q H → tq_assertInLoop q = Ok tt.
Proof. intros I. unfold tq_assertInLoop. by rewrite (inv_thread _ _ I). Qed.

(** The live timers are those of [timers_] and [H]. *)
Lemma inv_live q H p : tq_inv q H → p ∈ (timers_ q).*2 ++ H → ∃ t, tq_heap q !! p = Some t.
Proof.
  intros I Hp. apply elem_of_dom. rewrite (inv_dom _ _ I). by apply elem_of_list_to_set.
Qed.

Lemma inv_live_inv q H p t : tq_inv q H → tq_heap q !! p = Some t → p ∈ (timers_ q).*2 ++ H.
Proof.
  intros I Hp. apply (elem_of_list_to_set (C := gset Z)). rewrite <-(inv_dom _ _ I). by apply elem_of_dom.
Qed.

Lemma key_in_heap h (l : list Entry) p t : h !! p = Some t → ((p, sequence_ t) ∈ key h <$> l ↔ ∃ w, (w, p) ∈ l).
Proof.
  intros Hp. rewrite list_elem_of_fmap. split.
  - intros ([w p'] & [= -> _] & ?). eauto.
  - intros (w & ?). exists (w, p). split; [|done]. unfold key. cbn. by rewrite Hp.
Qed.

Lemma key_eq h w p t : h !! p = Some t → key h (w, p) = (p, sequence_ t).
Proof. intros Hp. unfold key. cbn. by rewrite Hp. Qed.

(** [insert] moves a held timer into both sets. *)
Lemma insert_ok q p H t :
  tq_inv q (p :: H) → tq_heap q !! p = Some t →
  ∃ l a, insert p q = Ok (match timers_ q with [] => true | e :: _ => expiration_ t <? e.1 end,
                          set_timers l a (tq_heap q) q) ∧
    l ≡ₚ (expiration_ t, p) :: timers_ q ∧ tq_inv (set_timers l a (tq_heap q) q) H.
Proof.
  intros I Hp. pose proof (inv_nodup _ _ I) as N.
  assert (Np : p ∉ (timers_ q).*2).
  { apply NoDup_app in N as (_ & N & _). set_solver. }
  destruct (set_insert_new (expiration_ t, p) (timers_ q)) as (l & E & P & S).
  { apply (inv_sorted _ _ I). }
  { intros X. apply Np. by apply (list_elem_of_fmap_2 snd) in X. }
  set (a := {[(p, sequence_ t)]} ∪ activeTimers_ q).
  assert (I' : tq_inv (set_timers l a (tq_heap q) q) H).
  { destruct I as [I1 I2 I3 I4 I5 I6 I7 I8 I9 I10]. split; cbn; try done.
    - intros e. rewrite P, elem_of_cons. intros [->|He]; [|auto]. by exists t.
    - subst a. by rewrite I3, P, fmap_cons, (key_eq _ _ _ t), list_to_set_cons.
    - rewrite P. cbn. by rewrite Permutation_middle.
    - rewrite I5, P. cbn. set_solver. }
  exists l, a. split_and!; [|done|done].
  unfold insert, deref. rewrite (inv_assert _ _ I), (inv_sizes _ _ I). cbn [mbind outcome_bind].
  rewrite Hp. cbn [mbind outcome_bind]. rewrite E. cbn [assert_ mbind outcome_bind].
  rewrite bool_decide_eq_false_2; cbn [negb assert_ mbind outcome_bind].
  - fold a. by rewrite (inv_sizes _ _ I').
  - rewrite (inv_active _ _ I), elem_of_list_to_set, key_in_heap by done.
    intros (w & Hw). apply Np. by apply (list_elem_of_fmap_2 snd) in Hw.
Qed.

(** Taking an entry out of both sets leaves its timer held. *)
Lemma inv_take q H e l t :
  tq_inv q H → timers_ q ≡ₚ e :: l → sorted l → tq_heap q !! e.2 = Some t →
  (e.2, sequence_ t) ∈ activeTimers_ q ∧
  tq_inv (set_timers l (activeTimers_ q ∖ {[(e.2, sequence_ t)]}) (tq_heap q) q) (e.2 :: H).
Proof.
  intros I P S Ht. destruct I as [I1 I2 I3 I4 I5 I6 I7 I8 I9 I10].
  destruct e as [w p]. cbn [snd fst] in *. rewrite P in I3, I4, I5.
  rewrite fmap_cons, (key_eq _ _ _ t), list_to_set_cons in I3 by done. cbn [fmap list_fmap snd app] in I4, I5.
  assert (Nk : (p, sequence_ t) ∉ key (tq_heap q) <$> l).
  { rewrite key_in_heap by done. intros (w' & Hw). apply (list_elem_of_fmap_2 snd) in Hw.
    apply NoDup_cons in I4 as [I4 _]. apply I4, elem_of_app. by left. }
  split; [rewrite I3; by apply elem_of_union_l, elem_of_singleton|]. split; cbn; try done.
  - intros e He. apply I2. rewrite P. by apply elem_of_cons; right.
  - rewrite I3. clear -Nk. set_solver.
  - by rewrite <-Permutation_middle.
  - rewrite I5. rewrite <-Permutation_middle. done.
Qed.

(** Deleting a held timer. *)
Lemma inv_free q H p : tq_inv q (p :: H) → tq_inv (set_heap (delete p (tq_heap q)) q) H.
Proof.
  intros [I1 I2 I3 I4 I5 I6 I7 I8 I9 I10].
  assert (Np : p ∉ (timers_ q).*2) by (apply NoDup_app in I4 as (_ & I4 & _); set_solver).
  assert (Ne : ∀ e, e ∈ timers_ q → e.2 ≠ p).
  { intros e He <-. apply Np. by apply list_elem_of_fmap_2. }
  rewrite <-Permutation_middle in I4. apply NoDup_cons in I4 as [Nd I4].
  split; cbn; try done.
  - intros e He. rewrite lookup_delete_ne by (apply not_eq_sym; auto). auto.
  - rewrite I3. f_equal. apply list_fmap_ext. intros i e He. apply list_elem_of_lookup_2 in He.
    unfold key. by rewrite lookup_delete_ne by (apply not_eq_sym; auto).
  - rewrite dom_delete_L, I5. set_solver.
  - intros p' t. rewrite lookup_delete_Some. intros [_ ?]. eauto.
  - intros p' p2 t t2. rewrite !lookup_delete_Some. intros [_ ?] [_ ?]. eauto.
  - intros p' t. rewrite lookup_delete_Some. intros [_ ?]. eauto.
Qed.

Lemma active_lookup q H i :
  tq_inv q H → ActiveTimer i ∈ activeTimers_ q →
  ∃ t, tq_heap q !! timer_ i = Some t ∧ sequence_ t = sequenct_ i ∧ (expiration_ t, timer_ i) ∈ timers_ q.
Proof.
  intros I. rewrite (inv_active _ _ I), elem_of_list_to_set, list_elem_of_fmap.
  intros ([w p] & E & He). destruct (inv_exp _ _ I _ He) as (t & Ht & Ew). unfold key in E. cbn in *.
  rewrite Ht in E. destruct i as [a s]. injection E as -> ->. cbn. exists t. by subst w.
Qed.

(** [cancelInLoop] frees the timer the id names, when it is waiting; otherwise it only notes the id,
    and only while callbacks run. *)
Lemma cancelInLoop_ok q H i :
  tq_inv q H →
  ∃ q', cancelInLoop i q = Ok q' ∧ tq_inv q' H ∧
    if decide (ActiveTimer i ∈ activeTimers_ q)
    then ∃ t l, tq_heap q !! timer_ i = Some t ∧ sequence_ t = sequenct_ i ∧
           timers_ q ≡ₚ (expiration_ t, timer_ i) :: l ∧
           q' = set_timers l (activeTimers_ q ∖ {[ActiveTimer i]}) (delete (timer_ i) (tq_heap q)) q
    else q' = if callingExpiredTimers_ q then set_canceling true ({[ActiveTimer i]} ∪ cancelingTimers_ q) q else q.
Proof.
  intros I. unfold cancelInLoop. rewrite (inv_assert _ _ I), (inv_sizes _ _ I). cbn [mbind outcome_bind].
  destruct (decide (ActiveTimer i ∈ activeTimers_ q)) as [Ha|Ha].
  - destruct (active_lookup q H i I Ha) as (t & Ht & Es & He). unfold deref. rewrite Ht. cbn [mbind outcome_bind].
    unfold set_erase. rewrite decide_True by done. cbn [assert_ Nat.eqb mbind outcome_bind].
    set (l := base.filter _ (timers_ q)).
    assert (P : timers_ q ≡ₚ (expiration_ t, timer_ i) :: l).
    { apply erase_perm; [|done]. apply sorted_NoDup, (inv_sorted _ _ I). }
    assert (S : sorted l) by (apply sorted_filter, (inv_sorted _ _ I)).
    destruct (inv_take q H (expiration_ t, timer_ i) l t I P S Ht) as [_ I'].
    apply inv_free in I'. rewrite Es in I'.
    change (tq_inv (set_timers l (activeTimers_ q ∖ {[ActiveTimer i]}) (delete (timer_ i) (tq_heap q)) q) H) in I'.
    rewrite (inv_sizes _ _ I'). cbn [mbind outcome_bind]. eexists. split_and!; [done|exact I'|].
    exists t, l. by split_and!.
  - destruct (callingExpiredTimers_ q) eqn:Ec.
    + cbn. rewrite (inv_sizes _ _ I : assert_sizes (set_canceling _ _ q) = _). cbn.
      eexists. split_and!; [done| |done]. destruct I. by split.
    + cbn. rewrite (inv_sizes _ _ I). cbn. by exists q.
Qed.

#[global] Instance tq_inv_proper : Proper ((=) ==> (≡ₚ) ==> iff) tq_inv.
Proof.
  intros q ? <- H H' P.
  assert (∀ H1 H2, H1 ≡ₚ H2 → tq_inv q H1 → tq_inv q H2) as X; [|split; apply X; [done|by symmetry]].
  intros H1 H2 P' [I1 I2 I3 I4 I5 I6 I7 I8 I9 I10]. split; try done; by rewrite <-P'.
Qed.

Lemma erase_loop q b H a A :
  tq_inv (set_timers (a ++ b) A (tq_heap q) q) H →
  ∃ A', foldM erase_active a (set_timers b A (tq_heap q) q) = Ok (set_timers b A' (tq_heap q) q) ∧
    tq_inv (set_timers b A' (tq_heap q) q) (a.*2 ++ H).
Proof.
  revert A H; induction a as [|x a IH]; intros A H I; [by exists A|].
  destruct (inv_live _ _ x.2 I) as (t & Ht); [cbn; set_solver|].
  pose proof (inv_sorted _ _ I) as S. inversion S as [|? ? S' F]; subst.
  destruct (inv_take _ H x (a ++ b) t I) as [Ha I']; [done..|]. cbn in Ha, Ht.
  destruct (IH _ _ I') as (A' & E & I2). exists A'. split; [|by rewrite <-Permutation_middle in I2].
  cbn [foldM].
  assert (erase_active x (set_timers b A (tq_heap q) q) =
          Ok (set_timers b (A ∖ {[(x.2, sequence_ t)]}) (tq_heap q) q)) as ->; [|exact E].
  unfold erase_active, deref. cbn. rewrite Ht. cbn. by rewrite bool_decide_eq_true_2.
Qed.

(** [getExpired] returns exactly the entries due at [now], in order, and keeps the others. *)
Lemma getExpired_ok q H now :
  tq_inv q H →
  ∃ expired rest A, getExpired now q = Ok (expired, set_timers rest A (tq_heap q) q) ∧
    timers_ q = expired ++ rest ∧ Forall (fun e => e.1 <= now) expired ∧ Forall (fun e => now < e.1) rest ∧
    tq_inv (set_timers rest A (tq_heap q) q) (expired.*2 ++ H).
Proof.
  intros I. destruct (lower_bound_spec now (timers_ q)) as (a & b & E & Eq & Ha & Hb & Sb).
  { apply (inv_sorted _ _ I). }
  { apply Forall_forall. intros e He. destruct (inv_exp _ _ I e He) as (t & Ht & _). by apply (inv_ok _ _ I) in Ht as [_ ?]. }
  unfold getExpired. rewrite (inv_sizes _ _ I). cbn [mbind outcome_bind]. rewrite E.
  rewrite (assert_true (match b with [] => true | e :: _ => now <? e.1 end)); cycle 1.
  { destruct b; [done|]. apply Z.ltb_lt. by inversion Hb. }
  cbn [mbind outcome_bind].
  destruct (erase_loop q b H a (activeTimers_ q)) as (A' & E' & I').
  { rewrite <-Eq. by destruct q. }
  rewrite E'. cbn [mbind outcome_bind]. rewrite (inv_sizes _ _ I'). cbn [mbind outcome_bind].
  exists a, b, A'. by split_and!.
Qed.

(** ** Adding timers *)

Hypothesis alloc_fresh : ∀ h p, alloc h = Some p → h !! p = None ∧ 0 < p < UINTPTR_MAX.

Lemma resetTimerfd_ok q clk e :
  clock_ok clk → time_ok e → ∃ ts, howMuchTimeFromNow e clk = Ok ts ∧ resetTimerfd clk e q = Ok (set_armed (Some (e, ts)) q).
Proof.
  unfold clock_ok, time_ok, resetTimerfd, howMuchTimeFromNow. intros Hc He.
  rewrite add_i64_ok by (unfold INT64_MIN, INT64_MAX; lia). cbn. eauto.
Qed.

(** The timerfd is set to a deadline no later than the first timer's, if that is at most [z]. *)
Definition covered_upto (z : Z) q : Prop :=
  ∀ e r, timers_ q = e :: r → e.1 <= z → ∃ d ts, armed_ q = Some (d, ts) ∧ d <= e.1.
Definition covered q : Prop := ∀ z, covered_upto z q.

Lemma sorted_head_le (h : Entry) rr e : sorted (h :: rr) → e ∈ h :: rr → h.1 <= e.1.
Proof.
  inversion 1 as [|? ? _ F]; subst. rewrite elem_of_cons. intros [->|He]; [lia|].
  rewrite Forall_forall in F. apply F, entry_lt_spec in He. lia.
Qed.

Lemma perm_head_le (x : Entry) l l' e r :
  sorted l → sorted l' → l' ≡ₚ x :: l → l' = e :: r → e = x ∨ ∃ r', l = e :: r'.
Proof.
  intros S S' P ->. assert (He : e ∈ x :: l) by (rewrite <-P; set_solver).
  apply elem_of_cons in He as [->|He]; [by left|right]. destruct l as [|y l]; [set_solver|].
  apply elem_of_cons in He as [->|He]; [by exists l|exfalso].
  inversion S as [|? ? _ F]; inversion S' as [|? ? _ F']; subst. rewrite Forall_forall in F, F'.
  assert (Hy : y ∈ e :: r) by (rewrite P; set_solver). apply F in He as L1. apply entry_lt_spec in L1.
  apply elem_of_cons in Hy as [->|Hy]; [lia|]. apply F', entry_lt_spec in Hy. lia.
Qed.

Lemma inv_set_armed q H a : tq_inv q H ↔ tq_inv (set_armed a q) H.
Proof. split; intros []; by split. Qed.

Lemma inv_set_canceling q H b s : tq_inv q H ↔ tq_inv (set_canceling b s q) H.
Proof. split; intros []; by split. Qed.

(** Adding a held timer: afterwards it waits, and the timerfd covers the first timer if it did. *)
Lemma addTimerInLoop_ok q p H t clk :
  tq_inv q (p :: H) → tq_heap q !! p = Some t → clock_ok clk →
  ∃ l a r, addTimerInLoop clk p q = Ok (set_armed r (set_timers l a (tq_heap q) q)) ∧
    tq_inv (set_armed r (set_timers l a (tq_heap q) q)) H ∧ l ≡ₚ (expiration_ t, p) :: timers_ q ∧
    ∀ z, covered_upto z q → covered_upto z (set_armed r (set_timers l a (tq_heap q) q)).
Proof.
  intros I Hp Hc. destruct (insert_ok q p H t I Hp) as (l & a & E & P & I').
  unfold addTimerInLoop, deref. rewrite (inv_assert _ _ I), E. cbn [mbind outcome_bind tq_heap set_timers].
  rewrite Hp. cbn [mbind outcome_bind]. unfold when.
  pose proof (inv_sorted _ _ I) as S. pose proof (inv_sorted _ _ I') as S'.
  assert (Hl : ∀ e r, l = e :: r → e = (expiration_ t, p) ∨ ∃ r', timers_ q = e :: r')
    by (intros e r El; by apply (perm_head_le (expiration_ t, p) (timers_ q) l e r)).
  destruct (match timers_ q with [] => true | e :: _ => expiration_ t <? e.1 end) eqn:Eb.
  - destruct (inv_ok _ _ I p t Hp) as [[Ht _] _].
    destruct (resetTimerfd_ok (set_timers l a (tq_heap q) q) clk (expiration_ t) Hc Ht) as (ts & _ & ->).
    exists l, a, (Some (expiration_ t, ts)). split_and!; [done|by apply (inv_set_armed (set_timers l a (tq_heap q) q))|done|].
    intros z _ e r El _. exists (expiration_ t), ts. split; [done|]. cbn in El.
    destruct (Hl e r El) as [->|(r' & Er)]; [done|]. rewrite Er in Eb. bool_prop. lia.
  - exists l, a, (armed_ q). split_and!; [done|done|done|].
    intros z Hz e r El Hez. cbn in El. destruct (Hl e r El) as [->|(r' & Er)]; [|by eapply Hz].
    destruct (timers_ q) as [|e0 r0] eqn:Et; [done|]. bool_prop. cbn in Hez.
    destruct (Hz e0 r0 Et ltac:(lia)) as (d & ts & Ea & Hd). exists d, ts. split; [done|]. cbn. lia.
Qed.

(** A new timer enters the heap with a sequence number no live timer has. *)
Lemma inv_new q H p cb when i :
  tq_inv q H → tq_heap q !! p = None → p < UINTPTR_MAX → numCreated_ q < INT64_MAX →
  timer_ok (newTimer cb when i (numCreated_ q)) →
  tq_inv (mkTQ (timers_ q) (activeTimers_ q) (callingExpiredTimers_ q) (cancelingTimers_ q)
            (<[p := newTimer cb when i (numCreated_ q)]> (tq_heap q)) (numCreated_ q + 1) (armed_ q) (tq_inloop q)) (p :: H).
Proof.
  intros [I1 I2 I3 I4 I5 I6 I7 I8 I9 I10] Hp Hr Hn Ht.
  assert (Np : p ∉ (timers_ q).*2 ++ H).
  { intros X. apply (elem_of_list_to_set (C := gset Z)) in X. rewrite <-I5 in X. by apply elem_of_dom in X as [? ?]; congruence. }
  assert (Ne : ∀ e, e ∈ timers_ q → e.2 ≠ p).
  { intros e He <-. apply Np, elem_of_app. left. by apply list_elem_of_fmap_2. }
  assert (Es : sequence_ (newTimer cb when i (numCreated_ q)) = numCreated_ q + 1).
  { cbn. apply i64_small. unfold INT64_MIN. lia. }
  split; cbn [timers_ activeTimers_ tq_heap numCreated_ tq_inloop]; try done.
  - intros e He. rewrite lookup_insert_ne by (apply not_eq_sym; auto). auto.
  - rewrite I3. f_equal. apply list_fmap_ext. intros j e He. apply list_elem_of_lookup_2 in He.
    unfold key. by rewrite lookup_insert_ne by (apply not_eq_sym; auto).
  - rewrite <-Permutation_middle. by constructor.
  - rewrite dom_insert_L, I5, <-Permutation_middle. done.
  - intros p' t. rewrite lookup_insert_Some. intros [[<- <-]|[_ ?]]; [lia|]. apply I6 in H0. lia.
  - intros p1 p2 t1 t2. rewrite !lookup_insert_Some. intros [[<- <-]|[? L1]] [[<- <-]|[? L2]] E; [done| | |eauto].
    + apply I6 in L2. lia.
    + apply I6 in L1. lia.
  - intros p' t. rewrite lookup_insert_Some. intros [[<- <-]|[_ ?]]; eauto.
  - lia.
Qed.

(** Cancelling keeps the timerfd early enough. *)
Lemma covered_take z q H x l a h :
  tq_inv q H → covered_upto z q → timers_ q ≡ₚ x :: l → covered_upto z (set_timers l a h q).
Proof.
  intros I Cv P e r El Hz. cbn in El. destruct (timers_ q) as [|hd rr] eqn:Et; [by apply Permutation_nil_l in P|].
  assert (hd.1 <= e.1).
  { apply (sorted_head_le hd rr); [rewrite <-Et; apply (inv_sorted _ _ I)|]. rewrite P, El. set_solver. }
  destruct (Cv hd rr Et ltac:(lia)) as (d & ts & Ed & Hd). exists d, ts. split; [done|lia].
Qed.

(** ** What callbacks do *)

(** The calls a timer callback makes on its loop's timers. *)
Inductive tact :=
| TAdd (clk when : Timestamp) (interval : double) (cb : C)
| TCancel (i : TimerId).

Definition run_act (a : tact) q : outcome (TimerQueue C) :=
  match a with
  | TAdd clk when interval cb => '(_, _, q) ← addTimer alloc clk cb when interval q; Ok q
  | TCancel i => '(_, q) ← cancel 0 i q; Ok q
  end.

Definition act_ok (a : tact) : Prop :=
  match a with
  | TAdd clk when interval cb => clock_ok clk ∧ timer_ok (newTimer cb when interval 0)
  | TCancel _ => True
  end.

(** The effect of the calls made while the timers [H] are held: they keep their timers, and an id of one
    of them is noted exactly when it is cancelled. *)
Definition acts_effect (z : Z) (L : list tact) (H : list Z) q q' : Prop :=
  tq_inv q' H ∧ callingExpiredTimers_ q' = true ∧ numCreated_ q' <= numCreated_ q + zlen L ∧
  (covered_upto z q → covered_upto z q') ∧
  ∀ p t, p ∈ H → tq_heap q !! p = Some t →
    tq_heap q' !! p = Some t ∧
    ((p, sequence_ t) ∈ cancelingTimers_ q' ↔
     (p, sequence_ t) ∈ cancelingTimers_ q ∨ TCancel (mkTimerId p (sequence_ t)) ∈ L).

Lemma run_add_ok z H q clk when i cb :
  tq_inv q H → callingExpiredTimers_ q = true → numCreated_ q < INT64_MAX → act_ok (TAdd clk when i cb) →
  run_act (TAdd clk when i cb) q = Fault (Throw BadAlloc) ∨
  ∃ q', run_act (TAdd clk when i cb) q = Ok q' ∧ acts_effect z [TAdd clk when i cb] H q q'.
Proof.
  intros I Hc Hn [Hclk Ht]. cbn [run_act]. unfold addTimer. destruct (alloc (tq_heap q)) as [p|] eqn:Ea; [right|by left].
  destruct (alloc_fresh _ _ Ea) as [Hp Hr].
  assert (Es : i64 (numCreated_ q + 1) = numCreated_ q + 1).
  { apply i64_small. pose proof (inv_count _ _ I). unfold INT64_MIN. lia. }
  pose proof (inv_new q H p cb when i I Hp ltac:(lia) Hn Ht) as I'.
  set (q1 := mkTQ _ _ _ _ _ _ _ _) in I'.
  destruct (addTimerInLoop_ok q1 p H (newTimer cb when i (numCreated_ q)) clk I') as (l & a & r & E & I2 & P & Cv);
    [apply lookup_insert_eq|done|].
  cbn [sequence_ newTimer]. rewrite Es. fold q1. unfold tq_runInLoop. rewrite (inv_thread _ _ I').
  cbn [run_functor]. rewrite E. cbn [mbind outcome_bind]. eexists. split; [done|].
  split_and!; [done|done|cbn; unfold zlen; cbn; lia|exact (Cv z)|].
  intros p' t' Hp' Ht'. cbn. rewrite lookup_insert_ne; [set_solver|]. intros ->. congruence.
Qed.

Lemma run_cancel_ok z H q i :
  tq_inv q H → callingExpiredTimers_ q = true →
  ∃ q', run_act (TCancel i) q = Ok q' ∧ acts_effect z [TCancel i] H q q'.
Proof.
  intros I Hc. cbn [run_act]. unfold cancel, tq_runInLoop. rewrite (inv_thread _ _ I). cbn [run_functor].
  destruct (cancelInLoop_ok q H i I) as (q' & -> & I' & E). cbn [mbind outcome_bind]. exists q'. split; [done|].
  pose proof (inv_nodup _ _ I) as Nd. apply NoDup_app in Nd as (_ & Nd & _).
  destruct (decide (ActiveTimer i ∈ activeTimers_ q)) as [Ha|Ha].
  - destruct E as (t & l & Ht & Es & P & ->). split_and!; [done|done|cbn; unfold zlen; cbn; lia| |].
    + intros Hz. by eapply covered_take.
    + intros p' t' Hp' Ht'. cbn. assert (timer_ i ≠ p').
      { intros <-. apply (Nd (timer_ i)); [|done]. rewrite P. cbn. set_solver. }
      rewrite lookup_delete_ne by done. split; [done|]. rewrite list_elem_of_singleton. split; [by left|].
      intros [?|[= <-]]; [done|]. done.
  - rewrite Hc in E. subst q'. split_and!; [done|done|cbn; unfold zlen; cbn; lia|done|].
    intros p' t' Hp' Ht'. split; [done|]. cbn. destruct i as [a b]. rewrite list_elem_of_singleton.
    unfold ActiveTimer. cbn. rewrite elem_of_union, elem_of_singleton. split.
    + intros [[= -> ->]|?]; [by right|by left].
    + intros [?|[= -> ->]]; [by right|by left].
Qed.

Lemma acts_effect_trans z L1 L2 H q q1 q2 :
  acts_effect z L1 H q q1 → acts_effect z L2 H q1 q2 → acts_effect z (L1 ++ L2) H q q2.
Proof.
  intros (I1 & C1 & N1 & V1 & K1) (I2 & C2 & N2 & V2 & K2).
  split_and!; [done|done|rewrite zlen_app; lia|auto|].
  intros p t Hp Ht. destruct (K1 p t Hp Ht) as [Ht1 B1]. destruct (K2 p t Hp Ht1) as [Ht2 B2].
  split; [done|]. rewrite B2, B1, elem_of_app. tauto.
Qed.

Lemma acts_effect_nil z H q : tq_inv q H → callingExpiredTimers_ q = true → acts_effect z [] H q q.
Proof. intros I Hc. split_and!; [done|done|rewrite zlen_nil; lia|done|]. intros p t _ ?. rewrite elem_of_nil. tauto. Qed.

(** Any sequence of calls: it stops only where [operator new] fails. *)
Lemma run_acts_ok z H L q :
  tq_inv q H → callingExpiredTimers_ q = true → numCreated_ q + zlen L <= INT64_MAX → Forall act_ok L →
  foldM run_act L q = Fault (Throw BadAlloc) ∨ ∃ q', foldM run_act L q = Ok q' ∧ acts_effect z L H q q'.
Proof.
  revert q; induction L as [|a L IH]; intros q I Hc Hn Ho; [right; exists q; split; [done|by apply acts_effect_nil]|].
  inversion Ho; subst. rewrite zlen_cons in Hn. pose proof (zlen_nonneg L).
  assert (run_act a q = Fault (Throw BadAlloc) ∨ ∃ q1, run_act a q = Ok q1 ∧ acts_effect z [a] H q q1) as [E|(q1 & E & Ef)].
  { destruct a; [by apply run_add_ok; [done|done|lia|]|right; by apply run_cancel_ok]. }
  { left. cbn. by rewrite E. }
  pose proof Ef as (I1 & C1 & N1 & _). cbn [foldM]. rewrite E. cbn [mbind outcome_bind]. change (zlen [a]) with 1 in N1.
  destruct (IH q1 I1 C1 ltac:(lia)) as [?|(q2 & E2 & Ef2)]; [done|by left|right].
  exists q2. split; [done|]. exact (acts_effect_trans z [a] L H q q1 q2 Ef Ef2).
Qed.

(** ** Restarting *)

(** The interval in microseconds, and a timer restarted at [now]. *)
Definition delay t : Z :=
  match int64_of_double (dmul (interval_ t) (double_of_Z kMicroSecondsPerSecond)) with Ok d => d | Fault _ => 0 end.
Definition restarted (now : Timestamp) t : Timer C :=
  mkTimer (callback_ t) (now + delay t) (interval_ t) (repeat_ t) (sequence_ t).
(** A due timer is restarted when it repeats and has not been cancelled. *)
Definition restarts q (p : Z) t : bool :=
  repeat_ t && negb (bool_decide ((p, sequence_ t) ∈ cancelingTimers_ q)).

Lemma restart_ok now t :
  clock_ok now → timer_ok t → repeat_ t = true →
  restart now t = Ok (restarted now t) ∧ timer_ok (restarted now t) ∧ now <= now + delay t.
Proof.
  unfold clock_ok, timer_ok, restart, restarted, delay, add_time. intros Hn [_ Hi] Hr. destruct (Hi Hr) as (d & Hd & Bd).
  rewrite Hr, Hd. cbn [mbind outcome_bind]. rewrite add_i64_ok by (unfold INT64_MIN, INT64_MAX; lia).
  split; [done|]. cbn. split; [|lia]. split; [unfold time_ok; lia|]. intros _. by apply Hi.
Qed.

Lemma inv_update_held q H p t t' :
  tq_inv q (p :: H) → tq_heap q !! p = Some t → sequence_ t' = sequence_ t → timer_ok t' →
  tq_inv (set_heap (<[p := t']> (tq_heap q)) q) (p :: H).
Proof.
  intros [I1 I2 I3 I4 I5 I6 I7 I8 I9 I10] Hp Es Ht.
  assert (Ne : ∀ e, e ∈ timers_ q → e.2 ≠ p).
  { intros e He <-. apply NoDup_app in I4 as (_ & I4 & _). apply (I4 e.2); [by apply list_elem_of_fmap_2|set_solver]. }
  split; cbn; try done.
  - intros e He. rewrite lookup_insert_ne by (apply not_eq_sym; auto). auto.
  - rewrite I3. f_equal. apply list_fmap_ext. intros j e He. apply list_elem_of_lookup_2 in He.
    unfold key. by rewrite lookup_insert_ne by (apply not_eq_sym; auto).
  - rewrite dom_insert_L, I5. set_solver.
  - intros p' u. rewrite lookup_insert_Some. intros [[<- <-]|[_ ?]]; [rewrite Es|]; eauto.
  - intros p1 p2 t1 t2. rewrite !lookup_insert_Some.
    intros [[<- <-]|[? L1]] [[<- <-]|[? L2]]; rewrite ?Es; eauto.
  - intros p' u. rewrite lookup_insert_Some. intros [[<- <-]|[_ ?]]; [|eauto]. split; [done|]. by eapply I8.
Qed.

Lemma reset_one_ok q H e t now :
  tq_inv q (e.2 :: H) → tq_heap q !! e.2 = Some t → clock_ok now →
  ∃ l a h, let q' := set_timers l a h q in
    reset_one now e q = Ok q' ∧ tq_inv q' H ∧
    if restarts q e.2 t
    then h = <[e.2 := restarted now t]> (tq_heap q) ∧ l ≡ₚ (now + delay t, e.2) :: timers_ q ∧ now <= now + delay t
    else h = delete e.2 (tq_heap q) ∧ l = timers_ q.
Proof.
  intros I Ht Hn. unfold reset_one, deref. rewrite Ht. cbn [mbind outcome_bind]. fold (restarts q e.2 t).
  destruct (restarts q e.2 t) eqn:Er.
  - apply andb_true_iff in Er as [Er _]. destruct (inv_ok _ _ I _ _ Ht) as [Hok _].
    destruct (restart_ok now t Hn Hok Er) as (-> & Hok' & Hle). cbn [mbind outcome_bind].
    pose proof (inv_update_held q H e.2 t (restarted now t) I Ht eq_refl Hok') as I1.
    destruct (insert_ok _ e.2 H (restarted now t) I1) as (l & a & -> & P & I2); [apply lookup_insert_eq|].
    cbn [mbind outcome_bind]. exists l, a, (<[e.2 := restarted now t]> (tq_heap q)). by split_and!.
  - exists (timers_ q), (activeTimers_ q), (delete e.2 (tq_heap q)). split_and!; [done|by apply inv_free|done|done].
Qed.

(** After the loop of [reset] every due timer is either waiting again or freed, and nothing else changed. *)
Lemma reset_loop now X H q :
  clock_ok now → tq_inv q (X.*2 ++ H) →
  ∃ l a h, let q' := set_timers l a h q in
    foldM (reset_one now) X q = Ok q' ∧ tq_inv q' H ∧
    (∀ p, p ∉ X.*2 → h !! p = tq_heap q !! p) ∧
    (∀ e, e ∈ timers_ q → e ∈ l) ∧ (∀ e, e ∈ l → e ∈ timers_ q ∨ now <= e.1) ∧
    (∀ e t, e ∈ X → tq_heap q !! e.2 = Some t →
       if restarts q e.2 t then h !! e.2 = Some (restarted now t) ∧ (now + delay t, e.2) ∈ l else h !! e.2 = None).
Proof.
  intros Hn. revert q; induction X as [|x X IH]; intros q I.
  { exists (timers_ q), (activeTimers_ q), (tq_heap q). cbn in I. split_and!; try set_solver; by destruct q. }
  cbn [fmap list_fmap app] in I. destruct (inv_live q _ x.2 I) as (t & Ht); [set_solver|].
  pose proof (inv_nodup _ _ I) as Nd. rewrite <-Permutation_middle in Nd. apply NoDup_cons in Nd as [Nd _].
  assert (Nx : x.2 ∉ X.*2) by set_solver.
  destruct (reset_one_ok q (X.*2 ++ H) x t now I Ht Hn) as (l1 & a1 & h1 & E1 & I1 & R1).
  destruct (IH _ I1) as (l & a & h & E2 & I2 & Hh & Hl & Hl' & HX). exists l, a, h. cbn zeta in *.
  split; [cbn [foldM]; rewrite E1; exact E2|]. split; [exact I2|]. cbn in Hh, Hl, Hl', HX.
  assert (Hh1 : ∀ p, p ≠ x.2 → h1 !! p = tq_heap q !! p).
  { intros p Hp. destruct (restarts q x.2 t), R1 as [-> _]; by rewrite ?lookup_insert_ne, ?lookup_delete_ne by done. }
  split_and!.
  - intros p Hp. rewrite Hh by set_solver. apply Hh1. set_solver.
  - intros e He. apply Hl. destruct (restarts q x.2 t); [destruct R1 as (_ & P & _); rewrite P; set_solver|by destruct R1 as [_ ->]].
  - intros e He. destruct (Hl' e He) as [He1|?]; [|by right]. destruct (restarts q x.2 t).
    + destruct R1 as (_ & P & ?). rewrite P, elem_of_cons in He1. destruct He1 as [->|?]; [by right|by left].
    + destruct R1 as [_ ->]. by left.
  - intros e u He Hu. apply elem_of_cons in He as [->|He].
    + rewrite Ht in Hu. injection Hu as <-. rewrite Hh by done. destruct (restarts q x.2 t).
      * destruct R1 as (-> & P & _). rewrite lookup_insert_eq. split; [done|]. apply Hl. rewrite P. set_solver.
      * destruct R1 as [-> _]. by rewrite lookup_delete_eq.
    + assert (e.2 ≠ x.2). { intros Eq. apply Nx. rewrite <-Eq. by apply list_elem_of_fmap_2. }
      apply HX; [done|]. by rewrite Hh1.
Qed.

(** C12. Timers can be added and cancelled at any moment in the loop's thread: every assertion holds and
    the invariant and the timerfd's setting are kept. A new timer gets an id whose sequence number no
    live timer has; cancelling an id frees exactly the timer it names, if that timer is waiting, and a
    stale id, even of an address that was allocated again, changes no timer. *)
Theorem add_and_cancel q clk cb when i :
  tq_inv q [] → covered q → clock_ok clk → timer_ok (newTimer cb when i 0) → numCreated_ q < INT64_MAX →
  (match addTimer alloc clk cb when i q with
   | Ok (id, fs, q') => fs = [] ∧ tq_inv q' [] ∧ covered q' ∧ (when, timer_ id) ∈ timers_ q' ∧
       tq_heap q !! timer_ id = None ∧ (∀ p t, tq_heap q !! p = Some t → sequence_ t ≠ sequenct_ id) ∧
       tq_heap q' = <[timer_ id := newTimer cb when i (numCreated_ q)]> (tq_heap q)
   | Fault f => f = Throw BadAlloc
   end) ∧
  (∀ id, ∃ q', cancel clk id q = Ok ([], q') ∧ tq_inv q' [] ∧ covered q' ∧
     ∀ p, tq_heap q' !! p =
       if decide (p = timer_ id ∧ (sequence_ <$> tq_heap q !! p) = Some (sequenct_ id)) then None else tq_heap q !! p).
Proof.
  intros I Cv Hk Ht Hn. split.
  - unfold addTimer. destruct (alloc (tq_heap q)) as [p|] eqn:Ea; [|done]. destruct (alloc_fresh _ _ Ea) as [Hp Hr].
    assert (Es : i64 (numCreated_ q + 1) = numCreated_ q + 1).
    { apply i64_small. pose proof (inv_count _ _ I). unfold INT64_MIN. lia. }
    pose proof (inv_new q [] p cb when i I Hp ltac:(lia) Hn Ht) as I'. set (q1 := mkTQ _ _ _ _ _ _ _ _) in I'.
    destruct (addTimerInLoop_ok q1 p [] (newTimer cb when i (numCreated_ q)) clk I') as (l & a & r & E & I2 & P & C2);
      [apply lookup_insert_eq|done|].
    cbn [sequence_ newTimer]. rewrite Es. fold q1. unfold tq_runInLoop. rewrite (inv_thread _ _ I'). cbn [run_functor].
    rewrite E. cbn. split_and!; [done|done|exact (fun z => C2 z (Cv z))|rewrite P; set_solver|done| |done].
    intros p' t' Ht'. apply (inv_seq _ _ I) in Ht'. lia.
  - intros id. unfold cancel, tq_runInLoop. rewrite (inv_thread _ _ I). cbn [run_functor].
    destruct (cancelInLoop_ok q [] id I) as (q' & -> & I' & E). exists q'. cbn. split; [done|]. split; [done|].
    destruct (decide (ActiveTimer id ∈ activeTimers_ q)) as [Ha|Ha].
    + destruct E as (t & l & Hl & Es & P & ->). split.
      * intros z. by eapply covered_take.
      * intros p. cbn. case_decide as D.
        -- destruct D as [-> _]. by rewrite lookup_delete_eq.
        -- rewrite lookup_delete_ne; [done|]. intros <-. apply D. split; [done|]. rewrite Hl. cbn. by f_equal.
    + assert (tq_heap q' = tq_heap q ∧ timers_ q' = timers_ q ∧ armed_ q' = armed_ q) as (Eh & Et & Ear).
      { subst q'. by destruct (callingExpiredTimers_ q). }
      split; [intros z e r; rewrite Et, Ear; apply Cv|].
      intros p. rewrite Eh. case_decide as D; [|done]. destruct D as [-> D]. exfalso. apply Ha.
      destruct (tq_heap q !! timer_ id) as [t|] eqn:Hl; [|done]. injection D as D.
      rewrite (inv_active _ _ I), elem_of_list_to_set. unfold ActiveTimer. rewrite <-D, key_in_heap by done.
      pose proof (inv_live_inv _ _ _ _ I Hl) as Lv. rewrite app_nil_r in Lv.
      apply list_elem_of_fmap in Lv as ([w p] & Ep & ?). cbn in Ep. subst p. eauto.
Qed.
(** ** A turn of the timer queue *)

(** [acts cb]: the calls the callback [cb] makes. *)
Context (acts : C → list tact).
Definition run_cb (cb : C) q : outcome (TimerQueue C) := foldM run_act (acts cb) q.

(** The entries due at [now], and the calls their callbacks make, in order. *)
Definition due_of (now : Timestamp) (l : list Entry) : list Entry := base.filter (fun e => e.1 <= now) l.
Definition due (now : Timestamp) q : list Entry := due_of now (timers_ q).
Definition acts_of (h : gmap Z (Timer C)) (e : Entry) : list tact := from_option (fun t => acts (callback_ t)) [] (h !! e.2).
Definition executed (now : Timestamp) q : list tact := mjoin (acts_of (tq_heap q) <$> due now q).

Lemma due_app now q a b :
  timers_ q = a ++ b → Forall (fun e => e.1 <= now) a → Forall (fun e => now < e.1) b → due now q = a.
Proof.
  intros E Ha Hb. unfold due. rewrite E.
  assert (F1 : due_of now a = a).
  { clear -Ha. induction Ha as [|x l Hx Hl IH]; [done|]. unfold due_of. rewrite filter_cons_True by done. by f_equal. }
  assert (F2 : due_of now b = []).
  { clear -Hb. induction Hb as [|x l Hx Hl IH]; [done|]. unfold due_of. by rewrite filter_cons_False by lia. }
  transitivity (due_of now a ++ due_of now b); [apply filter_app|]. by rewrite F1, F2, app_nil_r.
Qed.

Lemma callbacks_ok z H X h0 q :
  (∀ e, e ∈ X → e.2 ∈ H ∧ tq_heap q !! e.2 = h0 !! e.2) →
  tq_inv q H → callingExpiredTimers_ q = true →
  let L := mjoin (acts_of h0 <$> X) in
  numCreated_ q + zlen L <= INT64_MAX → Forall act_ok L →
  foldM (fun e q => t ← deref e.2 q; run_cb (callback_ t) q) X q = Fault (Throw BadAlloc) ∨
  ∃ q', foldM (fun e q => t ← deref e.2 q; run_cb (callback_ t) q) X q = Ok q' ∧ acts_effect z L H q q'.
Proof.
  revert q; induction X as [|x X IH]; intros q HX I Hc L Hn Ho.
  { right. exists q. split; [done|by apply acts_effect_nil]. }
  destruct (HX x ltac:(set_solver)) as [Hx Ex]. destruct (inv_live q H x.2 I) as (t & Ht); [set_solver|].
  assert (EL : L = acts (callback_ t) ++ mjoin (acts_of h0 <$> X)).
  { subst L. cbn. f_equal. unfold acts_of. by rewrite <-Ex, Ht. }
  rewrite EL in *. clear EL L. rewrite zlen_app in Hn. apply Forall_app in Ho as [Ho1 Ho2].
  pose proof (zlen_nonneg (mjoin (acts_of h0 <$> X))). cbn [foldM].
  assert ((t ← deref x.2 q; run_cb (callback_ t) q) = foldM run_act (acts (callback_ t)) q) as ->
    by (unfold deref; by rewrite Ht).
  destruct (run_acts_ok z H (acts (callback_ t)) q I Hc ltac:(lia) Ho1) as [E|(q1 & E & Ef)]; rewrite E.
  { by left. }
  pose proof Ef as (I1 & C1 & N1 & V1 & K1). cbn [mbind outcome_bind].
  destruct (IH q1) as [E2|(q2 & E2 & Ef2)]; [|done|done|lia|done|by left|right].
  - intros e He. destruct (HX e ltac:(set_solver)) as [He1 He2]. split; [done|].
    destruct (inv_live q H e.2 I) as (u & Hu); [set_solver|]. destruct (K1 e.2 u He1 Hu) as [-> _]. congruence.
  - exists q2. split; [done|]. by eapply acts_effect_trans.
Qed.

Lemma reset_ok now clk X q :
  clock_ok now → clock_ok clk → tq_inv q X.*2 → covered_upto now q →
  ∃ q', reset X now clk q = Ok q' ∧ tq_inv q' [] ∧ covered q' ∧
    callingExpiredTimers_ q' = callingExpiredTimers_ q ∧ (∀ e, e ∈ timers_ q → e ∈ timers_ q') ∧
    (∀ e t, e ∈ X → tq_heap q !! e.2 = Some t →
       if restarts q e.2 t
       then tq_heap q' !! e.2 = Some (restarted now t) ∧ (now + delay t, e.2) ∈ timers_ q'
       else tq_heap q' !! e.2 = None).
Proof.
  intros Hn Hk I Hv. rewrite <-(app_nil_r X.*2) in I.
  destruct (reset_loop now X [] q Hn I) as (l & a & h & E & I' & _ & Hl & Hl' & HX). cbn zeta in *.
  unfold reset. rewrite E. cbn [mbind outcome_bind]. set (q1 := set_timers l a h q) in *.
  destruct l as [|e r].
  - exists q1. cbn. by split_and!.
  - cbn [timers_ set_timers q1]. destruct (inv_exp _ _ I' e) as (t & Ht & Et); [cbn; set_solver|].
    unfold deref. rewrite Ht. cbn [mbind outcome_bind]. unfold when, valid. rewrite Et. destruct (0 <? e.1) eqn:Ev.
    + destruct (inv_ok _ _ I' _ _ Ht) as [[Ht' _] _]. rewrite Et in Ht'.
      destruct (resetTimerfd_ok q1 clk e.1 Hk Ht') as (ts & _ & ->). exists (set_armed (Some (e.1, ts)) q1).
      split_and!; [done|by apply inv_set_armed| |done|done|done].
      intros z e' r' [= -> ->] _. exists e'.1, ts. split; [done|lia].
    + bool_prop. exists q1. split_and!; [done|done| |done|done|done].
      intros z e' r' [= -> ->] Hz. destruct (Hl' e' ltac:(set_solver)) as [He|He]; [|unfold clock_ok in Hn; lia].
      destruct (timers_ q) as [|h0 r0] eqn:Eq; [set_solver|].
      assert (h0.1 <= e'.1) by (apply (sorted_head_le h0 r0); [rewrite <-Eq; apply (inv_sorted _ _ I)|done]).
      destruct (Hv h0 r0 Eq) as (d & ts & Ed & Hd); [unfold clock_ok in Hn; lia|]. exists d, ts. split; [done|lia].
Qed.

(** ** Properties *)

(** C11. A timer event: with a well-formed queue and callbacks that may add and cancel any timers,
    [handleRead] keeps every assertion and the invariant, and leaves the timerfd set no later than the
    first waiting timer. Each timer that was due either waits again, one interval after [now] and with
    its sequence number, which happens exactly when it repeats and no callback of this turn cancelled
    it (itself included), or is freed. Running out of memory in a callback is the only other outcome. *)
Theorem timer_event q now clk :
  tq_inv q [] → clock_ok now → clock_ok clk →
  Forall act_ok (executed now q) → numCreated_ q + zlen (executed now q) <= INT64_MAX →
  handleRead run_cb now clk q = Fault (Throw BadAlloc) ∨
  ∃ q', handleRead run_cb now clk q = Ok q' ∧ tq_inv q' [] ∧ covered q' ∧ callingExpiredTimers_ q' = false ∧
    ∀ e t, e ∈ due now q → tq_heap q !! e.2 = Some t →
      (repeat_ t = true → TCancel (mkTimerId e.2 (sequence_ t)) ∉ executed now q →
       tq_heap q' !! e.2 = Some (restarted now t) ∧ (now + delay t, e.2) ∈ timers_ q') ∧
      (repeat_ t = false ∨ TCancel (mkTimerId e.2 (sequence_ t)) ∈ executed now q → tq_heap q' !! e.2 = None).
Proof.
  intros I Hn Hk Ho Hc. unfold handleRead, readTimerfd. rewrite (inv_assert _ _ I). cbn [mbind outcome_bind].
  destruct (getExpired_ok (set_armed None q) [] now) as (X & rest & A & E & Eq & HX & Hr & I1).
  { by apply inv_set_armed. }
  cbn in Eq. assert (D : due now q = X) by (by apply (due_app now q X rest)). unfold executed in *. rewrite D in *.
  rewrite E. cbn [mbind outcome_bind]. rewrite app_nil_r in I1. set (q1 := set_timers rest A _ _) in *.
  set (q2 := set_canceling true ∅ q1). assert (I2 : tq_inv q2 X.*2) by (by apply inv_set_canceling).
  destruct (callbacks_ok now X.*2 X (tq_heap q) q2) as [Ef|(q3 & Ef & Hef)];
    [|done|done|exact Hc|exact Ho| |]; [|rewrite Ef; by left|right].
  { intros e He. split; [by apply list_elem_of_fmap_2|done]. }
  rewrite Ef. cbn [mbind outcome_bind]. destruct Hef as (I3 & C3 & N3 & V3 & K3).
  set (q4 := set_canceling false (cancelingTimers_ q3) q3).
  destruct (reset_ok now clk X q4) as (q' & -> & I' & Cv & Ca & _ & Hres); [done|done|by apply inv_set_canceling| |].
  { apply V3. intros e r Er Hz. cbn in Er. rewrite Er in Hr. inversion Hr; subst. lia. }
  exists q'. split_and!; [done..|].
  intros e t He Ht. assert (He2 : e.2 ∈ X.*2) by (by apply list_elem_of_fmap_2).
  destruct (K3 e.2 t He2 Ht) as [Ht3 B3]. cbn in B3. pose proof (Hres e t He Ht3) as R. unfold restarts in R. cbn in R.
  split.
  - intros Hrep Hnc. rewrite Hrep, bool_decide_eq_false_2 in R by set_solver. exact R.
  - intros [Hrep|Hcan]; [by rewrite Hrep in R|]. rewrite bool_decide_eq_true_2 in R by set_solver.
    by rewrite andb_false_r in R.
Qed.

End Invariant.

(** The relative time given to the timerfd is a normal [timespec] and never less than 100
    microseconds, however late the deadline already is, so the timer cannot be disarmed by accident. *)
Theorem timerfd_delay_bounds (when now : Timestamp) :
  INT64_MIN <= when - now <= INT64_MAX →
  ∃ sec nsec, howMuchTimeFromNow when now = Ok (sec, nsec) ∧ 0 <= sec ∧ 0 <= nsec < 1000000000 ∧
    sec * 1000000000 + nsec = Z.max 100 (when - now) * 1000 ∧ 0 < sec * 1000000000 + nsec.
Proof.
  intros H. unfold howMuchTimeFromNow. rewrite add_i64_ok by lia. cbn [mbind outcome_bind].
  set (m := if when + - now <? 100 then 100 else when + - now).
  assert (Em : m = Z.max 100 (when - now)) by (subst m; case_match; bool_prop; lia).
  destruct (quot_rem_nonneg m ltac:(lia)) as (-> & -> & E1 & E2 & E3).
  eexists _, _. split; [done|]. lia.
Qed.

Lemma timerfd_delay_bounds_witness :
  howMuchTimeFromNow 5 1000 = Ok (0, 100000) ∧ ∃ sec nsec, howMuchTimeFromNow 5 1000 = Ok (sec, nsec) ∧ 0 < sec * 1000000000 + nsec.
Proof.
  split; [reflexivity|].
  destruct (timerfd_delay_bounds 5 1000 ltac:(by vm_compute)) as (s & n & E & _ & _ & _ & P). by exists s, n.
Defined.

(** ** A queue with one periodic timer *)

(** An allocator with two cells. *)
Definition alloc2 (h : gmap Z (Timer nat)) : option Z :=
  if h !! 1 is Some _ then if h !! 2 is Some _ then None else Some 2 else Some 1.
Lemma alloc2_fresh h p : alloc2 h = Some p → h !! p = None ∧ 0 < p < UINTPTR_MAX.
Proof.
  unfold alloc2. destruct (h !! 1) eqn:E1; [|by intros [= <-]]. destruct (h !! 2) eqn:E2; [done|by intros [= <-]].
Qed.

(** Callback 0 does nothing, callback 1 cancels timer (1, 1). *)
Definition sample_acts (cb : nat) : list (tact (C := nat)) :=
  if (cb =? 1)%nat then [TCancel (mkTimerId 1 1)] else [].

(** The queue after [runEvery(0.5, cb)] at time 1000000. *)
Definition half : double := binary_normalize 53 1024 1 (-1) false.
Definition sample_queue (cb : nat) : TimerQueue nat :=
  mkTQ [(1500000, 1)] {[(1, 1)]} false ∅ {[1 := newTimer cb 1500000 half 0]} 1
    (Some (1500000, (0, 500000000))) true.

Lemma sample_added cb : runEvery alloc2 1000000 1000000 half cb empty_queue = Ok (mkTimerId 1 1, [], sample_queue cb).
Proof. reflexivity. Qed.

Lemma sample_inv cb : tq_inv (sample_queue cb) [].
Proof.
  assert (Hok : timer_ok (newTimer cb 1500000 half 0)).
  { split; [cbn; unfold time_ok; lia|]. intros _. exists 500000. by split. }
  split; cbn; try done.
  - repeat constructor.
  - intros e. rewrite list_elem_of_singleton. intros ->. eexists. by rewrite lookup_singleton_eq.
  - repeat constructor; set_solver.
  - intros p t [<- <-]%lookup_singleton_Some. done.
  - intros p p' t t' [<- <-]%lookup_singleton_Some [<- <-]%lookup_singleton_Some. done.
  - intros p t [<- <-]%lookup_singleton_Some. done.
Qed.

Lemma timer_event_witness :
  (∃ q', handleRead (run_cb alloc2 sample_acts) 1600000 1600001 (sample_queue 0) = Ok q' ∧
     (2100000, 1) ∈ timers_ q') ∧
  (∃ q', handleRead (run_cb alloc2 sample_acts) 1600000 1600001 (sample_queue 1) = Ok q' ∧ tq_heap q' !! 1 = None).
Proof.
  assert (clock_ok 1600000 ∧ clock_ok 1600001) as [K1 K2] by done.
  split.
  - destruct (timer_event alloc2 alloc2_fresh sample_acts (sample_queue 0) 1600000 1600001 (sample_inv 0) K1 K2)
      as [E|(q' & E & _ & _ & _ & H)]; [by constructor|done|by vm_compute in E|].
    exists q'. split; [done|].
    destruct (H (1500000, 1) (newTimer 0%nat 1500000 half 0)) as [H1 _]; [by constructor|done|].
    by destruct (H1 eq_refl ltac:(by apply not_elem_of_nil)).
  - destruct (timer_event alloc2 alloc2_fresh sample_acts (sample_queue 1) 1600000 1600001 (sample_inv 1) K1 K2)
      as [E|(q' & E & _ & _ & _ & H)]; [by repeat constructor|done|by vm_compute in E|].
    exists q'. split; [done|].
    destruct (H (1500000, 1) (newTimer 1%nat 1500000 half 0)) as [_ H1]; [by constructor|done|].
    apply H1. right. by constructor.
Defined.

Lemma add_and_cancel_witness :
  (∃ q', cancel 1 (mkTimerId 1 1) (sample_queue 0) = Ok ([], q') ∧ tq_heap q' !! 1 = None) ∧
  (∃ q', cancel 1 (mkTimerId 1 7) (sample_queue 0) = Ok ([], q') ∧ tq_heap q' !! 1 = tq_heap (sample_queue 0) !! 1).
Proof.
  destruct (add_and_cancel alloc2 alloc2_fresh (sample_queue 0) 1 0%nat 2000000 half (sample_inv 0)) as [_ H].
  - intros z e r [= <- <-] _. exists 1500000, (0, 500000000). done.
  - done.
  - split; [cbn; unfold time_ok; lia|]. intros _. exists 500000. by split.
  - done.
  - split.
    + destruct (H (mkTimerId 1 1)) as (q' & E & _ & _ & K). exists q'. split; [done|]. by rewrite K, decide_True.
    + destruct (H (mkTimerId 1 7)) as (q' & E & _ & _ & K). exists q'. split; [done|]. rewrite K, decide_False; [done|].
      by intros [_ X].
Defined.
