(* ===== verification/Sockets.v ===== *)
(** * Sockets: addresses and socket helpers

    Models [plugins/Muduo/muduo/net/socketOps.cpp], [InetAddress.h], [InetAddress.cpp] and [socket.cpp].
    System calls are arguments: their return value and errno. Byte order is that of a little-endian host. *)

From S2P Require Import Prelude Buffer.

(** ** The C library *)

Definition AF_INET : Z := 2.
Definition INADDR_ANY : Z := 0.
Definition INET_ADDRSTRLEN : Z := 16.
Definition htons (x : Z) : Z := byteswap 2 (u16 x).
Definition ntohs (x : Z) : Z := byteswap 2 (u16 x).
Definition htonl (x : Z) : Z := byteswap 4 (u32 x).

(** [sin_port] and [s_addr] hold the integers read from network-order bytes. *)
Record sockaddr_in := mkAddr { sin_family : Z; sin_port : Z; sin_addr : Z }.

(** [inet_ntop(AF_INET)]: the four address bytes in memory order. *)
Definition ip_text (bytes : list Z) : chars :=
  match bytes with
  | [a; b; c; d] => udec a ++ $"." ++ udec b ++ $"." ++ udec c ++ $"." ++ udec d
  | _ => []
  end.
Definition addr_bytes (s_addr : Z) : list Z := char_code <$> le_bytes 4 s_addr.
Definition inet_ntop (s_addr : Z) : chars := ip_text (addr_bytes s_addr).

(** The pieces between separators. *)
Fixpoint split_char (c : char) (s : chars) : list chars :=
  match s with
  | [] => [[]]
  | x :: s' =>
      match split_char c s' with
      | p :: ps => if decide (x = c) then [] :: p :: ps else (x :: p) :: ps
      | [] => [[x]]
      end
  end.

(** [inet_pton(AF_INET)]: four octets, one to three digits each, no leading zero, at most 255. *)
Definition octet (s : chars) : option Z :=
  if forallb is_digit s && (1 <=? zlen s) && (zlen s <=? 3) &&
     ((zlen s =? 1) || negb (bool_decide (head s = Some "0"%char))) && (dval s <=? 255)
  then Some (dval s) else None.
Definition inet_pton (s : chars) : option Z :=
  match octet <$> split_char "." s with
  | [Some a; Some b; Some c; Some d] => Some (le_value (char_of_code <$> [a; b; c; d]))
  | _ => None
  end.

(** ** socketOps *)

(* @src socketOps.cpp | void fromIpPort( *)
Definition fromIpPort (ip : chars) (port : Z) (addr : sockaddr_in) : outcome sockaddr_in :=
  match inet_pton (c_str ip) with
  | Some a => Ok (mkAddr AF_INET (htons port) a)
  | None => Fault ExitFailure
  end.

(** What [toIp] leaves in [buf] of [size] bytes. *)
(* @src socketOps.cpp | void toIp( *)
Definition toIp (size : Z) (addr : sockaddr_in) : outcome chars :=
  assert_ (INET_ADDRSTRLEN <=? size);; Ok (inet_ntop (sin_addr addr)).

(* @src socketOps.cpp | void toIpPort( *)
Definition toIpPort (size : Z) (addr : sockaddr_in) : outcome chars :=
  host ← toIp INET_ADDRSTRLEN addr;
  let port := ntohs (sin_port addr) in
  Ok (snprintf size (host ++ $":" ++ udec port)).

(** [socket(2)] returned [r]. *)
(* @src socketOps.cpp | int createNonblockingOrDie() *)
Definition createNonblockingOrDie (r : Z) : outcome Z := if r <? 0 then Fault ExitFailure else Ok r.

(** The flags given to [F_SETFL] and [F_SETFD] for the flags that [F_GETFL] and [F_GETFD] returned. *)
Definition O_NONBLOCK : Z := 2048.
Definition FD_CLOEXEC : Z := 1.
(* @src socketOps.cpp | void setNonblockAndCloseOnExec( *)
Definition setNonblockAndCloseOnExec (fl fd : Z) : Z * Z := (Z.lor fl O_NONBLOCK, Z.lor fd FD_CLOEXEC).

(* @src socketOps.cpp | void close(int sockfd) *)
Definition sock_close (r : Z) : outcome unit := if r <? 0 then Fault ExitFailure else Ok tt.
(* @src socketOps.cpp | void bindOrDie( *)
Definition bindOrDie (r : Z) : outcome unit := if r <? 0 then Fault ExitFailure else Ok tt.
(* @src socketOps.cpp | void listenOrDie( *)
Definition listenOrDie (r : Z) : outcome unit := if r <? 0 then Fault ExitFailure else Ok tt.

Definition EPERM : Z := 1.
Definition EINTR : Z := 4.
Definition EAGAIN : Z := 11.
Definition EMFILE : Z := 24.
Definition EPROTO : Z := 71.
Definition ECONNABORTED : Z := 103.

(** [accept(2)] returned [connfd] with [errno]: the result and the errno the caller sees. Both fatal groups
    of the [switch] exit. *)
(* @src socketOps.cpp | int accept(int sockfd, *)
Definition accept (connfd errno : Z) : outcome (Z * Z) :=
  if connfd <? 0 then
    if (errno =? EAGAIN) || (errno =? ECONNABORTED) || (errno =? EINTR) || (errno =? EPROTO) ||
       (errno =? EPERM) || (errno =? EMFILE)
    then Ok (connfd, errno) else Fault ExitFailure
  else Ok (connfd, errno).

(** [getsockopt(2)] returned [r] with [errno], or the option's value. *)
(* @src socketOps.cpp | int getSocketError(int sockfd) *)
Definition getSocketError (r errno optval : Z) : Z := if r <? 0 then errno else optval.

(** [getsockname(2)] and [getpeername(2)] returned [r] and filled [a]. *)
(* @src socketOps.cpp | sockaddr_in getLocalAddr(int sockfd) *)
Definition getLocalAddr (r : Z) (a : sockaddr_in) : outcome sockaddr_in := if r <? 0 then Fault ExitFailure else Ok a.
(* @src socketOps.cpp | sockaddr_in getPeerAddr(int sockfd) *)
Definition getPeerAddr (r : Z) (a : sockaddr_in) : outcome sockaddr_in := if r <? 0 then Fault ExitFailure else Ok a.

(* @src socketOps.cpp | bool isSelfConnect(int sockfd) *)
Definition isSelfConnect (rl rp : Z) (l p : sockaddr_in) : outcome bool :=
  localaddr ← getLocalAddr rl l;
  peeraddr ← getPeerAddr rp p;
  Ok ((sin_addr localaddr =? sin_addr peeraddr) && (sin_port localaddr =? sin_port peeraddr)).

(** ** InetAddress *)

(* @src InetAddress.cpp | InetAddress::InetAddress(uint16_t port) *)
Definition InetAddress_port (port : Z) : sockaddr_in := mkAddr AF_INET (htons port) (htonl INADDR_ANY).
(* @src InetAddress.cpp | InetAddress::InetAddress(const std::string& ip, uint16_t port) *)
Definition InetAddress (ip : chars) (port : Z) : outcome sockaddr_in := fromIpPort ip port (mkAddr 0 0 0).
(* @src InetAddress.cpp | std::string InetAddress::toIp() *)
Definition addr_toIp (a : sockaddr_in) : outcome chars := toIp 32 a.
(* @src InetAddress.cpp | std::string InetAddress::toIpPort() *)
Definition addr_toIpPort (a : sockaddr_in) : outcome chars := toIpPort 32 a.

(** ** Socket *)

(** The descriptor, its options, and whether its write half was shut down. *)
(* @src net/socket.h | int sockfd_; *)
Record Socket := mkSocket { sockfd_ : Z; tcp_nodelay : Z; so_reuseaddr : Z; so_keepalive : Z; write_shut : bool }.
(* @src net/socket.cpp | Socket::Socket(int sockfd) *)
Definition newSocket (sockfd : Z) : Socket := mkSocket sockfd 0 0 0 false.
(* @src net/socket.cpp | Socket::~Socket() *)
Definition socket_destroy (close_r : Z) : outcome unit := sock_close close_r.
(* @src net/socket.cpp | InetAddress Socket::getLocalAddr() const { *)
Definition socket_getLocalAddr (r : Z) (a : sockaddr_in) : outcome sockaddr_in := getLocalAddr r a.
(* @src net/socket.cpp | void Socket::bindAddress( *)
Definition bindAddress (r : Z) : outcome unit := bindOrDie r.
(* @src net/socket.cpp | void Socket::listen() const *)
Definition socket_listen (r : Z) : outcome unit := listenOrDie r.
(** [peer] is what the kernel filled in; [peerAddr] changes only when there is a connection. *)
(* @src net/socket.cpp | int Socket::accept( *)
Definition socket_accept (r errno : Z) (peer peerAddr : sockaddr_in) : outcome (Z * sockaddr_in) :=
  c ← accept r errno;
  Ok (c.1, if 0 <=? c.1 then peer else peerAddr).
(* @src net/socket.cpp | void Socket::shutdownWrite() const *)
Definition socket_shutdownWrite (s : Socket) : Socket :=
  mkSocket (sockfd_ s) (tcp_nodelay s) (so_reuseaddr s) (so_keepalive s) true.
(* @src net/socket.cpp | void Socket::setTcpNoDelay( *)
Definition setTcpNoDelay (on : bool) (s : Socket) : Socket :=
  mkSocket (sockfd_ s) (if on then 1 else 0) (so_reuseaddr s) (so_keepalive s) (write_shut s).
(* @src net/socket.cpp | void Socket::setReuseAddr( *)
Definition setReuseAddr (on : bool) (s : Socket) : Socket :=
  mkSocket (sockfd_ s) (tcp_nodelay s) (if on then 1 else 0) (so_keepalive s) (write_shut s).
(* @src net/socket.cpp | void Socket::setKeepAlive( *)
Definition setKeepAlive (on : bool) (s : Socket) : Socket :=
  mkSocket (sockfd_ s) (tcp_nodelay s) (so_reuseaddr s) (if on then 1 else 0) (write_shut s).

(** ** Properties *)

Lemma split_char_app c s r :
  Forall (fun x => x ≠ c) s → split_char c (s ++ c :: r) = s :: split_char c r.
Proof.
  induction 1 as [|x s Hx Hs IH]; cbn [app split_char].
  - destruct (split_char c r) as [|p ps] eqn:E; [|by rewrite decide_True].
    exfalso. destruct r; cbn in E; [done|]. destruct (split_char c r); [done|]. by destruct (decide (_ = c)).
  - by rewrite IH, decide_False.
Qed.

Lemma split_char_last c s : Forall (fun x => x ≠ c) s → split_char c s = [s].
Proof. induction 1 as [|x s Hx Hs IH]; cbn; [done|]. by rewrite IH, decide_False. Qed.

Lemma octet_udec a : 0 <= a < 256 → octet (udec a) = Some a.
Proof.
  intros H. assert (F : forallb (fun n => bool_decide (octet (udec (Z.of_nat n)) = Some (Z.of_nat n))) (seq 0 256) = true)
    by (by vm_compute).
  rewrite forallb_forall in F. specialize (F (Z.to_nat a)). rewrite Z2Nat.id in F by lia.
  eapply bool_decide_eq_true_1. apply F, in_seq. lia.
Qed.

Lemma udec_no_dot a : 0 <= a → Forall (fun x => x ≠ "."%char) (udec a).
Proof. intros H. eapply Forall_impl; [by apply udec_digits|]. by intros x Hx ->. Qed.

Lemma digits_no_nul s : Forall (fun c => is_digit c = true ∨ c = "."%char) s → c_str s = s.
Proof.
  induction 1 as [|x s Hx Hs IH]; [done|]. cbn [c_str]. rewrite decide_False; [by rewrite IH|].
  intros ->. by destruct Hx.
Qed.

Lemma ip_text_c_str a b c d : 0 <= a → 0 <= b → 0 <= c → 0 <= d → c_str (ip_text [a; b; c; d]) = ip_text [a; b; c; d].
Proof.
  intros. apply digits_no_nul. cbn [ip_text].
  assert (D : ∀ n, 0 <= n → Forall (fun c => is_digit c = true ∨ c = "."%char) (udec n)).
  { intros n Hn. eapply Forall_impl; [by apply udec_digits|]. auto. }
  rewrite !Forall_app. split_and!; try (by apply D); repeat constructor; by right.
Qed.

Lemma inet_pton_text a b c d :
  0 <= a < 256 → 0 <= b < 256 → 0 <= c < 256 → 0 <= d < 256 →
  inet_pton (ip_text [a; b; c; d]) = Some (le_value (char_of_code <$> [a; b; c; d])).
Proof.
  intros. unfold inet_pton. cbn [ip_text list_ascii_of_string app].
  rewrite split_char_app by (apply udec_no_dot; lia). rewrite split_char_app by (apply udec_no_dot; lia).
  rewrite split_char_app by (apply udec_no_dot; lia). rewrite split_char_last by (apply udec_no_dot; lia).
  cbn [fmap list_fmap]. by rewrite !octet_udec.
Qed.

Lemma byteswap_range n z : 0 <= byteswap n z < 256 ^ Z.of_nat n.
Proof.
  unfold byteswap. pose proof (le_value_range (rev (le_bytes n z))) as R.
  unfold zlen in R. by rewrite length_rev, length_le_bytes in R.
Qed.

Lemma ntohs_htons p : 0 <= p < 65536 → ntohs (htons p) = p.
Proof.
  intros H. unfold ntohs, htons, u16. rewrite (Z.mod_small p) by lia.
  rewrite (Z.mod_small (byteswap 2 p)) by (pose proof (byteswap_range 2 p); lia).
  unfold byteswap at 1. rewrite le_bytes_byteswap, rev_involutive, le_value_bytes. by apply Z.mod_small.
Qed.

Lemma udec_octet_length a : 0 <= a < 256 → (length (udec a) <= 3)%nat.
Proof. intros. apply udec_length; [|lia]. change (10 ^ Z.of_nat 3) with 1000. lia. Qed.

Lemma addr_bytes_value a b c d :
  0 <= a < 256 → 0 <= b < 256 → 0 <= c < 256 → 0 <= d < 256 →
  addr_bytes (le_value (char_of_code <$> [a; b; c; d])) = [a; b; c; d].
Proof.
  intros. unfold addr_bytes. change 4%nat with (length (char_of_code <$> [a; b; c; d])). rewrite le_bytes_value.
  cbn. rewrite !char_code_of_code, !Z.mod_small by lia. done.
Qed.

(** C16. Addresses survive the round trip through text: for every IPv4 address and port, the [InetAddress]
    built from the dotted address and the port prints as "a.b.c.d:port", whole, in its 32-byte buffer. *)
Theorem address_roundtrip a b c d port :
  0 <= a < 256 → 0 <= b < 256 → 0 <= c < 256 → 0 <= d < 256 → 0 <= port < 65536 →
  ∃ addr, InetAddress (ip_text [a; b; c; d]) port = Ok addr ∧
    addr_toIp addr = Ok (ip_text [a; b; c; d]) ∧
    addr_toIpPort addr = Ok (ip_text [a; b; c; d] ++ $":" ++ udec port) ∧
    (length (ip_text [a; b; c; d] ++ $":" ++ udec port) <= 21)%nat.
Proof.
  intros Ha Hb Hc Hd Hp.
  assert (Ell : (length (ip_text [a; b; c; d] ++ $":" ++ udec port) <= 21)%nat).
  { pose proof (udec_length port 5 ltac:(change (10 ^ Z.of_nat 5) with 100000; lia) ltac:(lia)).
    pose proof (udec_octet_length a Ha). pose proof (udec_octet_length b Hb).
    pose proof (udec_octet_length c Hc). pose proof (udec_octet_length d Hd).
    cbn [ip_text]. rewrite !length_app. cbn [length list_ascii_of_string]. lia. }
  unfold InetAddress, fromIpPort. rewrite ip_text_c_str, inet_pton_text by lia. eexists. split; [done|].
  unfold addr_toIp, addr_toIpPort, toIpPort, toIp, inet_ntop. cbn [sin_addr sin_port INET_ADDRSTRLEN Z.leb Z.compare Pos.compare Pos.compare_cont assert_ mbind outcome_bind].
  rewrite addr_bytes_value by lia. change (INET_ADDRSTRLEN <=? 32) with true. change (INET_ADDRSTRLEN <=? INET_ADDRSTRLEN) with true.
  cbn [assert_ mbind outcome_bind]. rewrite ntohs_htons by lia.
  split_and!; [done| |done]. f_equal. apply snprintf_short. lia.
Qed.

Lemma address_roundtrip_witness :
  ∃ addr, InetAddress $"192.168.0.1" 8080 = Ok addr ∧ addr_toIpPort addr = Ok $"192.168.0.1:8080".
Proof.
  destruct (address_roundtrip 192 168 0 1 8080) as (addr & E & _ & F & _); [lia..|]. exists addr. split; [exact E|exact F].
Defined.
