(* ===== verification/TcpConnection.v ===== *)
(** * TcpConnection: one connection's state machine and byte streams

    Models [plugins/Muduo/muduo/net/TcpConnection.h] and [TcpConnection.cpp] on the [Buffer] model and
    against the promises of a loop ([LoopServices], [LoopLaws]). The kernel's side of the socket is the
    class [SocketKernel]. The functors the connection gives to its loop are values of [conn_functor].
    Callbacks have numbers, and none is the empty [std::function], whose call throws; an interpreter gives,
    for the number of a user callback, what it does to the connection it is given and to the world, which may hold the
    user's own state. The general theorems are about callbacks that make a list of calls on the connection
    ([calls]); [FtpCtrl] runs callbacks with state of their own. *)

From S2P Require Import Prelude Buffer Channel Sockets.

(** ** The socket *)

Definition EPIPE : Z := 32.
Definition ECONNRESET : Z := 104.
Definition EWOULDBLOCK : Z := 11.

(** The options [Socket] sets on a connection. *)
Inductive sockopt := TcpNoDelay | KeepAlive.

(** [write(2)], [readv(2)] with the capacity of its blocks, [shutdown(fd, SHUT_WR)], [SO_ERROR],
    [setsockopt(2)]. [sent] is the byte stream the kernel has accepted for the peer, [shut] tells whether the write half is closed. *)
Class SocketKernel (S : Type) := {
  sock_write : chars → S → Z * Z * S;
  sock_readv : Z → S → readv_result * S;
  sock_shutdownWrite : S → S;
  sock_getError : S → Z * S;
  sock_setopt : sockopt → bool → S → S;
  sent : S → chars;
  shut : S → bool
}.

(** write(2): at most the bytes given are taken, in order; none after the write half is closed
    ([EPIPE]). readv(2): at most the capacity. *)
Class SocketLaws (S : Type) `{SocketKernel S} := {
  write_law d s : let '(n, e, s') := sock_write d s in
    n <= zlen d ∧ sent s' = sent s ++ take (Z.to_nat n) d ∧ shut s' = shut s ∧
    (shut s = true → n = -1 ∧ e = EPIPE);
  readv_law cap s : let '(r, s') := sock_readv cap s in
    sent s' = sent s ∧ shut s' = shut s ∧
    match r with ReadvBytes d => 0 <= cap → zlen d <= cap | ReadvError _ => True end;
  shutdown_law s : sent (sock_shutdownWrite s) = sent s ∧ shut (sock_shutdownWrite s) = true;
  getError_law s : sent (sock_getError s).2 = sent s ∧ shut (sock_getError s).2 = shut s;
  setopt_law o on s : sent (sock_setopt o on s) = sent s ∧ shut (sock_setopt o on s) = shut s
}.

(** ** State *)

(* @src TcpConnection.h | enum StateE *)
Inductive StateE := KDisconnected | KConnecting | KConnected | KDisconnecting.
#[global] Instance StateE_eq_dec : EqDecision StateE.
Proof. solve_decision. Defined.

Definition is_state (a b : StateE) : bool := bool_decide (a = b).

(** The functors a connection passes to [runInLoop] and [queueInLoop]. [sendInLoop] binds a copy of the
    write-complete callback ([FWriteComplete]); the lambda of [handleWrite] calls the member when it runs
    ([FWriteCompleteLate]). *)
Inductive conn_functor :=
| FWriteComplete (cb : nat)
| FWriteCompleteLate
| FHighWaterMark (cb : nat) (len : Z)
| FSendInLoop (message : chars)
| FShutdownInLoop
| FForceCloseInLoop.
#[global] Instance conn_functor_eq_dec : EqDecision conn_functor.
Proof. solve_decision. Defined.

(** The calls a user callback makes. [URetrieve n] takes at most [n] bytes from the input buffer;
    [USetWriteComplete] sets or clears the write-complete callback. *)
Inductive uact :=
| USend (message : chars)
| USetWriteComplete (cb : option nat)
| UShutdown
| UForceClose
| URetrieve (n : Z).

(** What [context_], a [std::any], holds: nothing, the null pointer of the constructor, or a user's object by
    number. *)
Inductive any := any_empty | any_nullptr | any_object (object : nat).

(* @src TcpConnection.h | EventLoop* loop_; | std::any context_; | TcpConnection *)
Record TcpConnection (CB S : Type) := mkConn {
  name_ : chars;
  state_ : StateE;
  socket_ : S;
  channel_ : Channel CB;
  localAddr_ : sockaddr_in;
  peerAddr_ : sockaddr_in;
  connectionCallback_ : option nat;
  messageCallback_ : option nat;
  writeCompleteCallback_ : option nat;
  highWaterMarkCallback_ : option nat;
  closeCallback_ : option nat;
  highWaterMark_ : Z;
  inputBuffer_ : Buffer;
  outputBuffer_ : Buffer;
  context_ : any
}.
Arguments mkConn {CB S}.
Arguments name_ {CB S}.
Arguments state_ {CB S}.
Arguments socket_ {CB S}.
Arguments channel_ {CB S}.
Arguments localAddr_ {CB S}.
Arguments peerAddr_ {CB S}.
Arguments connectionCallback_ {CB S}.
Arguments messageCallback_ {CB S}.
Arguments writeCompleteCallback_ {CB S}.
Arguments highWaterMarkCallback_ {CB S}.
Arguments closeCallback_ {CB S}.
Arguments highWaterMark_ {CB S}.
Arguments inputBuffer_ {CB S}.
Arguments outputBuffer_ {CB S}.
Arguments context_ {CB S}.

Section Connection.
Context {CB T W S : Type} `{LS : LoopServices CB T W} `{SK : SocketKernel S}.
Context (fn : conn_functor → T).
Implicit Types (c : TcpConnection CB S) (w : W).

(** Assignments to members. *)
Definition with_state st c : TcpConnection CB S :=
  mkConn (name_ c) st (socket_ c) (channel_ c) (localAddr_ c) (peerAddr_ c) (connectionCallback_ c)
    (messageCallback_ c) (writeCompleteCallback_ c) (highWaterMarkCallback_ c) (closeCallback_ c) (highWaterMark_ c) (inputBuffer_ c) (outputBuffer_ c) (context_ c).
Definition with_socket s c : TcpConnection CB S :=
  mkConn (name_ c) (state_ c) s (channel_ c) (localAddr_ c) (peerAddr_ c) (connectionCallback_ c)
    (messageCallback_ c) (writeCompleteCallback_ c) (highWaterMarkCallback_ c) (closeCallback_ c) (highWaterMark_ c) (inputBuffer_ c) (outputBuffer_ c) (context_ c).
Definition with_channel ch c : TcpConnection CB S :=
  mkConn (name_ c) (state_ c) (socket_ c) ch (localAddr_ c) (peerAddr_ c) (connectionCallback_ c)
    (messageCallback_ c) (writeCompleteCallback_ c) (highWaterMarkCallback_ c) (closeCallback_ c) (highWaterMark_ c) (inputBuffer_ c) (outputBuffer_ c) (context_ c).
Definition with_input b c : TcpConnection CB S :=
  mkConn (name_ c) (state_ c) (socket_ c) (channel_ c) (localAddr_ c) (peerAddr_ c) (connectionCallback_ c)
    (messageCallback_ c) (writeCompleteCallback_ c) (highWaterMarkCallback_ c) (closeCallback_ c) (highWaterMark_ c) b (outputBuffer_ c) (context_ c).
Definition with_output b c : TcpConnection CB S :=
  mkConn (name_ c) (state_ c) (socket_ c) (channel_ c) (localAddr_ c) (peerAddr_ c) (connectionCallback_ c)
    (messageCallback_ c) (writeCompleteCallback_ c) (highWaterMarkCallback_ c) (closeCallback_ c) (highWaterMark_ c) (inputBuffer_ c) b (context_ c).

(** The constructor: [id] is the channel's address, [rd wr cl er] the four channel callbacks. *)
(* @src TcpConnection.cpp | TcpConnection::TcpConnection(EventLoop* loop, | socket_->setKeepAlive(true); *)
Definition newTcpConnection (loop id : nat) (name : chars) (sockfd : Z) (localAddr peerAddr : sockaddr_in) (s : S)
    (rd wr cl er : CB) : outcome (TcpConnection CB S) :=
  i ← newBuffer; o ← newBuffer;
  let ch := setErrorCallback er (setCloseCallback cl (setWriteCallback wr (setReadCallback rd
              (newChannel id loop sockfd)))) in
  Ok (mkConn name KConnecting (sock_setopt KeepAlive true s) ch localAddr peerAddr None None None None None 0 i o any_nullptr).

(** The setters of the callbacks, the context and the socket's option. *)
(* @src TcpConnection.cpp | void TcpConnection::setConnectionCallback( *)
Definition setConnectionCallback (cb : option nat) c : TcpConnection CB S :=
  mkConn (name_ c) (state_ c) (socket_ c) (channel_ c) (localAddr_ c) (peerAddr_ c) cb
    (messageCallback_ c) (writeCompleteCallback_ c) (highWaterMarkCallback_ c) (closeCallback_ c) (highWaterMark_ c) (inputBuffer_ c) (outputBuffer_ c) (context_ c).
(* @src TcpConnection.cpp | void TcpConnection::setMessageCallback( *)
Definition setMessageCallback (cb : option nat) c : TcpConnection CB S :=
  mkConn (name_ c) (state_ c) (socket_ c) (channel_ c) (localAddr_ c) (peerAddr_ c) (connectionCallback_ c)
    cb (writeCompleteCallback_ c) (highWaterMarkCallback_ c) (closeCallback_ c) (highWaterMark_ c) (inputBuffer_ c) (outputBuffer_ c) (context_ c).
(* @src TcpConnection.cpp | void TcpConnection::setCloseCallback( *)
Definition setConnCloseCallback (cb : option nat) c : TcpConnection CB S :=
  mkConn (name_ c) (state_ c) (socket_ c) (channel_ c) (localAddr_ c) (peerAddr_ c) (connectionCallback_ c)
    (messageCallback_ c) (writeCompleteCallback_ c) (highWaterMarkCallback_ c) cb (highWaterMark_ c) (inputBuffer_ c) (outputBuffer_ c) (context_ c).
(* @src TcpConnection.cpp | void TcpConnection::setWriteCompleteCallback( *)
Definition setWriteCompleteCallback (cb : option nat) c : TcpConnection CB S :=
  mkConn (name_ c) (state_ c) (socket_ c) (channel_ c) (localAddr_ c) (peerAddr_ c) (connectionCallback_ c)
    (messageCallback_ c) cb (highWaterMarkCallback_ c) (closeCallback_ c) (highWaterMark_ c) (inputBuffer_ c) (outputBuffer_ c) (context_ c).
(* @src TcpConnection.cpp | void TcpConnection::setHighWaterMarkCallback( *)
Definition setHighWaterMarkCallback (cb : option nat) (highWaterMark : Z) c : TcpConnection CB S :=
  mkConn (name_ c) (state_ c) (socket_ c) (channel_ c) (localAddr_ c) (peerAddr_ c) (connectionCallback_ c)
    (messageCallback_ c) (writeCompleteCallback_ c) cb (closeCallback_ c) highWaterMark (inputBuffer_ c) (outputBuffer_ c) (context_ c).
(* @src TcpConnection.cpp | void TcpConnection::setContext( *)
Definition setContext (context : any) c : TcpConnection CB S :=
  mkConn (name_ c) (state_ c) (socket_ c) (channel_ c) (localAddr_ c) (peerAddr_ c) (connectionCallback_ c)
    (messageCallback_ c) (writeCompleteCallback_ c) (highWaterMarkCallback_ c) (closeCallback_ c) (highWaterMark_ c) (inputBuffer_ c) (outputBuffer_ c) context.
(* @src TcpConnection.cpp | void TcpConnection::setTcpNoDelay( *)
Definition conn_setTcpNoDelay (on : bool) c : TcpConnection CB S := with_socket (sock_setopt TcpNoDelay on (socket_ c)) c.
(* @src TcpConnection.cpp | const std::any& TcpConnection::getContext() *)
Definition getContext c : any := context_ c.
(* @src TcpConnection.cpp | const InetAddress& TcpConnection::localAddress() *)
Definition localAddress c : sockaddr_in := localAddr_ c.
(* @src TcpConnection.cpp | const InetAddress& TcpConnection::peerAddress() *)
Definition peerAddress c : sockaddr_in := peerAddr_ c.
(** What the server and the client do with a new connection before it is established. *)
Definition prepare (ccb mcb wcb : option nat) (clcb : nat) c : TcpConnection CB S :=
  setConnCloseCallback (Some clcb) (setWriteCompleteCallback wcb (setMessageCallback mcb (setConnectionCallback ccb c))).
(** The callback used when the user sets none. *)
(* @src TcpConnection.cpp | void defaultMessageCallback( *)
Definition defaultMessageCallback c : TcpConnection CB S := with_input (retrieveAll (inputBuffer_ c)) c.

(* @src TcpConnection.cpp | bool TcpConnection::connected() *)
Definition connected c : bool := is_state (state_ c) KConnected.

(** [channel_->op()]. *)
Definition on_channel (op : Channel CB → W → outcome (Channel CB * W)) c w : outcome (TcpConnection CB S * W) :=
  '(ch, w) ← op (channel_ c) w; Ok (with_channel ch c, w).

(** [loop_->queueInLoop(f)]. *)
Definition post (f : conn_functor) c w : outcome (TcpConnection CB S * W) :=
  w ← queueInLoop (fn f) w; Ok (c, w).

(** The first part of [sendInLoop]: the direct write; [nwrote], [remaining], [faultError]. *)
(* @src TcpConnection.cpp | if (!channel_->isWriting() && outputBuffer_.readableBytes() == 0) { | assert(remaining <= len); | TcpConnection::sendInLoop *)
Definition direct_write (message : chars) c w : outcome (Z * Z * bool * TcpConnection CB S * W) :=
  let len := zlen message in
  if negb (isWriting (channel_ c)) && (readableBytes (outputBuffer_ c) =? 0) then
    let '(nwrote, errno, s) := sock_write message (socket_ c) in
    let c := with_socket s c in
    if 0 <? nwrote then
      let remaining := u64 (len - nwrote) in
      '(c, w) ← (if writeCompleteCallback_ c is Some cb
                 then if remaining =? 0 then post (FWriteComplete cb) c w else Ok (c, w) else Ok (c, w));
      Ok (nwrote, remaining, false, c, w)
    else
      let faultError := negb (errno =? EWOULDBLOCK) && ((errno =? EPIPE) || (errno =? ECONNRESET)) in
      Ok (0, len, faultError, c, w)
  else Ok (0, len, false, c, w).

(** The second part: the high-water mark and the rest of the message. *)
(* @src TcpConnection.cpp | assert(remaining <= len); | channel_->enableWriting();  // 关注POLLOUT事件 | TcpConnection::sendInLoop *)
Definition buffer_remaining (message : chars) (nwrote remaining : Z) (faultError : bool) c w : outcome (TcpConnection CB S * W) :=
  assert_ (remaining <=? zlen message);;
  if negb faultError && (0 <? remaining) then
    let oldLen := readableBytes (outputBuffer_ c) in
    '(c, w) ← (if highWaterMarkCallback_ c is Some cb
               then if (highWaterMark_ c <=? u64 (oldLen + remaining)) && (oldLen <? highWaterMark_ c)
                    then post (FHighWaterMark cb (u64 (oldLen + remaining))) c w else Ok (c, w)
               else Ok (c, w));
    o ← append (outputBuffer_ c) (take (Z.to_nat remaining) (drop (Z.to_nat nwrote) message));
    let c := with_output o c in
    if negb (isWriting (channel_ c)) then on_channel enableWriting c w else Ok (c, w)
  else Ok (c, w).

(* @src TcpConnection.cpp | void TcpConnection::sendInLoop( *)
Definition sendInLoop (message : chars) c w : outcome (TcpConnection CB S * W) :=
  assertInLoop w;;
  if is_state (state_ c) KDisconnected then Ok (c, w) else
  '(nwrote, remaining, faultError, c, w) ← direct_write message c w;
  buffer_remaining message nwrote remaining faultError c w.

(* @src TcpConnection.cpp | void TcpConnection::sendInLoopByString( *)
Definition sendInLoopByString (message : chars) c w : outcome (TcpConnection CB S * W) := sendInLoop message c w.

(** [send] of bytes or of a string; from another thread the data are copied into a functor. *)
(* @src TcpConnection.cpp | void TcpConnection::send(const void* message, size_t len) *)
Definition send (message : chars) c w : outcome (TcpConnection CB S * W) :=
  if is_state (state_ c) KConnected then
    if inLoopThread w then sendInLoop message c w else post (FSendInLoop message) c w
  else Ok (c, w).

(* @src TcpConnection.cpp | void TcpConnection::send(std::string& message) *)
Definition send_string (message : chars) c w : outcome (TcpConnection CB S * W) :=
  if is_state (state_ c) KConnected then
    if inLoopThread w then sendInLoopByString message c w else post (FSendInLoop message) c w
  else Ok (c, w).

(** [send] of a buffer, which is emptied. *)
(* @src TcpConnection.cpp | void TcpConnection::send(Buffer* message) *)
Definition send_buffer (message : Buffer) c w : outcome (Buffer * TcpConnection CB S * W) :=
  if is_state (state_ c) KConnected then
    if inLoopThread w then
      data ← vec_read (buffer_ message) (peek message) (readableBytes message);
      '(c, w) ← sendInLoop data c w;
      Ok (retrieveAll message, c, w)
    else
      '(data, message) ← retrieveAllAsString message;
      '(c, w) ← post (FSendInLoop data) c w;
      Ok (message, c, w)
  else Ok (message, c, w).

(* @src TcpConnection.cpp | void TcpConnection::shutdownInLoop() *)
Definition shutdownInLoop c w : outcome (TcpConnection CB S * W) :=
  assertInLoop w;;
  if negb (isWriting (channel_ c)) then Ok (with_socket (sock_shutdownWrite (socket_ c)) c, w) else Ok (c, w).

(* @src TcpConnection.cpp | void TcpConnection::shutdown() *)
Definition shutdown c w : outcome (TcpConnection CB S * W) :=
  if is_state (state_ c) KConnected then
    let c := with_state KDisconnecting c in
    if inLoopThread w then shutdownInLoop c w else post FShutdownInLoop c w
  else Ok (c, w).

(* @src TcpConnection.cpp | void TcpConnection::forceClose() *)
Definition forceClose c w : outcome (TcpConnection CB S * W) :=
  if is_state (state_ c) KConnected || is_state (state_ c) KDisconnecting then
    post FForceCloseInLoop (with_state KDisconnecting c) w
  else Ok (c, w).

(** ** User callbacks *)

Definition run_uact (a : uact) c w : outcome (TcpConnection CB S * W) :=
  match a with
  | USend m => send m c w
  | UShutdown => shutdown c w
  | USetWriteComplete cb => Ok (setWriteCompleteCallback cb c, w)
  | UForceClose => forceClose c w
  | URetrieve n => b ← retrieve (inputBuffer_ c) (Z.min n (readableBytes (inputBuffer_ c))); Ok (with_input b c, w)
  end.

Definition run_user (acts : list uact) c w : outcome (TcpConnection CB S * W) :=
  foldM (fun a '(c, w) => run_uact a c w) acts (c, w).

(** ** Events *)

(** What the user's callbacks do to the connection and the world, and what those of its owner do to the world. *)
Section Events.
Context (user : nat → TcpConnection CB S → W → outcome (TcpConnection CB S * W)).
Context (owner : nat → TcpConnection CB S → W → outcome W).

(** The call of a [std::function]. *)
Definition call_user (cb : option nat) c w : outcome (TcpConnection CB S * W) :=
  if cb is Some k then user k c w else Fault (Throw BadFunctionCall).
Definition call_owner (cb : option nat) c w : outcome W :=
  if cb is Some k then owner k c w else Fault (Throw BadFunctionCall).

(* @src TcpConnection.cpp | void TcpConnection::connectEstablished() *)
Definition connectEstablished (self : nat) c w : outcome (TcpConnection CB S * W) :=
  assertInLoop w;;
  assert_ (is_state (state_ c) KConnecting);;
  let c := with_state KConnected c in
  let c := with_channel (tie self (channel_ c)) c in
  '(c, w) ← on_channel enableReading c w;
  call_user (connectionCallback_ c) c w.

(* @src TcpConnection.cpp | void TcpConnection::handleClose() *)
Definition handleClose c w : outcome (TcpConnection CB S * W) :=
  assertInLoop w;;
  assert_ (is_state (state_ c) KConnected || is_state (state_ c) KDisconnecting);;
  let c := with_state KDisconnected c in
  '(c, w) ← on_channel disableAll c w;
  '(c, w) ← call_user (connectionCallback_ c) c w;
  w ← call_owner (closeCallback_ c) c w;
  Ok (c, w).

(* @src TcpConnection.cpp | void TcpConnection::handleError() *)
Definition handleError c w : outcome (TcpConnection CB S * W) :=
  let '(err, s) := sock_getError (socket_ c) in Ok (with_socket s c, w).

(* @src TcpConnection.cpp | void TcpConnection::handleRead(common *)
Definition handleRead c w : outcome (TcpConnection CB S * W) :=
  assertInLoop w;;
  let '(r, s) := sock_readv (writeableBytes (inputBuffer_ c) + extrabuff_size) (socket_ c) in
  let c := with_socket s c in
  '(n, saveErrno, b) ← readFd (inputBuffer_ c) 0 r;
  let c := with_input b c in
  if 0 <? n then call_user (messageCallback_ c) c w
  else if n =? 0 then handleClose c w
  else handleError c w.

(* @src TcpConnection.cpp | void TcpConnection::handleWrite() *)
Definition handleWrite c w : outcome (TcpConnection CB S * W) :=
  assertInLoop w;;
  if isWriting (channel_ c) then
    data ← vec_read (buffer_ (outputBuffer_ c)) (peek (outputBuffer_ c)) (readableBytes (outputBuffer_ c));
    let '(n, errno, s) := sock_write data (socket_ c) in
    let c := with_socket s c in
    if 0 <? n then
      o ← retrieve (outputBuffer_ c) n;
      let c := with_output o c in
      if readableBytes (outputBuffer_ c) =? 0 then
        '(c, w) ← on_channel disableWriting c w;
        '(c, w) ← (if writeCompleteCallback_ c is Some _ then post FWriteCompleteLate c w else Ok (c, w));
        if is_state (state_ c) KDisconnecting then shutdownInLoop c w else Ok (c, w)
      else Ok (c, w)
    else Ok (c, w)
  else Ok (c, w).

(* @src TcpConnection.cpp | void TcpConnection::forceCloseInLoop() *)
Definition forceCloseInLoop c w : outcome (TcpConnection CB S * W) :=
  assertInLoop w;;
  if is_state (state_ c) KConnected || is_state (state_ c) KDisconnecting then handleClose c w else Ok (c, w).

(* @src TcpConnection.cpp | void TcpConnection::connnectDestroyed() *)
Definition connnectDestroyed c w : outcome (TcpConnection CB S * W) :=
  assertInLoop w;;
  '(c, w) ← (if is_state (state_ c) KConnected then
               let c := with_state KDisconnected c in
               '(c, w) ← on_channel disableAll c w;
               call_user (connectionCallback_ c) c w
             else Ok (c, w));
  on_channel remove c w.

(** The functor of [handleWrite] calls the callback the connection has when it runs. *)
(* @src TcpConnection.cpp | capture0->writeCompleteCallback_(capture0); *)
Definition lateWriteComplete c w : outcome (TcpConnection CB S * W) := call_user (writeCompleteCallback_ c) c w.

(** The loop runs a functor of the connection. *)
Definition run_conn_functor (f : conn_functor) c w : outcome (TcpConnection CB S * W) :=
  match f with
  | FWriteComplete cb => user cb c w
  | FWriteCompleteLate => lateWriteComplete c w
  | FHighWaterMark cb _ => user cb c w
  | FSendInLoop message => sendInLoopByString message c w
  | FShutdownInLoop => shutdownInLoop c w
  | FForceCloseInLoop => forceCloseInLoop c w
  end.

(** What happens to a connection in its loop's thread after it is established: the user's calls, the
    poller's reports, and functors queued earlier. *)
Inductive conn_op :=
| OCall (a : uact)
| OFunctor (f : conn_functor)
| OReadable
| OWritable
| OError.

(** The poller reports only channels with interest, and a [shutdownInLoop] was queued by [shutdown]. *)
Definition run_conn_op (o : conn_op) c w : outcome (TcpConnection CB S * W) :=
  let is_live := is_state (state_ c) KConnected || is_state (state_ c) KDisconnecting in
  match o with
  | OCall a => run_uact a c w
  | OFunctor f => if bool_decide (f = FShutdownInLoop) && is_state (state_ c) KConnected then Ok (c, w)
                  else run_conn_functor f c w
  | OReadable => if is_live then handleRead c w else Ok (c, w)
  | OWritable => handleWrite c w
  | OError => handleError c w
  end.

Definition run_conn_ops (os : list conn_op) c w : outcome (TcpConnection CB S * W) :=
  foldM (fun o '(c, w) => run_conn_op o c w) os (c, w).
End Events.

(** Callbacks that make a list of calls on the connection and leave the world otherwise alone. *)
Definition calls (acts : nat → TcpConnection CB S → list uact) (k : nat) c w : outcome (TcpConnection CB S * W) :=
  run_user (acts k c) c w.
End Connection.

(** ** Invariant *)

Section Invariant.
Context {CB T W S : Type} `{LS : LoopServices CB T W} `{LL : !LoopLaws CB T W} `{SK : SocketKernel S} `{SL : !SocketLaws S}.
Context (fn : conn_functor → T).
Implicit Types (c : TcpConnection CB S) (w : W).
Local Abbreviation sendInLoop := (sendInLoop fn).
Local Abbreviation run_user := (run_user fn).

(** The bytes waiting in the output buffer; the bytes accepted for the peer, in order. *)
Definition out c : chars := content (outputBuffer_ c).
Definition stream c : chars := sent (socket_ c) ++ out c.

(** The interest of a live connection: always reading, writing exactly when output waits. *)
Definition live_events (o : chars) : Z := if o is [] then KReadEvent else Z.lor KReadEvent KWriteEvent.

Definition state_inv c : Prop :=
  match state_ c with
  | KConnecting => events_ (channel_ c) = KNoneEvent ∧ out c = [] ∧ shut (socket_ c) = false
  | KConnected => events_ (channel_ c) = live_events (out c) ∧ shut (socket_ c) = false
  | KDisconnecting => events_ (channel_ c) = live_events (out c) ∧ (shut (socket_ c) = true → out c = [])
  | KDisconnected => events_ (channel_ c) = KNoneEvent
  end.

(** The callbacks that server and client set before the connection is established. *)
Definition callbacks_set c : Prop :=
  is_Some (connectionCallback_ c) ∧ is_Some (messageCallback_ c) ∧ is_Some (closeCallback_ c).

Record conn_inv c w : Prop := {
  ci_thread : inLoopThread w = true;
  ci_chan : chan_ok (channel_ c) w;
  ci_in : wf (inputBuffer_ c);
  ci_out : wf (outputBuffer_ c);
  ci_state : state_inv c;
  ci_set : callbacks_set c
}.

Definition live c : Prop := state_ c = KConnected ∨ state_ c = KDisconnecting.

(** Ends in a well-formed state with room for [n] more wakeups, or the vector could not grow. *)
Definition ends (n : nat) (R : TcpConnection CB S → W → Prop) (m : outcome (TcpConnection CB S * W)) : Prop :=
  m = Fault (Throw LengthError) ∨ ∃ c w, m = Ok (c, w) ∧ conn_inv c w ∧ can_queue n w ∧ R c w.

Lemma ends_mono n n' (R R' : TcpConnection CB S → W → Prop) m :
  (n' <= n)%nat → (∀ c w, R c w → R' c w) → ends n R m → ends n' R' m.
Proof.
  intros Hn HR [?|(c & w & E & I & Q & H)]; [by left|right]. exists c, w. split_and!; [done|done| |auto].
  by eapply can_queue_mono.
Qed.

Lemma assert_in c w : conn_inv c w → assertInLoop w = Ok tt.
Proof. intros I. unfold assertInLoop. by rewrite (ci_thread _ _ I). Qed.

Lemma writing_live c : events_ (channel_ c) = live_events (out c) → isWriting (channel_ c) = negb (bool_decide (out c = [])).
Proof. unfold isWriting. intros ->. by destruct (out c). Qed.

Lemma readable_out c w : conn_inv c w → (readableBytes (outputBuffer_ c) =? 0) = bool_decide (out c = []).
Proof.
  intros I. rewrite readable_content by apply (ci_out _ _ I). fold (out c). destruct (out c); [done|].
  apply Z.eqb_neq. rewrite zlen_cons. pose proof (zlen_nonneg l). lia.
Qed.

(** Changing the interest mask of the channel. *)
Lemma mask_ok e c w :
  inLoopThread w = true → chan_ok (channel_ c) w →
  ∃ ch w', update (with_events e (channel_ c)) w = Ok (ch, w') ∧ events_ ch = e ∧ chan_ok ch w' ∧
    inLoopThread w' = true ∧ (∀ n, can_queue n w → can_queue n w') ∧ queued w' = queued w ∧ id_ ch = id_ (channel_ c) ∧
    (removable (channel_ c) w → removable ch w').
Proof.
  intros Ht Hc. destruct (update_law (with_events e (channel_ c)) w Ht) as (i & w' & E & C & Q & T' & N & R & _).
  { by eapply chan_ok_same; [..|exact Hc]. }
  eexists _, w'. split; [exact E|]. split_and!; try done.
  intros Hr. apply R. by eapply removable_same; [|exact Hr].
Qed.

Lemma post_ok n f c w :
  can_queue (Datatypes.S n) w → conn_inv c w →
  ∃ w', post fn f c w = Ok (c, w') ∧ conn_inv c w' ∧ can_queue n w' ∧ queued w' = queued w ++ [fn f].
Proof.
  intros Q [I1 I2 I3 I4 I5 I6]. destruct (queue_law n (fn f) w Q) as (w' & E & Eq & Et & Q' & C & R).
  exists w'. unfold post. rewrite E. cbn. split_and!; [done| |done|done]. split; [congruence|auto..].
Qed.

(** ** Sending *)

(** [sendInLoop] gives the message up: the connection is down, or the direct write found the peer gone. *)
Definition gives_up (m : chars) c : Prop :=
  state_ c = KDisconnected ∨
  (out c = [] ∧ ∃ n e s', sock_write m (socket_ c) = (n, e, s') ∧ n <= 0 ∧ (e = EPIPE ∨ e = ECONNRESET)).

(** What the user gave to the connection is the same. *)
Definition user_part c : option nat * option nat * option nat * any :=
  (connectionCallback_ c, messageCallback_ c, closeCallback_ c, context_ c).
Definition same_callbacks c c' : Prop :=
  writeCompleteCallback_ c' = writeCompleteCallback_ c ∧ highWaterMarkCallback_ c' = highWaterMarkCallback_ c ∧
  user_part c' = user_part c.

(** Room for the functor that [sendInLoop] may queue: without output callbacks it queues none. *)
Definition room n c w : Prop :=
  can_queue (if writeCompleteCallback_ c is None then if highWaterMarkCallback_ c is None then n else Datatypes.S n else Datatypes.S n) w.

Lemma room_can_queue n c w : room n c w → can_queue n w.
Proof. unfold room. destruct (writeCompleteCallback_ c), (highWaterMarkCallback_ c); try done; apply can_queue_mono; lia. Qed.
Lemma room_of n c w : can_queue (Datatypes.S n) w → room n c w.
Proof. unfold room. destruct (writeCompleteCallback_ c), (highWaterMarkCallback_ c); try done; apply can_queue_mono; lia. Qed.

(** What [sendInLoop] does with a message: it is given up; the kernel takes all of it at once and the completion
    is announced; or what the kernel leaves waits in the output buffer. *)
Definition announced c : list T := if writeCompleteCallback_ c is Some cb then [fn (FWriteComplete cb)] else [].
Definition sends (m : chars) c w c' w' : Prop :=
  state_ c' = state_ c ∧ inputBuffer_ c' = inputBuffer_ c ∧ same_callbacks c c' ∧ shut (socket_ c') = shut (socket_ c) ∧
  ((gives_up m c ∧ stream c' = stream c ∧ out c' = out c ∧ queued w' = queued w) ∨
   (out c = [] ∧ m ≠ [] ∧ stream c' = stream c ++ m ∧ out c' = [] ∧ queued w' = queued w ++ announced c) ∨
   (stream c' = stream c ++ m ∧ (out c' = [] ↔ out c = [] ∧ m = []) ∧
    (highWaterMarkCallback_ c = None → queued w' = queued w))).

Lemma sends_stream m c w c' w' :
  sends m c w c' w' → stream c' = stream c ++ m ∨ (stream c' = stream c ∧ gives_up m c).
Proof. intros (_ & _ & _ & _ & [(G & E & _)|[(_ & _ & E & _)|(E & _)]]); auto. Qed.

(** The invariant only depends on these parts. *)
Lemma inv_socket c w s :
  conn_inv c w → shut s = shut (socket_ c) → conn_inv (with_socket s c) w.
Proof. intros [I1 I2 I3 I4 I5 I6] Hs. split; try done. unfold state_inv, out in *. cbn. rewrite Hs. done. Qed.

(** Buffering the rest of a message on a live connection. *)
Definition buffered (d : chars) c w c' w' : Prop :=
  state_ c' = state_ c ∧ inputBuffer_ c' = inputBuffer_ c ∧ socket_ c' = socket_ c ∧ out c' = out c ++ d ∧
  same_callbacks c c' ∧
  (highWaterMarkCallback_ c = None → queued w' = queued w).

Lemma buffered_stream d c w c' w' : buffered d c w c' w' → stream c' = stream c ++ d.
Proof. intros (_ & _ & E & O & _). unfold stream. by rewrite E, O, app_assoc. Qed.

Lemma buffer_rest n c w (d : chars) :
  live c → inLoopThread w = true → chan_ok (channel_ c) w → wf (inputBuffer_ c) → wf (outputBuffer_ c) →
  events_ (channel_ c) = live_events (out c) → shut (socket_ c) = false → callbacks_set c → d ≠ [] → zlen d <= PTRDIFF_MAX → can_queue n w →
  ends n (buffered d c w)
    (o ← append (outputBuffer_ c) d;
     let c := with_output o c in
     if negb (isWriting (channel_ c)) then on_channel enableWriting c w else Ok (c, w)).
Proof.
  intros L I1 I2 I3 I4 Ev Sh I6 Hd Hz Q. destruct (append_total (outputBuffer_ c) d I4 Hz) as [->|(o & -> & Wo & Co)]; [by left|].
  cbn [mbind outcome_bind]. right.
  assert (Hne : content o ≠ []) by (rewrite Co; by destruct (content (outputBuffer_ c)), d).
  cbn zeta. change (channel_ (with_output o c)) with (channel_ c). rewrite (writing_live c Ev).
  destruct (bool_decide (out c = [])) eqn:Eo; cbn [negb].
  - unfold on_channel, enableWriting. change (channel_ (with_output o c)) with (channel_ c).
    destruct (mask_ok (Z.lor (events_ (channel_ c)) KWriteEvent) c w I1 I2) as (ch & w' & -> & E & C & T' & N & Eq & _).
    cbn. eexists _, w'. split; [done|]. split; [|by split; [auto|split_and!]].
    apply bool_decide_eq_true in Eo. rewrite Ev, Eo in E. split; try done.
    assert (events_ ch = live_events (content o)) by (rewrite E; by destruct (content o)).
    unfold state_inv, out. cbn. destruct L as [-> | ->]; [done|]. split; [done|]. by rewrite Sh.
  - apply bool_decide_eq_false in Eo. exists (with_output o c), w. split; [done|]. split; [|by split; [|split_and!]]. split; try done.
    assert (events_ (channel_ c) = live_events (content o)) by (rewrite Ev; by destruct (content o), (out c)).
    unfold state_inv, out. cbn. destruct L as [-> | ->]; [done|]. split; [done|]. by rewrite Sh.
Qed.

Lemma live_inv c : live c → state_inv c → events_ (channel_ c) = live_events (out c) ∧ (shut (socket_ c) = true → out c = []).
Proof. unfold live, state_inv. intros [-> | ->] H; [|done]. destruct H as [? ->]. done. Qed.

(** What the kernel left of a message is buffered. *)
Lemma send_rest n c w nwrote remaining m :
  conn_inv c w → live c → (0 < remaining → shut (socket_ c) = false) → room n c w →
  0 <= nwrote → 0 <= remaining → nwrote + remaining = zlen m → zlen m <= PTRDIFF_MAX →
  ends n (buffered (drop (Z.to_nat nwrote) m) c w) (buffer_remaining fn m nwrote remaining false c w).
Proof.
  intros I L Sh Q H0 H1 Hsum Hmax. unfold buffer_remaining. rewrite assert_true by (apply Z.leb_le; lia).
  cbn [mbind outcome_bind negb andb]. destruct (0 <? remaining) eqn:Er; bool_prop; cycle 1.
  { right. exists c, w. split_and!; [done|done|by eapply room_can_queue|].
    rewrite drop_ge; [|unfold zlen in *; lia]. split_and!; try done. by rewrite app_nil_r. }
  assert (Hd : take (Z.to_nat remaining) (drop (Z.to_nat nwrote) m) = drop (Z.to_nat nwrote) m).
  { apply take_ge. rewrite length_drop. unfold zlen in *. lia. }
  rewrite Hd. pose proof (zlen_drop m nwrote ltac:(lia)) as Ld.
  destruct (live_inv c L (ci_state _ _ I)) as [Ev _].
  assert (B : ∀ w1, conn_inv c w1 → can_queue n w1 → (highWaterMarkCallback_ c = None → w1 = w) →
    ends n (buffered (drop (Z.to_nat nwrote) m) c w)
       (o ← append (outputBuffer_ c) (drop (Z.to_nat nwrote) m);
        let c := with_output o c in
        if negb (isWriting (channel_ c)) then on_channel enableWriting c w1 else Ok (c, w1))).
  { intros w1 I1 Q1 Hw. destruct I1 as [A1 A2 A3 A4 A5 A6].
    eapply ends_mono; [done| |apply buffer_rest; try done; [by apply Sh| |lia]].
    - intros c' w' (B1 & B2 & B3 & B4 & B5 & B6). split_and!; try done. intros N. rewrite B6 by done. by rewrite Hw.
    - intros E. rewrite E in Ld. change (zlen (@nil char)) with 0 in Ld. lia. }
  assert (Q0 : can_queue n w) by (by eapply room_can_queue).
  cbn zeta. unfold room in Q. destruct (highWaterMarkCallback_ c) as [cb|]; [|by apply B].
  assert (Q' : can_queue (Datatypes.S n) w) by (by destruct (writeCompleteCallback_ c)). clear Q. destruct (_ && (_ <? highWaterMark_ c)); [|by apply B].
  destruct (post_ok n (FHighWaterMark cb (u64 (readableBytes (outputBuffer_ c) + remaining))) c w Q' I) as (w1 & -> & I1 & Q1 & _).
  by apply B.
Qed.

(** The direct write on an empty output buffer, and what follows it. *)
Lemma direct_ok n m c w :
  conn_inv c w → live c → out c = [] → zlen m <= PTRDIFF_MAX → room n c w →
  ends n (sends m c w)
    ('(nwrote, remaining, faultError, c, w) ← direct_write fn m c w; buffer_remaining fn m nwrote remaining faultError c w).
Proof.
  intros I L Eo Hm Q. assert (Q0 : can_queue n w) by (by eapply room_can_queue).
  destruct (live_inv c L (ci_state _ _ I)) as [Ev Sh]. pose proof (zlen_nonneg m) as Hm0.
  unfold direct_write. rewrite (writing_live c Ev), (readable_out c w I), negb_involutive, andb_diag, bool_decide_eq_true_2 by done.
  pose proof (write_law m (socket_ c)) as Wl.
  destruct (sock_write m (socket_ c)) as [[nw e] s] eqn:Ew. destruct Wl as (W1 & W2 & W3 & W4).
  assert (I' : conn_inv (with_socket s c) w) by (by apply inv_socket).
  assert (St : stream (with_socket s c) = stream c ++ take (Z.to_nat nw) m).
  { unfold stream, out in *. cbn. by rewrite W2, Eo, !app_nil_r. }
  destruct (0 <? nw) eqn:En; bool_prop.
  - unfold PTRDIFF_MAX in *. rewrite u64_small by lia. destruct (zlen m - nw =? 0) eqn:Ez; bool_prop.
    + assert (Done : ∀ w1, conn_inv (with_socket s c) w1 → can_queue n w1 → queued w1 = queued w ++ announced c →
        ends n (sends m c w) (buffer_remaining fn m nw (zlen m - nw) false (with_socket s c) w1)).
      { intros w1 I1 Q1 Eq. unfold buffer_remaining. rewrite assert_true by (apply Z.leb_le; lia).
        rewrite Ez. right. exists (with_socket s c), w1. split_and!; [done..|]. split_and!; [done..|]. right; left.
        assert (Hn : (length m <= Z.to_nat nw)%nat) by (clear - Ez; unfold zlen in *; lia).
        split_and!; [done| |by rewrite St, take_ge|done|done]. intros ->. change (zlen []) with 0 in *. lia. }
      unfold announced in Done. unfold room in Q. change (writeCompleteCallback_ (with_socket s c)) with (writeCompleteCallback_ c).
      destruct (writeCompleteCallback_ c) as [cb|].
      * destruct (post_ok n (FWriteComplete cb) (with_socket s c) w Q I') as (w1 & -> & I1 & Q1 & Eq). by apply Done.
      * apply Done; [done..|by rewrite app_nil_r].
    + assert (Ei : ∀ X : outcome (TcpConnection CB S * W),
        (if writeCompleteCallback_ (with_socket s c) is Some cb then X else X) = X) by (intros X; by destruct (writeCompleteCallback_ _)).
      rewrite Ei. cbn [mbind outcome_bind].
      eapply ends_mono; [done| |apply (send_rest n (with_socket s c) w nw (zlen m - nw) m); try done; unfold PTRDIFF_MAX; try lia].
      * intros c' w' Bd. pose proof (buffered_stream _ _ _ _ _ Bd) as E. destruct Bd as (B1 & B2 & B3 & B4 & B5 & B6).
        split_and!; [done..|by rewrite B3|]. right; right. split_and!; [by rewrite E, St, <-app_assoc, take_drop| |done].
        rewrite B4. change (out (with_socket s c)) with (out c). rewrite Eo. cbn [app]. split; [|intros [_ ->]; by rewrite drop_nil].
        intros Z. pose proof (f_equal length Z) as Zl. rewrite length_drop in Zl. unfold zlen in *. cbn in Zl. lia.
      * intros _. cbn. destruct (shut (socket_ c)); [destruct W4; [done|lia]|congruence].
  - assert (Et : take (Z.to_nat nw) m = []) by (by replace (Z.to_nat nw) with 0%nat by lia).
    rewrite Et, app_nil_r in St. cbn [mbind outcome_bind].
    set (fe := negb (e =? EWOULDBLOCK) && ((e =? EPIPE) || (e =? ECONNRESET))). destruct fe eqn:Ef.
    + unfold buffer_remaining. rewrite Z.leb_refl. cbn [assert_ mbind outcome_bind negb andb].
      right. exists (with_socket s c), w. split_and!; [done..|]. split_and!; [done..|left].
      split_and!; [right|done..]. split; [done|]. exists nw, e, s. split_and!; [done|lia|].
      apply andb_true_iff in Ef as [_ Ef]. apply orb_true_iff in Ef. rewrite !Z.eqb_eq in Ef. done.
    + eapply ends_mono; [done| |apply (send_rest n (with_socket s c) w 0 (zlen m) m); try done; try lia].
      * intros c' w' Bd. pose proof (buffered_stream _ _ _ _ _ Bd) as E. destruct Bd as (B1 & B2 & B3 & B4 & B5 & B6).
        split_and!; [done..|by rewrite B3|]. right; right. split_and!; [by rewrite E, St| |done].
        rewrite B4. change (out (with_socket s c)) with (out c). rewrite Eo. change ([] ++ drop (Z.to_nat 0) m) with m. by split; [|intros [_ ?]].
      * intros _. cbn. rewrite W3. destruct (shut (socket_ c)); [|done]. destruct W4 as [_ ->]; done.
Qed.

Lemma sendInLoop_ok n m c w :
  conn_inv c w → state_ c ≠ KConnecting → zlen m <= PTRDIFF_MAX → room n c w →
  ends n (sends m c w) (sendInLoop m c w).
Proof.
  intros I NC Hm Q. unfold sendInLoop. rewrite (assert_in c w I). cbn [mbind outcome_bind].
  assert (Q0 : can_queue n w) by (by eapply room_can_queue).
  destruct (is_state (state_ c) KDisconnected) eqn:Es.
  { apply bool_decide_eq_true in Es. right. exists c, w. split_and!; [done|done|done|]. split_and!; [done..|]. left. by split; [left|]. }
  apply bool_decide_eq_false in Es. assert (L : live c) by (unfold live; destruct (state_ c); [done|done|by left|by right]).
  destruct (decide (out c = [])) as [Eo|Eo]; [by apply direct_ok|].
  destruct (live_inv c L (ci_state _ _ I)) as [Ev Sh].
  unfold direct_write. rewrite (writing_live c Ev), (readable_out c w I), bool_decide_eq_false_2 by done. cbn [negb andb mbind outcome_bind].
  eapply ends_mono; [done| |apply (send_rest n c w 0 (zlen m) m); try done; try lia].
  - intros c' w' Bd. pose proof (buffered_stream _ _ _ _ _ Bd) as E. destruct Bd as (B1 & B2 & B3 & B4 & B5 & B6).
    split_and!; [done..|by rewrite B3|]. right; right. split_and!; [done| |done]. rewrite B4. split; [|by intros [??]].
    intros Z. by apply app_nil in Z as [? _].
  - intros _. destruct (shut (socket_ c)); [|done]. exfalso. auto.
  - apply zlen_nonneg.
Qed.

(** ** The calls of a user callback *)

(** The order of the states. *)
Definition rank (st : StateE) : nat :=
  match st with KConnecting => 0 | KConnected => 1 | KDisconnecting => 2 | KDisconnected => 3 end.

Definition act_msgs (a : uact) : list chars := if a is USend m then [m] else [].
Definition msgs (l : list uact) : list chars := mjoin (act_msgs <$> l).
Definition act_fits (a : uact) : Prop :=
  match a with USend m => zlen m <= PTRDIFF_MAX | URetrieve n => 0 <= n | _ => True end.

(** The connection moved on from [c] to [c'] with [ms] given to [send]: states only advance, and a
    subsequence of the messages, whole and in order, was added to the stream. *)
Definition moved (ms : list chars) c c' : Prop :=
  (rank (state_ c) <= rank (state_ c'))%nat ∧
  ∃ acc, acc `sublist_of` ms ∧ stream c' = stream c ++ mjoin acc.

Lemma moved_refl c : moved [] c c.
Proof. split; [done|]. exists []. cbn. by rewrite app_nil_r. Qed.

Lemma moved_quiet c c' :
  (rank (state_ c) <= rank (state_ c'))%nat → stream c' = stream c → moved [] c c'.
Proof. intros H E. split; [done|]. exists []. cbn. by rewrite app_nil_r. Qed.

Lemma moved_trans l k a b c : moved l a b → moved k b c → moved (l ++ k) a c.
Proof.
  intros (R1 & x & S1 & E1) (R2 & y & S2 & E2). split; [lia|]. exists (x ++ y). split; [by apply sublist_app|].
  by rewrite join_app, E2, E1, app_assoc.
Qed.

Lemma shutdownInLoop_ok c w :
  conn_inv c w → state_ c = KDisconnecting ∨ state_ c = KDisconnected →
  ∃ c', shutdownInLoop c w = Ok (c', w) ∧ conn_inv c' w ∧ state_ c' = state_ c ∧ stream c' = stream c ∧
    (out c = [] → shut (socket_ c') = true) ∧ (state_ c = KDisconnecting → out c ≠ [] → c' = c) ∧ out c' = out c ∧ same_callbacks c c'.
Proof.
  intros I Hs. unfold shutdownInLoop. rewrite (assert_in c w I). cbn [mbind outcome_bind].
  destruct (shutdown_law (socket_ c)) as [S1 S2]. pose proof (ci_state _ _ I) as St. unfold state_inv in St.
  set (c' := with_socket _ c). destruct Hs as [Hs|Hs]; rewrite Hs in St.
  - rewrite (writing_live c) by apply St. destruct (bool_decide (out c = [])) eqn:Eo; cbn [negb].
    + apply bool_decide_eq_true in Eo. exists c'. destruct I as [I1 I2 I3 I4 I5 I6].
      split_and!; [done| |done|unfold stream; cbn; by rewrite S1|done|done|done|done]. split; try done.
      unfold state_inv, out in *. cbn. rewrite Hs in *. split; [apply St|done].
    + apply bool_decide_eq_false in Eo. exists c. by split_and!.
  - unfold isWriting. rewrite St. cbn [has]. change (negb (has KNoneEvent KWriteEvent)) with true. cbn iota.
    exists c'. destruct I as [I1 I2 I3 I4 I5 I6]. split_and!; [done| |done|unfold stream; cbn; by rewrite S1|done|congruence|done|done].
    split; try done. unfold state_inv in *. cbn. by rewrite Hs in *.
Qed.

Lemma inv_disconnecting c w : conn_inv c w → live c → conn_inv (with_state KDisconnecting c) w.
Proof.
  intros [I1 I2 I3 I4 I5 I6] L. split; try done. destruct (live_inv c L I5) as [E Sh]. by unfold state_inv.
Qed.

Lemma run_uact_ok n a c w :
  conn_inv c w → state_ c ≠ KConnecting → act_fits a → can_queue (Datatypes.S n) w →
  ends n (fun c' _ => moved (act_msgs a) c c') (run_uact fn a c w).
Proof.
  intros I NC F Q. assert (Q0 : can_queue n w) by (by eapply can_queue_mono; [|exact Q]; lia).
  destruct a as [m|cb| | |k]; cbn [run_uact act_msgs act_fits] in *.
  - unfold send. destruct (is_state (state_ c) KConnected) eqn:Es; rewrite ?(ci_thread _ _ I).
    + eapply ends_mono; [done| |by apply sendInLoop_ok; try done; apply room_of]. intros c' w' Sd. pose proof (sends_stream _ _ _ _ _ Sd) as E3. destruct Sd as [E1 _]. split; [by rewrite E1|].
      destruct E3 as [->|[-> _]]; [exists [m]|exists []]; cbn; rewrite ?app_nil_r; [done|]. split; [by repeat constructor|done].
    + right. exists c, w. split_and!; [done..|]. split; [done|]. exists []. cbn. rewrite app_nil_r.
      split; [by repeat constructor|done].
  - right. exists (setWriteCompleteCallback cb c), w. split_and!; [done| |done|by apply moved_quiet]. destruct I. by split.
  - unfold shutdown. destruct (is_state (state_ c) KConnected) eqn:Es.
    + apply bool_decide_eq_true in Es. rewrite (ci_thread _ _ I).
      destruct (shutdownInLoop_ok (with_state KDisconnecting c) w) as (c' & -> & I' & E1 & E2 & _);
        [apply inv_disconnecting; [done|by left]|by left|].
      right. exists c', w. split_and!; [done..|]. apply moved_quiet; [|by rewrite E2]. rewrite Es, E1. cbn. lia.
    + right. exists c, w. split_and!; [done..|apply moved_refl].
  - unfold forceClose. destruct (is_state (state_ c) KConnected || is_state (state_ c) KDisconnecting) eqn:Es.
    + apply orb_true_iff in Es. assert (L : live c) by (destruct Es as [Es|Es]; apply bool_decide_eq_true in Es; unfold live; auto).
      destruct (post_ok n FForceCloseInLoop (with_state KDisconnecting c) w Q) as (w' & -> & I' & Q' & _);
        [by apply inv_disconnecting|].
      right. eexists _, w'. split_and!; [done..|]. apply moved_quiet; [|done]. cbn. destruct L as [-> | ->]; cbn; lia.
    + right. exists c, w. split_and!; [done..|apply moved_refl].
  - rewrite readable_content by apply (ci_in _ _ I).
    destruct (retrieve_ok (inputBuffer_ c) (Z.min k (zlen (content (inputBuffer_ c))))) as (b & -> & Wb & _);
      [apply (ci_in _ _ I)|pose proof (zlen_nonneg (content (inputBuffer_ c))); lia|].
    right. exists (with_input b c), w. split_and!; [done| |done|by apply moved_quiet]. destruct I. by split.
Qed.

Lemma rank_connecting st : (1 <= rank st)%nat → st ≠ KConnecting.
Proof. intros H ->. cbn in H. lia. Qed.

Lemma run_user_ok n acts c w :
  conn_inv c w → state_ c ≠ KConnecting → Forall act_fits acts → can_queue (length acts + n) w →
  ends n (fun c' _ => moved (msgs acts) c c') (run_user acts c w).
Proof.
  revert c w; induction acts as [|a acts IH]; intros c w I NC F Q.
  { right. exists c, w. split_and!; [done..|apply moved_refl]. }
  inversion F; subst. unfold run_user. cbn [foldM]. cbn [length Nat.add] in Q.
  destruct (run_uact_ok (length acts + n) a c w I NC ltac:(done) Q) as [->|(c1 & w1 & -> & I1 & Q1 & M1)]; [by left|].
  cbn [mbind outcome_bind]. fold (run_user acts c1 w1).
  eapply ends_mono; [done| |apply IH; try done].
  - intros c' w' M2. unfold msgs. cbn. by eapply moved_trans.
  - apply rank_connecting. destruct M1 as [M1 _]. destruct (state_ c); cbn in *; [lia|done|lia|lia].
Qed.

(** ** Events *)

(** A new connection with its callbacks set is well-formed. *)
Lemma new_prepared loop id name sockfd localAddr peerAddr s (rd wr cl er : CB) ccb mcb wcb clcb w :
  shut s = false → inLoopThread w = true → chan_ok (newChannel id loop sockfd) w →
  ∃ c, newTcpConnection loop id name sockfd localAddr peerAddr s rd wr cl er = Ok c ∧
    conn_inv (prepare (Some ccb) (Some mcb) wcb clcb c) w ∧ state_ c = KConnecting ∧ stream c = sent s ∧
    highWaterMarkCallback_ c = None ∧ name_ c = name ∧ localAddress c = localAddr ∧ peerAddress c = peerAddr.
Proof.
  intros Hs Ht Hc. destruct newBuffer_ok as (b & Eb & Wb & Cb). unfold newTcpConnection. rewrite Eb. cbn [mbind outcome_bind].
  destruct (setopt_law KeepAlive true s) as [O1 O2]. eexists. split; [reflexivity|]. set (c := mkConn _ _ _ _ _ _ _ _ _ _ _ _ _ _ _).
  split_and!; [|done|by unfold stream, out; cbn; rewrite O1, Cb, app_nil_r|done..].
  split; [done|by apply (chan_ok_same (newChannel id loop sockfd))|done|done| |by split_and!; eexists].
  unfold state_inv, out. cbn. by rewrite O2.
Qed.

(** Taking all interest away. *)
Lemma down_ok n c w :
  conn_inv c w → can_queue n w →
  ∃ c' w', on_channel disableAll (with_state KDisconnected c) w = Ok (c', w') ∧ conn_inv c' w' ∧ can_queue n w' ∧
    state_ c' = KDisconnected ∧ stream c' = stream c ∧ same_callbacks c c' ∧ (removable (channel_ c) w → removable (channel_ c') w').
Proof.
  intros [I1 I2 I3 I4 I5 I6] Q. unfold on_channel, disableAll. change (channel_ (with_state KDisconnected c)) with (channel_ c).
  destruct (mask_ok KNoneEvent c w I1 I2) as (ch & w' & -> & E & C & T' & N & _ & _ & R).
  cbn. eexists _, w'. split_and!; [done| |auto|done..]. split; done.
Qed.

Lemma capacity_nonneg b : 0 <= writeableBytes b + extrabuff_size.
Proof. unfold writeableBytes, u64, extrabuff_size. pose proof (Z.mod_pos_bound (zlen (buffer_ b) - writeIndex_ b) (2 ^ 64)). lia. Qed.

(** The handlers that call the user: what they have done when they reach the call, whatever the callbacks. *)
Section Handlers.
Context (user : nat → TcpConnection CB S → W → outcome (TcpConnection CB S * W)) (owner : nat → TcpConnection CB S → W → outcome W).

Lemma handleClose_down n c w :
  conn_inv c w → live c → can_queue n w →
  ∃ c1 w1, on_channel disableAll (with_state KDisconnected c) w = Ok (c1, w1) ∧ conn_inv c1 w1 ∧ can_queue n w1 ∧
    state_ c1 = KDisconnected ∧ stream c1 = stream c ∧ same_callbacks c c1 ∧
    handleClose user owner c w =
      ('(c, w) ← call_user user (connectionCallback_ c1) c1 w1; w ← call_owner owner (closeCallback_ c) c w; Ok (c, w)).
Proof.
  intros I L Q. destruct (down_ok n c w I Q) as (c1 & w1 & E & I1 & Q1 & E1 & S1 & U1 & _).
  exists c1, w1. split_and!; [done..|]. unfold handleClose. rewrite (assert_in c w I). cbn [mbind outcome_bind].
  rewrite assert_true by (unfold is_state; by destruct L as [-> | ->]). cbn [mbind outcome_bind]. by rewrite E.
Qed.

Lemma handleRead_cases c w :
  conn_inv c w → live c →
  handleRead user owner c w = Fault (Throw LengthError) ∨
  ∃ c1, conn_inv c1 w ∧ state_ c1 = state_ c ∧ stream c1 = stream c ∧ same_callbacks c c1 ∧ channel_ c1 = channel_ c ∧
    (handleRead user owner c w = call_user user (messageCallback_ c1) c1 w ∨
     handleRead user owner c w = handleClose user owner c1 w ∨ handleRead user owner c w = Ok (c1, w)).
Proof.
  intros I L. unfold handleRead. rewrite (assert_in c w I). cbn [mbind outcome_bind].
  pose proof (readv_law (writeableBytes (inputBuffer_ c) + extrabuff_size) (socket_ c)) as Rl.
  destruct (sock_readv _ (socket_ c)) as [r s]. destruct Rl as (R1 & R2 & R3).
  assert (I0 : conn_inv (with_socket s c) w) by (by apply inv_socket).
  assert (S0 : stream (with_socket s c) = stream c) by (unfold stream; cbn; by rewrite R1).
  change (inputBuffer_ (with_socket s c)) with (inputBuffer_ c). destruct r as [errno|d].
  - right. cbn. change (0 <? -1) with false. change (-1 =? 0) with false. cbn iota.
    assert (with_input (inputBuffer_ c) (with_socket s c) = with_socket s c) as -> by done. unfold handleError.
    destruct (getError_law (socket_ (with_socket s c))) as [G1 G2]. destruct (sock_getError _) as [e s'].
    exists (with_socket s' (with_socket s c)). split_and!; [by apply inv_socket|done| |done|done|by right; right].
    rewrite <-S0. unfold stream. cbn in *. by rewrite G1.
  - destruct (readFd_total (inputBuffer_ c) 0 d (ci_in _ _ I) (R3 (capacity_nonneg _))) as [->|(b & -> & Wb & _)]; [by left|].
    cbn [mbind outcome_bind]. right. exists (with_input b (with_socket s c)).
    split_and!; [by destruct I0|done|exact S0|done|done|]. destruct (0 <? zlen d) eqn:Ed; [by left|].
    assert (zlen d = 0) as -> by (pose proof (zlen_nonneg d); bool_prop; lia). cbn [Z.eqb]. by right; left.
Qed.

Lemma connectEstablished_up self c w :
  conn_inv c w → state_ c = KConnecting →
  ∃ c1 w1, on_channel enableReading (with_channel (tie self (channel_ c)) (with_state KConnected c)) w = Ok (c1, w1) ∧
    conn_inv c1 w1 ∧ (∀ n, can_queue n w → can_queue n w1) ∧ state_ c1 = KConnected ∧ stream c1 = stream c ∧ same_callbacks c c1 ∧
    connectEstablished user self c w = call_user user (connectionCallback_ c1) c1 w1.
Proof.
  intros I Ec. unfold connectEstablished. rewrite (assert_in c w I), Ec. cbn [mbind outcome_bind].
  change (assert_ (is_state KConnecting KConnecting)) with (Ok tt). cbn [mbind outcome_bind].
  pose proof (ci_state _ _ I) as St. unfold state_inv in St. rewrite Ec in St. destruct St as (Ev & Eo & Sh).
  change (channel_ (with_state KConnected c)) with (channel_ c).
  set (c0 := with_channel _ (with_state KConnected c)). unfold on_channel, enableReading.
  change (events_ (channel_ c0)) with (events_ (channel_ c)). rewrite Ev.
  destruct I as [I1 I2 I3 I4 I5 I6].
  destruct (mask_ok (Z.lor KNoneEvent KReadEvent) c0 w I1) as (ch & w1 & -> & E & C & T' & N & _).
  { by eapply chan_ok_same; [..|exact I2]. }
  cbn [mbind outcome_bind]. exists (with_channel ch c0), w1. split_and!; [done| |done..]. split; try done.
  unfold state_inv. change (out (with_channel ch c0)) with (out c). rewrite Eo. cbn. by rewrite E.
Qed.
End Handlers.

Section Events.
Context (acts : nat → TcpConnection CB S → list uact) (owner : nat → TcpConnection CB S → W → outcome W) (K : nat).
(** User callbacks make at most [K] calls, with messages of a size memory can hold; the owner's close callback
    keeps the connection and queues at most one functor. *)
Context (user_fits : ∀ k c, Forall act_fits (acts k c) ∧ (length (acts k c) <= K)%nat).
Local Abbreviation user := (calls fn acts).
Local Abbreviation run_conn_op := (run_conn_op fn user owner).
Local Abbreviation run_conn_ops := (run_conn_ops fn user owner).
Context (close_law : ∀ k n c w, conn_inv c w → can_queue (Datatypes.S n) w →
  ∃ w', owner k c w = Ok w' ∧ conn_inv c w' ∧ can_queue n w').

Lemma callback_ok n cb c w :
  conn_inv c w → state_ c ≠ KConnecting → can_queue (K + n) w →
  ends n (fun c' _ => moved (msgs (acts cb c)) c c') (user cb c w).
Proof.
  intros I NC Q. destruct (user_fits cb c) as [F Hk]. apply run_user_ok; try done. eapply can_queue_mono; [|exact Q]. lia.
Qed.

Lemma handleClose_ok n c w :
  conn_inv c w → live c → can_queue (K + Datatypes.S n) w →
  ends n (fun c' _ => state_ c' = KDisconnected ∧ ∃ k c1, moved (msgs (acts k c1)) c c')
    (handleClose user owner c w).
Proof.
  intros I L Q. destruct (handleClose_down user owner _ c w I L Q) as (c1 & w1 & _ & I1 & Q1 & E1 & S1 & _ & ->).
  destruct (ci_set _ _ I1) as ([cb Ecb] & _). rewrite Ecb. cbn [call_user].
  destruct (callback_ok (Datatypes.S n) cb c1 w1 I1) as [->|(c2 & w2 & -> & I2 & Q2 & M2)];
    [by rewrite E1|done|by left|].
  cbn [mbind outcome_bind]. destruct (ci_set _ _ I2) as (_ & _ & [cc Ecc]). rewrite Ecc. cbn [call_owner].
  destruct (close_law cc n c2 w2 I2 Q2) as (w3 & -> & I3 & Q3). cbn. right. exists c2, w3.
  assert (E2 : state_ c2 = KDisconnected).
  { destruct M2 as [M2 _]. rewrite E1 in M2. destruct (state_ c2); cbn in M2; [done|lia..]. }
  split_and!; [done..|]. exists cb, c1. destruct M2 as [M2 (acc & A1 & A2)]. split.
  - rewrite E2. destruct (state_ c); cbn; lia.
  - exists acc. by rewrite A2, S1.
Qed.

Lemma handleError_ok n c w :
  conn_inv c w → can_queue n w → ends n (fun c' _ => moved [] c c') (handleError c w).
Proof.
  intros I Q. unfold handleError. destruct (getError_law (socket_ c)) as [G1 G2].
  destruct (sock_getError (socket_ c)) as [e s]. cbn in *. right. exists (with_socket s c), w.
  split_and!; [done|by apply inv_socket|done|]. apply moved_quiet; [done|]. unfold stream. cbn. by rewrite G1.
Qed.

(** The messages an event's callback may have sent. *)
Definition event_msgs (ms : list chars) : Prop :=
  ms = [] ∨ ∃ k c1, ms = msgs (acts k c1).

Lemma handleRead_ok n c w :
  conn_inv c w → live c → can_queue (K + Datatypes.S n) w →
  ends n (fun c' _ => ∃ ms, event_msgs ms ∧ moved ms c c')
    (handleRead user owner c w).
Proof.
  intros I L Q. destruct (handleRead_cases user owner c w I L) as [->|(c1 & I1 & E1 & S1 & _ & _ & H)]; [by left|].
  assert (L1 : live c1) by (unfold live; by rewrite E1).
  assert (F : ∀ ms c', moved ms c1 c' → moved ms c c') by (intros ms c'; unfold moved; by rewrite E1, S1).
  destruct H as [->|[->| ->]].
  - destruct (ci_set _ _ I1) as (_ & [cb Ecb] & _). rewrite Ecb. cbn [call_user].
    eapply ends_mono; [| |apply (callback_ok (Datatypes.S n) cb c1 w I1); try done]; [lia| |].
    + intros c' w' M. exists (msgs (acts cb c1)). split; [by right; exists cb, c1|auto].
    + by destruct L1 as [-> | ->].
  - eapply ends_mono; [done| |by apply (handleClose_ok n c1 w I1)].
    intros c' w' [_ (k & c2 & M)]. exists (msgs (acts k c2)). split; [by right; exists k, c2|auto].
  - right. exists c1, w. split_and!; [done..|by eapply can_queue_mono; [|exact Q]; lia|].
    exists []. split; [by left|]. apply F, moved_refl.
Qed.

(** After a drain: the interest in writing ends, the completion is announced, and a connection that is
    shutting down closes its write half. *)
Definition late c : list T := if writeCompleteCallback_ c is Some _ then [fn FWriteCompleteLate] else [].
Definition drained c w c' w' : Prop :=
  state_ c' = state_ c ∧ stream c' = stream c ∧ out c' = [] ∧ same_callbacks c c' ∧ queued w' = queued w ++ late c ∧
  shut (socket_ c') = bool_decide (state_ c = KDisconnecting).

Lemma drained_ok n c w :
  live c → inLoopThread w = true → chan_ok (channel_ c) w → wf (inputBuffer_ c) → wf (outputBuffer_ c) →
  events_ (channel_ c) = Z.lor KReadEvent KWriteEvent → shut (socket_ c) = false → callbacks_set c → out c = [] →
  can_queue (Datatypes.S n) w →
  ends n (drained c w)
    ('(c, w) ← on_channel disableWriting c w;
     '(c, w) ← (if writeCompleteCallback_ c is Some _ then post fn FWriteCompleteLate c w else Ok (c, w));
     if is_state (state_ c) KDisconnecting then shutdownInLoop c w else Ok (c, w)).
Proof.
  intros L I1 I2 I3 I4 Ev Sh I6 Eo Q. unfold on_channel, disableWriting.
  destruct (mask_ok (Z.land (events_ (channel_ c)) (Z.lnot KWriteEvent)) c w I1 I2) as (ch & w1 & -> & E & C & T' & N & Eq & _).
  cbn [mbind outcome_bind]. set (c1 := with_channel ch c). rewrite Ev in E.
  assert (Ic : ∀ w2, inLoopThread w2 = true → chan_ok ch w2 → conn_inv c1 w2).
  { intros w2 T2 C2. split; try done. unfold state_inv. change (out c1) with (out c). rewrite Eo. cbn.
    destruct L as [-> | ->]; by rewrite E. }
  assert (Fin : ∀ w2, conn_inv c1 w2 → can_queue n w2 → queued w2 = queued w ++ late c →
    ends n (drained c w) (if is_state (state_ c1) KDisconnecting then shutdownInLoop c1 w2 else Ok (c1, w2))).
  { intros w2 J2 Q2 Ql. change (state_ c1) with (state_ c). unfold is_state, drained. destruct L as [Ec|Ec]; rewrite Ec.
    - right. exists c1, w2. by split_and!.
    - destruct (shutdownInLoop_ok c1 w2 J2) as (c' & -> & J' & E1 & E2 & E3 & _ & E4 & E5); [by left|].
      right. exists c', w2. split_and!; try done; [by rewrite E1|by rewrite E4|by rewrite E3]. }
  change (writeCompleteCallback_ c1) with (writeCompleteCallback_ c). unfold late in Fin. destruct (writeCompleteCallback_ c).
  - destruct (post_ok n FWriteCompleteLate c1 w1 (N _ Q) (Ic w1 T' C)) as (w2 & -> & J2 & Q2 & Eq2). cbn [mbind outcome_bind].
    apply Fin; [done..|]. by rewrite Eq2, Eq.
  - cbn [mbind outcome_bind]. apply Fin; [by apply Ic| |by rewrite Eq, app_nil_r]. eapply can_queue_mono; [|apply N, Q]. lia.
Qed.

(** [handleWrite] leaves output, if there was any, or drains it. *)
Definition kept c w c' w' : Prop :=
  state_ c' = state_ c ∧ stream c' = stream c ∧ (out c' = [] ↔ out c = []) ∧ same_callbacks c c' ∧ queued w' = queued w ∧
  shut (socket_ c') = shut (socket_ c).
Definition wrote c w c' w' : Prop := kept c w c' w' ∨ (live c ∧ out c ≠ [] ∧ drained c w c' w').

Lemma wrote_moved c w c' w' : wrote c w c' w' → moved [] c c'.
Proof. intros [(E1 & E2 & _)|(_ & _ & E1 & E2 & _)]; (apply moved_quiet; [by rewrite E1|done]). Qed.

Lemma handleWrite_ok n c w :
  conn_inv c w → state_ c ≠ KConnecting → can_queue (Datatypes.S n) w → ends n (wrote c w) (handleWrite fn c w).
Proof.
  intros I NC Q. unfold handleWrite. rewrite (assert_in c w I). cbn [mbind outcome_bind].
  assert (Q0 : can_queue n w) by (by eapply can_queue_mono; [|exact Q]; lia).
  assert (Stay : ends n (wrote c w) (Ok (c, w))).
  { right. exists c, w. split_and!; [done..|]. by left. }
  destruct (decide (live c)) as [L|NL]; cycle 1.
  { assert (Ed : state_ c = KDisconnected) by (unfold live in NL; destruct (state_ c); [done|done|destruct NL; auto..]).
    pose proof (ci_state _ _ I) as St. unfold state_inv in St. rewrite Ed in St. unfold isWriting. by rewrite St. }
  destruct (live_inv c L (ci_state _ _ I)) as [Ev Sh]. rewrite (writing_live c Ev).
  destruct (bool_decide (out c = [])) eqn:Eo; cbn [negb].
  { done. }
  apply bool_decide_eq_false in Eo. pose proof (ci_out _ _ I) as Wo. rewrite (readable_content _ Wo).
  rewrite (read_content _ _ Wo) by (pose proof (zlen_nonneg (content (outputBuffer_ c))); lia).
  cbn [mbind outcome_bind]. fold (out c). rewrite (take_ge (out c)) by (unfold zlen; lia).
  pose proof (write_law (out c) (socket_ c)) as Wl.
  destruct (sock_write (out c) (socket_ c)) as [[nw e] s]. destruct Wl as (W1 & W2 & W3 & _).
  assert (Shs : shut s = false) by (rewrite W3; destruct (shut (socket_ c)); [by destruct Eo; auto|done]).
  destruct (0 <? nw) eqn:En; bool_prop; cycle 1.
  { right. exists (with_socket s c), w. split_and!; [done|by apply inv_socket|done|]. left. split_and!; try done.
    unfold stream. cbn. rewrite W2. replace (Z.to_nat nw) with 0%nat by lia. cbn. by rewrite app_nil_r. }
  change (outputBuffer_ (with_socket s c)) with (outputBuffer_ c).
  destruct (retrieve_ok (outputBuffer_ c) nw Wo) as (o & -> & Wo' & Co); [fold (out c); lia|]. cbn [mbind outcome_bind].
  fold (out c) in Co. set (c1 := with_output o (with_socket s c)).
  assert (S1 : stream c1 = stream c).
  { unfold stream, out at 1. cbn. by rewrite W2, Co, <-app_assoc, take_drop. }
  assert (Ev1 : events_ (channel_ c1) = Z.lor KReadEvent KWriteEvent) by (cbn; rewrite Ev; by destruct (out c)).
  change (outputBuffer_ c1) with o. rewrite (readable_content _ Wo'). change (content o) with (out c1).
  destruct I as [I1 I2 I3 I4 I5 I6]. destruct (out c1) as [|x r] eqn:E1.
  - cbn [Z.eqb zlen length Z.of_nat]. eapply ends_mono; [done| |by apply (drained_ok n c1 w)].
    intros c' w' (A1 & A2 & A3). right. split_and!; [done..|]. by split; [|split; [by rewrite A2|]].
  - rewrite (proj2 (Z.eqb_neq (zlen (x :: r)) 0)) by (rewrite zlen_cons; pose proof (zlen_nonneg r); lia).
    right. exists c1, w. split_and!; [done| |done|left; split_and!; try done; by rewrite E1].
    split; try done. unfold state_inv. rewrite E1, Ev1. destruct L as [Ec|Ec]; cbn; rewrite Ec; [done|]. by rewrite Shs.
Qed.

Lemma connectEstablished_ok n self c w :
  conn_inv c w → state_ c = KConnecting → can_queue (K + n) w →
  ends n (fun c' _ => (1 <= rank (state_ c'))%nat ∧ ∃ k c1, state_ c1 = KConnected ∧ moved (msgs (acts k c1)) c c')
    (connectEstablished user self c w).
Proof.
  intros I Ec Q. destruct (connectEstablished_up user self c w I Ec) as (c1 & w1 & _ & J & N & E1 & S1 & _ & ->).
  destruct (ci_set _ _ J) as ([cb Ecb] & _). rewrite Ecb. cbn [call_user].
  eapply ends_mono; [done| |by apply (callback_ok n cb c1 w1 J); [by rewrite E1|auto]].
  intros c' w' [M1 (acc & A1 & A2)]. rewrite E1 in M1. split; [exact M1|]. exists cb, c1. split; [done|].
  split; [rewrite Ec; cbn in *; lia|]. exists acc. by rewrite A2, S1.
Qed.

Lemma forceCloseInLoop_ok n c w :
  conn_inv c w → can_queue (K + Datatypes.S n) w →
  ends n (fun c' _ => (live c → state_ c' = KDisconnected) ∧ ∃ ms, event_msgs ms ∧ moved ms c c')
    (forceCloseInLoop user owner c w).
Proof.
  intros I Q. unfold forceCloseInLoop. rewrite (assert_in c w I). cbn [mbind outcome_bind].
  destruct (is_state (state_ c) KConnected || is_state (state_ c) KDisconnecting) eqn:Es.
  - apply orb_true_iff in Es. assert (L : live c) by (destruct Es as [Es|Es]; apply bool_decide_eq_true in Es; unfold live; auto).
    eapply ends_mono; [done| |by apply (handleClose_ok n c w)]. intros c' w' [E (k & c1 & M)]. split; [done|].
    exists (msgs (acts k c1)). split; [right; by exists k, c1|done].
  - right. exists c, w. split_and!; [done|done|by eapply can_queue_mono; [|exact Q]; lia| |exists []; split; [by left|apply moved_refl]].
    intros [L|L]; unfold is_state in Es; rewrite L in Es; discriminate Es.
Qed.

(** Removing the channel of a connection that is down. *)
Lemma remove_ok n c w :
  conn_inv c w → state_ c = KDisconnected → removable (channel_ c) w → can_queue n w →
  ∃ c' w', on_channel remove c w = Ok (c', w') ∧ conn_inv c' w' ∧ can_queue n w' ∧ state_ c' = KDisconnected ∧
    stream c' = stream c.
Proof.
  intros I Ed Hr Q. pose proof (ci_state _ _ I) as St. unfold state_inv in St. rewrite Ed in St.
  unfold on_channel, remove, isNoneEvent. rewrite St. cbn [Z.eqb KNoneEvent assert_ mbind outcome_bind].
  destruct (remove_law (channel_ c) w (ci_thread _ _ I) (ci_chan _ _ I) Hr) as (i & w' & -> & C & _ & T' & N & _).
  cbn. eexists _, w'. split_and!; [done| |auto|done|done]. destruct I as [I1 I2 I3 I4 I5 I6].
  by split.
Qed.

(** On a connection that is down a user callback only consumes input and sets callbacks. *)
Lemma run_user_down xs c w :
  conn_inv c w → state_ c = KDisconnected → Forall act_fits xs →
  ∃ c', run_user xs c w = Ok (c', w) ∧ conn_inv c' w ∧ state_ c' = KDisconnected ∧ channel_ c' = channel_ c ∧ stream c' = stream c.
Proof.
  revert c; induction xs as [|a xs IH]; intros c I Ed F; [by exists c|].
  inversion F as [|? ? Fa Fl]; subst.
  assert (A : ∃ c1, run_uact fn a c w = Ok (c1, w) ∧ conn_inv c1 w ∧ state_ c1 = KDisconnected ∧ channel_ c1 = channel_ c ∧ stream c1 = stream c).
  { destruct a as [m|cb| | |k]; cbn [run_uact act_fits] in *; unfold send, shutdown, forceClose; rewrite ?Ed; try by exists c.
    - exists (setWriteCompleteCallback cb c). destruct I. by split_and!.
    - rewrite readable_content by apply (ci_in _ _ I).
      destruct (retrieve_ok (inputBuffer_ c) (Z.min k (zlen (content (inputBuffer_ c))))) as (b & -> & Wb & _);
        [apply (ci_in _ _ I)|pose proof (zlen_nonneg (content (inputBuffer_ c))); lia|].
      exists (with_input b c). destruct I. by split_and!. }
  unfold run_user. destruct A as (c1 & E & I1 & E1 & C1 & S1). cbn [foldM]. rewrite E. cbn [mbind outcome_bind]. fold (run_user xs c1 w).
  destruct (IH c1 I1 E1 Fl) as (c' & -> & I' & E' & C' & S'). exists c'. split_and!; [done..|congruence|congruence].
Qed.

(** ** Runs *)

Definition op_fits (o : conn_op) : Prop :=
  match o with OCall a => act_fits a | OFunctor (FSendInLoop m) => zlen m <= PTRDIFF_MAX | _ => True end.

(** The messages an operation gives to [send]. *)
Definition op_msgs (o : conn_op) (ms : list chars) : Prop :=
  match o with
  | OCall a => ms = act_msgs a
  | OFunctor (FSendInLoop m) => ms = [m]
  | OFunctor FShutdownInLoop => ms = []
  | OFunctor _ | OReadable => event_msgs ms
  | _ => ms = []
  end.

Definition cost : nat := K + 1.

(** The functor of [handleWrite] runs when the callback has been cleared. *)
Definition stray (o : conn_op) c : Prop := o = OFunctor FWriteCompleteLate ∧ writeCompleteCallback_ c = None.

Lemma run_conn_functor_ok n f c w :
  conn_inv c w → state_ c ≠ KConnecting → ¬ stray (OFunctor f) c → op_fits (OFunctor f) → can_queue (K + Datatypes.S n) w →
  (f = FShutdownInLoop → state_ c ≠ KConnected) →
  ends n (fun c' _ => ∃ ms, op_msgs (OFunctor f) ms ∧ moved ms c c') (run_conn_functor fn user owner f c w).
Proof.
  intros I NC St F Q Hs.
  assert (Cb : ∀ cb, ends n (fun c' _ => ∃ ms, event_msgs ms ∧ moved ms c c') (user cb c w)).
  { intros cb. eapply ends_mono; [| |by apply (callback_ok (Datatypes.S n) cb c w I)]; [lia|].
    intros c' w' M. exists (msgs (acts cb c)). split; [right; by exists cb, c|done]. }
  destruct f as [cb| |cb len|m| |]; cbn [run_conn_functor op_msgs op_fits] in *; [apply Cb| |apply Cb| | |].
  - unfold lateWriteComplete. destruct (writeCompleteCallback_ c) as [cb|] eqn:E; [apply Cb|by destruct St].
  - eapply ends_mono; [done| |apply sendInLoop_ok; try done; apply room_of; by eapply can_queue_mono; [|exact Q]; lia].
    intros c' w' Sd. pose proof (sends_stream _ _ _ _ _ Sd) as E3. destruct Sd as [E1 _]. exists [m]. split; [done|].
    split; [by rewrite E1|]. destruct E3 as [->|[-> _]]; [exists [m]|exists []]; cbn; rewrite ?app_nil_r; [done|].
    split; [by repeat constructor|done].
  - specialize (Hs eq_refl).
    destruct (shutdownInLoop_ok c w I) as (c' & -> & I' & E1 & E2 & _); [destruct (state_ c); [by right|done|done|by left]|].
    right. exists c', w. split_and!; [done..|by eapply can_queue_mono; [|exact Q]; lia|].
    exists []. split; [done|]. apply moved_quiet; [by rewrite E1|done].
  - eapply ends_mono; [done| |by apply forceCloseInLoop_ok]. naive_solver.
Qed.

Lemma run_conn_op_ok n o c w :
  conn_inv c w → state_ c ≠ KConnecting → op_fits o → can_queue (cost + n) w →
  (stray o c ∧ run_conn_op o c w = Fault (Throw BadFunctionCall)) ∨
  ends n (fun c' _ => ∃ ms, op_msgs o ms ∧ moved ms c c') (run_conn_op o c w).
Proof.
  intros I NC F Q. unfold cost in Q.
  assert (Q1 : can_queue (Datatypes.S n) w) by (eapply can_queue_mono; [|exact Q]; lia).
  assert (Q0 : can_queue n w) by (eapply can_queue_mono; [|exact Q]; lia).
  assert (Qc : can_queue (K + Datatypes.S n) w) by (eapply can_queue_mono; [|exact Q]; lia).
  assert (Stay : ends n (fun c' _ => ∃ ms, ms = [] ∧ moved ms c c') (Ok (c, w))).
  { right. exists c, w. split_and!; [done..|]. exists []. split; [done|apply moved_refl]. }
  destruct o as [a|f| | |]; [right| |right..]; cbn [run_conn_op].
  - eapply ends_mono; [done| |by apply run_uact_ok]. naive_solver.
  - destruct (bool_decide (f = FShutdownInLoop) && is_state (state_ c) KConnected) eqn:Es.
    { right. apply andb_true_iff in Es as [->%bool_decide_eq_true _]. exact Stay. }
    destruct (decide (f = FWriteCompleteLate ∧ writeCompleteCallback_ c = None)) as [[-> E]|N].
    { left. split; [by split|]. cbn. unfold lateWriteComplete. by rewrite E. }
    right. apply run_conn_functor_ok; try done; [intros [[= ->] E]; auto|].
    intros -> E. unfold is_state in Es. by rewrite E in Es.
  - destruct (is_state (state_ c) KConnected || is_state (state_ c) KDisconnecting) eqn:Es.
    + apply orb_true_iff in Es. assert (L : live c) by (destruct Es as [Es|Es]; apply bool_decide_eq_true in Es; unfold live; auto).
      by apply handleRead_ok.
    + eapply ends_mono; [done| |exact Stay]. intros c' w' (ms & -> & M). exists []. split; [by left|done].
  - eapply ends_mono; [done| |by apply handleWrite_ok]. intros c' w' Wr. exists []. split; [done|by eapply wrote_moved].
  - eapply ends_mono; [done| |by apply handleError_ok]. naive_solver.
Qed.

Lemma run_conn_ops_ok n os c w :
  conn_inv c w → state_ c ≠ KConnecting → Forall op_fits os → can_queue (cost * length os + n) w →
  (OFunctor FWriteCompleteLate ∈ os ∧ run_conn_ops os c w = Fault (Throw BadFunctionCall)) ∨
  ends n (fun c' _ => ∃ mss, Forall2 op_msgs os mss ∧ moved (mjoin mss) c c') (run_conn_ops os c w).
Proof.
  revert c w; induction os as [|o os IH]; intros c w I NC F Q.
  { right. right. exists c, w. split_and!; [done|done|by eapply can_queue_mono; [|exact Q]; lia|].
    exists []. split; [constructor|apply moved_refl]. }
  inversion F; subst. unfold run_conn_ops. cbn [foldM].
  destruct (run_conn_op_ok (cost * length os + n) o c w I NC ltac:(done)) as [[[-> _] ->]|[->|(c1 & w1 & -> & I1 & Q1 & ms & O1 & M1)]];
    [eapply can_queue_mono; [|exact Q]; cbn [length]; lia|left; split; [by left|done]|by right; left|].
  cbn [mbind outcome_bind]. fold (run_conn_ops os c1 w1).
  destruct (IH c1 w1 I1) as [[Hin E]|En]; try done.
  - apply rank_connecting. destruct M1 as [M1 _]. destruct (state_ c); cbn in *; [lia|done|lia|lia].
  - left. split; [by right|done].
  - right. eapply ends_mono; [done| |exact En]. intros c' w' (mss & O2 & M2). exists (ms :: mss).
    split; [by constructor|]. cbn. by eapply moved_trans.
Qed.

(** ** Properties *)


(** C14. [send] in the loop's thread on a connected connection takes the whole message over, whatever part of
    it the kernel accepts at once, and what was accepted before stays in front of it; the message is
    given up only when the output buffer is empty and the kernel reports the peer gone. *)
Theorem send_whole_or_gone n m c w :
  conn_inv c w → state_ c = KConnected → zlen m <= PTRDIFF_MAX → can_queue (Datatypes.S n) w →
  send fn m c w = Fault (Throw LengthError) ∨
  ∃ c' w', send fn m c w = Ok (c', w') ∧ conn_inv c' w' ∧ state_ c' = KConnected ∧
    (sent (socket_ c') ++ out c' = sent (socket_ c) ++ out c ++ m ∨
     (sent (socket_ c') ++ out c' = sent (socket_ c) ++ out c ∧ out c = [] ∧
      ∃ k e s', sock_write m (socket_ c) = (k, e, s') ∧ k <= 0 ∧ (e = EPIPE ∨ e = ECONNRESET))).
Proof.
  intros I Ec Hm Q. unfold send. rewrite Ec, (ci_thread _ _ I). cbn.
  destruct (sendInLoop_ok n m c w I ltac:(by rewrite Ec) Hm (room_of _ _ _ Q)) as [?|(c' & w' & E & I' & _ & Sd)]; [by left|right].
  pose proof (sends_stream _ _ _ _ _ Sd) as E3. destruct Sd as [E1 _].
  exists c', w'. split_and!; [done|done|by rewrite E1|]. destruct E3 as [E3|[E3 G]].
  - left. unfold stream in E3. by rewrite E3, app_assoc.
  - right. destruct G as [G|[G1 G2]]; [congruence|]. by split_and!.
Qed.

(** Graceful shutdown: [shutdown] closes the write half at once exactly when no output waits; otherwise
    the connection keeps it open until the [handleWrite] that drains the output buffer, which closes it.
    Nothing accepted before the shutdown is cut off. *)
Theorem shutdown_after_flush n c w :
  conn_inv c w → state_ c = KConnected → can_queue (Datatypes.S n) w →
  (∃ c', shutdown fn c w = Ok (c', w) ∧ state_ c' = KDisconnecting ∧ stream c' = stream c ∧
     shut (socket_ c') = bool_decide (out c = [])) ∧
  (ends n (fun c' _ => stream c' = stream c ∧ (out c' = [] → out c ≠ [] → shut (socket_ c') = true))
     (handleWrite fn (with_state KDisconnecting c) w)).
Proof.
  intros I Ec Q. assert (L : live c) by (by left).
  assert (I2 : conn_inv (with_state KDisconnecting c) w) by (by apply inv_disconnecting). split.
  - unfold shutdown. rewrite Ec, (ci_thread _ _ I). change (is_state KConnected KConnected) with true. cbn iota.
    destruct (shutdownInLoop_ok _ w I2 (or_introl eq_refl)) as (c' & E & I' & E1 & E2 & E3 & E4 & _).
    exists c'. split_and!; [done|done|done|]. change (out (with_state KDisconnecting c)) with (out c) in *.
    case_bool_decide as D; [by apply E3|]. rewrite E4 by done. cbn.
    pose proof (ci_state _ _ I) as St. unfold state_inv in St. rewrite Ec in St. apply St.
  - eapply ends_mono; [done| |by apply handleWrite_ok].
    intros c' w' [(_ & A1 & A2 & _)|(_ & _ & _ & A1 & _ & _ & _ & A2)]; (split; [done|]).
    + intros E N. by apply A2 in E.
    + by rewrite A2.
Qed.

(** Tearing a connection down: [connnectDestroyed] works on a connection that is connected or already
    down: the user hears of it once, and the channel leaves the poller. On one that is still shutting down ([shutdown] was called and the peer has not closed) the
    channel keeps its interest, and [Channel::remove] fails its assertion; [TcpServer]'s destructor makes
    this call on all its connections. *)
Theorem destroy_disconnecting_asserts n c w :
  conn_inv c w → removable (channel_ c) w → can_queue n w →
  (state_ c = KDisconnecting → connnectDestroyed user c w = Fault AssertFail) ∧
  (state_ c = KConnected ∨ state_ c = KDisconnected →
   ∃ c' w', connnectDestroyed user c w = Ok (c', w') ∧ conn_inv c' w' ∧ state_ c' = KDisconnected).
Proof.
  intros I R Q. unfold connnectDestroyed. rewrite (assert_in c w I). cbn [mbind outcome_bind].
  split; [intros Es|intros [Es|Es]]; rewrite Es.
  - change (is_state KDisconnecting KConnected) with false. cbn [mbind outcome_bind]. unfold on_channel, remove, isNoneEvent.
    pose proof (ci_state _ _ I) as St. unfold state_inv in St. rewrite Es in St. destruct St as [-> _]. by destruct (out c).
  - change (is_state KConnected KConnected) with true. cbn iota zeta.
    destruct (down_ok n c w I Q) as (c1 & w1 & -> & I1 & Q1 & E1 & _ & _ & R1). cbn [mbind outcome_bind].
    destruct (ci_set _ _ I1) as ([cb ->] & _). cbn [call_user].
    unfold calls. destruct (run_user_down (acts cb c1) c1 w1 I1 E1 (proj1 (user_fits cb c1))) as (c2 & -> & I2 & E2 & C2 & _). cbn [mbind outcome_bind].
    destruct (remove_ok n c2 w1 I2 E2) as (c' & w' & -> & I' & _ & E' & _); [rewrite C2; auto|done|]. by exists c', w'.
  - change (is_state KDisconnected KConnected) with false. cbn [mbind outcome_bind].
    destruct (remove_ok n c w I Es R Q) as (c' & w' & -> & I' & _ & E' & _). by exists c', w'.
Qed.

(** A new connection with its callbacks set is well-formed, and establishing it connects it, calls the user, and
    keeps it so: the runs of an established connection start here. *)
Theorem connection_starts n loop id name sockfd localAddr peerAddr s rd wr cl er ccb mcb wcb clcb self w :
  shut s = false → inLoopThread w = true → chan_ok (newChannel id loop sockfd) w → can_queue (K + n) w →
  ∃ c, newTcpConnection loop id name sockfd localAddr peerAddr s rd wr cl er = Ok c ∧
    conn_inv (prepare (Some ccb) (Some mcb) wcb clcb c) w ∧ state_ c = KConnecting ∧ stream c = sent s ∧
    ends n (fun c' _ => (1 <= rank (state_ c'))%nat ∧ ∃ acc, stream c' = sent s ++ mjoin acc)
      (connectEstablished user self (prepare (Some ccb) (Some mcb) wcb clcb c) w).
Proof.
  intros Hs Ht Hc Q.
  destruct (new_prepared loop id name sockfd localAddr peerAddr s rd wr cl er ccb mcb wcb clcb w Hs Ht Hc) as (c & -> & I & Ec & Sc & _).
  exists c. split_and!; [done|exact I|done|exact Sc|]. eapply ends_mono; [done| |by apply connectEstablished_ok].
  intros c' _ (R & k & c1 & _ & _ & acc & _ & A). split; [exact R|]. exists acc. rewrite A. by rewrite <-Sc.
Qed.
End Events.
End Invariant.

(** ** A connection on model kernels *)

From S2P Require Import Poller EventLoop.

(** A wire: what the peer receives, and the kernel's answers to the next writes and reads. A number in
    [w_room] is the bytes the next write takes, or minus its errno. *)
Record wire := mkWire { w_sent : chars; w_shut : bool; w_room : list Z; w_in : list chars }.

#[global] Instance wire_kernel : SocketKernel wire := {|
  sock_write d s :=
    if w_shut s then (-1, EPIPE, s) else
    match w_room s with
    | [] => (-1, EWOULDBLOCK, s)
    | r :: rs =>
        if r <? 0 then (-1, - r, mkWire (w_sent s) false rs (w_in s))
        else (Z.min r (zlen d), 0, mkWire (w_sent s ++ take (Z.to_nat (Z.min r (zlen d))) d) false rs (w_in s))
    end;
  sock_readv cap s :=
    match w_in s with
    | [] => (ReadvError EWOULDBLOCK, s)
    | d :: ds => (ReadvBytes (take (Z.to_nat cap) d), mkWire (w_sent s) (w_shut s) (w_room s) ds)
    end;
  sock_shutdownWrite s := mkWire (w_sent s) true (w_room s) (w_in s);
  sock_getError s := (0, s);
  sock_setopt o on s := s;
  sent := w_sent;
  shut := w_shut
|}.

#[global] Instance wire_laws : SocketLaws wire.
Proof.
  split; cbn.
  - intros d s. pose proof (zlen_nonneg d). destruct (w_shut s) eqn:Es; [|destruct (w_room s) as [|r rs]; [|destruct (r <? 0) eqn:Er]];
      cbn; rewrite ?app_nil_r; bool_prop; split_and!; try done; lia.
  - intros cap s. destruct (w_in s) as [|d ds]; cbn; [done|]. split_and!; [done..|]. intros. unfold zlen.
    rewrite length_take. lia.
  - done.
  - done.
  - done.
Qed.

(** Loop 0 of thread 1 with the connection on descriptor 7; channel callbacks are numbers. The kernel takes
    two bytes of the first write, then blocks, then takes everything. *)
Definition conn_loop : EventLoop conn_functor (gmap Z (Z * nat)) N :=
  mkLoop 0 true false true false false 1 0 (mkPoller 16 ∅ ∅) 0%N [] None [] 1.
Definition conn_wire : wire := mkWire [] false [2; - EWOULDBLOCK; 100] [$"hello"; []].
(** The user's callbacks: 0 does nothing, 1 echoes the input and consumes it, 2 clears the write-complete
    callback. The owner's close callback queues the removal of the connection. *)
Definition sample_user (k : nat) (c : TcpConnection nat wire) : list uact :=
  match k with
  | 1%nat => [USend $"hello"; URetrieve 5]
  | 2%nat => [USetWriteComplete None]
  | _ => []
  end.
Definition close_queue {S : Type} (k : nat) (c : TcpConnection nat S) (l : EventLoop conn_functor (gmap Z (Z * nat)) N) :=
  loop_queueInLoop FForceCloseInLoop l.

Definition sample_new : outcome (TcpConnection nat wire) :=
  c ← newTcpConnection 0 5 $"srv:1" 7 (InetAddress_port 80) (InetAddress_port 81) conn_wire 0%nat 1%nat 2%nat 3%nat;
  Ok (setConnCloseCallback (Some 0%nat) (setMessageCallback (Some 1%nat) (setConnectionCallback (Some 0%nat) c))).
Definition sample_pair : TcpConnection nat wire * EventLoop conn_functor (gmap Z (Z * nat)) N :=
  Eval vm_compute in
  match (c ← sample_new; connectEstablished (calls (fun f => f) sample_user) 1 c conn_loop) with
  | Ok x => x
  | Fault _ => (mkConn [] KConnecting conn_wire (newChannel 5 0 7) (InetAddress_port 80) (InetAddress_port 81)
                  None None None None None 0 (mkBuffer [] 0 0) (mkBuffer [] 0 0) any_nullptr, conn_loop)
  end.
Abbreviation sample_conn := (sample_pair.1).
Abbreviation sample_loop := (sample_pair.2).

Lemma sample_conn_inv : conn_inv sample_conn sample_loop.
Proof.
  split; [done| |by vm_compute|by vm_compute|by vm_compute|by split_and!; eexists].
  split; [done|]. right. left. vm_compute. by eauto.
Qed.

Lemma sample_can_queue n : can_queue (CB := nat) (T := conn_functor) n sample_loop.
Proof. by left. Qed.

Lemma close_queue_law {K : Type} `{SocketLaws K} k n (c : TcpConnection nat K) (l : EventLoop conn_functor (gmap Z (Z * nat)) N) :
  conn_inv c l → can_queue (CB := nat) (T := conn_functor) (Datatypes.S n) l →
  ∃ l', close_queue k c l = Ok l' ∧ conn_inv c l' ∧ can_queue (CB := nat) (T := conn_functor) n l'.
Proof.
  intros I Q. destruct (post_ok (fun f => f) n FForceCloseInLoop c l Q I) as (l' & E & I' & Q' & _).
  exists l'. unfold post in E. cbn in E. unfold close_queue. destruct (loop_queueInLoop _ l); [|done]. cbn in E.
  by injection E as ->.
Qed.

Lemma sample_user_fits k c : Forall act_fits (sample_user k c) ∧ (length (sample_user k c) <= 2)%nat.
Proof. destruct k as [|[|[|k]]]; (split; [|cbn; lia]); repeat constructor; by vm_compute. Qed.

Definition sample_run (os : list conn_op) : outcome (TcpConnection nat wire * EventLoop conn_functor (gmap Z (Z * nat)) N) :=
  run_conn_ops (fun f => f) (calls (fun f => f) sample_user) close_queue os sample_conn sample_loop.


(** The user sets a write-complete callback, sends, and clears it between the drain of the output buffer and
    the functor that announces it. *)
Example cleared_callback_throws :
  sample_run [OCall (USetWriteComplete (Some 0%nat)); OCall (USend $"hello"); OWritable; OWritable;
              OCall (USetWriteComplete None); OFunctor FWriteCompleteLate] = Fault (Throw BadFunctionCall).
Proof. vm_compute. reflexivity. Qed.

Lemma send_whole_or_gone_witness :
  ∃ c' w', send (fun f => f) $"hello" sample_conn sample_loop = Ok (c', w') ∧
    sent (socket_ c') ++ out c' = $"hello" ∧ w_sent (socket_ c') = $"he".
Proof.
  destruct (send_whole_or_gone (fun f => f) 0 $"hello" sample_conn sample_loop sample_conn_inv eq_refl)
    as [E|(c' & w' & E & _ & _ & H)].
  - by vm_compute.
  - apply sample_can_queue.
  - exfalso. vm_compute in E. discriminate E.
  - exists c', w'. split; [exact E|]. destruct H as [H|(_ & _ & k & e & s' & W & Hk & _)].
    + split; [exact H|]. vm_compute in E. by injection E as <- <-.
    + vm_compute in W. injection W as <- <- <-. lia.
Defined.

Lemma shutdown_after_flush_witness :
  ∃ c', shutdown (fun f => f) sample_conn sample_loop = Ok (c', sample_loop) ∧ shut (socket_ c') = true.
Proof.
  destruct (shutdown_after_flush (fun f => f) 0 sample_conn sample_loop sample_conn_inv eq_refl (sample_can_queue 1))
    as [(c' & E & _ & _ & H) _].
  exists c'. split; [exact E|]. rewrite H. by vm_compute.
Defined.

Lemma destroy_disconnecting_asserts_witness :
  connnectDestroyed (calls (fun f => f) sample_user) (with_state KDisconnecting sample_conn) sample_loop = Fault AssertFail.
Proof.
  apply (destroy_disconnecting_asserts (fun f => f) sample_user 2 sample_user_fits 0 (with_state KDisconnecting sample_conn) sample_loop).
  - apply inv_disconnecting; [exact sample_conn_inv|by left].
  - done.
  - apply sample_can_queue.
  - done.
Defined.
