(* ===== verification/ConnFrame.v ===== *)
(** * ConnFrame: what the operations of one connection leave alone

    The operations of [TcpConnection] that do not close the connection reach its loop only by switching the channel's
    interest in writing and by queueing functors. A guarantee is a relation that holds of such steps; every operation
    (TcpConnection.cpp, through [TcpConnection]'s definitions) then stays within it, whatever it returns. The
    guarantee of [EventLoop] says that only this connection's registration and the end of the queue change. *)

From S2P Require Import Prelude Buffer Channel Poller EventLoop Sockets TcpConnection.

(** The functors a connection queues in its loop's own thread. *)
Definition local (f : conn_functor) : bool :=
  match f with FSendInLoop _ | FShutdownInLoop => false | _ => true end.

(** [G n x y]: from [x] to [y], a channel and its loop, with at most [n] functors queued. *)
Class Guarantee {CB T W : Type} `{LS : LoopServices CB T W} (fn : conn_functor → T)
    (G : nat → Channel CB * W → Channel CB * W → Prop) : Prop := {
  g_refl n x : G n x x;
  g_trans n m x y z : G n x y → G m y z → G (n + m)%nat x z;
  g_thread n x y : G n x y → inLoopThread y.2 = inLoopThread x.2;
  g_enable ch w ch' w' : enableWriting ch w = Ok (ch', w') → G 0%nat (ch, w) (ch', w');
  g_disable ch w ch' w' : disableWriting ch w = Ok (ch', w') → G 0%nat (ch, w) (ch', w');
  g_post ch w w' f : local f = true → queueInLoop (fn f) w = Ok w' → G 1%nat (ch, w) (ch, w')
}.

Section Frame.
Context {CB T W S : Type} `{LS : LoopServices CB T W} `{SK : SocketKernel S} (fn : conn_functor → T).
Context (G : nat → Channel CB * W → Channel CB * W → Prop) `{GG : !Guarantee fn G}.
Implicit Types (c : TcpConnection CB S) (w : W).

(** When [m] succeeds in the loop's thread it was a step of the guarantee, and a live connection is still live. *)
Definition stays (n : nat) c w (m : outcome (TcpConnection CB S * W)) : Prop :=
  inLoopThread w = true → ∀ c' w', m = Ok (c', w') → G n (channel_ c, w) (channel_ c', w') ∧ (live c → live c').

Lemma stays_ok n c w c' : channel_ c' = channel_ c → state_ c' = state_ c → stays n c w (Ok (c', w)).
Proof. intros E1 E2 _ ?? [= <- <-]. rewrite E1. split; [apply g_refl|]. unfold live. by rewrite E2. Qed.

Lemma stays_fault n c w f : stays n c w (Fault f).
Proof. intros _ ??. done. Qed.

Lemma stays_mono n m c w x : (n <= m)%nat → stays n c w x → stays m c w x.
Proof.
  intros Hn H Ht c' w' E. destruct (H Ht c' w' E) as [A B]. split; [|done].
  replace m with (n + (m - n))%nat by lia. eapply g_trans; [exact A|apply g_refl].
Qed.

Lemma stays_bind n m c w x k :
  stays n c w x → (∀ c1 w1, stays m c1 w1 (k (c1, w1))) → stays (n + m) c w (p ← x; k p).
Proof.
  intros H1 H2 Ht c' w' E. apply bind_inv in E as ([c1 w1] & E1 & E2). destruct (H1 Ht c1 w1 E1) as [A1 L1].
  destruct (H2 c1 w1 ltac:(by rewrite (g_thread _ _ _ A1)) c' w' E2) as [A2 L2].
  split; [by eapply g_trans|auto].
Qed.

(** A step on a connection with other members changed meanwhile. *)
Lemma stays_from n c d w x : channel_ d = channel_ c → (live c → live d) → stays n d w x → stays n c w x.
Proof. intros E L H Ht c' w' Ex. destruct (H Ht c' w' Ex) as [A B]. rewrite <-E. auto. Qed.

Lemma stays_pure n {A : Type} (a : outcome A) c w k : (∀ x, stays n c w (k x)) → stays n c w (x ← a; k x).
Proof. intros H. destruct a; [apply H|apply stays_fault]. Qed.

Lemma stays_post f c w : local f = true → stays 1 c w (post fn f c w).
Proof.
  intros L Ht c' w' E. unfold post in E. apply bind_inv in E as (w1 & E & [= <- <-]). split; [by eapply g_post|done].
Qed.

Lemma stays_enable c w : stays 0 c w (on_channel enableWriting c w).
Proof. intros Ht c' w' E. apply bind_inv in E as ([ch w1] & E & [= <- <-]). split; [by apply g_enable|done]. Qed.

Lemma stays_disable c w : stays 0 c w (on_channel disableWriting c w).
Proof. intros Ht c' w' E. apply bind_inv in E as ([ch w1] & E & [= <- <-]). split; [by apply g_disable|done]. Qed.

Lemma stays_when n (b : bool) c w x : stays n c w x → stays n c w (if b then x else Ok (c, w)).
Proof. intros H. destruct b; [done|by apply stays_ok]. Qed.

Lemma stays_cb n (o : option nat) c w (x : nat → outcome (TcpConnection CB S * W)) :
  (∀ cb, stays n c w (x cb)) → stays n c w (if o is Some cb then x cb else Ok (c, w)).
Proof. intros H. destruct o; [done|by apply stays_ok]. Qed.

(** ** Sending and closing *)

Lemma buffer_stays m nwrote remaining fe c w : stays 1 c w (buffer_remaining fn m nwrote remaining fe c w).
Proof.
  unfold buffer_remaining. apply stays_pure; intros _. apply stays_when.
  apply (stays_bind 1 0).
  - apply stays_cb; intros cb. apply stays_when. by apply stays_post.
  - intros c1 w1. apply stays_pure; intros o. cbn zeta. apply (stays_from _ _ (with_output o c1)); [done..|].
    apply stays_when, stays_enable.
Qed.

Lemma direct_stays m c w (k : Z * Z * bool * TcpConnection CB S * W → outcome (TcpConnection CB S * W)) :
  (∀ a b f c1 w1, stays 1 c1 w1 (k (a, b, f, c1, w1))) → stays 2 c w (p ← direct_write fn m c w; k p).
Proof.
  intros H. unfold direct_write.
  assert (H2 : ∀ a b f c1 w1, stays 2 c1 w1 (k (a, b, f, c1, w1))) by (intros; eapply stays_mono; [|apply H]; lia).
  destruct (_ && _); [|by cbn]. destruct (sock_write m (socket_ c)) as [[nw e] s]. cbn zeta.
  destruct (0 <? nw); cycle 1.
  { cbn. by apply (stays_from _ _ (with_socket s c)). }
  apply (stays_from _ _ (with_socket s c)); [done..|]. rewrite bind_assoc.
  apply (stays_bind 1 1); [|intros; apply H]. apply stays_cb; intros cb. apply stays_when. by apply stays_post.
Qed.

Lemma sendInLoop_stays m c w : stays 2 c w (sendInLoop fn m c w).
Proof.
  unfold sendInLoop. apply stays_pure; intros _. destruct (is_state _ _); [by apply stays_ok|].
  apply direct_stays. intros. apply buffer_stays.
Qed.

Lemma shutdownInLoop_stays c w : stays 0 c w (shutdownInLoop c w).
Proof. unfold shutdownInLoop. apply stays_pure; intros _. destruct (negb _); by apply stays_ok. Qed.

Lemma handleError_stays c w : stays 0 c w (handleError c w).
Proof. unfold handleError. destruct (sock_getError _). by apply stays_ok. Qed.

Lemma handleWrite_stays c w : stays 1 c w (handleWrite fn c w).
Proof.
  unfold handleWrite. apply stays_pure; intros _. apply stays_when. apply stays_pure; intros d.
  destruct (sock_write d (socket_ c)) as [[n e] s]. cbn zeta. apply (stays_from _ _ (with_socket s c)); [done..|].
  apply stays_when. apply stays_pure; intros o. apply (stays_from _ _ (with_output o (with_socket s c))); [done..|].
  apply stays_when. apply (stays_bind 0 1); [apply stays_disable|]. intros c1 w1.
  apply (stays_bind 1 0); [apply stays_cb; intros cb; by apply stays_post|]. intros c2 w2. apply stays_when, shutdownInLoop_stays.
Qed.

(** ** The user's calls *)

Lemma run_uact_stays a c w : stays 2 c w (run_uact fn a c w).
Proof.
  destruct a as [m|cb| | |k]; cbn [run_uact].
  - unfold send. apply stays_when. intros Ht. rewrite Ht. by apply sendInLoop_stays.
  - by apply stays_ok.
  - unfold shutdown. apply stays_when. intros Ht. rewrite Ht.
    eapply stays_mono; [|apply (stays_from 0 _ (with_state KDisconnecting c)); [done| |apply shutdownInLoop_stays]|done]; [lia|by right].
  - unfold forceClose. apply stays_when. apply (stays_mono 1); [lia|].
    apply (stays_from _ _ (with_state KDisconnecting c)); [done|by right|by apply stays_post].
  - apply stays_pure; intros b. by apply stays_ok.
Qed.

Lemma run_user_stays acts c w : stays (2 * length acts) c w (run_user fn acts c w).
Proof.
  revert c w; induction acts as [|a acts IH]; intros c w; [by apply stays_ok|].
  unfold run_user. cbn [foldM length]. replace (2 * _)%nat with (2 + 2 * length acts)%nat by lia.
  apply (stays_bind 2 (2 * length acts)); [apply run_uact_stays|]. intros c1 w1. apply IH.
Qed.
End Frame.

(** ** The loop's guarantee *)

Section LoopFrame.
Context {CB T K E X : Type} `{EK : EpollKernel K} `{EL : !EpollLaws K} `{EF : EventfdKernel E} `{ELw : !EventfdLaws E}.
Context (fn : conn_functor → T).
Implicit Types (l : EventLoop T K E) (ch : Channel CB) (p : EPollPoller K).

(** The functors of this connection. *)
Definition own (t : T) : Prop := ∃ f, local f = true ∧ t = fn f.

(** The loop grew: only the poller, the wakeup counter and the end of the queue may differ; the counter only while
    functors run. *)
Definition grew (n : nat) (P : T → Prop) l l' : Prop :=
  ∃ p e fs, l' = set_pending (pendingFunctors_ l ++ fs) (set_wakeupFd e (set_poller p l)) ∧ (length fs <= n)%nat ∧
    Forall P fs ∧ (isInLoopThread l = true → callingPendingFunctors_ l = false → e = wakeupFd_ l).

(** A channel of a live connection: registered, and interested in reading. *)
Definition reads ch : Prop := Z.land (events_ ch) KReadEvent = KReadEvent ∧ index_ ch = KAdded.

Record loop_guar (n : nat) (x y : Channel CB * (EventLoop T K E * X)) : Prop := {
  lg_beside : y.2.2 = x.2.2;
  lg_chan : ∃ i e, y.1 = set_index i (with_events e x.1);
  lg_reads : reads x.1 → reads y.1;
  lg_frame : frame (fd_ x.1) (poller_ x.2.1) (poller_ y.2.1);
  lg_size : events_size (poller_ y.2.1) = events_size (poller_ x.2.1);
  lg_grew : grew n own x.2.1 y.2.1
}.

Lemma grew_refl n P l : grew n P l l.
Proof.
  exists (poller_ l), (wakeupFd_ l), []. split_and!; [|cbn; lia|constructor|done]. rewrite app_nil_r. by destruct l.
Qed.

Lemma grew_trans n m P l1 l2 l3 : grew n P l1 l2 → grew m P l2 l3 → grew (n + m) P l1 l3.
Proof.
  intros (p & e & fs & -> & L1 & F1 & E1) (q & e' & gs & -> & L2 & F2 & E2). exists q, e', (fs ++ gs).
  split_and!; [cbn; by rewrite app_assoc|rewrite length_app; lia|by apply Forall_app|].
  intros H1 H2. cbn in E2. rewrite E2, E1; done.
Qed.

Lemma frame_trans fd p1 p2 p3 : frame fd p1 p2 → frame fd p2 p3 → frame (K := K) fd p1 p3.
Proof. intros H1 H2 fd' N. destruct (H2 fd' N) as [-> ->]. by apply H1. Qed.

(** Whatever the channel's state: an [epoll_ctl] on its descriptor changes nothing for the others. *)
Lemma poller_update_frame op ch p p' :
  poller_update op ch p = Ok p' → frame (fd_ ch) p p' ∧ events_size p' = events_size p.
Proof.
  unfold poller_update. destruct (epoll_ctl op _ _ _ _) as [ret k] eqn:Ek. intros H.
  assert (p' = mkPoller (events_size p) (channels_ p) k) as -> by (repeat case_match; congruence). split; [|done].
  intros fd' N. split; [done|]. cbn.
  assert (A : op ≠ EPOLL_CTL_ADD → interest (kernel p) !! fd_ ch = None → interest k = interest (kernel p)).
  { intros No Ni. destruct (ctl_absent_fail op (fd_ ch) (events_ ch) (id_ ch) _ No Ni) as (k' & E' & Hk'). congruence. }
  destruct (interest (kernel p) !! fd_ ch) as [x|] eqn:Ei; destruct op; try (by rewrite A).
  - destruct (ctl_add_fail (fd_ ch) (events_ ch) (id_ ch) (kernel p)) as (k' & E' & ?); [by eexists|]. congruence.
  - destruct (ctl_mod (fd_ ch) (events_ ch) (id_ ch) (kernel p)) as (k' & E' & Hk'); [by eexists|].
    assert (k = k') as -> by congruence. by rewrite Hk', lookup_insert_ne.
  - destruct (ctl_del (fd_ ch) (events_ ch) (id_ ch) (kernel p)) as (k' & E' & Hk'); [by eexists|].
    assert (k = k') as -> by congruence. by rewrite Hk', lookup_delete_ne.
  - destruct (ctl_add (fd_ ch) (events_ ch) (id_ ch) (kernel p)) as (k' & E' & Hk'); [done|].
    assert (k = k') as -> by congruence. by rewrite Hk', lookup_insert_ne.
Qed.

(** An update with some interest leaves the channel added. *)
Lemma updateChannel_frame b ch p ch' p' :
  poller_updateChannel b ch p = Ok (ch', p') →
  frame (fd_ ch) p p' ∧ events_size p' = events_size p ∧ ∃ i, ch' = set_index i ch ∧ (isNoneEvent ch = false → index_ ch = KAdded → i = KAdded).
Proof.
  unfold poller_updateChannel. destruct b; [|done]. cbn [negb]. destruct (_ || _) eqn:Ei.
  - intros H. bind_inv H. bind_inv H. injection H as <- <-. apply poller_update_frame in E1 as [F1 S1].
    assert (frame (fd_ ch) p a ∧ events_size a = events_size p) as [F0 S0].
    { destruct (index_ ch =? KNew); bind_inv E0; injection E0 as <-; [|done]. split; [|done]. intros fd' N. cbn. by rewrite lookup_insert_ne. }
    split_and!; [by eapply frame_trans|congruence|]. by exists KAdded.
  - destruct (isNoneEvent ch) eqn:En; intros H; bind_inv H; injection H as <- <-; apply poller_update_frame in E0 as [F S]; (split_and!; [done..|]).
    + by exists KDeleted.
    + exists (index_ ch). split; [by destruct ch|done].
Qed.

Lemma loop_update_guar e ch (w : EventLoop T K E * X) ch' w' :
  (reads ch → Z.land e KReadEvent = KReadEvent) →
  updateChanel (with_events e ch) w = Ok (ch', w') → loop_guar 0 (ch, w) (ch', w').
Proof.
  destruct w as [l x]. intros Hr H. cbn in H. unfold loop_updateChanel in H. bind_inv H. destruct a as [ch1 l1]. injection H as <- <-.
  bind_inv E0. bind_inv E0. bind_inv E0. destruct a1 as [ch2 p]. injection E0 as <- <-.
  apply updateChannel_frame in E3 as (F & Sz & i & -> & Hi). split; cbn; try done; [by exists i, e| |].
  - intros R. specialize (Hr R). destruct R as [R1 R2]. split; [done|]. apply Hi; [|done]. unfold isNoneEvent. cbn.
    destruct (e =? KNoneEvent) eqn:Ee; [|done]. apply Z.eqb_eq in Ee as ->. discriminate Hr.
  - exists p, (wakeupFd_ l), []. rewrite app_nil_r. split_and!; [by destruct l|cbn; lia|constructor|done].
Qed.

#[export] Instance loop_guarantee : Guarantee fn (W := EventLoop T K E * X) loop_guar.
Proof.
  split.
  - intros n [ch [l x]]. split; cbn; try done; [|apply grew_refl]. exists (index_ ch), (events_ ch). by destruct ch.
  - intros n m [c1 [l1 x1]] [c2 [l2 x2]] [c3 [l3 x3]] [A1 (i1 & e1 & A2) A3 A4 A5 A6] [B1 (i2 & e2 & B2) B3 B4 B5 B6]. cbn in *. subst c2 c3 x2 x3.
    split; cbn; try done; [by exists i2, e2|by auto|by eapply frame_trans|congruence|by eapply grew_trans].
  - intros n [ch [l x]] [ch' [l' x']] H. destruct (lg_grew _ _ _ H) as (p & e & fs & El & _). cbn in El |- *. by rewrite El.
  - intros ch [l x] ch' w' H. unfold enableWriting, update in H. eapply loop_update_guar; [|exact H].
    intros [R _]. rewrite Z.land_lor_distr_l, R. done.
  - intros ch [l x] ch' w' H. unfold disableWriting, update in H. eapply loop_update_guar; [|exact H].
    intros [R _]. rewrite <-Z.land_assoc, (Z.land_comm (Z.lnot _)), Z.land_assoc, R. done.
  - intros ch [l x] w' f L H. cbn in H. bind_inv H. injection H as <-. unfold loop_queueInLoop, when in E0.
    set (l1 := set_pending (pendingFunctors_ l ++ [fn f]) l) in *.
    assert (G1 : ∀ e, (isInLoopThread l = true → callingPendingFunctors_ l = false → e = wakeupFd_ l) → grew 1 own l (set_wakeupFd e l1)).
    { intros e He. exists (poller_ l), e, [fn f]. split_and!; [by destruct l|done|repeat constructor; by exists f|done]. }
    split; cbn; [done|exists (index_ ch), (events_ ch); by destruct ch|done|..].
    + destruct (_ || _); [|by injection E0 as <-]. apply wakeup_inv in E0 as (e & -> & _). by intros fd' N.
    + destruct (_ || _); [|by injection E0 as <-]. by apply wakeup_inv in E0 as (e & -> & _).
    + destruct (negb (isInLoopThread l1) || callingPendingFunctors_ l1) eqn:Eb.
      * apply wakeup_inv in E0 as (e & -> & _). apply G1. intros H1 H2.
        change (isInLoopThread l1) with (isInLoopThread l) in Eb. change (callingPendingFunctors_ l1) with (callingPendingFunctors_ l) in Eb.
        by rewrite H1, H2 in Eb.
      * injection E0 as <-. assert (l1 = set_wakeupFd (wakeupFd_ l) l1) as -> by (by destruct l). by apply G1.
Qed.
End LoopFrame.
