(* ===== verification/TcpServer.v ===== *)
(** * TcpServer: accepting connections and spreading them over loops

    Models [plugins/Muduo/muduo/net/EventLoopThreadPool.h/.cpp], [Acceptor.h/.cpp] and [TcpServer.h/.cpp].
    Loops are numbers; work for another loop is returned as a post (loop, functor). A connection object is
    named by the number it was created with; [newConnection] also returns the [TcpConnection] it has made, with
    the server's callbacks, which lives on in its loop. The descriptor table behind the acceptor is the class
    [AcceptKernel]. *)

From S2P Require Import Prelude Buffer Channel Poller EventLoop Sockets TcpConnection.

(** ** EventLoopThreadPool *)

(* @src EventLoopThreadPool.h | EventLoop* baseLoop_; | std::vector<EventLoop*> loops_; | EventLoopThreadPool *)
Record EventLoopThreadPool := mkPool {
  baseLoop_ : nat;
  tp_started_ : bool;
  numThread_ : Z;
  next_ : Z;
  loops_ : list nat
}.

(* @src EventLoopThreadPool.cpp | EventLoopThreadPool::EventLoopThreadPool( | next_(0) {} *)
Definition newThreadPool (baseloop : nat) : EventLoopThreadPool := mkPool baseloop false 0 0 [].
(* @src EventLoopThreadPool.cpp | void EventLoopThreadPool::setThreadNum( *)
Definition pool_setThreadNum (n : Z) (p : EventLoopThreadPool) : EventLoopThreadPool :=
  mkPool (baseLoop_ p) (tp_started_ p) n (next_ p) (loops_ p).

(** [start]: [startLoop i] is the loop that the i-th new [EventLoopThread] returned. The result also tells
    on which loops the init callback [cb], if any, runs in this thread. *)
(* @src EventLoopThreadPool.cpp | void EventLoopThreadPool::start( *)
Definition pool_start (inBase : bool) (startLoop : nat → nat) (has_cb : bool) (p : EventLoopThreadPool) :
    outcome (list nat * EventLoopThreadPool) :=
  assert_ (negb (tp_started_ p));;
  if negb inBase then Fault ExitFailure else
  let loops := startLoop <$> seq 0 (Z.to_nat (numThread_ p)) in
  Ok (if (numThread_ p =? 0) && has_cb then [baseLoop_ p] else [],
      mkPool (baseLoop_ p) true (numThread_ p) (next_ p) (loops_ p ++ loops)).

(* @src EventLoopThreadPool.cpp | EventLoop* EventLoopThreadPool::getNextLoop() *)
Definition getNextLoop (inBase : bool) (p : EventLoopThreadPool) : outcome (nat * EventLoopThreadPool) :=
  if negb inBase then Fault ExitFailure else
  match loops_ p with
  | [] => Ok (baseLoop_ p, p)
  | _ =>
      match loops_ p !! Z.to_nat (next_ p) with
      | None => Fault Undefined
      | Some loop =>
          let next := next_ p + 1 in
          let next := if zlen (loops_ p) <=? next then 0 else next in
          Ok (loop, mkPool (baseLoop_ p) (tp_started_ p) (numThread_ p) next (loops_ p))
      end
  end.

(** ** Acceptor *)

(** The process's descriptors and the listening socket's queue: [accept(2)] (descriptor, errno),
    [open("/dev/null")], [close(2)]; [backlog]: connections waiting; [spare]: free descriptors. *)
Class AcceptKernel (K : Type) := {
  k_accept : K → Z * Z * K;
  k_open : K → Z * K;
  k_close : Z → K → K;
  backlog : K → nat;
  spare : K → nat
}.

(** accept(2) takes a waiting connection and a free descriptor, or fails with [EAGAIN], [EMFILE]; open(2)
    takes a free descriptor; closing an open descriptor frees it. *)
Class AcceptLaws (K : Type) `{AcceptKernel K} := {
  accept_ok k : (0 < backlog k)%nat → (0 < spare k)%nat →
    ∃ fd e k', k_accept k = (fd, e, k') ∧ 0 <= fd ∧ backlog k = S (backlog k') ∧ spare k = S (spare k');
  accept_empty k : backlog k = 0%nat → ∃ k', k_accept k = (-1, EAGAIN, k') ∧ backlog k' = 0%nat ∧ spare k' = spare k;
  accept_full k : (0 < backlog k)%nat → spare k = 0%nat →
    ∃ k', k_accept k = (-1, EMFILE, k') ∧ backlog k' = backlog k ∧ spare k' = spare k;
  open_ok k : (0 < spare k)%nat → ∃ fd k', k_open k = (fd, k') ∧ 0 <= fd ∧ backlog k' = backlog k ∧ spare k = S (spare k');
  close_ok fd k : 0 <= fd → backlog (k_close fd k) = backlog k ∧ spare (k_close fd k) = S (spare k)
}.

(* @src Acceptor.h | EventLoop* loop_; | int idlefd_; | Acceptor *)
Record Acceptor (CB K : Type) := mkAcceptor {
  acceptChannel_ : Channel CB;
  newConnectionCallback_ : bool;
  listening_ : bool;
  idlefd_ : Z;
  ac_kernel : K
}.
Arguments mkAcceptor {CB K}.
Arguments acceptChannel_ {CB K}.
Arguments newConnectionCallback_ {CB K}.
Arguments listening_ {CB K}.
Arguments idlefd_ {CB K}.
Arguments ac_kernel {CB K}.

Section Acceptor.
Context {CB T W K : Type} `{LS : LoopServices CB T W} `{AK : AcceptKernel K}.
Implicit Types (a : Acceptor CB K) (w : W).

(** The constructor, with the results of [socket], [bind] and the kernel to [open] on. *)
(* @src Acceptor.cpp | Acceptor::Acceptor(EventLoop* loop, const InetAddress& listenAddr) *)
Definition newAcceptor (loop id : nat) (sockfd bind_r : Z) (rd : CB) (k : K) : outcome (Acceptor CB K) :=
  fd ← createNonblockingOrDie sockfd;
  let '(idle, k) := k_open k in
  assert_ (0 <? idle);;
  bindOrDie bind_r;;
  Ok (mkAcceptor (setReadCallback rd (newChannel id loop fd)) false false idle k).

(* @src Acceptor.cpp | void Acceptor::listen() *)
Definition acceptor_listen (listen_r : Z) a w : outcome (Acceptor CB K * W) :=
  assertInLoop w;;
  listenOrDie listen_r;;
  '(ch, w) ← enableReading (acceptChannel_ a) w;
  Ok (mkAcceptor ch (newConnectionCallback_ a) true (idlefd_ a) (ac_kernel a), w).

(** The destructor. *)
(* @src Acceptor.cpp | Acceptor::~Acceptor() *)
Definition acceptor_destroy a w : outcome (Acceptor CB K * W) :=
  '(ch, w) ← disableAll (acceptChannel_ a) w;
  '(ch, w) ← remove ch w;
  Ok (mkAcceptor ch (newConnectionCallback_ a) (listening_ a) (idlefd_ a) (k_close (idlefd_ a) (ac_kernel a)), w).

Definition with_kernel (idle : Z) (k : K) a : Acceptor CB K :=
  mkAcceptor (acceptChannel_ a) (newConnectionCallback_ a) (listening_ a) idle k.

(* @src Acceptor.cpp | void Acceptor::setNewConnectionCallback( *)
Definition setNewConnectionCallback (cb : bool) a : Acceptor CB K :=
  mkAcceptor (acceptChannel_ a) cb (listening_ a) (idlefd_ a) (ac_kernel a).
(* @src Acceptor.cpp | bool Acceptor::listening() const *)
Definition listening a : bool := listening_ a.

(** [handleRead]: the descriptor handed to the new-connection callback, if any. *)
(* @src Acceptor.cpp | void Acceptor::handleRead() *)
Definition acceptor_handleRead a w : outcome (option Z * Acceptor CB K) :=
  assertInLoop w;;
  let '(fd, errno, k) := k_accept (ac_kernel a) in
  '(connfd, errno) ← accept fd errno;
  if 0 <=? connfd then
    if newConnectionCallback_ a then Ok (Some connfd, with_kernel (idlefd_ a) k a)
    else Ok (None, with_kernel (idlefd_ a) (k_close connfd k) a)
  else if errno =? EMFILE then
    let k := k_close (idlefd_ a) k in
    let '(fd, _, k) := k_accept k in
    let k := k_close fd k in
    let '(idle, k) := k_open k in
    Ok (None, with_kernel idle k a)
  else Ok (None, with_kernel (idlefd_ a) k a).
End Acceptor.

(** ** TcpServer *)

(** What the server passes to [runInLoop] and [queueInLoop]. *)
Inductive server_functor :=
| SListen
| SConnectEstablished (conn : Z)
| SRemoveInLoop (conn : Z)
| SConnectDestroyed (conn : Z).

(** The numbers of the callbacks a server starts with, and of [removeConnection] as the close callback. *)
Definition default_connection : nat := 0.
Definition default_message : nat := 1.
Definition server_close : nat := 2.

(** [objs]: name and loop of the connection objects that exist. *)
(* @src TcpServer.h | EventLoop* loop_; | ConnectionMap connections_; | TcpServer *)
Record TcpServer := mkServer {
  hostport_ : chars;
  sv_name_ : chars;
  threadPool_ : EventLoopThreadPool;
  sv_connectionCallback_ : option nat;
  sv_messageCallback_ : option nat;
  sv_writeCompleteCallback_ : option nat;
  threadInitCallback_ : option nat;
  sv_started_ : bool;
  nextConnId_ : Z;
  connections_ : gmap chars Z;
  objs : gmap Z (chars * nat)
}.

(** A connected socket: descriptor and socket, its own and the peer's address with the results of [getsockname] and
    [getpeername], the id of the channel made for it and that channel's callbacks. *)
Record accepted (CB S : Type) := mkAccepted {
  a_fd : Z; a_socket : S; a_local : sockaddr_in; a_peer : sockaddr_in; a_rl : Z; a_rp : Z; a_channel : nat; a_callbacks : CB * CB * CB * CB
}.
Arguments mkAccepted {CB S}.
Arguments a_fd {CB S}.
Arguments a_socket {CB S}.
Arguments a_local {CB S}.
Arguments a_peer {CB S}.
Arguments a_rl {CB S}.
Arguments a_rp {CB S}.
Arguments a_channel {CB S}.
Arguments a_callbacks {CB S}.

Section Server.
Context {CB S : Type} `{SK : SocketKernel S}.
Implicit Types s : TcpServer.

(* @src TcpServer.cpp | TcpServer::TcpServer(EventLoop* loop, | acceptor_->setNewConnectionCallback( *)
Definition newTcpServer (loop : nat) (listenAddr : sockaddr_in) (nameArg : chars) : outcome TcpServer :=
  hp ← addr_toIpPort listenAddr;
  Ok (mkServer hp nameArg (newThreadPool loop) (Some default_connection) (Some default_message) None None false 1 ∅ ∅).

Definition set_pool (p : EventLoopThreadPool) (started : bool) s : TcpServer :=
  mkServer (hostport_ s) (sv_name_ s) p (sv_connectionCallback_ s) (sv_messageCallback_ s) (sv_writeCompleteCallback_ s)
    (threadInitCallback_ s) started (nextConnId_ s) (connections_ s) (objs s).
Definition set_callbacks (ccb mcb wcb icb : option nat) s : TcpServer :=
  mkServer (hostport_ s) (sv_name_ s) (threadPool_ s) ccb mcb wcb icb (sv_started_ s) (nextConnId_ s) (connections_ s) (objs s).
Definition set_table (p : EventLoopThreadPool) (next : Z) (cs : gmap chars Z) (os : gmap Z (chars * nat)) s : TcpServer :=
  mkServer (hostport_ s) (sv_name_ s) p (sv_connectionCallback_ s) (sv_messageCallback_ s) (sv_writeCompleteCallback_ s)
    (threadInitCallback_ s) (sv_started_ s) next cs os.

(* @src TcpServer.cpp | void TcpServer::setConnectionCallback( *)
Definition server_setConnectionCallback (cb : option nat) s : TcpServer :=
  set_callbacks cb (sv_messageCallback_ s) (sv_writeCompleteCallback_ s) (threadInitCallback_ s) s.
(* @src TcpServer.cpp | void TcpServer::setMessageCallback( *)
Definition server_setMessageCallback (cb : option nat) s : TcpServer :=
  set_callbacks (sv_connectionCallback_ s) cb (sv_writeCompleteCallback_ s) (threadInitCallback_ s) s.
(* @src TcpServer.cpp | void TcpServer::setWriteCompleteCallback( *)
Definition server_setWriteCompleteCallback (cb : option nat) s : TcpServer :=
  set_callbacks (sv_connectionCallback_ s) (sv_messageCallback_ s) cb (threadInitCallback_ s) s.
(* @src TcpServer.cpp | void TcpServer::setThreadInitCallback( *)
Definition setThreadInitCallback (cb : option nat) s : TcpServer :=
  set_callbacks (sv_connectionCallback_ s) (sv_messageCallback_ s) (sv_writeCompleteCallback_ s) cb s.

(* @src TcpServer.cpp | void TcpServer::setThreadNum(int numThreads) *)
Definition setThreadNum (n : Z) s : outcome TcpServer :=
  assert_ (0 <=? n);;
  Ok (set_pool (pool_setThreadNum n (threadPool_ s)) (sv_started_ s) s).

(** [listening]: the acceptor is already listening. *)
(* @src TcpServer.cpp | void TcpServer::start() *)
Definition start (inBase : bool) (startLoop : nat → nat) (listening : bool) s :
    outcome (list (nat * server_functor) * TcpServer) :=
  s ← (if sv_started_ s then Ok s else
         '(_, p) ← pool_start inBase startLoop (if threadInitCallback_ s is Some _ then true else false) (threadPool_ s);
         Ok (set_pool p true s));
  Ok (if listening then [] else [(baseLoop_ (threadPool_ s), SListen)], s).

(** The name of the [id]-th connection: "%s:%d" in a 32-byte buffer. *)
Definition conn_name (name hostport : chars) (id : Z) : chars :=
  name ++ snprintf 32 (c_str hostport ++ $":" ++ dec id).

(* @src TcpServer.cpp | void TcpServer::newConnection(int sockfd, const InetAddress& peerAddr) *)
Definition newConnection (inBase : bool) (a : accepted CB S) s :
    outcome (list (nat * server_functor) * TcpConnection CB S * TcpServer) :=
  if negb inBase then Fault ExitFailure else
  '(ioLoop, p) ← getNextLoop inBase (threadPool_ s);
  let conn := nextConnId_ s in
  let connName := conn_name (sv_name_ s) (hostport_ s) conn in
  if conn =? INT_MAX then Fault Undefined else
  localAddr ← getLocalAddr (a_rl a) (a_local a);
  let '(rd, wr, cl, er) := a_callbacks a in
  c ← newTcpConnection ioLoop (a_channel a) connName (a_fd a) localAddr (a_peer a) (a_socket a) rd wr cl er;
  let s := set_table p (conn + 1) (<[connName := conn]> (connections_ s)) (<[conn := (connName, ioLoop)]> (objs s)) s in
  let c := prepare (sv_connectionCallback_ s) (sv_messageCallback_ s) (sv_writeCompleteCallback_ s) server_close c in
  Ok ([(ioLoop, SConnectEstablished conn)], c, s).

(* @src TcpServer.cpp | void TcpServer::removeConnectionInLoop(const TcpConnectionPtr& conn) *)
Definition removeConnectionInLoop (inBase : bool) (conn : Z) s : outcome (list (nat * server_functor) * TcpServer) :=
  if negb inBase then Fault ExitFailure else
  match objs s !! conn with
  | None => Fault Undefined
  | Some (name, ioLoop) =>
      let n := if connections_ s !! name is Some _ then 1%nat else 0%nat in
      let s := set_table (threadPool_ s) (nextConnId_ s) (delete name (connections_ s)) (objs s) s in
      assert_ (n =? 1)%nat;;
      Ok ([(ioLoop, SConnectDestroyed conn)], s)
  end.

(** The close callback of its connections: at once in the base loop's thread. *)
(* @src TcpServer.cpp | void TcpServer::removeConnection(const TcpConnectionPtr& conn) *)
Definition removeConnection (inBase : bool) (conn : Z) s : outcome (list (nat * server_functor) * TcpServer) :=
  if inBase then removeConnectionInLoop inBase conn s
  else Ok ([(baseLoop_ (threadPool_ s), SRemoveInLoop conn)], s).

(** The destructor: every connection still registered is torn down in its loop. *)
(* @src TcpServer.cpp | TcpServer::~TcpServer() *)
Definition server_destroy (inBase : bool) s : outcome (list (nat * server_functor)) :=
  if negb inBase then Fault ExitFailure else
  Ok (omap (fun '(_, conn) => (fun '(_, ioLoop) => (ioLoop, SConnectDestroyed conn)) <$> objs s !! conn)
        (map_to_list (connections_ s))).
End Server.

(** ** Descriptors running out *)

Section Emfile.
Context {CB T W K : Type} `{LS : LoopServices CB T W} `{AK : AcceptKernel K} `{AL : !AcceptLaws K}.

(** C17. When the process is out of descriptors, the acceptor still takes a waiting connection off the
    queue: with the spare descriptor [idlefd_] it accepts and closes one, and reserves the spare again;
    so a full table cannot keep the listening socket readable for ever. *)
Theorem emfile_drains_backlog (a : Acceptor CB K) (w : W) :
  inLoopThread w = true → 0 <= idlefd_ a → spare (ac_kernel a) = 0%nat → (0 < backlog (ac_kernel a))%nat →
  ∃ a', acceptor_handleRead a w = Ok (None, a') ∧ backlog (ac_kernel a) = S (backlog (ac_kernel a')) ∧
    spare (ac_kernel a') = 0%nat ∧ 0 <= idlefd_ a'.
Proof.
  intros Hin Hi Hs Hb. unfold acceptor_handleRead, assertInLoop. rewrite Hin. cbn [mbind outcome_bind].
  destruct (accept_full _ Hb Hs) as (k1 & -> & B1 & S1). cbn [accept mbind outcome_bind].
  change (accept (-1) EMFILE) with (Ok (-1, EMFILE)). cbn [mbind outcome_bind].
  change (0 <=? -1) with false. change (EMFILE =? EMFILE) with true. cbn iota.
  destruct (close_ok (idlefd_ a) k1 Hi) as [B2 S2].
  destruct (accept_ok (k_close (idlefd_ a) k1)) as (fd & e & k3 & -> & Hfd & B3 & S3); [lia|lia|].
  destruct (close_ok fd k3 Hfd) as [B4 S4].
  destruct (open_ok (k_close fd k3)) as (idle & k5 & -> & Hid & B5 & S5); [lia|].
  eexists. split; [done|]. cbn. lia.
Qed.
End Emfile.

(** A table of descriptors as two counters: the connections waiting and the free descriptors. *)
#[global] Instance counters_accept : AcceptKernel (nat * nat) := {|
  k_accept k := match k with
                | (0, _)%nat => (-1, EAGAIN, k)
                | (S b, 0)%nat => (-1, EMFILE, k)
                | (S b, S f) => (5, 0, (b, f))
                end;
  k_open k := match k with (b, S f) => (6, (b, f)) | (b, 0)%nat => (-1, k) end;
  k_close fd k := if 0 <=? fd then (k.1, S k.2) else k;
  backlog := fst;
  spare := snd
|}.
#[global] Instance counters_accept_laws : AcceptLaws (nat * nat).
Proof.
  split; cbn.
  - intros [[|b] [|f]] H1 H2; cbn in *; [lia..|]. exists 5, 0, (b, f). by split_and!.
  - intros [b f] H. cbn in *. subst b. by eexists.
  - intros [[|b] f] H1 H2; cbn in *; [lia|]. subst f. by eexists.
  - intros [b [|f]] H; cbn in *; [lia|]. exists 6, (b, f). by split_and!.
  - intros fd [b f] H. by rewrite (proj2 (Z.leb_le _ _)).
Qed.

Lemma emfile_drains_backlog_witness :
  ∃ a', acceptor_handleRead (T := nat) (mkAcceptor (newChannel (CB := nat) 0 0 3) true true 4 (2, 0)%nat) fresh_loop = Ok (None, a') ∧
    (1 = backlog (ac_kernel a'))%nat.
Proof.
  destruct (emfile_drains_backlog (T := nat) (mkAcceptor (newChannel (CB := nat) 0 0 3) true true 4 (2, 0)%nat) fresh_loop)
    as (a' & E & B & _); [done|done|done|cbn; lia|].
  exists a'. split; [exact E|]. by injection B.
Defined.

(** ** Round robin *)

(** The loops of [n] successive calls of [getNextLoop]. *)
Fixpoint next_loops (n : nat) (p : EventLoopThreadPool) : outcome (list nat * EventLoopThreadPool) :=
  match n with
  | O => Ok ([], p)
  | S n => '(l, p) ← getNextLoop true p; '(ls, p) ← next_loops n p; Ok (l :: ls, p)
  end.

Lemma getNextLoop_ok p :
  loops_ p ≠ [] → 0 <= next_ p < zlen (loops_ p) →
  ∃ l, loops_ p !! Z.to_nat (next_ p) = Some l ∧
    getNextLoop true p = Ok (l, mkPool (baseLoop_ p) (tp_started_ p) (numThread_ p) ((next_ p + 1) mod zlen (loops_ p)) (loops_ p)).
Proof.
  intros N H. unfold getNextLoop. cbn [negb]. destruct (lookup_lt_is_Some_2 (loops_ p) (Z.to_nat (next_ p))) as [l El].
  { unfold zlen in H. lia. }
  exists l. split; [done|]. destruct (loops_ p) as [|x r] eqn:E; [done|]. rewrite El. do 3 f_equal.
  destruct (zlen (x :: r) <=? next_ p + 1) eqn:Ec; bool_prop.
  - replace (next_ p + 1) with (zlen (x :: r)) by lia. by rewrite Z.mod_same by lia.
  - by rewrite Z.mod_small by lia.
Qed.

(** Connections are spread in turn: successive calls of [getNextLoop] return the pool's loops in order,
    starting at [next_] and wrapping around, without a fault. *)
Theorem round_robin n p :
  loops_ p ≠ [] → 0 <= next_ p < zlen (loops_ p) →
  ∃ ls p', next_loops n p = Ok (ls, p') ∧ length ls = n ∧
    ∀ i, (i < n)%nat → ls !! i = loops_ p !! Z.to_nat ((next_ p + Z.of_nat i) mod zlen (loops_ p)).
Proof.
  revert p; induction n as [|n IH]; intros p N H; [by exists [], p; split_and!; [..|lia]|].
  destruct (getNextLoop_ok p N H) as (l & El & E). cbn [next_loops]. rewrite E. cbn [mbind outcome_bind].
  set (p1 := mkPool _ _ _ _ _).
  destruct (IH p1) as (ls & p' & E2 & L2 & H2); [done|cbn; apply Z.mod_pos_bound; lia|].
  rewrite E2. cbn. exists (l :: ls), p'. split_and!; [done|cbn; congruence|].
  intros [|i] Hi.
  - by rewrite Z.add_0_r, Z.mod_small, El.
  - etrans; [apply (H2 i); lia|]. cbn [p1 next_ loops_]. rewrite Z.add_mod_idemp_l by lia. do 3 f_equal. lia.
Qed.

Lemma round_robin_witness :
  ∃ ls p', next_loops 5 (mkPool 0 true 3 1 [10; 11; 12]%nat) = Ok (ls, p') ∧ ls = [11; 12; 10; 11; 12]%nat ∧
    ls !! 4%nat = Some 12%nat.
Proof.
  destruct (round_robin 5 (mkPool 0 true 3 1 [10; 11; 12]%nat)) as (ls & p' & E & L & H); [done|by vm_compute|].
  exists ls, p'. split; [exact E|]. split; [vm_compute in E; by injection E as <- <-|]. apply (H 4%nat). lia.
Defined.

(** ** The connection table *)

(** Accepting a connection, and the close of an open one in the base loop. *)
Inductive server_event (CB S : Type) := EAccept (a : accepted CB S) | EClose (conn : Z).
Arguments EAccept {CB S}.
Arguments EClose {CB S}.

Definition server_step {CB S : Type} `{SocketKernel S} (e : server_event CB S) (so : TcpServer * list Z) : outcome (TcpServer * list Z) :=
  let '(s, open) := so in
  match e with
  | EAccept a => '(_, _, s') ← newConnection true a s; Ok (s', open ++ [nextConnId_ s])
  | EClose conn =>
      if decide (conn ∈ open)
      then '(_, s') ← removeConnection true conn s; Ok (s', base.filter (fun c => c ≠ conn) open)
      else Ok (s, open)
  end.

Section Table.
Context {CB S : Type} `{SK : SocketKernel S}.
Context (name hostport : chars) (Hh : (length (c_str hostport) <= 21)%nat).

Lemma conn_name_whole id : 0 <= id < 10 ^ 9 → conn_name name hostport id = name ++ c_str hostport ++ $":" ++ udec id.
Proof.
  intros H. unfold conn_name. rewrite dec_nonneg by lia. rewrite snprintf_short; [done|].
  pose proof (udec_length id 9 ltac:(done) ltac:(lia)). rewrite !length_app. cbn [length list_ascii_of_string]. lia.
Qed.

Lemma conn_name_inj a b : 0 <= a < 10 ^ 9 → 0 <= b < 10 ^ 9 → conn_name name hostport a = conn_name name hostport b → a = b.
Proof.
  intros Ha Hb. rewrite !conn_name_whole by done. intros E. apply app_inv_head, app_inv_head, app_inv_head in E.
  by apply udec_inj; [lia|lia|].
Qed.

(** The table holds exactly the open connections, each under its own name. *)
Record table_inv (s : TcpServer) (open : list Z) : Prop := {
  ti_name : sv_name_ s = name;
  ti_host : hostport_ s = hostport;
  ti_pool : loops_ (threadPool_ s) ≠ [] → 0 <= next_ (threadPool_ s) < zlen (loops_ (threadPool_ s));
  ti_next : 1 <= nextConnId_ s;
  ti_open c : c ∈ open → 1 <= c < nextConnId_ s;
  ti_objs c : c ∈ open → ∃ l, objs s !! c = Some (conn_name name hostport c, l);
  ti_table k c : connections_ s !! k = Some c ↔ c ∈ open ∧ k = conn_name name hostport c
}.

Lemma next_loop_ok s open :
  table_inv s open → ∃ l p, getNextLoop true (threadPool_ s) = Ok (l, p) ∧
    (loops_ p ≠ [] → 0 <= next_ p < zlen (loops_ p)).
Proof.
  intros I. destruct (decide (loops_ (threadPool_ s) = [])) as [E|N].
  - unfold getNextLoop. rewrite E. cbn. exists (baseLoop_ (threadPool_ s)), (threadPool_ s). split; [done|]. by rewrite E.
  - destruct (getNextLoop_ok _ N (ti_pool _ _ I N)) as (l & _ & E). eexists l, _. split; [exact E|]. cbn.
    intros _. apply Z.mod_pos_bound. pose proof (ti_pool _ _ I N). lia.
Qed.

Lemma accept_inv (a : accepted CB S) s open :
  table_inv s open → nextConnId_ s < 10 ^ 9 → 0 <= a_rl a →
  ∃ s', server_step (EAccept a) (s, open) = Ok (s', open ++ [nextConnId_ s]) ∧ table_inv s' (open ++ [nextConnId_ s]) ∧
    nextConnId_ s' = nextConnId_ s + 1.
Proof.
  intros I Hn Ha. destruct (next_loop_ok s open I) as (l & p & E & Hp). destruct I as [I1 I2 I3 I4 I5 I6 I7].
  unfold server_step, newConnection. cbn [negb]. rewrite E. cbn [mbind outcome_bind].
  rewrite (proj2 (Z.eqb_neq _ _)) by (unfold INT_MAX; lia). destruct (a_callbacks a) as [[[rd wr] cl] er].
  destruct newBuffer_ok as (b & Eb & _). unfold getLocalAddr, newTcpConnection. rewrite Eb, (proj2 (Z.ltb_ge _ _)) by done.
  cbn [mbind outcome_bind]. eexists. split; [done|]. split; [|done].
  rewrite I1, I2. split; cbn; try done.
  - lia.
  - intros c. rewrite elem_of_app, list_elem_of_singleton. intros [Hc| ->]; [apply I5 in Hc|]; lia.
  - intros c. rewrite elem_of_app, list_elem_of_singleton. intros [Hc| ->].
    + rewrite lookup_insert_ne by (apply I5 in Hc; lia). auto.
    + rewrite lookup_insert_eq. eauto.
  - intros k c. rewrite lookup_insert_Some, elem_of_app, list_elem_of_singleton, I7. split.
    + intros [[<- <-]|[_ [? ->]]]; auto.
    + intros [[Hc| ->] ->]; [right|by left]. split; [|done]. intros Ek. apply I5 in Hc as Hc'.
      apply conn_name_inj in Ek; lia.
Qed.

Lemma close_inv s open c :
  table_inv s open → nextConnId_ s <= 10 ^ 9 →
  ∃ s', server_step (EClose (CB := CB) c) (s, open) = Ok (s', base.filter (fun x => x ≠ c) open) ∧
    table_inv s' (base.filter (fun x => x ≠ c) open) ∧ nextConnId_ s' = nextConnId_ s.
Proof.
  intros I Hn. cbn [server_step]. destruct (decide (c ∈ open)) as [Hc|Hc]; cycle 1.
  { assert (base.filter (fun x => x ≠ c) open = open) as ->; [|by exists s].
    clear -Hc. induction open as [|x l IH]; [done|]. rewrite filter_cons_True by set_solver. rewrite IH; set_solver. }
  destruct I as [I1 I2 I3 I4 I5 I6 I7]. unfold removeConnection, removeConnectionInLoop. cbn [negb].
  destruct (I6 c Hc) as (l & ->). rewrite (proj2 (I7 _ c) (conj Hc eq_refl)). cbn. eexists. split; [done|]. split; [|done].
  split; cbn; try done.
  - intros x [_ Hx]%list_elem_of_filter. auto.
  - intros x [_ Hx]%list_elem_of_filter. auto.
  - intros k x. rewrite lookup_delete_Some, I7, list_elem_of_filter. split.
    + intros [Hk [Hx ->]]. split; [|done]. split; [|done]. by intros ->.
    + intros [[Hx1 Hx2] ->]. split; [|done]. intros Ek. apply conn_name_inj in Ek; [by subst|..].
      * apply I5 in Hc. lia.
      * apply I5 in Hx2. lia.
Qed.

(** [getsockname] works on an accepted socket. *)
Definition named (e : server_event CB S) : Prop := if e is EAccept a then 0 <= a_rl a else True.

Lemma server_run (es : list (server_event CB S)) s open :
  table_inv s open → nextConnId_ s + Z.of_nat (length es) <= 10 ^ 9 → Forall named es →
  ∃ s' open', foldM server_step es (s, open) = Ok (s', open') ∧ table_inv s' open' ∧ nextConnId_ s' <= 10 ^ 9.
Proof.
  revert s open; induction es as [|e es IH]; intros s open I Hn F; [exists s, open; split_and!; [done|done|cbn in Hn; lia]|].
  cbn [length] in Hn. inversion F; subst.
  destruct e as [a|c]; cbn [foldM].
  - destruct (accept_inv a s open I ltac:(lia) ltac:(done)) as (s1 & -> & I1 & N1). cbn [mbind outcome_bind]. apply IH; [done|lia|done].
  - destruct (close_inv s open c I ltac:(lia)) as (s1 & -> & I1 & N1). cbn [mbind outcome_bind]. apply IH; [done|lia|done].
Qed.

(** C18. The server's connection table: through any sequence of accepted and closed connections (fewer than
    a thousand million, on sockets [getsockname] works for), every connection has a name of its own, the table holds exactly the open
    connections, and removing a connection finds it there, so no assertion fails and no live connection
    is dropped from the table by another one's name. *)
Theorem connection_table (es : list (server_event CB S)) s :
  sv_name_ s = name → hostport_ s = hostport → connections_ s = ∅ → nextConnId_ s = 1 →
  (loops_ (threadPool_ s) ≠ [] → 0 <= next_ (threadPool_ s) < zlen (loops_ (threadPool_ s))) →
  Z.of_nat (length es) < 10 ^ 9 → Forall named es →
  ∃ s' open, foldM server_step es (s, []) = Ok (s', open) ∧
    (∀ k c, connections_ s' !! k = Some c ↔ c ∈ open ∧ k = conn_name name hostport c) ∧
    (∀ c d, c ∈ open → d ∈ open → conn_name name hostport c = conn_name name hostport d → c = d).
Proof.
  intros H1 H2 H3 H4 H5 H6 H7. destruct (server_run es s []) as (s' & open & E & I & Hn).
  - split; try done; [by rewrite H4|set_solver|set_solver|]. intros k c. rewrite H3, lookup_empty. set_solver.
  - rewrite H4. lia.
  - done.
  - exists s', open. split; [done|]. split; [apply (ti_table _ _ I)|].
    intros c d Hc Hd. apply (ti_open _ _ I) in Hc, Hd. apply conn_name_inj; lia.
Qed.
End Table.

(** ** The connection it makes *)

(** An accepted socket becomes a connection of the loop whose turn it is: connecting, under its table name, with
    the server's callbacks and [removeConnection] as its close callback, and well-formed in that loop, so
    that [connectEstablished], which is posted there, starts it ([connection_starts]). *)
Theorem accepted_connection {CB T W S : Type} `{LL : LoopLaws CB T W} `{SL : SocketLaws S}
    (a : accepted CB S) s io p ccb mcb (w : W) :
  getNextLoop true (threadPool_ s) = Ok (io, p) → nextConnId_ s < INT_MAX →
  sv_connectionCallback_ s = Some ccb → sv_messageCallback_ s = Some mcb →
  0 <= a_rl a → shut (a_socket a) = false → inLoopThread w = true → chan_ok (newChannel (a_channel a) io (a_fd a)) w →
  ∃ c s', newConnection true a s = Ok ([(io, SConnectEstablished (nextConnId_ s))], c, s') ∧
    conn_inv c w ∧ state_ c = KConnecting ∧ stream c = sent (a_socket a) ∧
    name_ c = conn_name (sv_name_ s) (hostport_ s) (nextConnId_ s) ∧ localAddress c = a_local a ∧ peerAddress c = a_peer a ∧
    connectionCallback_ c = Some ccb ∧ messageCallback_ c = Some mcb ∧ closeCallback_ c = Some server_close ∧
    writeCompleteCallback_ c = sv_writeCompleteCallback_ s ∧ highWaterMarkCallback_ c = None ∧
    connections_ s' = <[name_ c := nextConnId_ s]> (connections_ s).
Proof.
  intros E Hn Hc Hm Ha Hs Ht Hk. unfold newConnection. cbn [negb]. rewrite E. cbn [mbind outcome_bind].
  rewrite (proj2 (Z.eqb_neq _ _)) by lia. unfold getLocalAddr. rewrite (proj2 (Z.ltb_ge _ _)) by done. cbn [mbind outcome_bind].
  destruct (a_callbacks a) as [[[rd wr] cl] er].
  destruct (new_prepared io (a_channel a) (conn_name (sv_name_ s) (hostport_ s) (nextConnId_ s)) (a_fd a) (a_local a) (a_peer a)
    (a_socket a) rd wr cl er ccb mcb (sv_writeCompleteCallback_ s) server_close w Hs Ht Hk) as (c & -> & I & Ec & Sc & Hw & Nm & La & Pa).
  cbn [mbind outcome_bind sv_connectionCallback_ sv_messageCallback_ set_table]. rewrite Hc, Hm. eexists _, _. split; [reflexivity|].
  split_and!; try done. cbn. by rewrite Nm.
Qed.

Definition sample_server : TcpServer :=
  mkServer $"127.0.0.1:9" $"echo" (mkPool 0 true 2 0 [1; 2]%nat) (Some default_connection) (Some default_message) None None true 1 ∅ ∅.
Definition sample_accepted : accepted nat wire :=
  mkAccepted 7 conn_wire (InetAddress_port 9) (InetAddress_port 81) 0 0 5 (0, 1, 2, 3)%nat.

Lemma connection_table_witness :
  ∃ s' open, foldM server_step [EAccept sample_accepted; EAccept sample_accepted; EClose 1; EAccept sample_accepted] (sample_server, []) = Ok (s', open) ∧
    open = [2; 3] ∧ connections_ s' !! $"echo127.0.0.1:9:3" = Some 3.
Proof.
  destruct (connection_table $"echo" $"127.0.0.1:9" ltac:(vm_compute; lia) 
    [EAccept sample_accepted; EAccept sample_accepted; EClose 1; EAccept sample_accepted] sample_server)
    as (s' & open & E & H & _); [done|done|done|done|by vm_compute|by vm_compute|by repeat constructor|].
  exists s', open. split; [exact E|]. assert (open = [2; 3]) as -> by (vm_compute in E; by injection E as _ <-).
  split; [done|]. apply H. split; [set_solver|by vm_compute].
Defined.

(** The name buffer is too short for the largest ids: with a 21-character host and port, connection
    1000000000 gets the name of connection 100000000, whose entry in the table it would replace. *)
Theorem conn_name_collides :
  conn_name $"s" $"255.255.255.255:65535" 1000000000 = conn_name $"s" $"255.255.255.255:65535" 100000000.
Proof. by vm_compute. Qed.
