(* ===== verification/Reactor.v ===== *)
(** * Reactor: one loop, its server and all their connections

    Composes [EventLoop], [EPollPoller], [Channel], [Acceptor], [TcpServer] and [TcpConnection] into a running
    single-threaded server (a [TcpServer] whose thread pool is empty, so every connection lives in the base loop):
    the callbacks that the constructors bind to the channels, the functors they give to the loop, and the heap of
    channels the poller points into. A turn is [EventLoop.loop_turn] on these callbacks, nothing abstracted. *)

From S2P Require Import Prelude Buffer Channel Poller EventLoop Sockets TcpConnection ConnFrame TcpServer.

(** ** The descriptor table *)

(** Beside the counters of [AcceptKernel], which descriptors are open; and what the kernel made of an accepted
    connection: its socket, the addresses [getsockname] and [accept] give, the result of [getsockname]. *)
Class FdTable (D S : Type) `{AcceptKernel D} := {
  open_fds : D → gset Z;
  arrival : D → Z → S * sockaddr_in * sockaddr_in * Z
}.

(** A descriptor is handed out only while it is not open, and closing it is the only way to give it back. *)
Class FdLaws (D S : Type) `{AK : AcceptKernel D} `{SK : SocketKernel S} `{FT : !FdTable D S} := {
  accept_fd k fd e k' : k_accept k = (fd, e, k') →
    if 0 <=? fd then fd ∉ open_fds k ∧ open_fds k' = {[fd]} ∪ open_fds k else open_fds k' = open_fds k;
  open_fd k fd k' : k_open k = (fd, k') →
    if 0 <=? fd then fd ∉ open_fds k ∧ open_fds k' = {[fd]} ∪ open_fds k else open_fds k' = open_fds k;
  close_fd fd k : open_fds (k_close fd k) = open_fds k ∖ {[fd]};
  arrival_open k fd : let '(s, _, _, rl) := arrival k fd in shut s = false ∧ 0 <= rl
}.

(** ** State *)

(** The callbacks of the channels: [EventLoop::handleRead], [Acceptor::handleRead], the four of a connection. A
    connection is known by the address of its channel. *)
Inductive rcb := CbWakeup | CbAccept | CbRead (k : nat) | CbWrite (k : nat) | CbClose (k : nat) | CbError (k : nat).
(** The functors: those of a connection, those of the server. *)
Inductive rfn := TConn (k : nat) (f : conn_functor) | TServer (f : server_functor).
#[global] Instance rcb_eq_dec : EqDecision rcb.
Proof. solve_decision. Defined.

(** The address of connection number [conn], and back. The loop's and the acceptor's channels are at 0 and 1. *)
Definition key (conn : Z) : nat := S (Z.to_nat conn).
Definition number (k : nat) : Z := Z.of_nat k - 1.
Definition wakeup_key : nat := 0.
Definition accept_key : nat := 1.

Record reactor (D S : Type) := mkReactor {
  srv : TcpServer;
  lsn : Acceptor rcb D;
  conns : gmap nat (TcpConnection rcb S)
}.
Arguments mkReactor {D S}.
Arguments srv {D S}.
Arguments lsn {D S}.
Arguments conns {D S}.

Section Reactor.
Context {K E D S : Type} `{EK : EpollKernel K} `{EF : EventfdKernel E} `{AK : AcceptKernel D} `{SK : SocketKernel S} `{FT : !FdTable D S}.
Local Abbreviation L := (EventLoop rfn K E).
Local Abbreviation W := (World rcb rfn K E (reactor D S)).
Local Abbreviation conn := (TcpConnection rcb S).
(** What the user's callbacks do, by number; the result of [listen(2)]. *)
Context (acts : nat → conn → list uact) (listen_r : Z).
Implicit Types w : W.

Definition put_conn (k : nat) (c : conn) (l : L) (s : TcpServer) w : W :=
  mkWorld l (<[k := channel_ c]> (heap w)) (mkReactor s (lsn (app w)) (<[k := c]> (conns (app w)))).

(** A call on the connection at [k]. Its channel is the one in the heap; without it the pointer dangles. *)
Definition with_conn (k : nat) (op : conn → L * TcpServer → outcome (conn * (L * TcpServer))) w : outcome W :=
  match heap w !! k, conns (app w) !! k with
  | Some ch, Some c =>
      '(c, (l, s)) ← op (with_channel ch c) (wl w, srv (app w));
      Ok (put_conn k c l s w)
  | _, _ => Fault Undefined
  end.

(** What the server gives to [queueInLoop] of the only loop. *)
Definition queue_posts (posts : list (nat * server_functor)) (l : L) : outcome L :=
  foldM (fun p l => loop_queueInLoop (TServer p.2) l) posts l.

(** The close callback that the server gives its connections: [removeConnection]. *)
(* @src TcpServer.cpp | conn->setCloseCallback([this](auto&& PH1) { | }); *)
Definition server_owner (k cb : nat) (c : conn) (w : L * TcpServer) : outcome (L * TcpServer) :=
  '(posts, s) ← removeConnection (isInLoopThread w.1) (number k) w.2;
  l ← queue_posts posts w.1;
  Ok (l, s).
Definition user (k : nat) : nat → conn → L * TcpServer → outcome (conn * (L * TcpServer)) := calls (TConn k) acts.

(** The last reference to a connection is gone: [~TcpConnection], [~Channel] and [~Socket]. *)
(* @src TcpConnection.cpp | TcpConnection::~TcpConnection() *)
Definition destroy_conn (k : nat) w : outcome W :=
  match heap w !! k with
  | None => Fault Undefined
  | Some ch =>
      destroy_channel ch;;
      let a := lsn (app w) in
      Ok (mkWorld (wl w) (delete k (heap w))
            (mkReactor (srv (app w)) (with_kernel (idlefd_ a) (k_close (fd_ ch) (ac_kernel a)) a) (delete k (conns (app w)))))
  end.

(** [Acceptor::listen] on the channel in the heap. *)
(* @src TcpServer.cpp | loop_->runInLoop([capture0 = acceptor_.get()] | listen(); }); *)
Definition listen_acceptor w : outcome W :=
  match heap w !! accept_key with
  | None => Fault Undefined
  | Some ch =>
      let a := lsn (app w) in
      '(a, l) ← acceptor_listen listen_r (mkAcceptor ch (newConnectionCallback_ a) (listening_ a) (idlefd_ a) (ac_kernel a)) (wl w);
      Ok (mkWorld l (<[accept_key := acceptChannel_ a]> (heap w)) (mkReactor (srv (app w)) a (conns (app w))))
  end.

(** The functors the server posts. That of [connectDestroyed] holds the last reference to its connection. The code lets
    it go with the list of functors, at the end of [doPendingFunctors]; here the connection is gone at once, so that a
    later functor of the list that used it would be a fault. *)
(* @src TcpServer.cpp | ioLoop->queueInLoop([conn] { | }); *)
Definition run_server_functor (f : server_functor) w : outcome W :=
  match f with
  | SListen => listen_acceptor w
  | SConnectEstablished n => with_conn (key n) (connectEstablished (user (key n)) (key n)) w
  | SRemoveInLoop n =>
      '(posts, s) ← removeConnectionInLoop (isInLoopThread (wl w)) n (srv (app w));
      l ← queue_posts posts (wl w);
      Ok (mkWorld l (heap w) (mkReactor s (lsn (app w)) (conns (app w))))
  | SConnectDestroyed n => w ← with_conn (key n) (connnectDestroyed (user (key n))) w; destroy_conn (key n) w
  end.

Definition runT (t : rfn) w : outcome W :=
  match t with
  | TConn k f => with_conn k (run_conn_functor (TConn k) (user k) (server_owner k) f) w
  | TServer f => run_server_functor f w
  end.

(** The new-connection callback of the acceptor: [TcpServer::newConnection]. *)
(* @src TcpServer.cpp | ioLoop->runInLoop( | connectEstablished(); }); *)
Definition new_connection (fd : Z) w : outcome W :=
  let k := key (nextConnId_ (srv (app w))) in
  let '(s, local, peer, rl) := arrival (ac_kernel (lsn (app w))) fd in
  let a := mkAccepted fd s local peer rl 0 k (CbRead k, CbWrite k, CbClose k, CbError k) in
  '(posts, c, sv) ← newConnection (isInLoopThread (wl w)) a (srv (app w));
  foldM (fun p => runInLoop runT (TServer p.2)) posts (put_conn k c (wl w) sv w).

(** [Acceptor::handleRead]. *)
(* @src TcpServer.cpp | acceptor_->setNewConnectionCallback([this](auto&& PH1, auto&& PH2) { | }); *)
Definition on_accept w : outcome W :=
  '(fd, a) ← acceptor_handleRead (T := rfn) (lsn (app w)) (wl w);
  let w := mkWorld (wl w) (heap w) (mkReactor (srv (app w)) a (conns (app w))) in
  if fd is Some fd then new_connection fd w else Ok w.

(* @src TcpConnection.cpp | channel_->setReadCallback([this](const | channel_->setErrorCallback([this] | TcpConnection::TcpConnection *)
Definition runCB (cb : rcb) w : outcome W :=
  match cb with
  | CbWakeup => on_loop loop_handleRead w
  | CbAccept => on_accept w
  | CbRead k => with_conn k (handleRead (user k) (server_owner k)) w
  | CbWrite k => with_conn k (handleWrite (TConn k)) w
  | CbClose k => with_conn k (handleClose (user k) (server_owner k)) w
  | CbError k => with_conn k handleError w
  end.

(** [weak_ptr::lock] of a channel's tie. *)
Definition tied_alive (obj : nat) w : bool := bool_decide (is_Some (conns (app w) !! obj)).

Definition turn : wait_result → Z → W → outcome W := loop_turn runCB runT tied_alive.
Definition turns : list (wait_result * Z) → W → outcome (bool * W) := loop_turns runCB runT tied_alive.

(** A call that another thread [t], which holds a reference, makes on a connection between two turns: the same code, run
    by that thread. [send], [shutdown] and [forceClose] are the calls meant for other threads. The
    thread lets its reference go before the connection is destroyed; one it kept would only delay that. *)
Definition remote (a : uact) : bool := match a with USend _ | UShutdown | UForceClose => true | _ => false end.
Definition from_thread (t : Z) (k : nat) (a : uact) w : outcome W :=
  w' ← with_conn k (run_uact (TConn k) a) (upd_loop (run_by t) w);
  Ok (upd_loop (run_by (runner_ (wl w))) w').

(** A program that makes a loop and a server with its callbacks and starts it, in one thread. The arguments are the
    results of the system calls. *)
Definition boot (tid epollfd evfd sockfd bind_r : Z) (k : K) (e : E) (d : D) (addr : sockaddr_in) (name : chars)
    (ccb mcb : nat) (wcb : option nat) : outcome W :=
  '(wch, l) ← newEventLoop 0 wakeup_key tid epollfd evfd k e None CbWakeup;
  s ← newTcpServer 0 addr name;
  a ← newAcceptor 0 accept_key sockfd bind_r CbAccept d;
  let a := setNewConnectionCallback true a in
  let s := server_setWriteCompleteCallback wcb (server_setMessageCallback (Some mcb) (server_setConnectionCallback (Some ccb) s)) in
  '(posts, s) ← start (isInLoopThread l) (fun i => i) (listening a) s;
  foldM (fun p => runInLoop runT (TServer p.2)) posts
    (mkWorld l (<[accept_key := acceptChannel_ a]> {[wakeup_key := wch]}) (mkReactor s a ∅)).
End Reactor.

(** ** A server on model kernels *)

(** A process's table: the open descriptors, how many more it may have, the sockets that wait to be accepted, and the one
    accepted last. A new descriptor is the one after the largest. *)
Record table := mkTable { t_open : gset nat; t_spare : nat; t_waiting : list wire; t_last : wire }.
Definition t_fresh (t : table) : nat := S (set_fold Nat.max 0%nat (t_open t)).
Definition t_take (ws : list wire) (last : wire) (n : nat) (t : table) : Z * table :=
  (Z.of_nat (t_fresh t), mkTable ({[t_fresh t]} ∪ t_open t) n ws last).

#[global] Instance table_accept : AcceptKernel table := {|
  k_accept t := match t_waiting t, t_spare t with
                | [], _ => (-1, EAGAIN, t)
                | _, 0%nat => (-1, EMFILE, t)
                | s :: ws, S n => let '(fd, t) := t_take ws s n t in (fd, 0, t)
                end;
  k_open t := match t_spare t with 0%nat => (-1, t) | S n => t_take (t_waiting t) (t_last t) n t end;
  k_close fd t := if 0 <=? fd then mkTable (t_open t ∖ {[Z.to_nat fd]}) (S (t_spare t)) (t_waiting t) (t_last t) else t;
  backlog t := length (t_waiting t);
  spare := t_spare
|}.
#[global] Instance table_fds : FdTable table wire := {|
  open_fds t := set_map Z.of_nat (t_open t);
  arrival t fd := (mkWire (w_sent (t_last t)) false (w_room (t_last t)) (w_in (t_last t)), InetAddress_port 9, InetAddress_port 81, 0)
|}.

Lemma t_fresh_new t : t_fresh t ∉ t_open t.
Proof.
  unfold t_fresh. enough (∀ n, n ∈ t_open t → (n <= set_fold Nat.max 0 (t_open t))%nat) as H by (intros N; apply H in N; lia).
  generalize (t_open t). intros X. apply (set_fold_ind_L (λ r X, ∀ n, n ∈ X → (n <= r)%nat)); [set_solver|].
  intros x Y r _ IH n. rewrite elem_of_union, elem_of_singleton. intros [->|H]; [lia|]. apply IH in H. lia.
Qed.

#[global] Instance table_accept_laws : AcceptLaws table.
Proof.
  split.
  - intros t B Sp. cbn in *. destruct (t_waiting t) as [|s ws]; [cbn in B; lia|]. destruct (t_spare t) as [|n]; [lia|].
    eexists _, _, _. split; [reflexivity|]. split_and!; [lia|done|done].
  - intros t B. cbn in *. destruct (t_waiting t) eqn:Ew; [|done]. exists t. by rewrite Ew.
  - intros t B Sp. cbn in *. rewrite Sp. destruct (t_waiting t) eqn:Ew; [cbn in B; lia|]. exists t. by rewrite Ew.
  - intros t Sp. cbn in *. destruct (t_spare t) as [|n]; [lia|]. eexists _, _. split; [reflexivity|]. split_and!; [lia|done|done].
  - intros fd t H. cbn. by rewrite (proj2 (Z.leb_le _ _) H).
Qed.

Lemma table_take (ws : list wire) last n (t : table) :
  Z.of_nat (t_fresh t) ∉ open_fds t ∧ open_fds (t_take ws last n t).2 = {[Z.of_nat (t_fresh t)]} ∪ open_fds t.
Proof. cbn. split; [|set_solver]. pose proof (t_fresh_new t). set_unfold. naive_solver. Qed.

#[global] Instance table_fd_laws : FdLaws table wire.
Proof.
  split.
  - intros t fd e t'. cbn [k_accept table_accept]. destruct (t_waiting t) as [|s ws]; [by intros [= <- <- <-]|].
    destruct (t_spare t) as [|n]; [by intros [= <- <- <-]|]. pose proof (table_take ws s n t) as H. unfold t_take in *.
    intros [= <- <- <-]. rewrite (proj2 (Z.leb_le _ _)) by lia. exact H.
  - intros t fd t'. cbn [k_open table_accept]. destruct (t_spare t) as [|n]; [by intros [= <- <-]|].
    pose proof (table_take (t_waiting t) (t_last t) n t) as H. unfold t_take in *.
    intros [= <- <-]. rewrite (proj2 (Z.leb_le _ _)) by lia. exact H.
  - intros fd t. cbn. destruct (0 <=? fd) eqn:Ef; bool_prop; cbn.
    + set_unfold. intros x. split; [intros (y & -> & H1 & H2); split; [by exists y|lia]|].
      intros [(y & -> & H1) H2]. exists y. split_and!; [done|done|lia].
    + set_unfold. intros x. split; [|naive_solver]. intros (y & -> & H). split; [by exists y|lia].
  - intros t fd. cbn. by split.
Qed.

(** The echo server of two connections: what the peers send, how the kernel takes the replies. *)
Definition echo (k : nat) (c : TcpConnection rcb wire) : list uact :=
  match k with 1%nat => [USend (take 4096 (content (inputBuffer_ c))); URetrieve 4096] | _ => [] end.
Definition sample_table : table :=
  mkTable (list_to_set (seq 0 6)) 10 [mkWire [] false [2; - EWOULDBLOCK; 100] [$"hello"; []]; mkWire [] false [100] [$"bye"; []]] conn_wire.
Definition sample_boot : outcome (World rcb rfn (gmap Z (Z * nat)) N (reactor table wire)) :=
  boot echo 0 1 3 4 5 0 ∅ 0%N sample_table (InetAddress_port 9) $"echo" 0 1 None.
