(* ===== verification/ReactorSafe.v ===== *)
(** * ReactorSafe: the running server keeps its promises

    The invariant of a [Reactor] world and its preservation by every callback and functor, from which the claims
    about turns of the loop follow: the poller, the heap, the descriptor table, the server's connection table and the
    queue of functors always agree, however the connections come, talk and go. *)

From S2P Require Import Prelude Buffer Channel Poller EventLoop Sockets TcpConnection ConnFrame TcpServer Reactor.

(** ** Invariant *)

(** A callback may end in two exceptions: a buffer that cannot grow, and the cleared callback of [handleWrite]'s
    functor. *)
Definition fine {A : Type} (P : A → Prop) (m : outcome A) : Prop :=
  m = Fault (Throw LengthError) ∨ m = Fault (Throw BadFunctionCall) ∨ ∃ a, m = Ok a ∧ P a.

Lemma fine_bind {A B : Type} (P : A → Prop) (Q : B → Prop) m k :
  fine P m → (∀ a, P a → fine Q (k a)) → fine Q (x ← m; k x).
Proof. intros [->|[->|(a & -> & H)]] Hk; [by left|by right; left|by apply Hk]. Qed.

Lemma fine_mono {A : Type} (P Q : A → Prop) m : (∀ a, P a → Q a) → fine P m → fine Q m.
Proof. intros H [?|[?|(a & ? & ?)]]; [by left|by right; left|]. right; right. exists a. auto. Qed.

Lemma fine_ok {A : Type} (P : A → Prop) a : P a → fine P (Ok a).
Proof. right; right. by exists a. Qed.

Lemma key_number k : (1 <= k)%nat → key (number k) = k.
Proof. unfold key, number. lia. Qed.
Lemma number_key n : 0 <= n → number (key n) = n.
Proof. unfold key, number. lia. Qed.

(** Which connection a functor is about, and the last functor of a connection. *)
Definition about (t : rfn) : option nat :=
  match t with
  | TConn k _ => Some k
  | TServer (SConnectDestroyed n) => Some (key n)
  | _ => None
  end.
Definition gone (k : nat) : rfn := TServer (SConnectDestroyed (number k)).
Definition waiting (k : nat) (q : list rfn) : list rfn := base.filter (fun t => about t = Some k) q.

Lemma waiting_app k p q : waiting k (p ++ q) = waiting k p ++ waiting k q.
Proof. apply filter_app. Qed.
Lemma waiting_all k q : Forall (fun t => about t = Some k) q → waiting k q = q.
Proof. induction 1 as [|t q Ht _ IH]; [done|]. unfold waiting. rewrite filter_cons_True by done. f_equal. exact IH. Qed.
Lemma waiting_none j k q : j ≠ k → Forall (fun t => about t = Some k) q → waiting j q = [].
Proof. intros N. induction 1 as [|t q Ht _ IH]; [done|]. unfold waiting. rewrite filter_cons_False by (rewrite Ht; congruence). exact IH. Qed.

Section Safe.
Context {K E D S : Type} `{EK : EpollKernel K} `{EL : !EpollLaws K} `{EF : EventfdKernel E} `{ELw : !EventfdLaws E}.
Context `{AK : AcceptKernel D} `{AL : !AcceptLaws D} `{SK : SocketKernel S} `{SL : !SocketLaws S} `{FT : !FdTable D S} `{FL : !FdLaws D S}.
Local Abbreviation L := (EventLoop rfn K E).
Local Abbreviation W := (World rcb rfn K E (reactor D S)).
Local Abbreviation conn := (TcpConnection rcb S).
Context (acts : nat → conn → list uact) (listen_r : Z) (most : nat).
Context (user_fits : ∀ k c, Forall act_fits (acts k c) ∧ (length (acts k c) <= most)%nat).
Context (name host : chars).
Implicit Types (w : W) (c : conn) (ch : Channel rcb) (l : L) (s : TcpServer).

(** A connection's own part of [conn_inv]. *)
Record conn_core c : Prop := {
  cc_in : wf (inputBuffer_ c); cc_out : wf (outputBuffer_ c); cc_state : state_inv c; cc_set : callbacks_set c
}.

Lemma conn_inv_core c l s : conn_inv c (l, s) ↔ isInLoopThread l = true ∧ loop_chan_ok (channel_ c) l ∧ conn_core c.
Proof. split; [by intros []; split_and!|]. intros (? & ? & []). by split. Qed.

(** What dispatch reads of a connection's channel. *)
Definition bound (k : nat) ch : Prop :=
  tie_ ch = Some k ∧ tied_ ch = true ∧ readCallback_ ch = Some (CbRead k) ∧ writeCallback_ ch = Some (CbWrite k) ∧
  Channel.closeCallback_ ch = Some (CbClose k) ∧ errorCallback_ ch = Some (CbError k).

(** A connection in the heap is open and watched, or closed and out of the kernel's sight. *)
Record conn_ok (k : nat) ch c : Prop := {
  co_core : conn_core (with_channel ch c);
  co_bound : bound k ch;
  co_state : (live c ∧ reads ch) ∨ (state_ c = KDisconnected ∧ index_ ch = KDeleted)
}.

Definition conn_at (k : nat) (o : option (Channel rcb)) (p : option conn) : Prop :=
  match o, p with Some ch, Some c => conn_ok k ch c | None, None => True | _, _ => False end.

(** The channels of the loop and of the acceptor. *)
Definition plain (cb : rcb) ch : Prop :=
  tied_ ch = false ∧ readCallback_ ch = Some cb ∧ writeCallback_ ch = None ∧ Channel.closeCallback_ ch = None ∧ errorCallback_ ch = None.

(** A functor that [c] at [k] may find: a message memory can hold; [shutdownInLoop] only after [shutdown]. *)
Definition waits (k : nat) c (t : rfn) : Prop :=
  ∃ f, t = TConn k f ∧ op_fits (OFunctor f) ∧ (f = FShutdownInLoop → state_ c ≠ KConnected).

(** The functors waiting for a connection: none without it; its own while it is open; and once it is closed, last, the
    one that destroys it. *)
Definition queue_ok (k : nat) (p : option conn) (q : list rfn) : Prop :=
  match p with
  | None => q = []
  | Some c => if decide (state_ c = KDisconnected) then ∃ a, q = a ++ [gone k] ∧ Forall (waits k c) a
              else Forall (waits k c) q
  end.

(** The server's table lists the open connections. *)
Record srv_inv s (cs : gmap nat conn) (self : nat) : Prop := {
  sv_ccb : is_Some (sv_connectionCallback_ s);
  sv_mcb : is_Some (sv_messageCallback_ s);
  sv_loops : loops_ (threadPool_ s) = [];
  sv_base : baseLoop_ (threadPool_ s) = self;
  sv_next : nextConnId_ s <= 10 ^ 9;
  sv_table : ∃ open, table_inv name host s open ∧ ∀ n, n ∈ open ↔ 1 <= n ∧ ∃ c, cs !! key n = Some c ∧ live c
}.

(** The descriptors of the channels are open and none is the acceptor's spare. *)
Definition fds_ok (h : gmap nat (Channel rcb)) (a : Acceptor rcb D) : Prop :=
  (∀ k ch, h !! k = Some ch → 0 <= fd_ ch ∧ fd_ ch ∈ open_fds (ac_kernel a) ∧ fd_ ch ≠ idlefd_ a) ∧
  (0 <= idlefd_ a → idlefd_ a ∈ open_fds (ac_kernel a)).

(** [hand]: the channel being dispatched; [rest]: the functors taken from the queue and not yet run. *)
Record rinv (hand : option nat) (rest : list rfn) w : Prop := {
  ri_thread : isInLoopThread (wl w) = true;
  ri_reg : reg_inv (mkRegistry (heap w) (poller_ (wl w)));
  ri_self k ch : heap w !! k = Some ch → loop_ ch = self_ (wl w);
  ri_wakeup : ∃ ch, heap w !! wakeup_key = Some ch ∧ plain CbWakeup ch;
  ri_accept : ∃ ch, heap w !! accept_key = Some ch ∧ plain CbAccept ch;
  ri_conn k : (2 <= k)%nat → conn_at k (heap w !! k) (conns (app w) !! k);
  ri_small k : (k < 2)%nat → conns (app w) !! k = None;
  ri_new k : (key (nextConnId_ (srv (app w))) <= k)%nat → heap w !! k = None;
  ri_hand k ch : heap w !! k = Some ch → eventHandling_ ch = bool_decide (hand = Some k);
  ri_fds : fds_ok (heap w) (lsn (app w));
  ri_cb : newConnectionCallback_ (lsn (app w)) = true;
  ri_srv : srv_inv (srv (app w)) (conns (app w)) (self_ (wl w));
  ri_queue k : queue_ok k (conns (app w) !! k) (waiting k (rest ++ pendingFunctors_ (wl w)));
  ri_about : Forall (fun t => is_Some (about t)) (rest ++ pendingFunctors_ (wl w))
}.

(** From [w] to [w']: connections kept or new, streams extended. *)
Definition grows w w' : Prop :=
  nextConnId_ (srv (app w)) <= nextConnId_ (srv (app w')) ∧
  ∀ k c', conns (app w') !! k = Some c' →
    (∃ c, conns (app w) !! k = Some c ∧ (rank (state_ c) <= rank (state_ c'))%nat ∧ stream c `prefix_of` stream c') ∨
    (key (nextConnId_ (srv (app w))) <= k)%nat.

Lemma grows_refl w : grows w w.
Proof. split; [done|]. intros k c H. left. by exists c. Qed.

Lemma grows_trans w1 w2 w3 : grows w1 w2 → grows w2 w3 → grows w1 w3.
Proof.
  intros [N1 G1] [N2 G2]. split; [lia|]. intros k c3 H3. destruct (G2 k c3 H3) as [(c2 & H2 & R2 & P2)|H].
  - destruct (G1 k c2 H2) as [(c1 & H1 & R1 & P1)|H]; [left|by right]. exists c1. split_and!; [done|lia|by etrans].
  - right. unfold key in *. lia.
Qed.

(** One callback or functor of connection [k]: the others are untouched and at most [n] functors are queued. *)
Record touches (k n : nat) w w' : Prop := {
  to_others j : j ≠ k → heap w' !! j = heap w !! j ∧ conns (app w') !! j = conns (app w) !! j;
  to_chan ch : heap w !! k = Some ch → ∃ ch', heap w' !! k = Some ch' ∧ revents_ ch' = revents_ ch;
  to_loop : grew n (fun _ => True) (wl w) (wl w');
  to_grows : grows w w';
  to_next : k ≠ key (nextConnId_ (srv (app w))) → nextConnId_ (srv (app w')) = nextConnId_ (srv (app w))
}.

Lemma touches_refl k n w : touches k n w w.
Proof.
  split; [done| |apply grew_refl|apply grows_refl|done]. intros ch H. by exists ch.
Qed.

Lemma touches_trans k n m w1 w2 w3 : touches k n w1 w2 → touches k m w2 w3 → touches k (n + m) w1 w3.
Proof.
  intros [A1 A2 A3 A4 A5] [B1 B2 B3 B4 B5]. split; [| |by eapply grew_trans|by eapply grows_trans|].
  - intros j N. destruct (B1 j N) as [-> ->]. by apply A1.
  - intros ch H. destruct (A2 ch H) as (d & H2 & <-). destruct (B2 _ H2) as (d' & H3 & <-). by exists d'.
  - intros Nk. specialize (A5 Nk). rewrite B5 by congruence. done.
Qed.

Lemma touches_mono k n m w w' : (n <= m)%nat → touches k n w w' → touches k m w w'.
Proof. intros N H. replace m with (n + (m - n))%nat by lia. eapply touches_trans; [exact H|apply touches_refl]. Qed.

(** The queue of a connection that is about nothing else. *)
Lemma own_about k q : Forall (own (TConn k)) q → Forall (fun t => about t = Some k) q.
Proof. intros H. eapply Forall_impl; [exact H|]. by intros t (f & _ & ->). Qed.

Lemma own_waits k c q : Forall (own (TConn k)) q → Forall (waits k c) q.
Proof. intros H. eapply Forall_impl; [exact H|]. intros t (f & Lf & ->). exists f. by destruct f. Qed.

(** States only advance, so a functor that may be found stays one. *)
Lemma waits_later k c c' q :
  live c ∨ state_ c = KDisconnected → (rank (state_ c) <= rank (state_ c'))%nat → Forall (waits k c) q → Forall (waits k c') q.
Proof.
  intros Ud Rk H. eapply Forall_impl; [exact H|]. intros t (f & -> & Ff & Fs). exists f. split_and!; [done|done|].
  intros Ef E'. specialize (Fs Ef). rewrite E' in Rk. destruct Ud as [[X|X]|X]; rewrite X in *; cbn in Rk; [done|lia|lia].
Qed.

Lemma can_queue_less (n m : nat) l : (m <= n)%nat → loop_can_queue n l → loop_can_queue m l.
Proof. intros N [?|?]; [by left|right; lia]. Qed.

(** ** The server's table *)

Context (Hh : (length (c_str host) <= 21)%nat).

Lemma srv_same s cs self k c c' :
  srv_inv s cs self → cs !! k = Some c → (live c ↔ live c') → srv_inv s (<[k := c']> cs) self.
Proof.
  intros [A1 A2 A3 A4 A5 (open & T & O)] H Lv. split; try done. exists open. split; [done|]. intros n. rewrite O.
  split; (intros [N (d & Hd & Ld)]; split; [done|]).
  - destruct (decide (key n = k)) as [<-|Ne]; [|exists d; by rewrite lookup_insert_ne].
    exists c'. rewrite lookup_insert_eq. split; [done|]. apply Lv. congruence.
  - destruct (decide (key n = k)) as [<-|Ne]; [|exists d; by rewrite lookup_insert_ne in Hd].
    exists c. split; [done|]. rewrite lookup_insert_eq in Hd. apply Lv. congruence.
Qed.

Lemma srv_close s cs self k c c' :
  srv_inv s cs self → (2 <= k)%nat → cs !! k = Some c → live c → state_ c' = KDisconnected →
  ∃ io s', removeConnection true (number k) s = Ok ([(io, SConnectDestroyed (number k))], s') ∧
    srv_inv s' (<[k := c']> cs) self ∧ nextConnId_ s' = nextConnId_ s.
Proof.
  intros [A1 A2 A3 A4 A5 (open & T & O)] Hk H Lv Dn. assert (Ek : key (number k) = k) by (apply key_number; lia).
  assert (Hin : number k ∈ open) by (apply O; split; [unfold number; lia|]; exists c; by rewrite Ek).
  destruct (close_inv (CB := rcb) (S := S) name host Hh s open (number k) T ltac:(lia)) as (s' & R & T' & N').
  cbn [server_step] in R. rewrite decide_True in R by done.
  unfold removeConnection, removeConnectionInLoop in *. cbn [negb] in *.
  destruct (objs s !! number k) as [[nm io]|]; [|done]. destruct (assert_ _); [|done]. cbn in R. injection R as <-.
  eexists io, _. split; [reflexivity|]. split; [|done]. split; try done.
  eexists. split; [exact T'|]. intros n. rewrite list_elem_of_filter, O. split.
  - intros (Ne & N & d & Hd & Ld). split; [done|]. exists d. split; [|done]. rewrite lookup_insert_ne; [done|].
    intros Ekn. apply Ne. rewrite Ekn. apply symmetry, number_key. lia.
  - intros (N & d & Hd & Ld). destruct (decide (key n = k)) as [Ekn|Ne].
    + rewrite Ekn, lookup_insert_eq in Hd. injection Hd as <-. destruct Ld; congruence.
    + rewrite lookup_insert_ne in Hd by done. split_and!; [|done|by exists d]. intros ->. by apply Ne.
Qed.

Lemma srv_gone s cs self k c : srv_inv s cs self → cs !! k = Some c → ¬ live c → srv_inv s (delete k cs) self.
Proof.
  intros [A1 A2 A3 A4 A5 (open & T & O)] H NL. split; try done. exists open. split; [done|]. intros n. rewrite O.
  split; (intros [N (d & Hd & Ld)]; split; [done|]; exists d; split; [|done]).
  - rewrite lookup_delete_ne; [done|]. intros ->. congruence.
  - by apply lookup_delete_Some in Hd as [_ ?].
Qed.

(** ** One connection changes *)

Lemma bound_same k ch i e : bound k ch → bound k (set_index i (with_events e ch)).
Proof. done. Qed.

(** Connection [k] put back after an operation that queued [fs] on top of the loop [l]. *)
Lemma rinv_put hand rest k ch c c' l' s' p' e' fs w :
  rinv hand rest w → (2 <= k)%nat → heap w !! k = Some ch → conns (app w) !! k = Some c →
  l' = set_pending (pendingFunctors_ (wl w) ++ fs) (set_wakeupFd e' (set_poller p' (wl w))) →
  frame (fd_ ch) (poller_ (wl w)) p' → registered (channel_ c') p' →
  (∃ i e, channel_ c' = set_index i (with_events e ch)) → conn_ok k (channel_ c') c' →
  Forall (fun t => about t = Some k) fs → queue_ok k (Some c') (waiting k (rest ++ pendingFunctors_ (wl w)) ++ fs) →
  srv_inv s' (<[k := c']> (conns (app w))) (self_ (wl w)) → nextConnId_ s' = nextConnId_ (srv (app w)) →
  rinv hand rest (put_conn k c' l' s' w).
Proof.
  intros [R1 R2 R3 R4 R5 R6 R7 R8 R9 [R10 R11] R12 R13 R14 R15] Hk H C -> F Rg (i & e & Ch) O Fs Q Sv N.
  assert (Look : ∀ j d (P : Channel rcb → Prop), <[k := channel_ c']> (heap w) !! j = Some d →
    (j = k → P (set_index i (with_events e ch))) → (heap w !! j = Some d → P d) → P d).
  { intros j d P Hd P1 P2. destruct (decide (j = k)) as [->|Nj].
    - rewrite lookup_insert_eq in Hd. injection Hd as <-. rewrite Ch. auto.
    - rewrite lookup_insert_ne in Hd by done. auto. }
  split; cbn; try done.
  - eapply (reg_inv_replace (mkRegistry (heap w) (poller_ (wl w)))); [done|exact H|by rewrite Ch|by rewrite Ch|done|done].
  - intros j d Hd. apply (Look j d (fun d => loop_ d = self_ (wl w))); [done|intros _; by apply (R3 k ch)|apply R3].
  - destruct R4 as (d & Hd & P). exists d. rewrite lookup_insert_ne; [done|unfold wakeup_key; lia].
  - destruct R5 as (d & Hd & P). exists d. rewrite lookup_insert_ne; [done|unfold accept_key; lia].
  - intros j Hj. destruct (decide (j = k)) as [->|Nj]; [by rewrite !lookup_insert_eq|]. rewrite !lookup_insert_ne by done. by apply R6.
  - intros j Hj. rewrite lookup_insert_ne by lia. by apply R7.
  - intros j Hj. rewrite N in Hj. destruct (decide (j = k)) as [->|Nj]; [by rewrite R8 in H|].
    rewrite lookup_insert_ne by done. by apply R8.
  - intros j d Hd. apply (Look j d (fun d => eventHandling_ d = bool_decide (hand = Some j))); [done|intros ->; exact (R9 k ch H)|apply R9].
  - split; [|done]. intros j d Hd. apply (Look j d (fun d => 0 <= fd_ d ∧ fd_ d ∈ _ ∧ fd_ d ≠ _)); [done|intros _; by apply (R10 k ch)|apply R10].
  - intros j. rewrite app_assoc, waiting_app. destruct (decide (j = k)) as [->|Nj].
    + rewrite lookup_insert_eq, (waiting_all k fs) by done. exact Q.
    + rewrite lookup_insert_ne, (waiting_none j k fs), app_nil_r by done. apply R14.
  - rewrite app_assoc. apply Forall_app. split; [done|]. eapply Forall_impl; [exact Fs|]. intros t ->. by eexists.
Qed.

Lemma with_channel_id c : with_channel (channel_ c) c = c.
Proof. by destruct c. Qed.

(** The connection in the table, with its channel from the heap. *)
Lemma rinv_conn hand rest k c w :
  rinv hand rest w → conns (app w) !! k = Some c →
  (2 <= k)%nat ∧ ∃ ch, heap w !! k = Some ch ∧ conn_ok k ch c ∧ conn_inv (with_channel ch c) (wl w, srv (app w)).
Proof.
  intros R C. assert (Hk : (2 <= k)%nat). { destruct (decide (k < 2)%nat) as [N|N]; [|lia]. by rewrite (ri_small _ _ _ R k N) in C. }
  split; [done|]. pose proof (ri_conn _ _ _ R k Hk) as O. rewrite C in O. unfold conn_at in O.
  destruct (heap w !! k) as [ch|] eqn:H; [|done]. exists ch. split_and!; [done|done|].
  apply conn_inv_core. split_and!; [apply R| |by apply O]. split; [by apply (ri_self _ _ _ R k)|exact (proj2 (proj1 (ri_reg _ _ _ R) k ch H))].
Qed.

(** What is known when the operation of one connection has been put back. *)
Definition after (k n j : nat) (hand : option nat) (rest : list rfn) w w' : Prop :=
  rinv hand rest w' ∧ touches k n w w' ∧ loop_can_queue j (wl w').

Lemma put_touches k n ch c c' l' s' w :
  heap w !! k = Some ch → conns (app w) !! k = Some c → (∃ i e, channel_ c' = set_index i (with_events e ch)) →
  grew n (fun _ => True) (wl w) l' → nextConnId_ s' = nextConnId_ (srv (app w)) →
  (rank (state_ c) <= rank (state_ c'))%nat → stream c `prefix_of` stream c' → touches k n w (put_conn k c' l' s' w).
Proof.
  intros H C (i & e & Ch) G N Rk Pf. split; cbn; [| |done| |done].
  - intros j Nj. by rewrite !lookup_insert_ne.
  - intros d Hd. exists (channel_ c'). rewrite lookup_insert_eq, Ch. by simplify_eq.
  - split; cbn; [by rewrite N|]. intros j d Hd. left. destruct (decide (j = k)) as [->|Nj].
    + rewrite lookup_insert_eq in Hd. injection Hd as <-. by exists c.
    + rewrite lookup_insert_ne in Hd by done. by exists d.
Qed.

Lemma grew_any n (P : rfn → Prop) l l' : grew n P l l' → grew n (fun _ => True) l l'.
Proof. intros (p & e & fs & H1 & H2 & H3 & H4). exists p, e, fs. split_and!; try done. by eapply Forall_impl. Qed.

(** An operation that stays within the guarantee keeps a live connection live and the world well-formed. *)
Lemma live_step n j hand rest k ch c w (op : conn → L * TcpServer → outcome (conn * (L * TcpServer))) :
  rinv hand rest w → heap w !! k = Some ch → conns (app w) !! k = Some c → live c →
  ends j (fun c' _ => ∃ ms, moved ms (with_channel ch c) c') (op (with_channel ch c) (wl w, srv (app w))) →
  stays (loop_guar (TConn k)) n (with_channel ch c) (wl w, srv (app w)) (op (with_channel ch c) (wl w, srv (app w))) →
  fine (fun w' => after k n j hand rest w w' ∧ ∃ c', conns (app w') !! k = Some c' ∧ live c') (with_conn k op w).
Proof.
  intros R H C Lv En St. destruct (rinv_conn _ _ _ _ _ R C) as (Hk & ch' & H' & O & I). rewrite H in H'. injection H' as <-.
  unfold with_conn. rewrite H, C. destruct En as [->|(c' & [l' s'] & E' & I' & Q' & ms & Rk & acc & _ & Sm)]; [by left|].
  destruct (St (ci_thread _ _ I) _ _ E') as [[G1 G2 G3 G4 G5 G6] Lv']. rewrite E'. cbn in G1, G2, G3, G4, G5, G6 |- *. subst s'.
  specialize (Lv' Lv). apply fine_ok. apply conn_inv_core in I' as (It & [Is Ir] & Ic). split; [|exists c'; cbn; by rewrite lookup_insert_eq].
  assert (Lr : live c ↔ live c') by done.
  split_and!; [|eapply put_touches; try done; [by eapply grew_any|by exists (mjoin acc)]|done].
  destruct G6 as (p & e & fs & El & Ln & Own & _).
  eapply (rinv_put hand rest k ch c c' l' _ p e fs); try done.
  - by rewrite El in G4.
  - by rewrite El in Ir.
  - split; [by rewrite with_channel_id|destruct G2 as (i & ev & ->); apply bound_same, O|]. left. split; [done|]. apply G3.
    destruct (co_state _ _ _ O) as [[_ ?]|[Dn _]]; [done|]. destruct Lv; congruence.
  - by apply own_about.
  - pose proof (ri_queue _ _ _ R k) as Q. rewrite C in Q. unfold queue_ok in *.
    rewrite decide_False in Q by (destruct Lv; congruence). rewrite decide_False by (destruct Lv'; congruence).
    apply Forall_app. split; [|by apply own_waits]. apply (waits_later k c); [by left|exact Rk|exact Q].
  - eapply srv_same; [apply R|done|done].
Qed.

(** A connection made for the next number, with its functors [fs]. *)
Lemma rinv_new hand rest k fd c' l' s' p' e' fs w :
  rinv hand rest w → k = key (nextConnId_ (srv (app w))) → hand ≠ Some k →
  l' = set_pending (pendingFunctors_ (wl w) ++ fs) (set_wakeupFd e' (set_poller p' (wl w))) →
  (∀ i ch, heap w !! i = Some ch → fd_ ch ≠ fd) → 0 <= fd → fd ∈ open_fds (ac_kernel (lsn (app w))) → fd ≠ idlefd_ (lsn (app w)) →
  frame fd (poller_ (wl w)) p' → registered (channel_ c') p' →
  fd_ (channel_ c') = fd → id_ (channel_ c') = k → loop_ (channel_ c') = self_ (wl w) → eventHandling_ (channel_ c') = false →
  conn_ok k (channel_ c') c' → live c' → Forall (own (TConn k)) fs →
  srv_inv s' (<[k := c']> (conns (app w))) (self_ (wl w)) → nextConnId_ s' = nextConnId_ (srv (app w)) + 1 →
  rinv hand rest (put_conn k c' l' s' w).
Proof.
  intros [R1 R2 R3 R4 R5 R6 R7 R8 R9 [R10 R11] R12 R13 R14 R15] Ek Hh' -> Fresh F0 Fo Fi F Rg Ef Ei El Ee O Lv Fs Sv N.
  assert (N1 : 1 <= nextConnId_ (srv (app w))) by (destruct (sv_table _ _ _ R13) as (open & T & _); apply (ti_next _ _ _ _ T)).
  assert (Hk : (2 <= k)%nat) by (rewrite Ek; unfold key; lia).
  assert (Hn : heap w !! k = None) by (apply R8; lia).
  assert (Cn : conns (app w) !! k = None).
  { specialize (R6 k Hk). rewrite Hn in R6. unfold conn_at in R6. by destruct (conns (app w) !! k). }
  assert (Look : ∀ j d (P : Channel rcb → Prop), <[k := channel_ c']> (heap w) !! j = Some d →
    (j = k → P (channel_ c')) → (heap w !! j = Some d → P d) → P d).
  { intros j d P Hd P1 P2. destruct (decide (j = k)) as [->|Nj].
    - rewrite lookup_insert_eq in Hd. injection Hd as <-. auto.
    - rewrite lookup_insert_ne in Hd by done. auto. }
  split; cbn; try done.
  - pose proof (reg_inv_new (mkRegistry (heap w) (poller_ (wl w))) k (self_ (wl w)) fd R2 Hn Fresh) as Rn.
    rewrite <-(insert_insert_eq (heap w) k _ (newChannel k (self_ (wl w)) fd)).
    exact (reg_inv_replace _ k _ (channel_ c') p' Rn (lookup_insert_eq _ _ _) Ei Ef F Rg).
  - intros j d Hd. apply (Look j d (fun d => loop_ d = self_ (wl w))); [done|done|apply R3].
  - destruct R4 as (d & Hd & P). exists d. rewrite lookup_insert_ne; [done|unfold wakeup_key; lia].
  - destruct R5 as (d & Hd & P). exists d. rewrite lookup_insert_ne; [done|unfold accept_key; lia].
  - intros j Hj. destruct (decide (j = k)) as [->|Nj]; [by rewrite !lookup_insert_eq|]. rewrite !lookup_insert_ne by done. by apply R6.
  - intros j Hj. rewrite lookup_insert_ne by lia. by apply R7.
  - intros j Hj. rewrite N in Hj. assert (k < j)%nat by (rewrite Ek; unfold key in *; lia). rewrite lookup_insert_ne by lia. apply R8. lia.
  - intros j d Hd. apply (Look j d (fun d => eventHandling_ d = bool_decide (hand = Some j))); [done| |apply R9].
    intros ->. by rewrite bool_decide_eq_false_2.
  - split; [|done]. intros j d Hd. apply (Look j d (fun d => 0 <= fd_ d ∧ fd_ d ∈ _ ∧ fd_ d ≠ _)); [done|intros _; by rewrite Ef|apply R10].
  - intros j. rewrite app_assoc, waiting_app. destruct (decide (j = k)) as [->|Nj].
    + rewrite lookup_insert_eq, (waiting_all k fs) by by apply own_about. specialize (R14 k). rewrite Cn in R14. cbn in R14. rewrite R14.
      cbn [Datatypes.app queue_ok]. rewrite decide_False by (destruct Lv; congruence). by apply own_waits.
    + rewrite lookup_insert_ne, (waiting_none j k fs), app_nil_r by first [done|by apply own_about]. apply R14.
  - rewrite app_assoc. apply Forall_app. split; [done|]. eapply Forall_impl; [by apply own_about|]. intros t ->. by eexists.
Qed.

(** What [newConnection] makes. *)
Lemma newConnection_inv (a : accepted rcb S) s posts c s' :
  newConnection true a s = Ok (posts, c, s') →
  ∃ io p, getNextLoop true (threadPool_ s) = Ok (io, p) ∧
    s' = set_table p (nextConnId_ s + 1) (connections_ s') (objs s') s ∧
    channel_ c = (let '(rd, wr, cl, er) := a_callbacks a in
      setErrorCallback er (setCloseCallback cl (setWriteCallback wr (setReadCallback rd (newChannel (a_channel a) io (a_fd a)))))).
Proof.
  unfold newConnection. cbn [negb]. intros E'. bind_inv E'. destruct a0 as [io p]. exists io, p. split; [done|].
  destruct (_ =? INT_MAX); [done|]. bind_inv E'. destruct (a_callbacks a) as [[[rd wr] cl] er].
  bind_inv E'. unfold newTcpConnection in *. bind_inv E2. bind_inv E2. injection E2 as <-. injection E' as <- <- <-. done.
Qed.

(** ** Closing *)

(** A change of the interest mask, in the loop. *)
Lemma update_loop e c ch l s :
  channel_ c = ch → isInLoopThread l = true → loop_chan_ok ch l →
  let i := if (index_ ch =? KAdded) && (e =? KNoneEvent) then KDeleted else KAdded in
  let ch' := set_index i (with_events e ch) in
  ∃ p, on_channel (fun ch => update (with_events e ch)) c (l, s) = Ok (with_channel ch' c, (set_poller p l, s)) ∧
    frame (fd_ ch) (poller_ l) p ∧ registered ch' p.
Proof.
  intros <- Ht [Hl Hr]. destruct (update_channel_spec (with_events e (channel_ c)) (poller_ l) Hr) as (i & p & E1 & R & F & -> & _).
  exists p. split_and!; [|done|done].
  unfold on_channel, update. cbn [updateChanel beside_services loop_services fst snd]. unfold loop_updateChanel, assertInLoopThread.
  rewrite (proj2 (Nat.eqb_eq _ _)) by done. rewrite Ht. cbn [assert_ mbind outcome_bind]. by rewrite E1.
Qed.

Lemma queue_loop t l j :
  loop_can_queue (Datatypes.S j) l →
  ∃ e, loop_queueInLoop t l = Ok (set_pending (pendingFunctors_ l ++ [t]) (set_wakeupFd e l)) ∧
    loop_can_queue j (set_pending (pendingFunctors_ l ++ [t]) (set_wakeupFd e l)) ∧
    (isInLoopThread l = true → callingPendingFunctors_ l = false → e = wakeupFd_ l).
Proof.
  intros Q. unfold loop_queueInLoop, when. change (isInLoopThread (set_pending _ l)) with (isInLoopThread l).
  change (callingPendingFunctors_ (set_pending _ l)) with (callingPendingFunctors_ l).
  destruct (negb (isInLoopThread l) || callingPendingFunctors_ l) eqn:Eb.
  - destruct Q as [[Q1 Q2]|Q]; [by rewrite Q1, Q2 in Eb|].
    destruct (wakeup_ok (set_pending (pendingFunctors_ l ++ [t]) l)) as (e & -> & He); [cbn; lia|].
    exists e. split_and!; [done|right; cbn in *; lia|]. intros H1 H2. by rewrite H1, H2 in Eb.
  - apply orb_false_iff in Eb as [E1 E2]. apply negb_false_iff in E1. exists (wakeupFd_ l). split_and!; [by destruct l|by left|done].
Qed.

Lemma close_step j hand rest k ch c c1 w op :
  rinv hand rest w → heap w !! k = Some ch → conns (app w) !! k = Some c → live c →
  conn_inv c1 (wl w, srv (app w)) → live c1 → channel_ c1 = ch → stream c1 = stream c →
  op (with_channel ch c) (wl w, srv (app w)) = handleClose (user acts k) (server_owner k) c1 (wl w, srv (app w)) →
  loop_can_queue (Datatypes.S j) (wl w) → fine (after k 1 j hand rest w) (with_conn k op w).
Proof.
  intros R H C Lv I1 L1 Ec1 Es1 Eop Q. destruct (rinv_conn _ _ _ _ _ R C) as (Hk & ch' & H' & O & _). rewrite H in H'. injection H' as <-.
  unfold with_conn. rewrite H, C, Eop.
  destruct (handleClose_down (user acts k) (server_owner k) (Datatypes.S j) c1 _ I1 L1 Q) as (c2 & [l2 s2] & E2 & I2 & Q2 & D2 & S2 & _ & ->).
  assert (Hi : index_ ch = KAdded) by (destruct (co_state _ _ _ O) as [[_ [_ ?]]|[Dn _]]; [done|destruct Lv; congruence]).
  apply conn_inv_core in I1 as (It & Ich & Ic). rewrite Ec1 in Ich.
  destruct (update_loop KNoneEvent (with_state KDisconnected c1) ch (wl w) (srv (app w)) Ec1 It Ich) as (p & E3 & F & Rg).
  rewrite Hi in E3, Rg. pose proof (eq_trans (eq_sym E2) E3) as X. injection X as -> -> ->. set (c2 := with_channel (set_index _ _) _) in *. set (l2 := set_poller p (wl w)) in *.
  destruct (ci_set _ _ I2) as ([cb Ecb] & _). rewrite Ecb. cbn [call_user]. unfold user at 1, calls.
  destruct (run_user_down (TConn k) (acts cb c2) c2 (l2, srv (app w)) I2 D2 (proj1 (user_fits cb c2))) as (c3 & -> & I3 & D3 & C3 & S3).
  cbn [mbind outcome_bind]. destruct (ci_set _ _ I3) as (_ & _ & [cc Ecc]). rewrite Ecc. cbn [call_owner].
  destruct (srv_close (srv (app w)) (conns (app w)) (self_ (wl w)) k c c3 (ri_srv _ _ _ R) Hk C Lv D3) as (io & s' & Er & Sv & N).
  unfold server_owner. cbn [fst snd]. change (isInLoopThread l2) with (isInLoopThread (wl w)). rewrite It, Er. cbn [mbind outcome_bind].
  destruct (queue_loop (gone k) l2 j Q2) as (e & Eq & Q3 & He). unfold queue_posts. cbn [foldM snd]. fold (gone k). rewrite Eq. cbn [mbind outcome_bind].
  apply fine_ok. apply conn_inv_core in I3 as (_ & _ & Ic3).
  split_and!; [eapply (rinv_put hand rest k ch c c3 _ _ p e [gone k]); try done|eapply put_touches; try done|done].
  - by rewrite C3.
  - rewrite C3. by eexists _, _.
  - split; [by rewrite with_channel_id|rewrite C3; apply bound_same, O|right; by rewrite C3].
  - repeat constructor. cbn. by rewrite key_number by lia.
  - pose proof (ri_queue _ _ _ R k) as Qk. rewrite C in Qk. unfold queue_ok in *. rewrite decide_False in Qk by (destruct Lv; congruence).
    rewrite decide_True by done. eexists. split; [done|]. apply (waits_later k c); [by left| |exact Qk].
    rewrite D3. destruct Lv as [-> | ->]; cbn; lia.
  - rewrite C3. by eexists _, _.
  - exists p, e, [gone k]. split_and!; [done|done|by repeat constructor|done].
  - rewrite D3. destruct Lv as [-> | ->]; cbn; lia.
  - rewrite S3. change (stream c2) with (stream c1) in *. by rewrite <-Es1.
Qed.

(** An operation that only touches the members of a closed connection. *)
Lemma down_step j hand rest k ch c c' w op :
  rinv hand rest w → heap w !! k = Some ch → conns (app w) !! k = Some c → state_ c = KDisconnected →
  op (with_channel ch c) (wl w, srv (app w)) = Ok (c', (wl w, srv (app w))) →
  conn_inv c' (wl w, srv (app w)) → state_ c' = KDisconnected → channel_ c' = ch → stream c' = stream c →
  loop_can_queue j (wl w) → fine (after k 0 j hand rest w) (with_conn k op w).
Proof.
  intros R H C Dn Eop I D' C' S' Q. destruct (rinv_conn _ _ _ _ _ R C) as (Hk & ch' & H' & O & _). rewrite H in H'. injection H' as <-.
  unfold with_conn. rewrite H, C, Eop. cbn [mbind outcome_bind]. apply conn_inv_core in I as (It & [_ Ir] & Ic). rewrite C' in Ir.
  assert (Ex : ∃ i e, channel_ c' = set_index i (with_events e ch)) by (exists (index_ ch), (events_ ch); rewrite C'; by destruct ch).
  apply fine_ok. split_and!; [|eapply put_touches; try done; [apply grew_refl|by rewrite Dn, D'|by rewrite S']|done].
  eapply (rinv_put hand rest k ch c c' _ _ (poller_ (wl w)) (wakeupFd_ (wl w)) []); try done.
  - rewrite app_nil_r. by destruct (wl w).
  - by rewrite C'.
  - rewrite C'. split; [by rewrite <-C', with_channel_id|apply O|]. destruct (co_state _ _ _ O) as [[[Lv|Lv] _]|[_ X]]; [congruence..|by right].
  - rewrite app_nil_r. pose proof (ri_queue _ _ _ R k) as Qk. rewrite C in Qk. unfold queue_ok in *. rewrite decide_True in Qk by done. rewrite decide_True by done.
    destruct Qk as (x & -> & Qx). exists x. split; [done|]. apply (waits_later k c); [by right|by rewrite Dn, D'|exact Qx].
  - eapply srv_same; [apply R|done|]. unfold live. by rewrite Dn, D'.
Qed.

(** ** The events and functors of one connection *)

Definition burst : nat := 2 * most + 2.

Lemma after_mono k n m j hand rest w w' : (n <= m)%nat → after k n j hand rest w w' → after k m j hand rest w w'.
Proof. intros N (R & T & Q). split_and!; [done|by eapply touches_mono|done]. Qed.

Section Handlers.
Context (j : nat) (hand : option nat) (rest : list rfn) (k : nat) (ch : Channel rcb) (c : conn) (w : W).
Context (R : rinv hand rest w) (H : heap w !! k = Some ch) (C : conns (app w) !! k = Some c)
  (Q : loop_can_queue (most + Datatypes.S j) (wl w)).
Local Abbreviation c0 := (with_channel ch c).
Local Abbreviation ws := (wl w, srv (app w)).

Lemma the_inv : conn_inv c0 ws.
Proof. destruct (rinv_conn _ _ _ _ _ R C) as (_ & ch' & H' & _ & I). rewrite H in H'. by injection H' as <-. Qed.

Lemma queue_one : loop_can_queue (Datatypes.S j) (wl w).
Proof. eapply can_queue_less; [|exact Q]. lia. Qed.
Lemma queue_none : loop_can_queue j (wl w).
Proof. eapply can_queue_less; [|exact Q]. lia. Qed.

(** A user callback on a live connection, with members changed by the handler before. *)
Lemma callback_step cb c1 op :
  live c → conn_inv c1 ws → state_ c1 = state_ c → stream c1 = stream c → channel_ c1 = ch →
  op c0 ws = user acts k cb c1 ws →
  fine (fun w' => after k burst j hand rest w w' ∧ ∃ c', conns (app w') !! k = Some c' ∧ live c') (with_conn k op w).
Proof.
  intros Lv I1 E1 S1 C1 Eop. destruct (user_fits cb c1) as [F Hm]. eapply fine_mono; [|apply (live_step (2 * length (acts cb c1)) j hand rest k ch c); try done].
  - intros w' [A B]. split; [|done]. eapply after_mono; [|exact A]. unfold burst. lia.
  - rewrite Eop. unfold user, calls. eapply ends_mono; [done| |apply (run_user_ok (TConn k) j (acts cb c1)); try done].
    + intros c' w' M. exists (msgs (acts cb c1)). unfold moved in *. change (state_ c0) with (state_ c). change (stream c0) with (stream c). by rewrite E1, S1 in M.
    + rewrite E1. destruct Lv; congruence.
    + eapply can_queue_less; [|exact Q]. lia.
  - rewrite Eop. apply (stays_from _ _ _ c1); [done|by unfold live; rewrite E1|]. apply (run_user_stays (TConn k) _).
Qed.

Lemma read_step : live c → fine (after k burst j hand rest w) (with_conn k (handleRead (user acts k) (server_owner k)) w).
Proof.
  intros Lv. destruct (handleRead_cases (user acts k) (server_owner k) c0 ws the_inv Lv)
    as [Ef|(c1 & I1 & E1 & S1 & _ & C1 & Hc)]; [left; unfold with_conn; by rewrite H, C, Ef|].
  destruct Hc as [Hc|[Hc|Hc]].
  - destruct (ci_set _ _ I1) as (_ & [cb Ecb] & _). rewrite Ecb in Hc.
    eapply fine_mono; [|by apply (callback_step cb c1)]. by intros w' [].
  - eapply fine_mono; [|apply (close_step j hand rest k ch c c1); try done; [by unfold live; rewrite E1|apply queue_one]].
    intros w'. apply after_mono. unfold burst. lia.
  - eapply fine_mono; [|apply (live_step 0 j hand rest k ch c); try done].
    + intros w' [A _]. eapply after_mono; [|exact A]. lia.
    + rewrite Hc. right. exists c1, ws. split_and!; [done|done|apply queue_none|]. exists []. apply moved_quiet; [by rewrite E1|done].
    + rewrite Hc. apply (stays_ok (TConn k)); [apply _|done..].
Qed.

Lemma close_event : live c → fine (after k 1 j hand rest w) (with_conn k (handleClose (user acts k) (server_owner k)) w).
Proof. intros Lv. apply (close_step j hand rest k ch c c0); try done; [apply the_inv|apply queue_one]. Qed.

Lemma conn_up_or_down : live c ∨ state_ c = KDisconnected.
Proof.
  destruct (rinv_conn _ _ _ _ _ R C) as (_ & ch' & _ & O & _). destruct (co_state _ _ _ O) as [[? _]|[? _]]; auto.
Qed.

Lemma error_step :
  fine (fun w' => after k 0 j hand rest w w' ∧ (live c → ∃ c', conns (app w') !! k = Some c' ∧ live c')) (with_conn k handleError w).
Proof.
  pose proof the_inv as I. destruct conn_up_or_down as [Lv|Dn].
  - eapply fine_mono; [|apply (live_step 0 j hand rest k ch c); try done].
    + intros w' [A B]. by split.
    + eapply ends_mono; [done| |by apply (handleError_ok j c0 ws I queue_none)]. intros c' w' M. by exists [].
    + apply (handleError_stays (TConn k) _).
  - unfold handleError. destruct (getError_law (socket_ c0)) as [G1 G2]. destruct (sock_getError (socket_ c0)) as [e s] eqn:Es.
    eapply fine_mono; [|apply (down_step j hand rest k ch c (with_socket s c0)); try done].
    + intros w' A. split; [done|]. intros [X|X]; congruence.
    + cbn. change (socket_ c) with (socket_ c0). by rewrite Es.
    + by apply inv_socket.
    + unfold stream. cbn in *. by rewrite G1.
    + apply queue_none.
Qed.

Lemma write_step : fine (after k 1 j hand rest w) (with_conn k (handleWrite (TConn k)) w).
Proof.
  pose proof the_inv as I. destruct conn_up_or_down as [Lv|Dn].
  - eapply fine_mono; [|apply (live_step 1 j hand rest k ch c); try done].
    + by intros w' [A _].
    + eapply ends_mono; [done| |apply (handleWrite_ok (TConn k) j c0 ws I)]; [|destruct Lv; cbn; congruence|exact queue_one].
      intros c' w' Wr. exists []. exact (wrote_moved (TConn k) _ _ _ _ Wr).
    + apply (handleWrite_stays (TConn k) _).
  - eapply fine_mono; [|apply (down_step j hand rest k ch c c0); try done; [|apply queue_none]].
    + intros w'. apply after_mono. lia.
    + unfold handleWrite. rewrite (assert_in c0 ws I). cbn [mbind outcome_bind].
      pose proof (ci_state _ _ I) as St. unfold state_inv in St. cbn in St. rewrite Dn in St. unfold isWriting. cbn. by rewrite St.
Qed.

(** A queued functor of the connection. *)
Lemma functor_step f :
  op_fits (OFunctor f) → (f = FShutdownInLoop → state_ c ≠ KConnected) →
  fine (after k burst j hand rest w) (with_conn k (run_conn_functor (TConn k) (user acts k) (server_owner k) f) w).
Proof.
  intros Ff Fs. pose proof the_inv as I.
  assert (Stay : state_ c = KDisconnected → ∀ op, op c0 ws = Ok (c0, ws) → fine (after k burst j hand rest w) (with_conn k op w)).
  { intros Dn op Eop. eapply fine_mono; [|apply (down_step j hand rest k ch c c0); try done; apply queue_none]. intros w'. apply after_mono. lia. }
  assert (Cb : ∀ cb op, op c0 ws = user acts k cb c0 ws → fine (after k burst j hand rest w) (with_conn k op w)).
  { intros cb op Eop. destruct conn_up_or_down as [Lv|Dn].
    - eapply fine_mono; [|by apply (callback_step cb c0)]. by intros w' [].
    - destruct (run_user_down (TConn k) (acts cb c0) c0 ws I Dn (proj1 (user_fits cb c0))) as (c' & Er & I' & D' & C' & S').
      eapply fine_mono; [|apply (down_step j hand rest k ch c c'); try done; [by rewrite Eop|apply queue_none]].
      intros w'. apply after_mono. lia. }
  destruct f as [cb| |cb len|m| |]; [by apply (Cb cb)| |by apply (Cb cb)| | |].
  - destruct (writeCompleteCallback_ c) as [cb|] eqn:Ew.
    + apply (Cb cb). cbn. unfold lateWriteComplete. cbn. by rewrite Ew.
    + right; left. unfold with_conn. rewrite H, C. cbn. unfold lateWriteComplete. cbn. by rewrite Ew.
  - destruct conn_up_or_down as [Lv|Dn].
    + eapply fine_mono; [|apply (live_step 2 j hand rest k ch c); try done; [|apply (sendInLoop_stays (TConn k) _)]].
      * intros w' [A _]. eapply after_mono; [|exact A]. unfold burst. lia.
      * eapply ends_mono; [done| |apply (sendInLoop_ok (TConn k) j m c0 ws I); [destruct Lv; cbn; congruence|exact Ff|apply (room_of j), queue_one]].
        intros c' w' Sd. pose proof (sends_stream (TConn k) _ _ _ _ _ Sd) as St. destruct Sd as [E1 _]. exists [m]. split; [by rewrite E1|].
        destruct St as [->|[-> _]]; [exists [m]|exists []]; cbn; rewrite ?app_nil_r; [done|]. split; [by repeat constructor|done].
    + apply Stay; [done|]. cbn [run_conn_functor]. unfold sendInLoopByString, sendInLoop. rewrite (assert_in c0 ws I). cbn [mbind outcome_bind].
      change (state_ c0) with (state_ c). by rewrite Dn.
  - specialize (Fs eq_refl). assert (Sd : state_ c0 = KDisconnecting ∨ state_ c0 = KDisconnected).
    { cbn. destruct conn_up_or_down as [[?|?]|?]; [done|by left|by right]. }
    destruct (shutdownInLoop_ok c0 ws I Sd) as (c' & E1 & I' & E2 & E3 & _). destruct conn_up_or_down as [Lv|Dn].
    + eapply fine_mono; [|apply (live_step 0 j hand rest k ch c); try done; [|apply (shutdownInLoop_stays (TConn k) _)]].
      * intros w' [A _]. eapply after_mono; [|exact A]. lia.
      * cbn [run_conn_functor]. rewrite E1. right. exists c', ws. split_and!; [done|done|apply queue_none|]. exists []. apply moved_quiet; [by rewrite E2|done].
    + eapply fine_mono; [|apply (down_step j hand rest k ch c c'); try done; [by rewrite E2| |apply queue_none]].
      * intros w'. apply after_mono. lia.
      * unfold shutdownInLoop in E1. rewrite (assert_in c0 ws I) in E1. cbn [mbind outcome_bind] in E1. destruct (negb _) in E1; by injection E1 as <-.
  - destruct conn_up_or_down as [Lv|Dn].
    + eapply fine_mono; [|apply (close_step j hand rest k ch c c0); try done; [|apply queue_one]].
      * intros w'. apply after_mono. unfold burst. lia.
      * cbn [run_conn_functor]. unfold forceCloseInLoop. rewrite (assert_in c0 ws I). cbn [mbind outcome_bind].
        change (state_ c0) with (state_ c). unfold is_state. by destruct Lv as [-> | ->].
    + apply Stay; [done|]. cbn [run_conn_functor]. unfold forceCloseInLoop. rewrite (assert_in c0 ws I). cbn [mbind outcome_bind].
      change (state_ c0) with (state_ c). by rewrite Dn.
Qed.
End Handlers.
End Safe.
Arguments rinv_conn {K E D S EK EL EF ELw AK SK FT name host} Hh {hand rest k c w}.
