(* ===== verification/ReactorTurn.v ===== *)
(** * ReactorTurn: whole turns of the server's loop

    The dispatch of a ready channel, the accepting of a connection, the functors after the events, and their composition
    into turns and runs of [EventLoop.loop] on the [Reactor] world, under the invariant of [ReactorSafe]. *)

From S2P Require Import Prelude Buffer Channel Poller EventLoop Sockets TcpConnection ConnFrame TcpServer Reactor ReactorSafe.

Section Turn.
Context {K E D S : Type} `{EK : EpollKernel K} `{EL : !EpollLaws K} `{EF : EventfdKernel E} `{ELw : !EventfdLaws E}.
Context `{AK : AcceptKernel D} `{AL : !AcceptLaws D} `{SK : SocketKernel S} `{SL : !SocketLaws S} `{FT : !FdTable D S} `{FL : !FdLaws D S}.
Local Abbreviation L := (EventLoop rfn K E).
Local Abbreviation W := (World rcb rfn K E (reactor D S)).
Local Abbreviation conn := (TcpConnection rcb S).
Context (acts : nat → conn → list uact) (listen_r : Z) (most : nat).
Context (user_fits : ∀ k c, Forall act_fits (acts k c) ∧ (length (acts k c) <= most)%nat).
Context (name host : chars) (Hh : (length (c_str host) <= 21)%nat).
Implicit Types (w : W) (c : conn) (ch : Channel rcb) (l : L) (s : TcpServer).
Local Abbreviation rinv := (rinv name host).
Local Abbreviation runCB := (runCB acts listen_r).
Local Abbreviation runT := (runT acts listen_r).

(** ** Dispatch *)

(** [put] of the dispatch, on a channel that is in the heap. *)
Lemma alter_const {A : Type} (m : gmap nat A) k x y : m !! k = Some x → alter (fun _ => y) k m = <[k := y]> m.
Proof.
  intros H. apply map_eq. intros j. destruct (decide (j = k)) as [->|N].
  - by rewrite lookup_alter_eq, lookup_insert_eq, H.
  - by rewrite lookup_alter_ne, lookup_insert_ne.
Qed.

Definition put_chan (k : nat) ch w : W := mkWorld (wl w) (<[k := ch]> (heap w)) (app w).

(** Only the result of the poll and the handling flag of a channel change. *)
Lemma rinv_touch hand hand' rest k ch b r w :
  rinv hand rest w → heap w !! k = Some ch → (∀ j, j ≠ k → bool_decide (hand' = Some j) = bool_decide (hand = Some j)) →
  b = bool_decide (hand' = Some k) → rinv hand' rest (put_chan k (with_handling b (set_revents r ch)) w).
Proof.
  intros [R1 R2 R3 R4 R5 R6 R7 R8 R9 [R10 R11] R12 R13 R14 R15] H Hj Hb. set (ch' := with_handling b (set_revents r ch)).
  assert (Look : ∀ j d (P : Channel rcb → Prop), <[k := ch']> (heap w) !! j = Some d →
    (j = k → P ch') → (heap w !! j = Some d → j ≠ k → P d) → P d).
  { intros j d P Hd P1 P2. destruct (decide (j = k)) as [->|Nj].
    - rewrite lookup_insert_eq in Hd. injection Hd as <-. auto.
    - rewrite lookup_insert_ne in Hd by done. auto. }
  assert (Keep : ∀ j cb, (∃ d, heap w !! j = Some d ∧ plain cb d) → ∃ d, <[k := ch']> (heap w) !! j = Some d ∧ plain cb d).
  { intros j cb (d & Hd & P). destruct (decide (j = k)) as [->|Nj]; [|exists d; by rewrite lookup_insert_ne].
    exists ch'. rewrite lookup_insert_eq. split; [done|]. by simplify_eq. }
  destruct (proj1 R2 k ch H) as [Hid Hreg].
  split; cbn; try done; [| |by apply Keep|by apply Keep|..].
  - eapply (reg_inv_replace (mkRegistry (heap w) (poller_ (wl w)))); [done|exact H|done..].
  - intros j d Hd. apply (Look j d (fun d => loop_ d = self_ (wl w))); [done|intros _; by apply (R3 k ch)|intros X _; by apply (R3 j)].
  - intros j Hj2. specialize (R6 j Hj2). destruct (decide (j = k)) as [->|Nj]; [|by rewrite lookup_insert_ne].
    rewrite lookup_insert_eq. rewrite H in R6. destruct (conns (app w) !! k) as [c|]; [|done].
    destruct R6 as [[C1 C2 C3 C4] C5 C6]. split; [by split|done|done].
  - intros j Hj2. destruct (decide (j = k)) as [->|Nj]; [by rewrite R8 in H|]. rewrite lookup_insert_ne by done. by apply R8.
  - intros j d Hd. apply (Look j d (fun d => eventHandling_ d = bool_decide (hand' = Some j))); [done|by intros ->|].
    intros X Nj. rewrite Hj by done. by apply R9.
  - split; [|done]. intros j d Hd. apply (Look j d (fun d => 0 <= fd_ d ∧ fd_ d ∈ _ ∧ fd_ d ≠ _)); [done|intros _; exact (R10 k ch H)|intros X _; by apply (R10 j)].
Qed.

Lemma touch_touches k n ch ch' w : heap w !! k = Some ch → revents_ ch' = revents_ ch → touches k n w (put_chan k ch' w).
Proof.
  intros H E'. split; cbn; [| |apply (grew_refl n _ (wl w))|apply (grows_refl w)|done].
  - intros j N. by rewrite lookup_insert_ne.
  - intros d Hd. exists ch'. rewrite lookup_insert_eq. split; [done|]. congruence.
Qed.

(** Events are handled outside [doPendingFunctors], where queueing writes no wakeup. *)
Lemma handling_queue j hand rest w : rinv hand rest w → callingPendingFunctors_ (wl w) = false → loop_can_queue j (wl w).
Proof. intros R Hc. left. split; [apply R|done]. Qed.

Lemma touches_calling k n w w' : touches k n w w' → callingPendingFunctors_ (wl w') = callingPendingFunctors_ (wl w).
Proof. intros [_ _ (p & e & fs & -> & _) _ _]. done. Qed.

(** What one stage of the dispatch of channel [k] has reached: [lv] promises that the connection is live. *)
Definition reached (k n : nat) (rest : list rfn) (r : Z) (lv : Prop) w w' : Prop :=
  rinv (Some k) rest w' ∧ touches k n w w' ∧ callingPendingFunctors_ (wl w') = false ∧
  ∃ ch c, heap w' !! k = Some ch ∧ conns (app w') !! k = Some c ∧ bound k ch ∧ revents_ ch = r ∧ (lv → live c).

Lemma reached_more k n m rest r (lv0 lv : Prop) w w1 w2 :
  reached k n rest r lv0 w w1 → rinv (Some k) rest w2 → touches k m w1 w2 → (lv → ∃ c, conns (app w2) !! k = Some c ∧ live c) → reached k (n + m) rest r lv w w2.
Proof.
  intros (R1 & T1 & Hc & ch & c & H & C & B & Er & _) R2 T2 Lv. split_and!; [done|by eapply touches_trans|by rewrite (touches_calling _ _ _ _ T2)|].
  destruct (to_chan _ _ _ _ T2 ch H) as (ch' & H' & Er'). destruct (rinv_conn Hh R1 C) as (Hk & _).
  pose proof (ri_conn _ _ _ _ _ R2 k Hk) as O. rewrite H' in O. unfold conn_at in O. destruct (conns (app w2) !! k) as [c'|] eqn:C'; [|done].
  exists ch', c'. split_and!; [done|done|apply O|congruence|]. intros X. destruct (Lv X) as (d & [= <-] & ?). done.
Qed.

(** The mask of a report: a hang-up without input comes without urgent input. *)
Definition coherent (r : Z) : Prop :=
  has r POLLHUP && negb (has r POLLIN) = true → has r (Z.lor (Z.lor POLLIN POLLPRI) POLLRDHUP) = false.

(** One stage: the callback [cb] of the dispatched connection runs, or nothing happens. *)
Lemma stage_step k n m rest r (lv lv' : Prop) (b : Z → bool) (cb : Channel rcb → option rcb) (f : rcb) w w1 (get : W → Channel rcb) :
  reached k n rest r lv w w1 → (∀ ch, heap w1 !! k = Some ch → get w1 = ch) → (∀ ch, bound k ch → cb ch = Some f) →
  (b r = true → ∀ ch c, heap w1 !! k = Some ch → conns (app w1) !! k = Some c → (lv → live c) →
     fine (fun w2 => rinv (Some k) rest w2 ∧ touches k m w1 w2 ∧ (lv' → ∃ c', conns (app w2) !! k = Some c' ∧ live c')) (runCB f w1)) →
  (b r = false → lv' → lv) →
  fine (reached k (n + m) rest r lv' w) (when (b (revents_ (get w1))) (fun w => call runCB (cb (get w)) w) w1).
Proof.
  intros Re Hg Hcb Hrun Hlv. pose proof Re as (R1 & T1 & Hc & ch & c & H & C & B & Er & Lv). unfold when.
  rewrite (Hg ch H), Er. destruct (b r) eqn:Eb.
  - rewrite (Hcb ch B). cbn [call]. eapply fine_mono; [|by apply (Hrun eq_refl ch c)].
    intros w2 (R2 & T2 & L2). by eapply reached_more.
  - apply fine_ok. eapply reached_more; [exact Re|done|apply touches_refl|]. intros X. exists c. split; [done|]. auto.
Qed.

Lemma conn_active k rest ch c w :
  rinv None rest w → callingPendingFunctors_ (wl w) = false → heap w !! k = Some ch → conns (app w) !! k = Some c → live c →
  coherent (revents_ ch) →
  fine (fun w' => rinv None rest w' ∧ touches k (burst most + 2) w w') (handle_active runCB tied_alive k w).
Proof.
  intros R Hc H C Lv Co. destruct (rinv_conn Hh R C) as (Hk & ch' & H' & O & _). rewrite H in H'. injection H' as <-.
  destruct (co_bound _ _ _ O) as (Bt & Bd & _). unfold handle_active. rewrite H. unfold handleEvent.
  set (get := fun w : W => default ch (heap w !! k)). change (default ch (heap w !! k)) with (get w).
  assert (Eg : ∀ w' d, heap w' !! k = Some d → get w' = d) by (intros w' d E'; unfold get; by rewrite E').
  rewrite (Eg w ch H), Bd, Bt. unfold when at 1, tied_alive. rewrite bool_decide_eq_true_2 by (by rewrite C).
  unfold handleEventWithGuard. rewrite (Eg w ch H), (alter_const _ _ ch) by done.
  set (w1 := mkWorld _ _ _). set (r := revents_ ch) in *.
  assert (R1 : reached k 0 rest r True w w1).
  { change w1 with (put_chan k (with_handling true (set_revents r ch)) w). split_and!.
    - eapply rinv_touch; [exact R|done| |by rewrite bool_decide_eq_true_2]. intros j N. rewrite !bool_decide_eq_false_2 by congruence. done.
    - by eapply touch_touches.
    - done.
    - exists (with_handling true (set_revents r ch)), c. cbn. rewrite lookup_insert_eq. split_and!; [done|done|apply O|done|done]. }
  pose (closes := fun r => has r POLLHUP && negb (has r POLLIN)).
  rewrite bind_assoc. eapply fine_bind.
  { apply (stage_step k 0 1 rest r True (closes r = false) closes Channel.closeCallback_ (CbClose k) w w1 get R1); [auto|by intros d (?&?&?&?&?&?)| |done].
    intros Ecl d x Hd Cx Lx. eapply fine_mono; [|eapply (close_event acts most user_fits name host Hh 0); try done; [apply R1|by eapply handling_queue; apply R1|auto]].
    intros w2 (R2 & T2 & _). split_and!; [done|done|congruence]. }
  intros w2 R2. rewrite bind_assoc. eapply fine_bind.
  { apply (stage_step k _ 0 rest r _ (closes r = false) (fun r => has r (Z.lor POLLERR POLLNVAL)) errorCallback_ (CbError k) w w2 get R2);
      [auto|by intros d (?&?&?&?&?&?)| |done].
    intros _ d x Hd Cx Lx. eapply fine_mono; [|eapply (error_step most name host Hh 0); try done; [apply R2|by eapply handling_queue; apply R2]].
    intros w3 ((R3 & T3 & _) & Lv3). split_and!; [done|done|auto]. }
  intros w3 R3. rewrite bind_assoc. eapply fine_bind.
  { apply (stage_step k _ (burst most) rest r _ False (fun r => has r (Z.lor (Z.lor POLLIN POLLPRI) POLLRDHUP)) readCallback_ (CbRead k) w w3 get R3);
      [auto|by intros d (?&?&?&?&?&?)| |done].
    intros Er d x Hd Cx Lx. eapply fine_mono; [|eapply (read_step acts most user_fits name host Hh 0); try done; [apply R3|by eapply handling_queue; apply R3|]].
    - intros w4 (R4 & T4 & _). by split_and!.
    - apply Lx. unfold closes. destruct (has r POLLHUP && negb (has r POLLIN)) eqn:Ecl; [|done]. by rewrite (Co Ecl) in Er. }
  intros w4 R4. rewrite bind_assoc. eapply fine_bind.
  { apply (stage_step k _ 1 rest r _ False (fun r => has r POLLOUT) writeCallback_ (CbWrite k) w w4 get R4); [auto|by intros d (?&?&?&?&?&?)| |done].
    intros _ d x Hd Cx _. eapply fine_mono; [|eapply (write_step most name host Hh 0); try done; [apply R4|by eapply handling_queue; apply R4]].
    intros w5 (R5 & T5 & _). by split_and!. }
  intros w5 (R5 & T5 & _ & d & x & Hd & Cx & Bd5 & Er5 & _). cbn [mbind outcome_bind heap].
  rewrite (Eg w5 d Hd), (alter_const _ _ d), lookup_insert_eq by done. apply fine_ok.
  change (mkWorld _ _ _) with (put_chan k (with_handling false (set_revents (revents_ d) d)) w5). split.
  - eapply rinv_touch; [exact R5|done| |done]. intros j N. rewrite !bool_decide_eq_false_2 by congruence. done.
  - apply (touches_mono k (0 + 1 + 0 + burst most + 1 + 0)); [lia|]. eapply touches_trans; [exact T5|by apply (touch_touches _ 0 d)].
Qed.

(** ** Accepting *)

(** [Acceptor::handleRead] in the loop's thread: a connected socket with a descriptor nobody uses, or none; the
    descriptors of the channels stay open, and the spare is still another one. *)
Lemma accept_cases (h : gmap nat (Channel rcb)) (a : Acceptor rcb D) l :
  isInLoopThread l = true → newConnectionCallback_ a = true → fds_ok h a →
  ∃ o a', acceptor_handleRead (T := rfn) a l = Ok (o, a') ∧ newConnectionCallback_ a' = true ∧ fds_ok h a' ∧
    ∀ fd, o = Some fd → 0 <= fd ∧ (∀ k ch, h !! k = Some ch → fd_ ch ≠ fd) ∧ fd ∈ open_fds (ac_kernel a') ∧ fd ≠ idlefd_ a'.
Proof.
  intros Ht Hcb [F1 F2]. unfold acceptor_handleRead, assertInLoop. cbn [inLoopThread loop_services]. rewrite Ht. cbn [mbind outcome_bind].
  destruct (k_accept (ac_kernel a)) as [[fd e] k1] eqn:Ea. pose proof (accept_fd _ _ _ _ Ea) as A1.
  destruct (0 <=? fd) eqn:Ef; bool_prop.
  { unfold accept. rewrite (proj2 (Z.ltb_ge _ _)) by done. cbn [mbind outcome_bind]. rewrite (proj2 (Z.leb_le _ _)), Hcb by done.
    destruct A1 as [A1 A2]. eexists _, _. split; [reflexivity|]. split; [done|]. split; [split|].
    - intros k ch Hk. destruct (F1 k ch Hk) as (? & ? & ?). split_and!; [done| |done]. cbn. rewrite A2. set_solver.
    - cbn. rewrite A2. set_solver.
    - intros fd' [= <-]. cbn. split_and!; [done| |rewrite A2; set_solver|].
      + intros k ch Hk <-. by apply A1, (F1 k).
      + intros ->. by apply A1, F2. }
  destruct (decide (backlog (ac_kernel a) = 0%nat)) as [B|B].
  { destruct (accept_empty _ B) as (k' & Ea' & _). rewrite Ea in Ea'. injection Ea' as -> -> ->. cbn.
    eexists _, _. split; [reflexivity|]. split; [done|]. split; [|done]. unfold fds_ok. cbn. by rewrite A1. }
  destruct (decide (spare (ac_kernel a) = 0%nat)) as [Sp|Sp]; cycle 1.
  { destruct (accept_ok (ac_kernel a)) as (fd' & e' & k' & Ea' & ? & _); [lia|lia|]. rewrite Ea in Ea'. injection Ea' as -> -> ->. lia. }
  destruct (accept_full (ac_kernel a)) as (k' & Ea' & _); [lia|done|]. rewrite Ea in Ea'. injection Ea' as -> -> ->.
  change (accept (-1) EMFILE) with (Ok (-1, EMFILE)). cbn [mbind outcome_bind]. change (0 <=? -1) with false. change (EMFILE =? EMFILE) with true. cbn iota zeta.
  destruct (k_accept (k_close (idlefd_ a) k')) as [[fd2 e2] k2] eqn:E2. destruct (k_open (k_close fd2 k2)) as [idle k4] eqn:E4.
  pose proof (accept_fd _ _ _ _ E2) as A2. pose proof (open_fd _ _ _ E4) as A4. rewrite close_fd in A2, A4.
  eexists _, _. split; [reflexivity|]. split; [done|]. split; [split|done]; cbn.
  - intros k ch Hk. destruct (F1 k ch Hk) as (G1 & G2 & G3). split; [done|].
    assert (G4 : fd_ ch ∈ open_fds k2 ∖ {[fd2]}).
    { destruct (0 <=? fd2) eqn:Ef2; bool_prop.
      - destruct A2 as [A2 ->]. rewrite A1 in A2 |- *. set_solver.
      - rewrite A2, A1. rewrite !elem_of_difference, !elem_of_singleton. split_and!; [done|done|lia]. }
    destruct (0 <=? idle) eqn:Ei; bool_prop.
    + destruct A4 as [A4 ->]. split; [set_solver|]. intros <-. done.
    + rewrite A4. split; [done|lia].
  - intros Hi. rewrite (proj2 (Z.leb_le _ _)) in A4 by done. destruct A4 as [_ ->]. set_solver.
Qed.

Lemma rinv_lsn hand rest a w :
  rinv hand rest w → newConnectionCallback_ a = true → fds_ok (heap w) a →
  rinv hand rest (mkWorld (wl w) (heap w) (mkReactor (srv (app w)) a (conns (app w)))).
Proof. intros [] H1 H2. by split. Qed.

(** [connectEstablished] on the connection just made, in the loop's thread: the user is called on a connection that is
    watched, and everything is still in its place when the call returns. *)
Lemma establish_ok j k ch c l s :
  conn_inv c (l, s) → state_ c = KConnecting → channel_ c = ch → index_ ch = KNew → events_ ch = KNoneEvent →
  loop_can_queue (most + j) l →
  connectEstablished (user acts k) k c (l, s) = Fault (Throw LengthError) ∨
  ∃ c' p e fs, let l' := set_pending (pendingFunctors_ l ++ fs) (set_wakeupFd e (set_poller p l)) in
    connectEstablished (user acts k) k c (l, s) = Ok (c', (l', s)) ∧ conn_inv c' (l', s) ∧ live c' ∧ loop_can_queue j l' ∧
    frame (fd_ ch) (poller_ l) p ∧ (length fs <= 2 * most)%nat ∧ Forall (own (TConn k)) fs ∧
    (isInLoopThread l = true → callingPendingFunctors_ l = false → e = wakeupFd_ l) ∧
    (∃ i e, channel_ c' = set_index i (with_events e (tie k ch))) ∧ reads (channel_ c').
Proof.
  intros I Ec Eh Ei Ev Q.
  destruct (connectEstablished_up (user acts k) k c (l, s) I Ec) as (c1 & w1 & E1 & I1 & _ & L1 & _ & _ & ->).
  pose proof (proj1 (conn_inv_core _ _ _) I) as (It & Ich & _).
  set (cT := with_channel (tie k (channel_ c)) (with_state KConnected c)) in *.
  destruct (update_loop (Z.lor (events_ (tie k ch)) KReadEvent) cT (tie k ch) l s) as (p & E2 & F & Rg);
    [by rewrite <-Eh|done|by rewrite <-Eh|].
  assert (Eop : on_channel enableReading cT (l, s) = on_channel (fun d => update (with_events (Z.lor (events_ (tie k ch)) KReadEvent) d)) cT (l, s)).
  { unfold on_channel, enableReading. cbn [channel_ with_channel cT]. by rewrite Eh. }
  rewrite Eop, E2 in E1. injection E1 as <- <-. set (c1 := with_channel (set_index _ _) _) in *. set (l1 := set_poller p l) in *.
  destruct (ci_set _ _ I1) as ([cb Ecb] & _). rewrite Ecb. cbn [call_user]. unfold user, calls. destruct (user_fits cb c1) as [Fa Fm].
  destruct (run_user_ok (TConn k) j (acts cb c1) c1 (l1, s) I1) as [->|(c2 & [l2 s2] & E3 & I2 & Q2 & _)];
    [by rewrite L1|done|apply (can_queue_less (most + j)); [lia|exact Q]|by left|].
  destruct (run_user_stays (TConn k) (loop_guar (TConn k)) (acts cb c1) c1 (l1, s) (ci_thread _ _ I1) c2 (l2, s2) E3)
    as [[G1 (i & ev & G2) G3 G4 G5 (p2 & e & fs & G6 & G7 & G8 & G9)] Lv]. cbn in G1, G2, G3, G4, G5, G6, G9. subst s2.
  right. exists c2, p2, e, fs. assert (El : l2 = set_pending (pendingFunctors_ l ++ fs) (set_wakeupFd e (set_poller p2 l))) by (by rewrite G6).
  cbn zeta. rewrite <-El. split_and!; try done; [by apply Lv; left|..].
  - rewrite El in G4. by eapply frame_trans.
  - lia.
  - exists i, ev. by rewrite G2.
  - apply G3. unfold reads. cbn. by rewrite Ev, Ei.
Qed.

Lemma put_put k c l s c' l' s' w : put_conn k c' l' s' (put_conn k c l s w) = put_conn k c' l' s' w.
Proof. unfold put_conn. cbn. by rewrite !insert_insert_eq. Qed.

(** A descriptor that no channel has is unknown to the poller. *)
Lemma fresh_registered k fd hand rest w :
  rinv hand rest w → (∀ i d, heap w !! i = Some d → fd_ d ≠ fd) → registered (newChannel (CB := rcb) k (self_ (wl w)) fd) (poller_ (wl w)).
Proof.
  intros R Fresh. destruct (ri_reg _ _ _ _ _ R) as (_ & _ & Hc & Hi). left. cbn. split_and!; [done|..].
  - destruct (channels_ _ !! fd) as [i|] eqn:E1; [|done]. destruct (Hc _ _ E1) as (d & Hd & Ed). by destruct (Fresh i d Hd).
  - destruct (interest _ !! fd) as [[ev i]|] eqn:E1; [|done]. destruct (Hi _ _ _ E1) as (d & Hd & Ed). by destruct (Fresh i d Hd).
Qed.

(** The open connections of the table, with a new one. *)
Lemma open_grows (open : list Z) (cs : gmap nat conn) n0 c' :
  1 <= n0 → (∀ n, n ∈ open ↔ 1 <= n ∧ ∃ c, cs !! key n = Some c ∧ live c) → cs !! key n0 = None → live c' →
  ∀ n, n ∈ open ++ [n0] ↔ 1 <= n ∧ ∃ c, <[key n0 := c']> cs !! key n = Some c ∧ live c.
Proof.
  intros N1 Op Cn Lv n. rewrite elem_of_app, list_elem_of_singleton, Op. split.
  - intros [[M (d & Hd & Ld)]| ->]; [|split; [done|]; exists c'; by rewrite lookup_insert_eq].
    split; [done|]. exists d. split; [|done]. rewrite lookup_insert_ne; [done|]. intros Ek. congruence.
  - intros [M (d & Hd & Ld)]. destruct (decide (n = n0)) as [->|Nn]; [by right|left]. split; [done|]. exists d. split; [|done].
    rewrite lookup_insert_ne in Hd; [done|]. unfold key. lia.
Qed.

Lemma accept_step j hand rest w :
  rinv hand rest w → nextConnId_ (srv (app w)) < 10 ^ 9 → (∀ k, hand = Some k → is_Some (heap w !! k)) → loop_can_queue (most + j) (wl w) →
  fine (after name host (key (nextConnId_ (srv (app w)))) (burst most) j hand rest w) (on_accept acts listen_r w).
Proof.
  intros R Hn Hh' Q. pose proof (ri_thread _ _ _ _ _ R) as Ht. unfold on_accept.
  destruct (accept_cases (heap w) (lsn (app w)) (wl w) Ht (ri_cb _ _ _ _ _ R) (ri_fds _ _ _ _ _ R)) as (o & a & -> & Ha & Fa & Hfd).
  cbn [mbind outcome_bind]. set (w1 := mkWorld _ _ _). set (k := key _).
  assert (R1 : rinv hand rest w1) by (by apply rinv_lsn).
  assert (Q0 : loop_can_queue j (wl w)) by (apply (can_queue_less (most + j)); [lia|exact Q]).
  destruct o as [fd|]; cycle 1.
  { apply fine_ok. split_and!; [done| |done]. split; [done|by intros ch Hk; exists ch|apply grew_refl|apply (grows_refl w)|done]. }
  destruct (Hfd fd eq_refl) as (F0 & Fresh & Fo & Fi). unfold new_connection. change (srv (app w1)) with (srv (app w)). change (wl w1) with (wl w).
  pose proof (arrival_open (ac_kernel a) fd) as Ar. change (lsn (app w1)) with a.
  destruct (arrival (ac_kernel a) fd) as [[[sk local] peer] rl]. destruct Ar as [Sh Rl]. cbn zeta. fold k.
  set (ac := mkAccepted fd sk local peer rl 0 k (CbRead k, CbWrite k, CbClose k, CbError k)).
  destruct (ri_srv _ _ _ _ _ R) as [[ccb V1] [mcb V2] V3 V4 V5 (open & Tb & Op)]. set (s := srv (app w)) in *.
  assert (N1 : 1 <= nextConnId_ s) by apply (ti_next _ _ _ _ Tb).
  assert (Gn : getNextLoop true (threadPool_ s) = Ok (baseLoop_ (threadPool_ s), threadPool_ s)) by (unfold getNextLoop; cbn [negb]; by rewrite V3).
  pose proof (fresh_registered k fd hand rest w R Fresh) as Free.
  destruct (accepted_connection (T := rfn) ac s (baseLoop_ (threadPool_ s)) (threadPool_ s) ccb mcb (wl w)) as (c & s' & En & I & Ec & Sc & _);
    [done|unfold INT_MAX; lia|done..|by rewrite V4; split|].
  destruct (newConnection_inv ac s _ c s' En) as (io & p0 & Gn' & Es' & Ech). rewrite Gn in Gn'. injection Gn' as <- <-. cbn in Ech. rewrite V4 in Ech.
  destruct (accept_inv name host Hh ac s open Tb Hn Rl) as (s1 & Est & Tb' & N').
  cbn [server_step] in Est. rewrite En in Est. cbn in Est. injection Est as <-.
  rewrite Ht, En. cbn [mbind outcome_bind foldM snd]. unfold runInLoop. change (isInLoopThread (wl (put_conn k c (wl w) s' w1))) with (isInLoopThread (wl w)).
  rewrite Ht. cbn [Reactor.runT run_server_functor]. fold k. unfold with_conn. cbn [put_conn heap conns app wl srv].
  rewrite !lookup_insert_eq, with_channel_id.
  assert (I' : conn_inv c (wl w, s')) by (destruct I; by split).
  destruct (establish_ok j k (channel_ c) c (wl w) s' I' Ec) as [->|(c' & p & e & fs & -> & I2 & Lv & Q' & F & Ln & Own & Ecal & (i & ev & Ech') & Rd)];
    [done|by rewrite Ech|by rewrite Ech|exact Q|by left|].
  cbn [mbind outcome_bind]. rewrite put_put. apply fine_ok. apply conn_inv_core in I2 as (_ & [_ Rg] & Core).
  assert (Hk2 : (2 <= k)%nat) by (unfold k, key; lia).
  assert (Hn2 : heap w !! k = None) by (apply (ri_new _ _ _ _ _ R); done).
  split_and!; [|split; cbn|done].
  - eapply (rinv_new name host Hh hand rest k fd c' _ s' p e fs w1 R1); try done; try (by rewrite Ech', Ech).
    + intros ->. destruct (Hh' k eq_refl) as [x Hx]. congruence.
    + by rewrite Ech in F.
    + split; [by rewrite with_channel_id|rewrite Ech', Ech; by split_and!|by left].
    + split; [by rewrite Es'; eexists|by rewrite Es'; eexists|by rewrite Es'|by rewrite Es'|lia|].
      exists (open ++ [nextConnId_ s]). split; [done|]. apply (open_grows open (conns (app w)) _ c' N1 Op); [|done].
      fold k. pose proof (ri_conn _ _ _ _ _ R k Hk2) as O. rewrite Hn2 in O. unfold conn_at in O. by destruct (conns (app w) !! k).
  - intros i' Ni. by rewrite !lookup_insert_ne.
  - intros d Hd. congruence.
  - exists p, e, fs. split_and!; [done|unfold burst; lia|by eapply Forall_impl|done].
  - split; cbn; [rewrite N'; unfold s; lia|]. intros i' d Hd. destruct (decide (i' = k)) as [->|Ni]; [by right|left].
    rewrite lookup_insert_ne in Hd by done. by exists d.
  - done.
Qed.

(** ** The loop's and the acceptor's channels *)

Definition input (r : Z) : bool := has r (Z.lor (Z.lor POLLIN POLLPRI) POLLRDHUP).

Lemma when_call (b : bool) (o : W → option rcb) w :
  when b (fun w => call runCB (o w) w) w = match o w with Some f => when b (runCB f) w | None => Ok w end.
Proof. unfold when. by destruct b, (o w). Qed.

(** A channel with a read callback only: its dispatch is that callback, between the two writes of the flag. *)
Lemma plain_active k cb rest ch w (Q : W → Prop) :
  rinv None rest w → heap w !! k = Some ch → plain cb ch →
  (let w1 := put_chan k (with_handling true ch) w in rinv (Some k) rest w1 → heap w1 !! k = Some (with_handling true ch) →
     fine (fun w2 => rinv (Some k) rest w2 ∧ heap w2 !! k = Some (with_handling true ch) ∧ Q w2) (when (input (revents_ ch)) (runCB cb) w1)) →
  fine (fun w' => rinv None rest w' ∧ ∃ w2, Q w2 ∧ heap w2 !! k = Some (with_handling true ch) ∧ w' = put_chan k (with_handling false ch) w2)
    (handle_active runCB tied_alive k w).
Proof.
  intros R H (P1 & P2 & P3 & P4 & P5) Hrun. unfold handle_active. rewrite H. unfold handleEvent.
  set (get := fun w : W => default ch (heap w !! k)). change (default ch (heap w !! k)) with (get w).
  assert (Eg : ∀ w' d, heap w' !! k = Some d → get w' = d) by (intros w' d E'; unfold get; by rewrite E').
  rewrite (Eg w ch H), P1. unfold handleEventWithGuard. rewrite (Eg w ch H), (alter_const _ _ ch) by done.
  change (mkWorld (wl w) _ _) with (put_chan k (with_handling true ch) w). set (w1 := put_chan k _ w) in *.
  assert (H1 : heap w1 !! k = Some (with_handling true ch)) by (cbn; by rewrite lookup_insert_eq).
  assert (R1 : rinv (Some k) rest w1).
  { apply (rinv_touch None (Some k) rest k ch true (revents_ ch) w R H); [|by rewrite bool_decide_eq_true_2].
    intros i N. rewrite !bool_decide_eq_false_2 by congruence. done. }
  rewrite !(Eg w1 _ H1), when_call, !(Eg w1 _ H1). cbn [Channel.closeCallback_ with_handling revents_]. rewrite P4. cbn [mbind outcome_bind].
  rewrite !(Eg w1 _ H1), when_call, !(Eg w1 _ H1). cbn [errorCallback_ with_handling revents_]. rewrite P5. cbn [mbind outcome_bind].
  rewrite !(Eg w1 _ H1), when_call, !(Eg w1 _ H1). cbn [readCallback_ with_handling revents_]. rewrite P2, bind_assoc.
  eapply fine_bind; [by apply Hrun|]. intros w2 (R2 & H2 & Q2).
  rewrite !(Eg w2 _ H2), when_call, !(Eg w2 _ H2). cbn [writeCallback_ with_handling revents_]. rewrite P3.
  cbn [mbind outcome_bind heap]. rewrite (Eg w2 _ H2), (alter_const _ _ _ _ H2), lookup_insert_eq.
  apply fine_ok. split; [|by exists w2].
  apply (rinv_touch (Some k) None rest k (with_handling true ch) false (revents_ ch) w2 R2 H2); [|done].
  intros i N. rewrite !bool_decide_eq_false_2 by congruence. done.
Qed.

(** The parts of the loop the invariant reads. *)
Lemma rinv_loop hand rest rest' l' w :
  rinv hand rest w → isInLoopThread l' = true → self_ l' = self_ (wl w) →
  channels_ (poller_ l') = channels_ (poller_ (wl w)) → kernel (poller_ l') = kernel (poller_ (wl w)) →
  rest' ++ pendingFunctors_ l' = rest ++ pendingFunctors_ (wl w) → rinv hand rest' (mkWorld l' (heap w) (app w)).
Proof.
  intros [R1 R2 R3 R4 R5 R6 R7 R8 R9 R10 R12 R13 R14 R15] Ht Es Ec Ek Eq.
  split; cbn; rewrite ?Es, ?Eq; try done. revert R2. unfold reg_inv, registered. cbn. by rewrite Ec, Ek.
Qed.

(** ** The events of a turn *)

(** What a channel still to be dispatched promises. *)
Definition due w (id : nat) : Prop :=
  ∃ ch, heap w !! id = Some ch ∧
    (id = wakeup_key → input (revents_ ch) = true → 0 < efd_count (wakeupFd_ (wl w))) ∧
    (id = accept_key → nextConnId_ (srv (app w)) < 10 ^ 9) ∧
    ((2 <= id)%nat → coherent (revents_ ch) ∧ ∃ c, conns (app w) !! id = Some c ∧ live c).

(** How far the loop may have gone: [n] functors more, the wakeup counter no higher. *)
Record progress (n : nat) w w' : Prop := {
  pr_calling : callingPendingFunctors_ (wl w) = false → callingPendingFunctors_ (wl w') = false;
  pr_pending : ∃ fs, pendingFunctors_ (wl w') = pendingFunctors_ (wl w) ++ fs ∧ (length fs <= n)%nat;
  pr_count : efd_count (wakeupFd_ (wl w')) <= efd_count (wakeupFd_ (wl w));
  pr_grows : grows w w'
}.

Lemma progress_trans n m w1 w2 w3 : progress n w1 w2 → progress m w2 w3 → progress (n + m) w1 w3.
Proof.
  intros [A1 (fs & A2 & A2') A3 A4] [B1 (gs & B2 & B2') B3 B4]. split; [auto| |lia|by eapply grows_trans].
  exists (fs ++ gs). rewrite B2, A2, length_app, app_assoc. split; [done|lia].
Qed.

Lemma progress_mono n m w w' : (n <= m)%nat → progress n w w' → progress m w w'.
Proof. intros N [A1 (fs & A2 & ?) A3 A4]. split; [done|exists fs; split; [done|lia]|done|done]. Qed.

Lemma touches_due k n hand rest i w w' :
  rinv hand rest w → callingPendingFunctors_ (wl w) = false → touches k n w w' → i ≠ k →
  (i = accept_key → k ≠ key (nextConnId_ (srv (app w)))) → due w i → due w' i.
Proof.
  intros R Hc [T1 _ (p & e & fs & T3 & _ & _ & T6) _ T5] Ni Na (ch & H & D0 & D1 & D2). destruct (T1 i Ni) as [E1 E2].
  exists ch. rewrite E1, E2, T3. cbn. rewrite (T6 (ri_thread _ _ _ _ _ R) Hc). split_and!; [done|done| |done].
  intros Ei. rewrite T5 by auto. auto.
Qed.

Lemma touches_progress k n hand rest w w' :
  rinv hand rest w → callingPendingFunctors_ (wl w) = false → touches k n w w' → progress n w w'.
Proof.
  intros R Hc T. split; [by rewrite (touches_calling _ _ _ _ T)| | |by apply T];
    destruct (to_loop _ _ _ _ T) as (p & e & fs & -> & Ln & _ & Ee); cbn.
  - by exists fs.
  - by rewrite (Ee (ri_thread _ _ _ _ _ R) Hc).
Qed.

(** What the dispatch of one ready channel achieves. *)
Definition handled (id : nat) w w' : Prop :=
  rinv None [] w' ∧ progress (burst most + 2) w w' ∧ ∀ i, i ≠ id → due w i → due w' i.

Lemma wakeup_active ch w :
  rinv None [] w → heap w !! wakeup_key = Some ch → (input (revents_ ch) = true → 0 < efd_count (wakeupFd_ (wl w))) →
  fine (handled wakeup_key w) (handle_active runCB tied_alive wakeup_key w).
Proof.
  intros R H D0. destruct (ri_wakeup _ _ _ _ _ R) as (d & H' & Pl). rewrite H in H'. injection H' as <-.
  eapply fine_mono; [|apply (plain_active wakeup_key CbWakeup [] ch w
    (fun w2 => ∃ e, w2 = put_chan wakeup_key (with_handling true ch) (mkWorld (set_wakeupFd e (wl w)) (heap w) (app w)) ∧
       efd_count e <= efd_count (wakeupFd_ (wl w))) R H Pl)].
  - intros w' (R' & w2 & (e & -> & He) & _ & ->). split_and!; [done| |].
    + split; [done|exists []; cbn; rewrite app_nil_r; split; [done|lia]|done|apply (grows_refl w)].
    + intros i Ni (di & Hd & E0 & E1 & E2). exists di. cbn. by rewrite !lookup_insert_ne.
  - intros w1 R1 H1. unfold when. destruct (input (revents_ ch)) eqn:Ei.
    + cbn [Reactor.runCB]. unfold on_loop, loop_handleRead. change (wl w1) with (wl w).
      destruct (efd_read_ok (wakeupFd_ (wl w)) (D0 eq_refl)) as (e & -> & He). cbn. apply fine_ok.
      split_and!; [by refine (rinv_loop (Some wakeup_key) [] [] (set_wakeupFd e (wl w)) w1 R1 _ _ _ _ _); [apply R1|..]|exact H1|].
      exists e. split; [done|]. rewrite He. apply efd_nonneg.
    + apply fine_ok. split_and!; [done|exact H1|]. exists (wakeupFd_ (wl w)). split; [|done]. unfold w1. by destruct w as [[] ? ?].
Qed.

Lemma accept_active ch w :
  rinv None [] w → callingPendingFunctors_ (wl w) = false → heap w !! accept_key = Some ch → nextConnId_ (srv (app w)) < 10 ^ 9 →
  fine (handled accept_key w) (handle_active runCB tied_alive accept_key w).
Proof.
  intros R Hc H Hn. destruct (ri_accept _ _ _ _ _ R) as (d & H' & Pl). rewrite H in H'. injection H' as <-.
  set (k := key (nextConnId_ (srv (app w)))). set (w1 := put_chan accept_key (with_handling true ch) w).
  assert (Hk : heap w !! k = None) by (by apply (ri_new _ _ _ _ _ R)).
  assert (Na : accept_key ≠ k) by congruence.
  eapply fine_mono; [|apply (plain_active accept_key CbAccept [] ch w
    (fun w2 => rinv (Some accept_key) [] w1 ∧ rinv (Some accept_key) [] w2 ∧ touches k (burst most) w1 w2) R H Pl)].
  - intros w' (R' & w2 & (R1 & R2 & T2) & H2 & ->).
    pose proof (touch_touches accept_key 0 ch (with_handling true ch) w H eq_refl) as T1. fold w1 in T1.
    pose proof (touch_touches accept_key 0 _ (with_handling false ch) w2 H2 eq_refl) as T3.
    assert (C2 : callingPendingFunctors_ (wl w2) = false) by (by rewrite (touches_calling _ _ _ _ T2)).
    split_and!; [done| |].
    + apply (progress_mono (0 + burst most + 0)); [lia|]. eapply progress_trans; [eapply progress_trans|].
      * by eapply touches_progress.
      * by eapply touches_progress.
      * by eapply touches_progress.
    + intros i Ni Du. eapply (touches_due accept_key 0); [exact R2|done|exact T3|done|done|].
      eapply (touches_due k (burst most)); [exact R1|done|exact T2| |done|].
      * intros ->. destruct Du as (di & Hd & _). congruence.
      * by eapply (touches_due accept_key 0); [exact R|done|exact T1|..].
  - intros w1' R1 H1. change w1' with w1 in *. unfold when. destruct (input (revents_ ch)) eqn:Ei.
    + cbn [Reactor.runCB]. eapply fine_mono; [|apply (accept_step 0 (Some accept_key) [] w1 R1 Hn)].
      * intros w2 (R2 & T2 & _). split_and!; [done| |done|done|exact T2]. destruct (to_others _ _ _ _ T2 accept_key Na) as [-> _]. exact H1.
      * intros j [= <-]. by eexists.
      * by eapply handling_queue.
    + apply fine_ok. split_and!; [done|exact H1|done|done|apply touches_refl].
Qed.

Lemma active_ok id w :
  rinv None [] w → callingPendingFunctors_ (wl w) = false → due w id → fine (handled id w) (handle_active runCB tied_alive id w).
Proof.
  intros R Hc (ch & H & D0 & D1 & D2).
  destruct (decide (id = wakeup_key)) as [->|N0]; [by apply (wakeup_active ch); auto|].
  destruct (decide (id = accept_key)) as [->|N1]; [by apply (accept_active ch); auto|].
  destruct (D2 ltac:(unfold wakeup_key, accept_key in *; lia)) as (Co & c & C & Lv).
  eapply fine_mono; [|by apply (conn_active id [] ch c w)]. intros w' [R' T]. split_and!; [done|by eapply touches_progress|].
  intros i Ni Du. eapply touches_due; [exact R|done|exact T|done| |done]. intros _ Ek.
  rewrite (ri_new _ _ _ _ _ R id) in H; [done|lia].
Qed.

(** The [for] over [activeChannels_]. *)
Definition dispatch_all (ids : list nat) w : outcome W :=
  foldM (fun it w =>
    let w := upd_loop (fun l => set_active (pollReturnTime_ l) (activeChannels_ l) (Some it) l) w in
    handle_active runCB tied_alive it w) ids w.

Lemma dispatch_all_ok ids w :
  NoDup ids → rinv None [] w → callingPendingFunctors_ (wl w) = false → (∀ i, i ∈ ids → due w i) →
  fine (fun w' => rinv None [] w' ∧ progress ((burst most + 2) * length ids) w w') (dispatch_all ids w).
Proof.
  revert w; induction ids as [|id ids IH]; intros w Nd R Hc Hd.
  { apply fine_ok. split; [done|]. split; [done|exists []; rewrite app_nil_r; split; [done|apply Nat.le_0_l]|done|apply grows_refl]. }
  apply NoDup_cons in Nd as [Ni Nd]. unfold dispatch_all. cbn [foldM]. set (w1 := upd_loop _ w).
  assert (R1 : rinv None [] w1) by (refine (rinv_loop None [] [] _ w R _ _ _ _ _); [apply R|done..]).
  eapply fine_bind; [apply active_ok; [exact R1|done|apply (Hd id); set_solver]|].
  intros w2 (R2 & P2 & D2). eapply fine_mono; [|apply (IH w2); [done|done|by apply P2|]].
  - intros w' [R' P']. split; [done|]. cbn [length]. rewrite Nat.mul_succ_r, Nat.add_comm. eapply progress_trans; [|exact P'].
    destruct P2 as [A1 A2 A3 A4]. by split.
  - intros i Hi. apply D2; [set_solver|]. apply (Hd i). set_solver.
Qed.

(** ** The poll *)

(** What [epoll_wait(2)] documents of its result: at most as many events as there is room for, one per registered
    descriptor, with the pointer of its registration; and the wakeup channel is readable only with a count. *)
Definition ready_ok (r : wait_result) w : Prop :=
  match r with
  | WaitError => True
  | WaitReady ready =>
      NoDup ready.*2 ∧ zlen ready <= events_size (poller_ (wl w)) ∧
      ∀ ev id, (ev, id) ∈ ready → (∃ fd e, interest (kernel (poller_ (wl w))) !! fd = Some (e, id)) ∧ coherent ev ∧
        (id = wakeup_key → input ev = true → 0 < efd_count (wakeupFd_ (wl w)))
  end.
Definition reports (r : wait_result) : list (Z * nat) := match r with WaitError => [] | WaitReady l => l end.

(** A registered channel in the kernel is in the heap, and a connection's is live. *)
Lemma reported_live w fd e id :
  rinv None [] w → interest (kernel (poller_ (wl w))) !! fd = Some (e, id) →
  ∃ ch, heap w !! id = Some ch ∧ ((2 <= id)%nat → ∃ c, conns (app w) !! id = Some c ∧ live c).
Proof.
  intros R Hi. destruct (ri_reg _ _ _ _ _ R) as (Rg & _ & _ & In). destruct (In _ _ _ Hi) as (ch & H & Ef). exists ch. split; [done|].
  intros Hk. pose proof (ri_conn _ _ _ _ _ R id Hk) as O. cbn in H. rewrite H in O. unfold conn_at in O.
  destruct (conns (app w) !! id) as [c|]; [|done]. exists c. split; [done|].
  destruct (co_state _ _ _ O) as [[? _]|[_ Ei]]; [done|]. destruct (Rg id ch H) as [_ [(X & _)|[(X & _)|(_ & _ & X)]]]; [by rewrite Ei in X|by rewrite Ei in X|].
  cbn in X. congruence.
Qed.

Definition fill_body (ev : Z * nat) (st : gmap nat (Channel rcb) * list nat) : outcome (gmap nat (Channel rcb) * list nat) :=
  let '(heap, active) := st in
  match heap !! ev.2 with
  | None => Fault Undefined
  | Some c => Ok (<[ev.2 := set_revents ev.1 c]> heap, active ++ [ev.2])
  end.

Lemma fill_ok ready active w :
  rinv None [] w → NoDup ready.*2 → (∀ ev id, (ev, id) ∈ ready → is_Some (heap w !! id)) →
  ∃ h, foldM fill_body ready (heap w, active) = Ok (h, active ++ ready.*2) ∧ rinv None [] (mkWorld (wl w) h (app w)) ∧
    (∀ id, id ∉ ready.*2 → h !! id = heap w !! id) ∧
    ∀ ev id, (ev, id) ∈ ready → ∃ ch, h !! id = Some ch ∧ revents_ ch = ev.
Proof.
  revert active w; induction ready as [|[ev id] ready IH]; intros active w R Nd Hl.
  { exists (heap w). cbn. rewrite app_nil_r. split_and!; [done|by destruct w|done|set_solver]. }
  apply NoDup_cons in Nd as [Ni Nd]. cbn [fst snd] in Ni. destruct (Hl ev id) as [ch H]; [set_solver|].
  cbn [foldM fill_body snd fst]. rewrite H. cbn [mbind outcome_bind].
  set (w1 := put_chan id (set_revents ev ch) w).
  assert (R1 : rinv None [] w1).
  { pose proof (rinv_touch None None [] id ch false ev w R H ltac:(done) eq_refl) as R1.
    assert (E' : with_handling false (set_revents ev ch) = set_revents ev ch).
    { pose proof (ri_hand _ _ _ _ _ R id ch H) as Hf. rewrite bool_decide_eq_false_2 in Hf by done. destruct ch. cbn in *. by subst. }
    by rewrite E' in R1. }
  destruct (IH (active ++ [id]) w1 R1 Nd) as (h & Ef & Rh & Ho & Hr).
  { intros ev' id' Hin. cbn. rewrite lookup_insert_is_Some'. right. apply (Hl ev'). set_solver. }
  exists h. cbn [heap put_chan w1] in Ef. rewrite Ef, <-app_assoc. split_and!; [done|exact Rh| |].
  - intros i Hi. cbn in Hi. rewrite Ho by set_solver. cbn. rewrite lookup_insert_ne; [done|]. set_solver.
  - intros ev' id' [[= -> ->]|Hin]%elem_of_cons; [|by apply Hr].
    exists (set_revents ev ch). rewrite Ho by done. cbn. by rewrite lookup_insert_eq.
Qed.

(** ** The functors after the events *)

Lemma waiting_cons k t q : waiting k (t :: q) = if decide (about t = Some k) then t :: waiting k q else waiting k q.
Proof. unfold waiting. case_decide; [by rewrite filter_cons_True|by rewrite filter_cons_False]. Qed.

(** The first functor is a connection's own, or the one that destroys a connection and is its last. *)
Lemma first_functor t rest w :
  rinv None (t :: rest) w →
  ∃ k c, about t = Some k ∧ conns (app w) !! k = Some c ∧
    ((∃ f, t = TConn k f ∧ op_fits (OFunctor f) ∧ (f = FShutdownInLoop → state_ c ≠ KConnected) ∧ rinv None rest w) ∨
     (t = gone k ∧ state_ c = KDisconnected ∧ waiting k (rest ++ pendingFunctors_ (wl w)) = [])).
Proof.
  intros R. pose proof (ri_about _ _ _ _ _ R) as Ab. cbn [Datatypes.app] in Ab. apply Forall_cons in Ab as [[k Ek] Ab].
  pose proof (ri_queue _ _ _ _ _ R k) as Q. cbn [Datatypes.app] in Q. rewrite waiting_cons, decide_True in Q by done. unfold queue_ok in Q.
  destruct (conns (app w) !! k) as [c|] eqn:C; [|done]. exists k, c. split_and!; [done|done|].
  assert (Pop : ∀ f, t = TConn k f → queue_ok k (Some c) (waiting k (rest ++ pendingFunctors_ (wl w))) → rinv None rest w).
  { intros f -> Qk. destruct R as [R1 R2 R3 R4 R5 R6 R7 R8 R9 R10 R12 R13 R14 R15]. split; try done. intros i.
    destruct (decide (i = k)) as [->|Ni]; [by rewrite C|]. specialize (R14 i). cbn [Datatypes.app] in R14.
    by rewrite waiting_cons, decide_False in R14 by (cbn; congruence). }
  case_decide as Ds.
  - destruct Q as (a & Qa & Qo). destruct a as [|x a]; cbn in Qa; injection Qa as -> Qa; [by right|left].
    apply Forall_cons in Qo as [(f & -> & Ff & Fs) Qo]. exists f. split_and!; [done..|]. apply (Pop f); [done|].
    unfold queue_ok. rewrite decide_True by done. by exists a.
  - apply Forall_cons in Q as [(f & -> & Ff & Fs) Q]. left. exists f. split_and!; [done..|]. apply (Pop f); [done|].
    unfold queue_ok. by rewrite decide_False.
Qed.

(** After the last functor the connection is out of the poller, the heap, the table and the descriptor table. *)
Lemma rinv_destroy rest k ch c p w :
  rinv None (gone k :: rest) w → heap w !! k = Some ch → conns (app w) !! k = Some c → state_ c = KDisconnected →
  waiting k (rest ++ pendingFunctors_ (wl w)) = [] → registered (set_index KNew ch) p → frame (fd_ ch) (poller_ (wl w)) p →
  let a := lsn (app w) in
  rinv None rest (mkWorld (set_poller p (wl w)) (delete k (heap w))
    (mkReactor (srv (app w)) (with_kernel (idlefd_ a) (k_close (fd_ ch) (ac_kernel a)) a) (delete k (conns (app w))))).
Proof.
  intros R H C Dn Wq Rg F. destruct (rinv_conn Hh R C) as (Hk & _).
  destruct R as [R1 R2 R3 R4 R5 R6 R7 R8 R9 [R10 R11] R12 R13 R14 R15].
  assert (Sub : ∀ i d, delete k (heap w) !! i = Some d → i ≠ k ∧ heap w !! i = Some d).
  { intros i d Hd. apply lookup_delete_Some in Hd as [? ?]. auto. }
  assert (Rp : reg_inv (mkRegistry (delete k (heap w)) p)).
  { destruct (proj1 R2 k ch H) as [Hid _].
    pose proof (reg_inv_replace _ k ch (set_index KNew ch) p R2 H eq_refl eq_refl F Rg) as Rr.
    pose proof (reg_inv_destroy _ k (set_index KNew ch) Rr (lookup_insert_eq _ _ _) eq_refl) as Rd. cbn in Rd.
    by rewrite delete_insert_eq in Rd. }
  split; cbn; try done.
  - intros i d Hd. apply Sub in Hd as [_ Hd]. by apply (R3 i).
  - destruct R4 as (d & Hd & P). exists d. rewrite lookup_delete_ne; [done|unfold wakeup_key; lia].
  - destruct R5 as (d & Hd & P). exists d. rewrite lookup_delete_ne; [done|unfold accept_key; lia].
  - intros i Hi. destruct (decide (i = k)) as [->|Ni]; [by rewrite !lookup_delete_eq|]. rewrite !lookup_delete_ne by done. by apply R6.
  - intros i Hi. rewrite lookup_delete_ne by lia. by apply R7.
  - intros i Hi. apply lookup_delete_None. right. by apply R8.
  - intros i d Hd. apply Sub in Hd as [_ Hd]. by apply R9.
  - split; cbn; rewrite close_fd.
    + intros i d Hd. apply Sub in Hd as [Ni Hd]. destruct (R10 i d Hd) as (? & ? & ?). split_and!; [done| |done].
      apply elem_of_difference. split; [done|]. rewrite elem_of_singleton. intros Ef. apply Ni. by apply (proj1 (proj2 R2) i k d ch).
    + intros Hi. apply elem_of_difference. split; [auto|]. rewrite elem_of_singleton. intros Ef. by destruct (R10 k ch H) as (_ & _ & ?).
  - eapply srv_gone; [done|exact C|]. unfold live. rewrite Dn. naive_solver.
  - intros i. destruct (decide (i = k)) as [->|Ni]; [by rewrite lookup_delete_eq|]. rewrite lookup_delete_ne by done.
    specialize (R14 i). cbn [Datatypes.app] in R14. rewrite waiting_cons, decide_False in R14; [done|]. cbn. rewrite key_number by lia. congruence.
  - by apply Forall_cons in R15 as [_ R15].
Qed.

(** What running one functor achieves. *)
Definition ran (j : nat) (rest : list rfn) w w' : Prop :=
  rinv None rest w' ∧ loop_can_queue j (wl w') ∧ grows w w' ∧ lp_eventHandling_ (wl w') = lp_eventHandling_ (wl w).

Lemma destroyed_step j k c rest w :
  rinv None (gone k :: rest) w → lp_eventHandling_ (wl w) = false → loop_can_queue j (wl w) →
  conns (app w) !! k = Some c → state_ c = KDisconnected → waiting k (rest ++ pendingFunctors_ (wl w)) = [] →
  fine (fun w' => ran j rest w w' ∧ conns (app w') !! k = None) (runT (gone k) w).
Proof.
  intros R He Q C Dn Wq. destruct (rinv_conn Hh R C) as (Hk & ch & H & O & I).
  cbn [Reactor.runT run_server_functor gone]. rewrite key_number by lia. unfold with_conn. rewrite H, C.
  unfold connnectDestroyed. rewrite (assert_in _ _ I). cbn [mbind outcome_bind]. change (state_ (with_channel ch c)) with (state_ c).
  rewrite Dn. change (is_state KDisconnected KConnected) with false. cbn iota. cbn [mbind outcome_bind].
  pose proof (ci_state _ _ I) as St. unfold state_inv in St. change (state_ (with_channel ch c)) with (state_ c) in St. rewrite Dn in St. cbn in St.
  destruct (ri_reg _ _ _ _ _ R) as (Rg & _). destruct (Rg k ch H) as [_ Rk]. cbn in Rk.
  destruct (remove_channel_spec ch (poller_ (wl w)) Rk) as (p & Ep & Rn & F).
  assert (Er : on_channel remove (with_channel ch c) (wl w, srv (app w)) = Ok (with_channel (set_index KNew ch) c, (set_poller p (wl w), srv (app w)))).
  { unfold on_channel, remove, isNoneEvent. cbn [channel_ with_channel]. rewrite St. cbn [assert_ KNoneEvent Z.eqb mbind outcome_bind].
    cbn [removeChannel beside_services loop_services fst snd]. unfold loop_removeChannel, assertInLoopThread.
    rewrite (proj2 (Nat.eqb_eq _ _)) by (by apply (ri_self _ _ _ _ _ R k)). rewrite (ri_thread _ _ _ _ _ R), He. cbn [assert_ mbind outcome_bind].
    by rewrite Ep. }
  rewrite Er. cbn [mbind outcome_bind]. unfold destroy_conn, put_conn. cbn [heap app wl srv lsn conns channel_ with_channel].
  rewrite lookup_insert_eq. unfold destroy_channel. cbn [eventHandling_ set_index].
  rewrite (ri_hand _ _ _ _ _ R k ch H), bool_decide_eq_false_2 by done. cbn [negb assert_ mbind outcome_bind].
  rewrite !delete_insert_eq. apply fine_ok. split; [|apply lookup_delete_eq]. split_and!; [exact (rinv_destroy rest k ch c p w R H C Dn Wq Rn F)|done| |done].
  split; [done|]. intros i d Hd. cbn in Hd. apply lookup_delete_Some in Hd as [_ Hd]. left. by exists d.
Qed.

Lemma runT_ok j t rest w :
  rinv None (t :: rest) w → lp_eventHandling_ (wl w) = false → loop_can_queue (most + Datatypes.S j) (wl w) →
  fine (fun w' => ran j rest w w' ∧ ∀ k, t = gone k → conns (app w') !! k = None ∧ (k < key (nextConnId_ (srv (app w'))))%nat) (runT t w).
Proof.
  intros R He Q. destruct (first_functor t rest w R) as (k & c & Ek & C & [(f & -> & Ff & Fs & R')|(-> & Dn & Wq)]).
  - destruct (rinv_conn Hh R' C) as (Hk & ch & H & _). cbn [Reactor.runT].
    eapply fine_mono; [|by apply (functor_step acts most user_fits name host Hh j None rest k ch c w R' H C Q f)].
    intros w' (R2 & T2 & Q2). split; [|done]. split_and!; [done|done|by apply T2|]. by destruct (to_loop _ _ _ _ T2) as (p & e & fs & -> & _).
  - eapply fine_mono; [|apply (destroyed_step j k c); try done; apply (can_queue_less (most + Datatypes.S j)); [lia|done]].
    intros w' [Rn Cn]. split; [done|]. intros k' Ek'. destruct (rinv_conn Hh R C) as (Hk & ch & H & _).
    assert (k' = k) as ->.
    { pose proof (f_equal about Ek') as Ea. destruct Rn as (Rn & _). cbn in Ea, Ek. injection Ea as Ea. unfold number, key in *. 
      injection Ek' as Ek'. unfold number in Ek'. lia. }
    split; [done|]. destruct Rn as (_ & _ & [Nx _] & _). destruct (decide (k < key (nextConnId_ (srv (app w))))%nat) as [?|N]; [unfold key in *; lia|].
    rewrite (ri_new _ _ _ _ _ R k) in H; [done|lia].
Qed.

Lemma run_all_ok rest j w :
  rinv None rest w → lp_eventHandling_ (wl w) = false → loop_can_queue ((most + 1) * length rest + j) (wl w) →
  fine (fun w' => ran j [] w w' ∧ ∀ k, gone k ∈ rest → conns (app w') !! k = None) (foldM runT rest w).
Proof.
  revert w; induction rest as [|t rest IH]; intros w R He Q.
  { apply fine_ok. split; [|set_solver]. split_and!; [done|apply (can_queue_less ((most + 1) * 0 + j)); [lia|done]|apply grows_refl|done]. }
  cbn [foldM]. eapply fine_bind; [apply (runT_ok ((most + 1) * length rest + j) t rest); [done|done|]|].
  - apply (can_queue_less ((most + 1) * length (t :: rest) + j)); [cbn [length]; lia|done].
  - intros w1 ((R1 & Q1 & G1 & E1) & Gone). eapply fine_mono; [|by apply IH; [..|rewrite E1|]].
    intros w' ((R' & Q' & G' & E') & Gone'). split; [split_and!; [done|done|by eapply grows_trans|congruence]|].
    intros k [Et|Hin]%elem_of_cons; [|by apply Gone']. destruct (Gone k (eq_sym Et)) as [Cn Nk].
    destruct (conns (app w') !! k) as [c'|] eqn:C'; [|done]. destruct G' as [_ G']. destruct (G' k c' C') as [(c & Hc & _)|?]; [congruence|lia].
Qed.

(** ** A turn *)

(** The poll and the events of [loop_turn]. *)
Definition events_phase (r : wait_result) (now : Z) w : outcome W :=
  '(t, h, active, p) ← poll r now (heap w) (poller_ (wl w));
  let w := mkWorld (set_handling true (set_active t active (currentActiveChannel_ (wl w)) (set_poller p (wl w)))) h (app w) in
  w ← dispatch_all active w;
  Ok (upd_loop (fun l => set_handling false (set_active (pollReturnTime_ l) (activeChannels_ l) None l)) w).

Lemma turn_phases r now w : turn acts listen_r r now w = (w ← events_phase r now w; doPendingFunctors runT w).
Proof.
  unfold turn, loop_turn, events_phase. destruct (poll _ _ _ _) as [[[[t h] active] p]|]; [|done]. cbn [mbind outcome_bind].
  rewrite bind_assoc. done.
Qed.

Lemma poll_ok r now w :
  rinv None [] w → nextConnId_ (srv (app w)) < 10 ^ 9 → ready_ok r w →
  ∃ t h active p, poll r now (heap w) (poller_ (wl w)) = Ok (t, h, active, p) ∧ active = (reports r).*2 ∧
    channels_ p = channels_ (poller_ (wl w)) ∧ kernel p = kernel (poller_ (wl w)) ∧
    rinv None [] (mkWorld (wl w) h (app w)) ∧ ∀ i, i ∈ active → due (mkWorld (wl w) h (app w)) i.
Proof.
  intros R Hn Ok. assert (Rw : rinv None [] (mkWorld (wl w) (heap w) (app w))) by (by destruct w).
  destruct r as [|ready]; cbn [poll reports].
  { exists now, (heap w), [], (poller_ (wl w)). split_and!; [done..|set_solver]. }
  destruct Ok as (Nd & Hs & He). destruct (0 <? zlen ready) eqn:El; bool_prop; cycle 1.
  { pose proof (zlen_nonneg ready). rewrite (zlen_0 ready) by lia. exists now, (heap w), [], (poller_ (wl w)). split_and!; [done..|set_solver]. }
  unfold fillActiveChannel. rewrite (proj2 (Z.leb_le _ _)) by done. cbn [assert_ mbind outcome_bind].
  destruct (fill_ok ready [] w R Nd) as (h & Ef & Rh & _ & Hr).
  { intros ev id Hin. destruct (He ev id Hin) as ((fd & e & Hi) & _). destruct (reported_live w fd e id R Hi) as (ch & -> & _). by eexists. }
  fold fill_body. rewrite Ef. cbn [mbind outcome_bind]. eexists now, h, _, _. split; [reflexivity|]. split; [done|].
  split_and!; [by destruct (_ =? _)|by destruct (_ =? _)|done|].
  intros i Hi. cbn [Datatypes.app] in Hi. apply list_elem_of_fmap in Hi as ([ev id] & -> & Hin). cbn [snd].
  destruct (Hr ev id Hin) as (ch & Hch & Er). destruct (He ev id Hin) as ((fd & e & Hk) & Co & Wk).
  destruct (reported_live w fd e id R Hk) as (_ & _ & Lv). exists ch. rewrite Er. split_and!; [done|done|done|by auto].
Qed.

Lemma events_ok r now w :
  rinv None [] w → callingPendingFunctors_ (wl w) = false → nextConnId_ (srv (app w)) < 10 ^ 9 → ready_ok r w →
  fine (fun w' => rinv None [] w' ∧ progress ((burst most + 2) * length (reports r)) w w' ∧ lp_eventHandling_ (wl w') = false) (events_phase r now w).
Proof.
  intros R Hc Hn Ok. destruct (poll_ok r now w R Hn Ok) as (t & h & active & p & Ep & -> & Ec & Ek & Rh & Hd).
  assert (Nd : NoDup (reports r).*2) by (destruct r; [constructor|apply Ok]).
  unfold events_phase. rewrite Ep. cbn [mbind outcome_bind]. set (w1 := mkWorld (set_handling _ _) _ _).
  assert (R1 : rinv None [] w1) by (refine (rinv_loop None [] [] _ _ Rh _ _ _ _ _); [apply R|done|exact Ec|exact Ek|done]).
  eapply fine_bind; [apply (dispatch_all_ok _ w1 Nd R1 Hc Hd)|]. intros w2 [R2 P2]. apply fine_ok. split_and!; [|rewrite length_fmap in P2|done].
  - refine (rinv_loop None [] [] _ w2 R2 _ _ _ _ _); [apply R2|done..].
  - destruct P2 as [A1 A2 A3 A4]. by split.
Qed.

(** Between turns. *)
Definition settled w : Prop := rinv None [] w ∧ callingPendingFunctors_ (wl w) = false.

(** The wakeup counter, at 2^64 - 2 at most, has room for what the functors of this turn may queue. *)
Definition budget (r : wait_result) w : Prop :=
  efd_count (wakeupFd_ (wl w)) + Z.of_nat ((most + 1) * (length (pendingFunctors_ (wl w)) + (burst most + 2) * length (reports r))) <= 2 ^ 64 - 2.

Lemma turn_ok r now w :
  settled w → nextConnId_ (srv (app w)) < 10 ^ 9 → ready_ok r w → budget r w →
  fine (fun w' => settled w' ∧ grows w w' ∧
    ∀ k c, conns (app w) !! k = Some c → state_ c = KDisconnected → conns (app w') !! k = None) (turn acts listen_r r now w).
Proof.
  intros [R Hc] Hn Ok Bu. rewrite turn_phases. eapply fine_bind; [by apply events_ok|]. intros w1 (R1 & [_ (gs & P1 & P1') P2 P3] & He).
  unfold doPendingFunctors. cbn zeta. set (wc := upd_loop (set_pending []) _).
  change (pendingFunctors_ (wl (upd_loop (set_calling true) w1))) with (pendingFunctors_ (wl w1)).
  assert (Rc : rinv None (pendingFunctors_ (wl w1)) wc).
  { refine (rinv_loop None [] _ _ w1 R1 _ _ _ _ _); [apply R1|done|done|done|apply app_nil_r]. }
  eapply fine_bind; [apply (run_all_ok (pendingFunctors_ (wl w1)) 0 wc Rc He)|].
  { right. unfold budget in Bu. cbn. assert (M : ((most + 1) * length (pendingFunctors_ (wl w1)) <=
      (most + 1) * (length (pendingFunctors_ (wl w)) + (burst most + 2) * length (reports r)))%nat) by (rewrite P1, length_app; apply Nat.mul_le_mono_l; lia). lia. }
  intros w2 ((R2 & _ & G2 & _) & Gone). apply fine_ok. split_and!; [split; [|done]| |].
  - refine (rinv_loop None [] [] _ w2 R2 _ _ _ _ _); [apply R2|done..].
  - apply (grows_trans w w1); [done|]. exact G2.
  - intros k c C Dn. apply Gone. rewrite P1, elem_of_app. left. pose proof (ri_queue _ _ _ _ _ R k) as Qk. rewrite C in Qk.
    cbn [queue_ok] in Qk. rewrite decide_True in Qk by done. destruct Qk as (a & Qa & _).
    assert (Hin : gone k ∈ waiting k (pendingFunctors_ (wl w))) by (change (waiting k (pendingFunctors_ (wl w)) = a ++ [gone k]) in Qa; rewrite Qa; set_solver).
    by apply list_elem_of_filter in Hin as [_ ?].
Qed.

(** ** Other threads *)

(** A call from another thread leaves the connection as it is, or queues one functor and wakes the loop. *)
Lemma remote_act k a c l s :
  isInLoopThread l = false → remote a = true → act_fits a → live c ∨ state_ c = KDisconnected → efd_count (wakeupFd_ l) < 2 ^ 64 - 2 →
  run_uact (TConn k) a c (l, s) = Ok (c, (l, s)) ∨
  ∃ c' f e, run_uact (TConn k) a c (l, s) = Ok (c', (set_pending (pendingFunctors_ l ++ [TConn k f]) (set_wakeupFd e l), s)) ∧ live c ∧
    (c' = c ∨ c' = with_state KDisconnecting c) ∧ op_fits (OFunctor f) ∧ (f = FShutdownInLoop → state_ c' ≠ KConnected).
Proof.
  intros Ht Ra Fa Ud Hw.
  assert (Post : ∀ d f, live c → (d = c ∨ d = with_state KDisconnecting c) → op_fits (OFunctor f) → (f = FShutdownInLoop → state_ d ≠ KConnected) →
    ∃ c' f' e, post (TConn k) f d (l, s) = Ok (c', (set_pending (pendingFunctors_ l ++ [TConn k f']) (set_wakeupFd e l), s)) ∧ live c ∧
      (c' = c ∨ c' = with_state KDisconnecting c) ∧ op_fits (OFunctor f') ∧ (f' = FShutdownInLoop → state_ c' ≠ KConnected)).
  { intros d f Lv Hd Ff Fs. exists d, f. unfold post. cbn [queueInLoop beside_services loop_services fst snd]. unfold loop_queueInLoop, when.
    change (isInLoopThread (set_pending _ l)) with (isInLoopThread l). rewrite Ht. cbn [negb orb].
    destruct (wakeup_ok (set_pending (pendingFunctors_ l ++ [TConn k f]) l)) as (e & -> & _); [done|]. by exists e. }
  destruct a as [m| | | |]; try done; cbn [run_uact].
  - unfold send. destruct (is_state (state_ c) KConnected) eqn:Es; [|by left]. cbn [inLoopThread beside_services loop_services fst]. rewrite Ht. right.
    apply bool_decide_eq_true in Es. apply Post; [by left|by left|exact Fa|done].
  - unfold shutdown. destruct (is_state (state_ c) KConnected) eqn:Es; [|by left]. cbn [inLoopThread beside_services loop_services fst]. rewrite Ht. right.
    apply bool_decide_eq_true in Es. apply Post; [by left|by right|done|done].
  - unfold forceClose. destruct (_ || _) eqn:Es; [|by left]. right. apply orb_true_iff in Es.
    apply Post; [destruct Es as [Es|Es]; apply bool_decide_eq_true in Es; [by left|by right]|by right|done|done].
Qed.

Lemma remote_put k ch c c' fs e w :
  rinv None [] w → heap w !! k = Some ch → conns (app w) !! k = Some c →
  c' = with_channel ch c ∨ (live c ∧ c' = with_state KDisconnecting (with_channel ch c)) → (fs = [] ∨ live c) → Forall (waits k c') fs →
  let w' := put_conn k c' (set_pending (pendingFunctors_ (wl w) ++ fs) (set_wakeupFd e (wl w))) (srv (app w)) w in
  rinv None [] w' ∧ grows w w'.
Proof.
  intros R H C Hc' Hf Fs. destruct (rinv_conn Hh R C) as (Hk & ch' & H' & O & I). rewrite H in H'. injection H' as <-.
  assert (Ech : channel_ c' = ch) by (by destruct Hc' as [->|[_ ->]]).
  assert (Lv : live c ↔ live c') by (destruct Hc' as [->|[? ->]]; [done|split; [by right|done]]).
  assert (Rk : (rank (state_ c) <= rank (state_ c'))%nat) by (destruct Hc' as [->|[[X|X] ->]]; [done|cbn; rewrite X; cbn; lia..]).
  assert (I' : conn_inv c' (wl w, srv (app w))) by (destruct Hc' as [->|[? ->]]; [done|by apply inv_disconnecting]).
  apply conn_inv_core in I' as (_ & [_ Rg] & Core). rewrite Ech in Rg.
  assert (Ud : live c ∨ state_ c = KDisconnected) by (destruct (co_state _ _ _ O) as [[? _]|[? _]]; auto).
  split.
  - eapply (rinv_put name host Hh None [] k ch c c' _ _ (poller_ (wl w)) e fs); try done.
    + by rewrite Ech.
    + exists (index_ ch), (events_ ch). rewrite Ech. by destruct ch.
    + rewrite Ech. split; [rewrite <-Ech; by rewrite with_channel_id|apply O|].
      destruct (co_state _ _ _ O) as [[L1 Rd]|[Dn Ei]]; [left; split; [by apply Lv|done]|right; split; [|done]].
      destruct Hc' as [->|[[X|X] _]]; [done|congruence..].
    + eapply Forall_impl; [exact Fs|]. by intros x (f & -> & _).
    + pose proof (ri_queue _ _ _ _ _ R k) as Qk. rewrite C in Qk. cbn [queue_ok] in *. case_decide as Dn.
      * destruct Hf as [->|[X|X]]; [|congruence..]. rewrite app_nil_r. assert (state_ c' = KDisconnected) as Dn'.
        { destruct Hc' as [->|[[X|X] _]]; [done|congruence..]. }
        rewrite decide_True by done. destruct Qk as (x & -> & Qx). exists x. split; [done|]. by apply (waits_later k c).
      * destruct Ud as [L1|]; [|done]. rewrite decide_False by (apply Lv in L1; destruct L1; congruence).
        apply Forall_app. split; [by apply (waits_later k c); [left| |]|done].
    + eapply srv_same; [apply R|exact C|done].
  - split; [done|]. intros i d Hd. left. cbn in Hd. destruct (decide (i = k)) as [->|Ni].
    + rewrite lookup_insert_eq in Hd. injection Hd as <-. exists c. split_and!; [done|done|]. by destruct Hc' as [->|[_ ->]].
    + rewrite lookup_insert_ne in Hd by done. by exists d.
Qed.

Lemma remote_ok t k a c w :
  settled w → t ≠ threadId_ (wl w) → conns (app w) !! k = Some c → remote a = true → act_fits a → efd_count (wakeupFd_ (wl w)) < 2 ^ 64 - 2 →
  ∃ w', from_thread t k a w = Ok w' ∧ settled w' ∧ grows w w'.
Proof.
  intros [R Hc] Nt C Ra Fa Hw. destruct (rinv_conn Hh R C) as (Hk & ch & H & O & I).
  assert (Ud : live c ∨ state_ c = KDisconnected) by (destruct (co_state _ _ _ O) as [[? _]|[? _]]; auto).
  assert (Nl : isInLoopThread (run_by t (wl w)) = false) by (unfold isInLoopThread; cbn; by apply Z.eqb_neq).
  assert (Put : ∀ c' fs e, (c' = with_channel ch c ∨ (live c ∧ c' = with_state KDisconnecting (with_channel ch c))) → (fs = [] ∨ live c) → Forall (waits k c') fs →
    ∃ w', Ok (upd_loop (run_by (runner_ (wl w))) (put_conn k c' (set_pending (pendingFunctors_ (wl w) ++ fs) (set_wakeupFd e (run_by t (wl w)))) (srv (app w)) (upd_loop (run_by t) w))) = Ok w' ∧
      settled w' ∧ grows w w').
  { intros c' fs e H1 H2 H3. destruct (remote_put k ch c c' fs e w R H C H1 H2 H3) as [R' G']. eexists. split; [reflexivity|].
    assert (E' : upd_loop (run_by (runner_ (wl w))) (put_conn k c' (set_pending (pendingFunctors_ (wl w) ++ fs) (set_wakeupFd e (run_by t (wl w)))) (srv (app w)) (upd_loop (run_by t) w))
      = put_conn k c' (set_pending (pendingFunctors_ (wl w) ++ fs) (set_wakeupFd e (wl w))) (srv (app w)) w) by (by destruct w as [[] ? ?]).
    by rewrite E'. }
  unfold from_thread, with_conn. change (heap (upd_loop _ w)) with (heap w). change (app (upd_loop _ w)) with (app w). change (wl (upd_loop (run_by t) w)) with (run_by t (wl w)).
  rewrite H, C.
  destruct (remote_act k a (with_channel ch c) (run_by t (wl w)) (srv (app w)) Nl Ra Fa Ud Hw)
    as [->|(c' & f & e & -> & Lv & Hc' & Ff & Fs)]; cbn [mbind outcome_bind].
  - assert (El : run_by t (wl w) = set_pending (pendingFunctors_ (wl w) ++ []) (set_wakeupFd (wakeupFd_ (wl w)) (run_by t (wl w)))).
    { rewrite app_nil_r. by destruct (wl w). }
    pose proof (Put (with_channel ch c) [] (wakeupFd_ (wl w)) ltac:(by left) ltac:(by left) ltac:(constructor)) as X. rewrite <-El in X. exact X.
  - apply (Put c' [TConn k f] e); [destruct Hc' as [->| ->]; [by left|by right]|by right|]. repeat constructor. by exists f.
Qed.
End Turn.
