(* ===== verification/ReactorServer.v ===== *)
(** * ReactorServer: a server from its first call on

    [Reactor.boot] ends in a settled world, and every turn of the loop from there keeps it so: the claims about the
    composed server, with an echo server on model kernels as their witness. *)

From S2P Require Import Prelude Buffer Channel Poller EventLoop Sockets TcpConnection ConnFrame TcpServer Reactor ReactorSafe ReactorTurn.

Section Server.
Context {K E D S : Type} `{EK : EpollKernel K} `{EL : !EpollLaws K} `{EF : EventfdKernel E} `{ELw : !EventfdLaws E}.
Context `{AK : AcceptKernel D} `{AL : !AcceptLaws D} `{SK : SocketKernel S} `{SL : !SocketLaws S} `{FT : !FdTable D S} `{FL : !FdLaws D S}.
Local Abbreviation L := (EventLoop rfn K E).
Local Abbreviation W := (World rcb rfn K E (reactor D S)).
Local Abbreviation conn := (TcpConnection rcb S).
Context (acts : nat → conn → list uact) (listen_r : Z) (most : nat).
Context (user_fits : ∀ k c, Forall act_fits (acts k c) ∧ (length (acts k c) <= most)%nat).
Context (name host : chars) (Hh : (length (c_str host) <= 21)%nat).
Implicit Types (w : W) (ch : Channel rcb) (l : L).

(** A new channel starts reading, in its loop's thread. *)
Lemma reading_starts ch l :
  isInLoopThread l = true → loop_ ch = self_ l → index_ ch = KNew → events_ ch = KNoneEvent → registered ch (poller_ l) →
  ∃ p, enableReading (T := rfn) ch l = Ok (set_index KAdded (with_events KReadEvent ch), set_poller p l) ∧
    frame (fd_ ch) (poller_ l) p ∧ registered (set_index KAdded (with_events KReadEvent ch)) p.
Proof.
  intros Ht Hl Hi Hv Hr. unfold enableReading, update. rewrite Hv. change (Z.lor KNoneEvent KReadEvent) with KReadEvent.
  destruct (update_channel_spec (with_events KReadEvent ch) (poller_ l) Hr) as (i & p & E1 & R & F & Ei & _).
  cbn [index_ with_events] in Ei. rewrite Hi in Ei. cbn in Ei. subst i. exists p. split_and!; [|done|done].
  cbn [updateChanel loop_services]. unfold loop_updateChanel, assertInLoopThread. rewrite (proj2 (Nat.eqb_eq _ _)) by done.
  rewrite Ht. cbn [assert_ mbind outcome_bind]. by rewrite E1.
Qed.

(** The two channels of a server without connections. *)
Lemma two_channels k0 evfd sockfd p1 p2 :
  interest k0 = ∅ → evfd ≠ sockfd →
  let c0 := setReadCallback CbWakeup (newChannel wakeup_key 0 evfd) in let c0' := set_index KAdded (with_events KReadEvent c0) in
  let c1 := setReadCallback CbAccept (newChannel accept_key 0 sockfd) in let c1' := set_index KAdded (with_events KReadEvent c1) in
  frame evfd (mkPoller KInitEventListSize ∅ k0) p1 → registered c0' p1 →
  registered c1 p1 ∧
  (frame sockfd p1 p2 → registered c1' p2 → reg_inv (mkRegistry (<[accept_key := c1']> {[wakeup_key := c0']}) p2)).
Proof.
  intros Hk N c0 c0' c1 c1' F1 R1. destruct (F1 sockfd ltac:(congruence)) as [E1 E2]. cbn in E1, E2. rewrite Hk, !lookup_empty in *.
  split; [left; split_and!; [done|exact E1|exact E2]|]. intros F2 R2.
  pose proof (reg_inv_init (CB := rcb) k0 Hk) as I0.
  pose proof (reg_inv_new _ wakeup_key 0 evfd I0 (lookup_empty _) (fun i d Hd => False_ind _ (lookup_empty_Some i d Hd))) as I1.
  pose proof (reg_inv_replace _ wakeup_key _ c0' p1 I1 (lookup_insert_eq _ _ _) eq_refl eq_refl F1 R1) as I2. cbn in I2. rewrite insert_insert_eq in I2.
  assert (Fr : ∀ i d, <[wakeup_key := c0']> (∅ : gmap nat (Channel rcb)) !! i = Some d → fd_ d ≠ sockfd).
  { intros i d [[_ <-]|[_ Hd]]%lookup_insert_Some; [done|by apply lookup_empty_Some in Hd]. }
  pose proof (reg_inv_new _ accept_key 0 sockfd I2 ltac:(done) Fr) as I3. cbn in I3.
  pose proof (reg_inv_replace _ accept_key _ c1' p2 I3 (lookup_insert_eq _ _ _) eq_refl eq_refl F2 R2) as I4. cbn in I4.
  by rewrite insert_insert_eq in I4.
Qed.

Lemma listen_ok ch w :
  heap w !! accept_key = Some ch → isInLoopThread (wl w) = true → loop_ ch = self_ (wl w) → index_ ch = KNew → events_ ch = KNoneEvent →
  registered ch (poller_ (wl w)) → 0 <= listen_r →
  ∃ p, let a := lsn (app w) in let ch' := set_index KAdded (with_events KReadEvent ch) in
    listen_acceptor listen_r w = Ok (mkWorld (set_poller p (wl w)) (<[accept_key := ch']> (heap w))
      (mkReactor (srv (app w)) (mkAcceptor ch' (newConnectionCallback_ a) true (idlefd_ a) (ac_kernel a)) (conns (app w)))) ∧
    frame (fd_ ch) (poller_ (wl w)) p ∧ registered ch' p.
Proof.
  intros H Ht Hl Hi Hv Hr Hls. destruct (reading_starts ch (wl w) Ht Hl Hi Hv Hr) as (p & E1 & F & R). exists p. cbn zeta.
  split_and!; [|done|done]. unfold listen_acceptor. rewrite H. unfold acceptor_listen, assertInLoop. cbn [inLoopThread loop_services].
  rewrite Ht. unfold listenOrDie. rewrite (proj2 (Z.ltb_ge _ _)) by done. cbn [mbind outcome_bind acceptChannel_]. by rewrite E1.
Qed.

(** The loop's and the acceptor's channels alone, with an empty queue, make a settled world. *)
Lemma no_connections c0 c1 l s (a : Acceptor rcb D) :
  let h := <[accept_key := c1]> ({[wakeup_key := c0]} : gmap nat (Channel rcb)) in
  isInLoopThread l = true → callingPendingFunctors_ l = false → pendingFunctors_ l = [] → reg_inv (mkRegistry h (poller_ l)) →
  plain CbWakeup c0 → plain CbAccept c1 → loop_ c0 = self_ l → loop_ c1 = self_ l → eventHandling_ c0 = false → eventHandling_ c1 = false →
  newConnectionCallback_ a = true → fds_ok h a → nextConnId_ s = 1 → srv_inv name host s (∅ : gmap nat conn) (self_ l) →
  settled name host (mkWorld l h (mkReactor s a ∅)).
Proof.
  intros h Ht Hc Hp I P0 P1 L0 L1 E0 E1 Cb Fd Hn Sv.
  assert (Look : ∀ (P : Channel rcb → Prop) i x, h !! i = Some x → P c0 → P c1 → P x).
  { intros P i x Hd Q0 Q1. apply lookup_insert_Some in Hd as [[_ <-]|[_ Hd]]; [done|]. by apply lookup_singleton_Some in Hd as [_ <-]. }
  assert (Big : ∀ i, (2 <= i)%nat → h !! i = None).
  { intros i Hi2. unfold h. rewrite lookup_insert_ne, lookup_singleton_ne; [done|unfold wakeup_key; lia|unfold accept_key; lia]. }
  split; [|done]. split; cbn [wl heap app srv lsn conns]; rewrite ?Hp; try done.
  - intros i x Hd. by apply (Look (fun x => loop_ x = self_ l) i x Hd).
  - by exists c0.
  - exists c1. split; [apply lookup_insert_eq|done].
  - intros i Hi2. by rewrite (Big i Hi2), lookup_empty.
  - intros i Hi2. apply Big. rewrite Hn in Hi2. unfold key in Hi2. lia.
  - intros i x Hd. by apply (Look (fun x => eventHandling_ x = bool_decide (None = Some i)) i x Hd).
Qed.

(** The descriptors and results that the system calls of [boot] give: all succeed, and the descriptors differ. *)
Record boot_ok (epollfd evfd sockfd bind_r : Z) (k : K) (d : D) (addr : sockaddr_in) : Prop := {
  bo_epoll : 0 <= epollfd; bo_evfd : 0 <= evfd; bo_sock : 0 <= sockfd; bo_bind : 0 <= bind_r; bo_listen : 0 <= listen_r;
  bo_interest : interest k = ∅; bo_differ : evfd ≠ sockfd; bo_stdin : 0 ∈ open_fds d;
  bo_open : evfd ∈ open_fds d ∧ sockfd ∈ open_fds d; bo_spare : (0 < spare d)%nat; bo_addr : addr_toIpPort addr = Ok host
}.

Lemma boot_settled tid epollfd evfd sockfd bind_r k e d addr ccb mcb wcb :
  boot_ok epollfd evfd sockfd bind_r k d addr →
  ∃ w, boot acts listen_r tid epollfd evfd sockfd bind_r k e d addr name ccb mcb wcb = Ok w ∧ settled name host w ∧ conns (app w) = ∅.
Proof.
  intros [B1 B2 B3 B4 B5 B6 B7 B8 [B9 B10] B11 B12]. unfold boot, newEventLoop, newPoller, createEventfd.
  rewrite (proj2 (Z.ltb_ge epollfd 0)), (proj2 (Z.ltb_ge evfd 0)) by done. cbn [mbind outcome_bind].
  set (l0 := mkLoop _ _ _ _ _ _ _ _ _ _ _ _ _ _). set (c0 := setReadCallback CbWakeup _).
  assert (T0 : isInLoopThread l0 = true) by apply Z.eqb_refl.
  destruct (reading_starts c0 l0 T0) as (p1 & -> & F1 & R1); [done..|left; cbn; by rewrite B6|]. cbn [mbind outcome_bind].
  unfold newTcpServer. rewrite B12. cbn [mbind outcome_bind]. unfold newAcceptor, createNonblockingOrDie, bindOrDie.
  rewrite (proj2 (Z.ltb_ge sockfd 0)), (proj2 (Z.ltb_ge bind_r 0)) by done. cbn [mbind outcome_bind].
  destruct (k_open d) as [idle d'] eqn:Eo. pose proof (open_fd _ _ _ Eo) as Ho.
  destruct (open_ok d B11) as (idle' & d2 & Eo' & Hi & _). rewrite Eo in Eo'. injection Eo' as <- <-.
  rewrite (proj2 (Z.leb_le _ _) Hi) in Ho. destruct Ho as [Hn Ho].
  rewrite assert_true by (apply Z.ltb_lt; destruct (decide (idle = 0)) as [->|?]; [done|lia]). cbn [mbind outcome_bind].
  set (l1 := set_poller p1 l0). set (c0' := set_index KAdded _). set (a := setNewConnectionCallback true _). set (s := server_setWriteCompleteCallback wcb _).
  change (isInLoopThread l1) with (isInLoopThread l0). rewrite T0.
  assert (Es : start true (fun i => i) (listening a) s = Ok ([(0%nat, SListen)], set_pool (mkPool 0 true 0 0 []) true s)) by done.
  rewrite Es. cbn [mbind outcome_bind foldM snd]. set (s1 := set_pool _ true s). set (c1 := acceptChannel_ a). set (w := mkWorld l1 _ _).
  destruct (two_channels k evfd sockfd p1 p1 B6 B7 F1 R1) as [R2 _].
  unfold runInLoop. change (isInLoopThread (wl w)) with (isInLoopThread l0). rewrite T0. cbn [runT run_server_functor].
  destruct (listen_ok c1 w) as (p2 & El & F2 & R3); [apply lookup_insert_eq|done|done|done|done|exact R2|done|]. cbn zeta in El. rewrite El.
  cbn [mbind outcome_bind]. eexists. split; [reflexivity|]. cbn [w heap wl app srv lsn conns]. rewrite insert_insert_eq.
  split; [|done].
  destruct (two_channels k evfd sockfd p1 p2 B6 B7 F1 R1) as [_ I]. specialize (I F2 R3).
  apply (no_connections c0' (set_index KAdded (with_events KReadEvent c1))); try done.
  - split; cbn; [|intros _; rewrite Ho; set_solver].
    intros i x [[_ <-]|[_ [_ <-]%lookup_singleton_Some]]%lookup_insert_Some; cbn; rewrite Ho; (split_and!; [done|set_solver|by intros ->]).
  - split; cbn; [by eexists|by eexists|done|done|lia|]. exists []. split.
    + split; cbn; try done; [set_solver|set_solver|]. intros n c. rewrite lookup_empty. set_solver.
    + intros n. split; [set_solver|]. intros (_ & c & Hc & _). by rewrite lookup_empty in Hc.
Qed.

(** ** Runs *)

(** What may happen to a settled world: the poll returns and the loop makes a turn (below the limit of connection
    numbers, and with room in the wakeup counter); another thread that holds a reference calls a connection. *)
Definition may_turn (r : wait_result) w : Prop := nextConnId_ (srv (app w)) < 10 ^ 9 ∧ ready_ok r w ∧ budget most r w.
Definition may_call (t : Z) (k : nat) (a : uact) w : Prop :=
  t ≠ threadId_ (wl w) ∧ is_Some (conns (app w) !! k) ∧ remote a = true ∧ act_fits a ∧ efd_count (wakeupFd_ (wl w)) < 2 ^ 64 - 2.

Inductive served : W → W → Prop :=
| served_turn r now w w' : may_turn r w → turn acts listen_r r now w = Ok w' → served w w'
| served_call t k a w w' : may_call t k a w → from_thread t k a w = Ok w' → served w w'.

Lemma served_settled w w' : settled name host w → served w w' → settled name host w'.
Proof.
  intros St Sv. destruct Sv as [r now w w' (Hn & Ok & Bu) E1|t k a w w' (Nt & [c C] & Ra & Fa & Hw) E1].
  - destruct (turn_ok acts listen_r most user_fits name host Hh r now w St Hn Ok Bu) as [X|[X|(w1 & X & S1 & _)]]; [congruence..|].
    rewrite E1 in X. by injection X as ->.
  - destruct (remote_ok name host Hh t k a c w St Nt C Ra Fa Hw) as (w1 & X & S1 & _). rewrite E1 in X. by injection X as ->.
Qed.

Lemma run_settled w0 w : settled name host w0 → rtc served w0 w → settled name host w.
Proof. intros St Rt. induction Rt as [|a b c Sv _ IH]; [done|]. apply IH. by eapply served_settled. Qed.

Section Run.
Context (tid epollfd evfd sockfd bind_r : Z) (k : K) (e : E) (d : D) (addr : sockaddr_in) (ccb mcb : nat) (wcb : option nat).
Context (B : boot_ok epollfd evfd sockfd bind_r k d addr).

Lemma booted_settled w0 w :
  boot acts listen_r tid epollfd evfd sockfd bind_r k e d addr name ccb mcb wcb = Ok w0 → rtc served w0 w → settled name host w.
Proof.
  intros E0 Rt. destruct (boot_settled tid epollfd evfd sockfd bind_r k e d addr ccb mcb wcb B) as (w1 & X & St & _).
  rewrite E0 in X. injection X as <-. by eapply run_settled.
Qed.

(** C2. A server from its start on, in every run of turns of its loop and calls of other threads: each channel has an open
    descriptor of its own; the kernel reports events only for the loop's, the acceptor's and the live connections'
    channels; the server's table names exactly the live connections; and every functor in the queue finds its connection. *)
Theorem server_consistent w0 w :
  boot acts listen_r tid epollfd evfd sockfd bind_r k e d addr name ccb mcb wcb = Ok w0 → rtc served w0 w →
  (∀ i ch, heap w !! i = Some ch → fd_ ch ∈ open_fds (ac_kernel (lsn (app w))) ∧
     ∀ i' ch', heap w !! i' = Some ch' → fd_ ch' = fd_ ch → i' = i) ∧
  (∀ fd ev i, interest (kernel (poller_ (wl w))) !! fd = Some (ev, i) →
     ∃ ch, heap w !! i = Some ch ∧ fd_ ch = fd ∧
       (i = wakeup_key ∨ i = accept_key ∨ ∃ c, conns (app w) !! i = Some c ∧ live c)) ∧
  (∀ nm n, connections_ (srv (app w)) !! nm = Some n ↔
     nm = conn_name name host n ∧ 1 <= n ∧ ∃ c, conns (app w) !! key n = Some c ∧ live c) ∧
  (∀ t, t ∈ pendingFunctors_ (wl w) → ∃ i, about t = Some i ∧ is_Some (conns (app w) !! i)).
Proof.
  intros E0 Rt. destruct (booted_settled w0 w E0 Rt) as [R _]. split_and!.
  - intros i ch H. destruct (ri_fds _ _ _ _ _ R) as [F _]. split; [by apply (F i)|]. intros i' ch' H' Ef.
    destruct (ri_reg _ _ _ _ _ R) as (_ & Un & _). by apply (Un i' i ch' ch).
  - intros fd ev i Hi. destruct (ri_reg _ _ _ _ _ R) as (_ & _ & _ & In). destruct (In _ _ _ Hi) as (ch & H & Ef). exists ch.
    split_and!; [done|done|]. destruct (reported_live name host w fd ev i R Hi) as (_ & _ & Lv).
    destruct (decide (2 <= i)%nat) as [N|N]; [right; right; auto|]. unfold wakeup_key, accept_key. lia.
  - intros nm n. destruct (sv_table _ _ _ _ _ (ri_srv _ _ _ _ _ R)) as (open & T & O). rewrite (ti_table _ _ _ _ T), O. naive_solver.
  - intros t Hin. pose proof (ri_about _ _ _ _ _ R) as Ab. rewrite Forall_forall in Ab. destruct (Ab t Hin) as [i Ei]. exists i. split; [done|].
    pose proof (ri_queue _ _ _ _ _ R i) as Q. destruct (conns (app w) !! i) as [c|]; [by eexists|]. cbn [queue_ok] in Q.
    assert (X : t ∈ waiting i ([] ++ pendingFunctors_ (wl w))) by (by apply list_elem_of_filter). rewrite Q in X. by apply not_elem_of_nil in X.
Qed.

End Run.
End Server.

(** ** The echo server *)

Lemma echo_fits k (c : TcpConnection rcb wire) : Forall act_fits (echo k c) ∧ (length (echo k c) <= 2)%nat.
Proof.
  destruct k as [|[|k]]; (split; [|cbn; lia]); repeat constructor; cbn; [|lia].
  unfold PTRDIFF_MAX, zlen. rewrite length_take. lia.
Qed.

Lemma sample_boot_ok : boot_ok 0 $"0.0.0.0:9" 3 4 5 0 (∅ : gmap Z (Z * nat)) sample_table (InetAddress_port 9).
Proof.
  split; try done. cbn. lia.
Qed.

(** Two rounds of the echo server: the client of descriptor 7 is accepted, then its "hello" is read and echoed, of which
    the kernel takes two bytes at once. *)
Lemma sample_rounds :
  ∃ w0 w1 w2, sample_boot = Ok w0 ∧ may_turn 2 (WaitReady [(1, 1%nat)]) w0 ∧ turn echo 0 (WaitReady [(1, 1%nat)]) 0 w0 = Ok w1 ∧
    may_turn 2 (WaitReady [(1, 2%nat)]) w1 ∧ turn echo 0 (WaitReady [(1, 2%nat)]) 0 w1 = Ok w2 ∧
    connections_ (srv (app w1)) !! $"echo0.0.0.0:9:1" = Some 1 ∧
    (fun c => (w_sent (socket_ c), out c)) <$> (conns (app w2) !! 2%nat) = Some ($"he", $"llo").
Proof.
  eexists _, _, _. split; [vm_compute; reflexivity|]. split; [|split; [vm_compute; reflexivity|]; split; [|split; [vm_compute; reflexivity|]]].
  - split; [done|]. split; [|by vm_compute]. split; [repeat constructor; set_solver|]. split; [by vm_compute|].
    intros ev id [= -> ->]%list_elem_of_singleton. split; [by exists 5, 3|]. split; [by vm_compute|done].
  - split; [done|]. split; [|by vm_compute]. split; [repeat constructor; set_solver|]. split; [by vm_compute|].
    intros ev id [= -> ->]%list_elem_of_singleton. split; [by exists 7, 3|]. split; [by vm_compute|done].
  - split; vm_compute; reflexivity.
Qed.

Lemma echo_host : (length (c_str $"0.0.0.0:9") <= 21)%nat.
Proof. vm_compute. lia. Qed.


Lemma server_consistent_witness :
  ∃ w0 w1 c, sample_boot = Ok w0 ∧ turn echo 0 (WaitReady [(1, 1%nat)]) 0 w0 = Ok w1 ∧ conns (app w1) !! 2%nat = Some c ∧ live c.
Proof.
  destruct sample_rounds as (w0 & w1 & w2 & E0 & M0 & E1 & _ & _ & N & _). exists w0, w1.
  destruct (server_consistent echo 0 2 echo_fits $"echo" $"0.0.0.0:9" echo_host 1 3 4 5 0 ∅ 0%N sample_table (InetAddress_port 9) 0 1 None
    sample_boot_ok w0 w1 E0 (rtc_once _ _ (served_turn _ _ _ _ _ _ _ M0 E1))) as (_ & _ & T & _).
  apply T in N as (_ & _ & c & C & Lv). by exists c.
Defined.
