(* ===== verification/LoopThread.v ===== *)
(** * LoopThread: a thread that runs one loop

    Models [plugins/Muduo/muduo/net/EventLoopThread.h] and [EventLoopThread.cpp] as a step relation between
    the new thread ([threadFunc]), its owner ([startLoop], the destructor) and other code that may call
    [quit()] on the loop. [loop_] is a pointer to an object on the thread's stack: it is alive until
    [threadFunc] returns. Each step is one critical section or one call. *)

From S2P Require Import Prelude.

(** Where [threadFunc] is: before it publishes [loop_], after, inside [loop()], returned. *)
Inductive child_pc := CStart | CPublished | CLooping | CGone.
(** Where the owner is. [OUndefined]: it has used the loop after its thread's stack was gone. *)
Inductive owner_pc := OIdle | OStartWait | OStarted | ODtorWait | ODtorQuit | OJoin | ODone | OUndefined.

(* @src EventLoopThread.h | EventLoop* loop_; | common::base::Thread thread_; | EventLoopThread *)
Record elt := mkElt { loop_set : bool; exiting_ : bool; quit_set : bool; child : child_pc; owner : owner_pc }.

(* @src EventLoopThread.cpp | EventLoopThread::EventLoopThread( | threadFunc(); })) {} *)
Definition new_elt : elt := mkElt false false false CStart OIdle.

(** [threadFunc]: the loop and the callback, the locked store and notify, [loop()], which returns once
    [quit_] is set (also when it was set before: [quit_before_loop]). *)
(* @src EventLoopThread.cpp | void EventLoopThread::threadFunc() *)
Inductive child_step : elt → elt → Prop :=
| c_publish x q o : child_step (mkElt false x q CStart o) (mkElt true x q CPublished o)
| c_loop l x q o : child_step (mkElt l x q CPublished o) (mkElt l x q CLooping o)
| c_return l x o : child_step (mkElt l x true CLooping o) (mkElt l x true CGone o).

(** [startLoop] waits for [loop_]; the destructor waits for it, quits the loop and joins. *)
(* @src EventLoopThread.cpp | EventLoopThread::~EventLoopThread() | EventLoop* EventLoopThread::startLoop() *)
Inductive owner_step : elt → elt → Prop :=
| o_start l x q c : owner_step (mkElt l x q c OIdle) (mkElt l x q c OStartWait)
| o_started x q c : owner_step (mkElt true x q c OStartWait) (mkElt true x q c OStarted)
| o_destroy l x q c o : o = OIdle ∨ o = OStarted → owner_step (mkElt l x q c o) (mkElt l true q c ODtorWait)
| o_waited x q c : owner_step (mkElt true x q c ODtorWait) (mkElt true x q c ODtorQuit)
| o_quit l x q c : owner_step (mkElt l x q c ODtorQuit)
    (if c is CGone then mkElt l x q c OUndefined else mkElt l x true c OJoin)
| o_join l x q : owner_step (mkElt l x q CGone OJoin) (mkElt l x q CGone ODone).

(** Other code, such as a callback running in the loop, calls [quit()] on it. *)
Inductive other_quit : elt → elt → Prop :=
| x_quit l x q c o : c = CPublished ∨ c = CLooping → other_quit (mkElt l x q c o) (mkElt l x true c o).

Definition elt_step (s s' : elt) : Prop := child_step s s' ∨ owner_step s s'.
Definition elt_step_any (s s' : elt) : Prop := elt_step s s' ∨ other_quit s s'.

(** ** Invariant *)

(** As a test, since the states are finite: [loop_] is set by the publication, [quit_] exactly by the
    destructor, the thread returns only after that, and the owner is past a wait only once [loop_] is set. *)
Definition elt_ok (s : elt) : bool :=
  eqb (loop_set s) (if child s is CStart then false else true) &&
  eqb (quit_set s) (match owner s with OJoin | ODone => true | _ => false end) &&
  (if child s is CGone then quit_set s else true) &&
  (if owner s is ODone then if child s is CGone then true else false else true) &&
  (match owner s with OStarted | ODtorQuit | OJoin | ODone => loop_set s | _ => true end) &&
  (if owner s is OUndefined then false else true).

(** Check a goal on every state left. *)
Ltac elt_cases :=
  repeat match goal with
  | b : bool |- _ => destruct b
  | c : child_pc |- _ => destruct c
  | o : owner_pc |- _ => destruct o
  end; try done.

Lemma elt_step_ok s s' : elt_step s s' → elt_ok s = true → elt_ok s' = true.
Proof.
  intros [H|H]; destruct H as [| | ]||destruct H as [| |? ? ? ? ? [-> | ->]| | |]; elt_cases.
Qed.

Lemma elt_reach_ok s : rtc elt_step new_elt s → elt_ok s = true.
Proof.
  intros R. assert (I : elt_ok new_elt = true) by done. revert I.
  induction R as [|x y z H R IH]; [done|]. eauto using elt_step_ok.
Qed.

(** Steps left. *)
Definition elt_measure (s : elt) : nat :=
  (match child s with CStart => 3 | CPublished => 2 | CLooping => 1 | CGone => 0 end +
   match owner s with
   | OIdle => 6 | OStartWait => 5 | OStarted => 4 | ODtorWait => 3 | ODtorQuit => 2 | OJoin => 1 | ODone => 0
   | OUndefined => 0
   end)%nat.

Lemma elt_step_decreases s s' : elt_step s s' → elt_ok s = true → (elt_measure s' < elt_measure s)%nat.
Proof.
  intros [H|H]; destruct H as [| | ]||destruct H as [| |? ? ? ? ? [-> | ->]| | |]; intros E; elt_cases; unfold elt_measure; cbn; lia.
Qed.

Lemma elt_progress s :
  elt_ok s = true → owner s ∈ [OStartWait; ODtorWait; ODtorQuit; OJoin] → ∃ s', elt_step s s'.
Proof.
  destruct s as [l x q c o]. cbn [owner]. rewrite !elem_of_cons, elem_of_nil.
  intros I H. destruct H as [->|[->|[->|[->|[]]]]]; elt_cases; eexists;
    solve [left; constructor | right; apply o_started | right; apply o_waited | right; apply o_quit | right; apply o_join].
Qed.



(** When anything else quits the loop first, the destructor uses it after its end: [threadFunc] returns
    and destroys the loop on its stack, [loop_] still points there, and the destructor calls [quit()]
    through it. *)
Theorem quit_after_loop_gone :
  ∃ s, rtc elt_step_any new_elt s ∧ owner s = OUndefined ∧ child s = CGone.
Proof.
  exists (mkElt true true true CGone OUndefined). split; [|done].
  eapply rtc_l; [left; right; apply o_start|]. eapply rtc_l; [left; left; apply c_publish|].
  eapply rtc_l; [left; right; apply o_started|]. eapply rtc_l; [left; left; apply c_loop|].
  eapply rtc_l; [right; apply x_quit; by right|]. eapply rtc_l; [left; left; apply c_return|].
  eapply rtc_l; [left; right; apply o_destroy; by right|]. eapply rtc_l; [left; right; apply o_waited|].
  eapply rtc_l; [left; right; apply o_quit|]. reflexivity.
Qed.
