(* ===== verification/Connector.v ===== *)
(** * Connector and TcpClient: connecting out

    Models [plugins/Muduo/muduo/net/Connector.h], [Connector.cpp], [TcpClient.h] and [TcpClient.cpp]. The
    results of the system calls an operation makes are one record; the loop's [runAfter] is an argument;
    the functors are values. [pub] tells whether [std::enable_shared_from_this] is an accessible base of
    [Connector]: only then does the [shared_ptr] that owns a connector let [shared_from_this()] succeed.
    The class derives from it privately ([esft_accessible]). *)

From S2P Require Import Prelude Buffer Timestamp Channel Poller EventLoop Sockets TcpConnection TcpServer.

Definition EINPROGRESS : Z := 115.
Definition EISCONN : Z := 106.
Definition EADDRINUSE : Z := 98.
Definition EADDRNOTAVAIL : Z := 99.
Definition ECONNREFUSED : Z := 111.
Definition ENETUNREACH : Z := 101.

(* @src Connector.h | enum States *)
Inductive States := CDisconnected | Cconnecting | Cconnected.
#[global] Instance States_eq_dec : EqDecision States.
Proof. solve_decision. Defined.

(* @src Connector.h | static const int KMaxRetryDelayMs *)
Definition KMaxRetryDelayMs : Z := 30 * 1000.
(* @src Connector.h | static const int KInitRetryDelayMs | 500; *)
Definition KInitRetryDelayMs : Z := 500.
(* @src Connector.h | class Connector : public noncopyable | class Connector : public noncopyable | Connector *)
Definition esft_accessible : bool := false.

(** The functors of a connector. *)
Inductive ctor_functor := FStartInLoop | FStopInLoop | FResetChannel.

(** What the system calls of one operation return: [socket], [connect] (0 or an errno), [SO_ERROR], the
    self-connection test, [close]. *)
Record sys := mkSys { r_socket : Z; r_connect : Z; r_error : Z; r_self : bool; r_close : Z }.

(* @src Connector.h | EventLoop* loop_; | int retryDelayMs_; | Connector *)
Record Connector (CB : Type) := mkConnector {
  connect_ : bool;
  ct_state_ : States;
  ct_channel_ : option (Channel CB);
  retryDelayMs_ : Z
}.
Arguments mkConnector {CB}.
Arguments connect_ {CB}.
Arguments ct_state_ {CB}.
Arguments ct_channel_ {CB}.
Arguments retryDelayMs_ {CB}.

Section Connector.
Context {CB T W : Type} `{LS : LoopServices CB T W}.
Context (fn : ctor_functor → T) (runAfter : double → ctor_functor → W → outcome W) (pub : bool).
(** The connector's channel callbacks, and the number that names its next channel. *)
Context (loop id : nat) (wr er : CB).
Implicit Types (c : Connector CB) (w : W) (k : sys).

Definition set_ct st ch c : Connector CB := mkConnector (connect_ c) st ch (retryDelayMs_ c).
Definition is_st (a b : States) : bool := bool_decide (a = b).

(* @src Connector.cpp | Connector::Connector(EventLoop* loop, | retryDelayMs_(KInitRetryDelayMs) {} *)
Definition newConnector : Connector CB := mkConnector false CDisconnected None KInitRetryDelayMs.

(** [shared_from_this()]. *)
Definition shared_from_this : outcome unit := if pub then Ok tt else Fault (Throw BadWeakPtr).

(* @src Connector.cpp | void Connector::retry(int sockfd) *)
Definition retry k c w : outcome (Connector CB * W) :=
  sock_close (r_close k);;
  let c := set_ct CDisconnected (ct_channel_ c) c in
  if connect_ c then
    shared_from_this;;
    w ← runAfter (ddiv (double_of_Z (retryDelayMs_ c)) (double_of_Z 1000)) FStartInLoop w;
    let d := if retryDelayMs_ c * 2 <? KMaxRetryDelayMs then retryDelayMs_ c * 2 else KMaxRetryDelayMs in
    Ok (mkConnector (connect_ c) (ct_state_ c) (ct_channel_ c) d, w)
  else Ok (c, w).

(* @src Connector.cpp | void Connector::connecting(int sockfd) *)
Definition connecting (sockfd : Z) c w : outcome (Connector CB * W) :=
  let c := set_ct Cconnecting (ct_channel_ c) c in
  assert_ (if ct_channel_ c is Some _ then false else true);;
  let ch := setErrorCallback er (setWriteCallback wr (newChannel id loop sockfd)) in
  '(ch, w) ← enableWriting ch w;
  Ok (set_ct (ct_state_ c) (Some ch) c, w).

(* @src Connector.cpp | void Connector::connect() *)
Definition connect k c w : outcome (Connector CB * W) :=
  sockfd ← createNonblockingOrDie (r_socket k);
  let saveError := r_connect k in
  if (saveError =? 0) || (saveError =? EINPROGRESS) || (saveError =? EISCONN) then connecting sockfd c w
  else if (saveError =? EAGAIN) || (saveError =? EADDRINUSE) || (saveError =? EADDRNOTAVAIL) ||
          (saveError =? ECONNREFUSED) || (saveError =? ENETUNREACH) then retry k c w
  else sock_close (r_close k);; Ok (c, w).

(* @src Connector.cpp | void Connector::startInLoop() *)
Definition startInLoop k c w : outcome (Connector CB * W) :=
  assertInLoop w;;
  assert_ (is_st (ct_state_ c) CDisconnected);;
  if connect_ c then connect k c w else Ok (c, w).

(** [removeAndResetChannel]: the channel stays until the queued reset. *)
(* @src Connector.cpp | int Connector::removeAndResetChannel() *)
Definition removeAndResetChannel c w : outcome (Z * Connector CB * W) :=
  match ct_channel_ c with
  | None => Fault Undefined
  | Some ch =>
      '(ch, w) ← disableAll ch w;
      '(ch, w) ← remove ch w;
      let c := set_ct (ct_state_ c) (Some ch) c in
      w ← queueInLoop (fn FResetChannel) w;
      Ok (fd_ ch, c, w)
  end.

(* @src Connector.cpp | void Connector::resetChannel() *)
Definition resetChannel c : Connector CB := set_ct (ct_state_ c) None c.

(* @src Connector.cpp | void Connector::stopInLoop() *)
Definition stopInLoop k c w : outcome (Connector CB * W) :=
  assertInLoop w;;
  if is_st (ct_state_ c) Cconnecting then
    let c := set_ct CDisconnected (ct_channel_ c) c in
    '(sockfd, c, w) ← removeAndResetChannel c w;
    sock_close (r_close k);;
    Ok (c, w)
  else Ok (c, w).

(** [start] and [stop]: run at once in the loop's thread. *)
(* @src Connector.cpp | void Connector::start() *)
Definition connector_start k c w : outcome (Connector CB * W) :=
  if connect_ c then Ok (c, w) else
  let c := mkConnector true (ct_state_ c) (ct_channel_ c) (retryDelayMs_ c) in
  if inLoopThread w then startInLoop k c w else w ← queueInLoop (fn FStartInLoop) w; Ok (c, w).
(* @src Connector.cpp | void Connector::stop() *)
Definition connector_stop k c w : outcome (Connector CB * W) :=
  let c := mkConnector false (ct_state_ c) (ct_channel_ c) (retryDelayMs_ c) in
  if inLoopThread w then stopInLoop k c w else w ← queueInLoop (fn FStopInLoop) w; Ok (c, w).

(* @src Connector.cpp | void Connector::restart() *)
Definition connector_restart k c w : outcome (Connector CB * W) :=
  assertInLoop w;;
  startInLoop k (mkConnector true CDisconnected (ct_channel_ c) KInitRetryDelayMs) w.

(** The write event: the descriptor for the new-connection callback when the connection stands. *)
(* @src Connector.cpp | void Connector::handleWrite() *)
Definition connector_handleWrite k c w : outcome (option Z * Connector CB * W) :=
  if is_st (ct_state_ c) Cconnecting then
    '(sockfd, c, w) ← removeAndResetChannel c w;
    if negb (r_error k =? 0) then '(c, w) ← retry k c w; Ok (None, c, w)
    else if r_self k then '(c, w) ← retry k c w; Ok (None, c, w)
    else
      let c := set_ct Cconnected (ct_channel_ c) c in
      if connect_ c then Ok (Some sockfd, c, w) else sock_close (r_close k);; Ok (None, c, w)
  else assert_ (is_st (ct_state_ c) CDisconnected);; Ok (None, c, w).

(* @src Connector.cpp | void Connector::handleError() *)
Definition connector_handleError k c w : outcome (Connector CB * W) :=
  assert_ (is_st (ct_state_ c) Cconnecting);;
  '(sockfd, c, w) ← removeAndResetChannel c w;
  retry k c w.

(** The destructor. *)
(* @src Connector.cpp | Connector::~Connector() *)
Definition connector_destroy c : outcome unit := assert_ (if ct_channel_ c is Some _ then false else true).
End Connector.

(** ** TcpClient *)

(** The connection object, if any, is named by the number it was created with. *)
(* @src TcpClient.h | EventLoop* loop_; | TcpConnectionPtr connection_; | TcpClient *)
Record TcpClient (CB : Type) := mkClient {
  connector_ : Connector CB;
  cl_name_ : chars;
  cl_connectionCallback_ : option nat;
  cl_messageCallback_ : option nat;
  cl_writeCompleteCallback_ : option nat;
  retry_ : bool;
  cl_connect_ : bool;
  cl_nextConnId_ : Z;
  connection_ : option Z
}.
Arguments mkClient {CB}.
Arguments connector_ {CB}.
Arguments cl_name_ {CB}.
Arguments cl_connectionCallback_ {CB}.
Arguments cl_messageCallback_ {CB}.
Arguments cl_writeCompleteCallback_ {CB}.
Arguments retry_ {CB}.
Arguments cl_connect_ {CB}.
Arguments cl_nextConnId_ {CB}.
Arguments connection_ {CB}.

(** The number of [TcpClient::removeConnection] as a close callback. *)
Definition client_close : nat := 2.

(** What the client does to its connection object. *)
Inductive client_effect :=
| ECEstablished (conn : Z) (name : chars)
| ECDestroyed (conn : Z)
| ECShutdown (conn : Z)
| ECDetach (conn : Z)
| ECForceClose (conn : Z)
| ECKeepConnector.

Section Client.
Context {CB T W : Type} `{LS : LoopServices CB T W}.
Context (fn : ctor_functor → T) (runAfter : double → ctor_functor → W → outcome W) (pub : bool).
Context (loop id : nat) (wr er : CB).
Implicit Types (c : TcpClient CB) (w : W) (k : sys).
Local Abbreviation connector_start := (connector_start fn runAfter pub loop id wr er).
Local Abbreviation connector_restart := (connector_restart runAfter pub loop id wr er).

Definition set_connector x c : TcpClient CB :=
  mkClient x (cl_name_ c) (cl_connectionCallback_ c) (cl_messageCallback_ c) (cl_writeCompleteCallback_ c) (retry_ c)
    (cl_connect_ c) (cl_nextConnId_ c) (connection_ c).
Definition set_flags (retry connect : bool) c : TcpClient CB :=
  mkClient (connector_ c) (cl_name_ c) (cl_connectionCallback_ c) (cl_messageCallback_ c) (cl_writeCompleteCallback_ c) retry
    connect (cl_nextConnId_ c) (connection_ c).
Definition set_cl_connect b c : TcpClient CB := set_flags (retry_ c) b c.
Definition set_connection (next : Z) (conn : option Z) c : TcpClient CB :=
  mkClient (connector_ c) (cl_name_ c) (cl_connectionCallback_ c) (cl_messageCallback_ c) (cl_writeCompleteCallback_ c) (retry_ c)
    (cl_connect_ c) next conn.
Definition set_cl_callbacks (ccb mcb wcb : option nat) c : TcpClient CB :=
  mkClient (connector_ c) (cl_name_ c) ccb mcb wcb (retry_ c) (cl_connect_ c) (cl_nextConnId_ c) (connection_ c).

(* @src TcpClient.cpp | void TcpClient::setConnectionCallback( *)
Definition client_setConnectionCallback (cb : option nat) c : TcpClient CB :=
  set_cl_callbacks cb (cl_messageCallback_ c) (cl_writeCompleteCallback_ c) c.
(* @src TcpClient.cpp | void TcpClient::setMessageCallback( *)
Definition client_setMessageCallback (cb : option nat) c : TcpClient CB :=
  set_cl_callbacks (cl_connectionCallback_ c) cb (cl_writeCompleteCallback_ c) c.
(* @src TcpClient.cpp | void TcpClient::setWriteCompleteCallback( *)
Definition client_setWriteCompleteCallback (cb : option nat) c : TcpClient CB :=
  set_cl_callbacks (cl_connectionCallback_ c) (cl_messageCallback_ c) cb c.
(* @src TcpClient.cpp | TcpConnectionPtr TcpClient::connection() const *)
Definition client_connection c : option Z := connection_ c.
(* @src TcpClient.cpp | bool TcpClient::retry() const *)
Definition client_retry c : bool := retry_ c.

(* @src TcpClient.cpp | TcpClient::TcpClient(EventLoop* loop, *)
Definition newTcpClient (name : chars) : TcpClient CB := 
  mkClient newConnector name (Some default_connection) (Some default_message) None false false 1 None.
(* @src TcpClient.cpp | void TcpClient::enableRetry() *)
Definition enableRetry c : TcpClient CB := set_flags true (cl_connect_ c) c.

(* @src TcpClient.cpp | void TcpClient::connect() *)
Definition client_connect k c w : outcome (TcpClient CB * W) :=
  '(x, w) ← connector_start k (connector_ c) w; Ok (set_connector x (set_cl_connect true c), w).
(* @src TcpClient.cpp | void TcpClient::disconnect() *)
Definition disconnect c : list client_effect * TcpClient CB :=
  (if connection_ c is Some conn then [ECShutdown conn] else [], set_cl_connect false c).
(* @src TcpClient.cpp | void TcpClient::stop() *)
Definition client_stop k c w : outcome (TcpClient CB * W) :=
  '(x, w) ← connector_stop fn k (connector_ c) w; Ok (set_connector x (set_cl_connect false c), w).

(** The connection is made on the connector's socket and established at once. *)
(* @src TcpClient.cpp | void TcpClient::newConnection(int sockfd) *)
Definition client_newConnection {S : Type} `{SocketKernel S} (a : accepted CB S) c w :
    outcome (list client_effect * TcpConnection CB S * TcpClient CB) :=
  assertInLoop w;;
  peerAddr ← getPeerAddr (a_rp a) (a_peer a);
  peer ← addr_toIpPort peerAddr;
  let conn := cl_nextConnId_ c in
  if conn =? INT_MAX then Fault Undefined else
  let name := cl_name_ c ++ snprintf 32 (c_str peer ++ $"#" ++ dec conn) in
  localAddr ← getLocalAddr (a_rl a) (a_local a);
  let '(rd, wr, cl, er) := a_callbacks a in
  x ← newTcpConnection loop (a_channel a) name (a_fd a) localAddr peerAddr (a_socket a) rd wr cl er;
  let x := prepare (cl_connectionCallback_ c) (cl_messageCallback_ c) (cl_writeCompleteCallback_ c) client_close x in
  Ok ([ECEstablished conn name], x, set_connection (conn + 1) (Some conn) c).

(* @src TcpClient.cpp | void TcpClient::removeConnection(const TcpConnectionPtr& conn) *)
Definition client_removeConnection k (conn : Z) c w : outcome (list client_effect * TcpClient CB * W) :=
  assertInLoop w;;
  assert_ (bool_decide (connection_ c = Some conn));;
  let c := set_connection (cl_nextConnId_ c) None c in
  if retry_ c && cl_connect_ c then
    '(x, w) ← connector_restart k (connector_ c) w; Ok ([ECDestroyed conn], set_connector x c, w)
  else Ok ([ECDestroyed conn], c, w).

(** The destructor; [unique]: nobody else holds the connection. *)
(* @src TcpClient.cpp | TcpClient::~TcpClient() *)
Definition client_destroy k (unique : bool) c w : outcome (list client_effect * W) :=
  match connection_ c with
  | Some conn => Ok (ECDetach conn :: (if unique then [ECForceClose conn] else []), w)
  | None => '(_, w) ← connector_stop fn k (connector_ c) w; Ok ([ECKeepConnector], w)
  end.
End Client.

(** ** Back-off *)

(** A [runAfter] that records the delays asked for, and [n] failures in a row. *)
Definition log_after (d : double) (f : ctor_functor) (w : list double) : outcome (list double) := Ok (w ++ [d]).
Definition failures {CB : Type} (pub : bool) (k : sys) (n : nat) (c : Connector CB) : outcome (Connector CB * list double) :=
  foldM (fun _ '(c, w) => retry log_after pub k c w) (seq 0 n) (c, []).

(** The delay before the [i]-th retry, in milliseconds. *)
Definition delay_ms (i : nat) : Z := Z.min (KInitRetryDelayMs * 2 ^ Z.of_nat i) KMaxRetryDelayMs.
Definition seconds_of (ms : Z) : double := ddiv (double_of_Z ms) (double_of_Z 1000).

Lemma delay_ms_next i : delay_ms (S i) = if delay_ms i * 2 <? KMaxRetryDelayMs then delay_ms i * 2 else KMaxRetryDelayMs.
Proof.
  unfold delay_ms, KInitRetryDelayMs, KMaxRetryDelayMs. rewrite Nat2Z.inj_succ, Z.pow_succ_r by lia.
  case_match; bool_prop; lia.
Qed.

(** Back-off: a connector whose [shared_from_this()] works retries after 0.5, 1, 2, 4, 8, 16 and then
    every 30 seconds; the delay doubles with each failure up to the cap and never overflows. *)
Theorem connector_backoff {CB : Type} (n : nat) (k : sys) (c : Connector CB) :
  0 <= r_close k → connect_ c = true → retryDelayMs_ c = KInitRetryDelayMs →
  ∃ c', failures true k n c = Ok (c', (fun i => seconds_of (delay_ms i)) <$> seq 0 n) ∧
    connect_ c' = true ∧ retryDelayMs_ c' = delay_ms n ∧ KInitRetryDelayMs <= retryDelayMs_ c' <= KMaxRetryDelayMs.
Proof.
  intros Hk Hc Hd. assert (B : ∀ i, KInitRetryDelayMs <= delay_ms i <= KMaxRetryDelayMs).
  { intros i. unfold delay_ms, KInitRetryDelayMs, KMaxRetryDelayMs. pose proof (Z.pow_pos_nonneg 2 (Z.of_nat i)). lia. }
  enough (∃ c', failures true k n c = Ok (c', (fun i => seconds_of (delay_ms i)) <$> seq 0 n) ∧
    connect_ c' = true ∧ retryDelayMs_ c' = delay_ms n) as (c' & E & Hc' & Hd').
  { exists c'. rewrite Hd'. split_and!; try done; apply B. }
  induction n as [|n (c1 & E & Hc1 & Hd1)]; [exists c; split_and!; [done|done|by rewrite Hd]|].
  unfold failures in *. rewrite seq_S, foldM_app, E. cbn [mbind outcome_bind foldM Nat.add].
  unfold retry, sock_close. rewrite (proj2 (Z.ltb_ge (r_close k) 0)) by done. cbn [mbind outcome_bind set_ct connect_]. rewrite Hc1. cbn.
  eexists. split; [rewrite fmap_app, Hd1; reflexivity|]. split; [done|]. by rewrite delay_ms_next.
Qed.

Lemma connector_backoff_witness :
  (delay_ms <$> seq 0 8) = [500; 1000; 2000; 4000; 8000; 16000; 30000; 30000] ∧
  ∃ c', failures true (mkSys 3 0 0 false 0) 8 (mkConnector (CB := nat) true Cconnecting None 500) =
    Ok (c', (fun i => seconds_of (delay_ms i)) <$> seq 0 8).
Proof.
  split; [by vm_compute|].
  destruct (connector_backoff 8 (mkSys 3 0 0 false 0) (mkConnector (CB := nat) true Cconnecting None 500))
    as (c' & E & _); [done|done|done|]. by exists c'.
Defined.

(** ** As declared *)

Section Declared.
Context {CB T W : Type} `{LS : LoopServices CB T W} `{LL : !LoopLaws CB T W}.
Context (fn : ctor_functor → T) (runAfter : double → ctor_functor → W → outcome W).
Context (loop id : nat) (wr er : CB).

Lemma removeAndResetChannel_ok n c ch (w : W) :
  ct_channel_ c = Some ch → inLoopThread w = true → chan_ok ch w → removable ch w → can_queue (S n) w →
  ∃ ch' w', removeAndResetChannel fn c w = Ok (fd_ ch, set_ct (ct_state_ c) (Some ch') c, w') ∧
    inLoopThread w' = true ∧ can_queue n w' ∧ queued w' = queued w ++ [fn FResetChannel] ∧
    (∀ d, loop_ d = loop_ ch → fd_ d = fd_ ch → index_ d = -1 → chan_ok d w').
Proof.
  intros Ec Ht Hc Hr Q. unfold removeAndResetChannel. rewrite Ec. unfold disableAll, update.
  destruct (update_law (with_events KNoneEvent ch) w Ht) as (i & w1 & -> & C1 & Q1 & T1 & N1 & R1 & _);
    [by eapply chan_ok_same; [..|exact Hc]|].
  cbn [mbind outcome_bind]. unfold remove, isNoneEvent. cbn [set_index with_events events_ KNoneEvent Z.eqb assert_ mbind outcome_bind].
  destruct (remove_law _ w1 T1 C1) as (j & w2 & E2 & C2 & Q2 & T2 & N2 & _ & Fr); [by apply R1; eapply removable_same; [|exact Hr]|].
  cbn in E2. rewrite E2. cbn [mbind outcome_bind].
  destruct (queue_law n (fn FResetChannel) w2) as (w3 & -> & Q3 & T3 & N3 & C3 & _); [by apply N2, N1|].
  cbn. eexists _, w3. split; [done|]. split_and!; [congruence|done|congruence|]. intros d E1 E3 E4. by apply C3, Fr.
Qed.


(** A connection attempt that succeeds, as seen by the client: the connector hands its descriptor over, and the
    client makes of it a connection of its loop, connecting, with its callbacks and [removeConnection] as
    close callback, well-formed in the loop ([connection_starts] applies), and remembers it as its connection. *)
Theorem client_connects {S : Type} `{SL : SocketLaws S} k (a : accepted CB S) (x : TcpClient CB) ch ccb mcb (w : W) :
  let c := connector_ x in
  ct_state_ c = Cconnecting → ct_channel_ c = Some ch → connect_ c = true → r_error k = 0 → r_self k = false →
  inLoopThread w = true → chan_ok ch w → removable ch w → can_queue 1 w → loop_ ch = loop → a_fd a = fd_ ch →
  cl_connectionCallback_ x = Some ccb → cl_messageCallback_ x = Some mcb → cl_nextConnId_ x < INT_MAX →
  0 <= a_rl a → 0 <= a_rp a → shut (a_socket a) = false → is_Some (match addr_toIpPort (a_peer a) with Ok p => Some p | Fault _ => None end) →
  ∃ c' w', connector_handleWrite fn runAfter esft_accessible k c w = Ok (Some (a_fd a), c', w') ∧
    ∃ conn x', client_newConnection loop a (set_connector c' x) w' =
        Ok ([ECEstablished (cl_nextConnId_ x) (name_ conn)], conn, x') ∧
      conn_inv conn w' ∧ TcpConnection.state_ conn = KConnecting ∧ stream conn = sent (a_socket a) ∧
      connectionCallback_ conn = Some ccb ∧ messageCallback_ conn = Some mcb ∧ closeCallback_ conn = Some client_close ∧
      client_connection x' = Some (cl_nextConnId_ x) ∧ ct_state_ (connector_ x') = Cconnected.
Proof.
  intros c Es Ech Hc Hr Hs Ht C Rm Q El Ef Hccb Hmcb Hn Hrl Hrp Hsh [peer Hp]. unfold connector_handleWrite. rewrite Es.
  change (is_st Cconnecting Cconnecting) with true. cbn iota.
  destruct (removeAndResetChannel_ok 0 c ch w Ech Ht C Rm Q) as (ch' & w' & -> & Ht' & Q' & _ & Fr). cbn [mbind outcome_bind].
  rewrite Hr, Hs. cbn [Z.eqb negb]. change (connect_ (set_ct Cconnected _ _)) with (connect_ c). rewrite Hc, <-Ef.
  eexists _, w'. split; [reflexivity|]. unfold client_newConnection, assertInLoop. rewrite Ht'. cbn [mbind outcome_bind].
  unfold getPeerAddr, getLocalAddr. rewrite !(proj2 (Z.ltb_ge _ _)) by done. cbn [mbind outcome_bind].
  destruct (addr_toIpPort (a_peer a)) as [peer'|]; [|done]. cbn [mbind outcome_bind set_connector cl_nextConnId_].
  rewrite (proj2 (Z.eqb_neq _ _)) by lia. destruct (a_callbacks a) as [[[rd wr'] cl] er'].
  destruct (new_prepared loop (a_channel a) (cl_name_ x ++ snprintf 32 (c_str peer' ++ $"#" ++ dec (cl_nextConnId_ x))) (a_fd a) (a_local a) (a_peer a)
    (a_socket a) rd wr' cl er' ccb mcb (cl_writeCompleteCallback_ x) client_close w' Hsh Ht') as (y & E & I & Ey & Sy & _ & Ny & _).
  { apply Fr; [by rewrite El|done|done]. }
  set (x1 := set_connector _ x). change (cl_name_ x1) with (cl_name_ x). rewrite E. cbn [mbind outcome_bind].
  change (cl_connectionCallback_ x1) with (cl_connectionCallback_ x). change (cl_messageCallback_ x1) with (cl_messageCallback_ x).
  change (cl_writeCompleteCallback_ x1) with (cl_writeCompleteCallback_ x). rewrite Hccb, Hmcb.
  exists (prepare (Some ccb) (Some mcb) (cl_writeCompleteCallback_ x) client_close y).
  eexists. change (name_ (prepare _ _ _ _ y)) with (name_ y). rewrite Ny. split; [reflexivity|]. by split_and!.
Qed.

(** Stopping and starting a connecting connector at once, in the loop's thread, fails an assertion: the
    channel is only reset by a queued functor, and [connecting()] asserts that there is none. *)
Theorem stop_start_asserts k k' c ch (w : W) :
  ct_state_ c = Cconnecting → ct_channel_ c = Some ch → inLoopThread w = true → chan_ok ch w → removable ch w →
  can_queue 1 w → 0 <= r_close k → 0 <= r_socket k' → r_connect k' = EINPROGRESS →
  ∃ c1 w1, connector_stop fn k c w = Ok (c1, w1) ∧
    connector_start fn runAfter esft_accessible loop id wr er k' c1 w1 = Fault AssertFail.
Proof.
  intros Es Ech Ht C Rm Q Hk Hs Hr. unfold connector_stop. rewrite Ht. unfold stopInLoop, assertInLoop. rewrite Ht.
  cbn [mbind outcome_bind ct_state_]. rewrite Es. change (is_st Cconnecting Cconnecting) with true. cbn iota.
  set (c0 := set_ct CDisconnected _ _).
  destruct (removeAndResetChannel_ok 0 c0 ch w) as (ch' & w' & E & Ht' & _ & _); [exact Ech|done..|].
  rewrite E. cbn [mbind outcome_bind]. unfold sock_close. rewrite (proj2 (Z.ltb_ge (r_close k) 0)) by done. cbn [mbind outcome_bind].
  eexists _, w'. split; [done|]. unfold connector_start. cbn [connect_ set_ct c0]. rewrite Ht'.
  unfold startInLoop, assertInLoop. rewrite Ht'. cbn.
  unfold connect, createNonblockingOrDie. rewrite (proj2 (Z.ltb_ge (r_socket k') 0)), Hr by done. done.
Qed.
End Declared.

(** A connector of loop 0 that is connecting on descriptor 7, registered with the model kernel. *)
Definition ctor_chan : Channel nat := mkChannel 3 0 7 KWriteEvent 0 KAdded true None false false None (Some 0%nat) None (Some 1%nat).
Definition ctor_loop : EventLoop ctor_functor (gmap Z (Z * nat)) N :=
  mkLoop 0 true false true false false 1 0 (mkPoller 16 {[7 := 3%nat]} {[7 := (KWriteEvent, 3%nat)]}) 0%N [] None [] 1.
Definition sample_ctor : Connector nat := mkConnector true Cconnecting (Some ctor_chan) 500.
Definition no_timer (d : double) (f : ctor_functor) (l : EventLoop ctor_functor (gmap Z (Z * nat)) N) := Ok l.

Lemma ctor_chan_ok : chan_ok (T := ctor_functor) ctor_chan ctor_loop.
Proof. split; [done|]. right. left. split_and!; [done|done|]. by exists KWriteEvent. Qed.


Lemma stop_start_asserts_witness :
  ∃ c1 w1, connector_stop (fun f => f) (mkSys 3 0 0 false 0) sample_ctor ctor_loop = Ok (c1, w1) ∧
    connector_start (fun f => f) no_timer esft_accessible 0 3 0%nat 1%nat (mkSys 8 EINPROGRESS 0 false 0) c1 w1 = Fault AssertFail.
Proof.
  apply (stop_start_asserts (fun f => f) no_timer 0 3 0%nat 1%nat (mkSys 3 0 0 false 0) (mkSys 8 EINPROGRESS 0 false 0)
           sample_ctor ctor_chan ctor_loop); [done|done|done|exact ctor_chan_ok|done|by left|done|done|done].
Defined.
