(* ===== verification/Strings.v ===== *)
(** * Strings: trimming, splitting, replacing, strict number parsing

    Models [deps/common/utilities/string_utils.h] and [string_utils.cpp]. A [std::string_view] is the list of
    its characters; a search from a position is a search in the rest of the list. [std::from_chars] and
    [strtod_l] in the C locale are modelled for the literals that reach them. *)

From Stdlib Require Import SpecFloat.
From S2P Require Import Prelude Timestamp.

(** ** Characters *)

(* @src string_utils.h | inline bool is_ascii_whitespace( *)
Definition is_ascii_whitespace (c : char) : bool :=
  bool_decide (c ∈ [" "%char; "009"%char; "010"%char; "011"%char; "012"%char; "013"%char]).
(* @src string_utils.h | inline char to_lower_ascii( *)
Definition to_lower_ascii (c : char) : char :=
  if (65 <=? char_code c) && (char_code c <=? 90) then char_of_code (char_code c - 65 + 97) else c.
(* @src string_utils.h | inline char to_upper_ascii( *)
Definition to_upper_ascii (c : char) : char :=
  if (97 <=? char_code c) && (char_code c <=? 122) then char_of_code (char_code c - 97 + 65) else c.

(** ** Trimming *)

(** The value of [begin] after its loop, and of [end] counted from [begin]. *)
Fixpoint begin_loop (s : chars) : nat :=
  match s with c :: s' => if is_ascii_whitespace c then S (begin_loop s') else 0%nat | [] => 0%nat end.
Fixpoint end_loop (s : chars) (len : nat) : nat :=
  match len with
  | S l => if from_option is_ascii_whitespace false (s !! l) then end_loop s l else len
  | O => 0%nat
  end.

(* @src string_utils.h | inline std::string_view ltrim( *)
Definition ltrim (input : chars) : chars := drop (begin_loop input) input.
(* @src string_utils.h | inline std::string_view rtrim( *)
Definition rtrim (input : chars) : chars := take (end_loop input (length input)) input.
(* @src string_utils.h | inline std::string_view trim( *)
Definition trim (input : chars) : chars :=
  let rest := drop (begin_loop input) input in take (end_loop rest (length rest)) rest.

(** ** Splitting and joining *)

(** The loop of [split], on the part of the input from [start]; every turn but the last consumes a
    delimiter, so [fuel] above the length is enough. *)
Fixpoint split_loop (fuel : nat) (input delimiter : chars) : list chars :=
  match fuel with
  | O => []
  | S fuel =>
      match find_sub delimiter input with
      | None => [input]
      | Some position => take position input :: split_loop fuel (drop (position + length delimiter) input) delimiter
      end
  end.

(* @src string_utils.cpp | std::vector<std::string_view> split(std::string_view input, *)
Definition split (input delimiter : chars) : outcome (list chars) :=
  if decide (delimiter = []) then Fault (Throw (InvalidArgument "split: delimiter must not be empty"))
  else Ok (split_loop (S (length input)) input delimiter).

(* @src string_utils.h | std::string join(const Range& parts, *)
Definition join (parts : list chars) (delimiter : chars) : chars :=
  (foldl (fun '(result, first) part => (result ++ (if (first : bool) then [] else delimiter) ++ part, false))
     ([], true) parts).1.

(** ** Case *)

(* @src string_utils.cpp | std::string to_lower(std::string_view input) *)
Definition to_lower (input : chars) : chars := to_lower_ascii <$> input.
(* @src string_utils.cpp | std::string to_upper(std::string_view input) *)
Definition to_upper (input : chars) : chars := to_upper_ascii <$> input.

Fixpoint iequals_loop (lhs rhs : chars) : bool :=
  match lhs, rhs with
  | a :: lhs, b :: rhs => if bool_decide (to_lower_ascii a = to_lower_ascii b) then iequals_loop lhs rhs else false
  | _, _ => true
  end.
(* @src string_utils.h | inline bool iequals( *)
Definition iequals (lhs rhs : chars) : bool :=
  if negb (length lhs =? length rhs)%nat then false else iequals_loop lhs rhs.
(* @src string_utils.h | inline bool istarts_with( *)
Definition istarts_with (input prefix : chars) : bool :=
  if (length input <? length prefix)%nat then false else iequals (take (length prefix) input) prefix.
(* @src string_utils.h | inline bool iends_with( *)
Definition iends_with (input suffix : chars) : bool :=
  if (length input <? length suffix)%nat then false else iequals (drop (length input - length suffix) input) suffix.
(* @src string_utils.h | inline bool starts_with( *)
Definition starts_with (input prefix : chars) : bool :=
  if (length input <? length prefix)%nat then false else bool_decide (take (length prefix) input = prefix).
(* @src string_utils.h | inline bool ends_with( *)
Definition ends_with (input suffix : chars) : bool :=
  if (length input <? length suffix)%nat then false
  else bool_decide (drop (length input - length suffix) input = suffix).

(** ** Replacing *)

Fixpoint replace_loop (fuel : nat) (input from to : chars) : chars :=
  match fuel with
  | O => []
  | S fuel =>
      match find_sub from input with
      | None => input
      | Some position => take position input ++ to ++ replace_loop fuel (drop (position + length from) input) from to
      end
  end.

(* @src string_utils.cpp | std::string replace_all(std::string_view input, std::string_view from, *)
Definition replace_all (input from to : chars) : outcome chars :=
  if decide (from = []) then Fault (Throw (InvalidArgument "replace_all: 'from' must not be empty"))
  else Ok (replace_loop (S (length input)) input from to).
(* @src string_utils.cpp | std::string replace_first(std::string_view input, std::string_view from, *)
Definition replace_first (input from to : chars) : outcome chars :=
  if decide (from = []) then Fault (Throw (InvalidArgument "replace_first: 'from' must not be empty")) else
  match find_sub from input with
  | None => Ok input
  | Some position => Ok (take position input ++ to ++ drop (position + length from) input)
  end.

(** ** Numbers *)

(* @src string_utils.cpp | enum class NumberStatus *)
Inductive NumberStatus := kOk | kInvalid | kOutOfRange.

Fixpoint span_digits (s : chars) : chars * chars :=
  match s with
  | c :: s' => if is_digit c then let '(a, b) := span_digits s' in (c :: a, b) else ([], s)
  | [] => ([], [])
  end.

(** [std::from_chars(begin, end, value, 10)]: the characters left after [result.ptr], [result.ec] and the
    value. A minus sign is taken for signed types only; out of range, all digits are consumed. *)
Definition from_chars (lo hi : Z) (s : chars) : chars * NumberStatus * Z :=
  let '(neg, body) := match s with
                      | c :: s' => if decide (c = "-"%char) then if lo <? 0 then (true, s') else (false, s) else (false, s)
                      | [] => (false, s)
                      end in
  let '(ds, rest) := span_digits body in
  if decide (ds = []) then (s, kInvalid, 0) else
  let v := if (neg : bool) then - dval ds else dval ds in
  if (lo <=? v) && (v <=? hi) then (rest, kOk, v) else (rest, kOutOfRange, 0).

(** The common part of the integer parsers, after the sign. *)
Definition finish_int (lo hi : Z) (text : chars) : NumberStatus * Z :=
  let '(rest, ec, value) := from_chars lo hi text in
  if decide (rest = []) then
    match ec with kOutOfRange => (kOutOfRange, 0) | kInvalid => (kInvalid, 0) | kOk => (kOk, value) end
  else (kInvalid, 0).

Definition strip_plus (text : chars) : chars :=
  match text with c :: t => if decide (c = "+"%char) then t else text | [] => text end.

(** The status and the value of [out]. *)
(* @src string_utils.cpp | NumberStatus ParseInt64( *)
Definition ParseInt64 (input : chars) : NumberStatus * Z :=
  let text := trim input in
  if decide (text = []) then (kInvalid, 0) else
  let text := strip_plus text in
  if decide (text = []) then (kInvalid, 0) else
  finish_int INT64_MIN INT64_MAX text.

(* @src string_utils.cpp | NumberStatus ParseUint64( *)
Definition ParseUint64 (input : chars) : NumberStatus * Z :=
  let text := trim input in
  if decide (text = []) then (kInvalid, 0) else
  let text := strip_plus text in
  if decide (text = []) then (kInvalid, 0) else
  if bool_decide (head text = Some "-"%char) then (kInvalid, 0) else
  finish_int 0 UINT64_MAX text.

(** ** Doubles *)

Fixpoint zero_loop (has_digit : bool) (s : chars) : bool :=
  match s with
  | [] => has_digit
  | c :: s' =>
      if bool_decide (c = "e"%char) || bool_decide (c = "E"%char) then has_digit
      else if bool_decide (c = "."%char) then zero_loop has_digit s'
      else if (char_code c <? 48) || (57 <? char_code c) then false
      else if negb (bool_decide (c = "0"%char)) then false
      else zero_loop true s'
  end.
Definition strip_sign (text : chars) : chars :=
  match text with
  | c :: t => if bool_decide (c = "+"%char) || bool_decide (c = "-"%char) then t else text
  | [] => text
  end.
(* @src string_utils.cpp | bool IsZeroLiteral( *)
Definition IsZeroLiteral (text : chars) : bool := zero_loop false (strip_sign text).

(* @src string_utils.cpp | bool LooksLikeHexLiteral( *)
Definition LooksLikeHexLiteral (text : chars) : bool :=
  match strip_sign text with
  | a :: b :: _ => bool_decide (a = "0"%char) && (bool_decide (b = "x"%char) || bool_decide (b = "X"%char))
  | _ => false
  end.
(* @src string_utils.cpp | bool LooksLikeNonFiniteLiteral( *)
Definition LooksLikeNonFiniteLiteral (text : chars) : bool :=
  let lowered := strip_sign (to_lower text) in is_prefix $"inf" lowered || is_prefix $"nan" lowered.

(** [strtod_l] in the C locale on a decimal literal: the correctly rounded value of the longest prefix of
    the form digits, a point, digits and an exponent, and what is left after it. *)
Definition round_decimal (neg : bool) (m e : Z) : double :=
  if m =? 0 then S754_zero neg
  else if 0 <=? e then binary_normalize 53 1024 ((if neg then -1 else 1) * (m * 10 ^ e)) 0 false
  else let '(q, x, l) := SFdiv_core_binary 53 1024 m 0 (10 ^ (- e)) 0 in binary_round_aux 53 1024 neg q x l.

Definition exponent (s : chars) : Z * chars :=
  match s with
  | c :: t =>
      if bool_decide (c = "e"%char) || bool_decide (c = "E"%char) then
        let neg := bool_decide (head t = Some "-"%char) in
        let '(ds, rest) := span_digits (strip_sign t) in
        if decide (ds = []) then (0, s) else ((if neg then - dval ds else dval ds), rest)
      else (0, s)
  | [] => (0, [])
  end.

Definition strtod (text : chars) : double * chars :=
  let neg := bool_decide (head text = Some "-"%char) in
  let '(ip, r) := span_digits (strip_sign text) in
  let '(fp, r) := match r with
                  | c :: r' => if decide (c = "."%char)
                               then let '(fp, r2) := span_digits r' in
                                    if decide (ip = [] ∧ fp = []) then ([], r) else (fp, r2)
                               else ([], r)
                  | [] => ([], [])
                  end in
  if decide (ip ++ fp = []) then (S754_zero false, text) else
  let '(e, r) := exponent r in
  (round_decimal neg (dval (ip ++ fp)) (e - zlen fp), r).

Definition is_inf (d : double) : bool := if d is S754_infinity _ then true else false.
Definition is_zero (d : double) : bool := if d is S754_zero _ then true else false.

(* @src string_utils.cpp | NumberStatus ParseDouble( *)
Definition ParseDouble (input : chars) : NumberStatus * double :=
  let text := trim input in
  if decide (text = []) then (kInvalid, S754_zero false) else
  if LooksLikeHexLiteral text then (kInvalid, S754_zero false) else
  if LooksLikeNonFiniteLiteral text then (kInvalid, S754_zero false) else
  let '(value, rest) := strtod (c_str text) in
  if decide (rest = [] ∧ c_str text = text) then
    if is_inf value then (kOutOfRange, S754_zero false)
    else if is_zero value && negb (IsZeroLiteral text) then (kOutOfRange, S754_zero false)
    else (kOk, value)
  else (kInvalid, S754_zero false).

(* @src string_utils.cpp | NumberStatus ParseBool( *)
Definition ParseBool (input : chars) : NumberStatus * bool :=
  let lowered := to_lower (trim input) in
  if bool_decide (lowered ∈ [$"true"; $"1"; $"yes"; $"on"]) then (kOk, true)
  else if bool_decide (lowered ∈ [$"false"; $"0"; $"no"; $"off"]) then (kOk, false)
  else (kInvalid, false).

(* @src string_utils.cpp | void ThrowNumberError( | throw std::invalid_argument(message); *)
Definition ThrowNumberError (status : NumberStatus) (context type_name input : chars) : fault :=
  let message := if decide (context = []) then [] else context ++ $": " in
  let message := message ++ match status with
                            | kOutOfRange => $"value out of range for " ++ type_name ++ $": '"
                            | _ => $"invalid " ++ type_name ++ $" value: '"
                            end ++ input ++ $"'" in
  match status with
  | kOutOfRange => Throw (OutOfRange (string_of_list_ascii message))
  | _ => Throw (InvalidArgument (string_of_list_ascii message))
  end.

Definition or_throw {A : Type} (r : NumberStatus * A) (context type_name input : chars) : outcome A :=
  match r with
  | (kOk, v) => Ok v
  | (status, _) => Fault (ThrowNumberError status context type_name input)
  end.
Definition or_nullopt {A : Type} (r : NumberStatus * A) : option A :=
  match r with (kOk, v) => Some v | _ => None end.

(* @src string_utils.cpp | int64_t to_int64( *)
Definition to_int64 (input context : chars) : outcome Z := or_throw (ParseInt64 input) context $"int64" input.
(* @src string_utils.cpp | uint64_t to_uint64( *)
Definition to_uint64 (input context : chars) : outcome Z := or_throw (ParseUint64 input) context $"uint64" input.
(* @src string_utils.cpp | double to_double( *)
Definition to_double (input context : chars) : outcome double := or_throw (ParseDouble input) context $"double" input.
(* @src string_utils.cpp | bool to_bool( *)
Definition to_bool (input context : chars) : outcome bool := or_throw (ParseBool input) context $"bool" input.
(* @src string_utils.cpp | std::optional<int64_t> try_to_int64( *)
Definition try_to_int64 (input : chars) : option Z := or_nullopt (ParseInt64 input).
(* @src string_utils.cpp | std::optional<uint64_t> try_to_uint64( *)
Definition try_to_uint64 (input : chars) : option Z := or_nullopt (ParseUint64 input).
(* @src string_utils.cpp | std::optional<double> try_to_double( *)
Definition try_to_double (input : chars) : option double := or_nullopt (ParseDouble input).
(* @src string_utils.cpp | std::optional<bool> try_to_bool( *)
Definition try_to_bool (input : chars) : option bool := or_nullopt (ParseBool input).

(** ** Trimming and splitting: lemmas *)

Abbreviation blank := (Forall (fun c => is_ascii_whitespace c = true)).

Lemma begin_loop_spec (s : chars) :
  ∃ a, s = a ++ drop (begin_loop s) s ∧ blank a ∧
       ∀ c, head (drop (begin_loop s) s) = Some c → is_ascii_whitespace c = false.
Proof.
  induction s as [|c s (a & E & Ha & Hc)]; [by exists []|]. cbn [begin_loop].
  destruct (is_ascii_whitespace c) eqn:W; cbn [drop].
  - exists (c :: a). split_and!; [by rewrite E at 1|by constructor|done].
  - exists []. split_and!; [done|done|]. cbn. congruence.
Qed.

Lemma end_loop_spec (s : chars) (len : nat) :
  (len <= length s)%nat →
  ∃ b, take len s = take (end_loop s len) s ++ b ∧ blank b ∧ (end_loop s len <= len)%nat ∧
       ∀ c, last (take (end_loop s len) s) = Some c → is_ascii_whitespace c = false.
Proof.
  induction len as [|l IH]; intros Hl; [by exists []|]. cbn [end_loop].
  destruct (lookup_lt_is_Some_2 s l ltac:(lia)) as (c & Hc). rewrite Hc. cbn [from_option].
  rewrite (take_S_r s l c Hc). destruct (is_ascii_whitespace c) eqn:W.
  - destruct IH as (b & E & Hb & Hle & Hlast); [lia|]. exists (b ++ [c]).
    split_and!; [by rewrite E, app_assoc|by apply Forall_app; repeat constructor|lia|done].
  - exists []. rewrite (take_S_r s l c Hc), app_nil_r. split_and!; [done|done|lia|].
    intros c'. rewrite last_snoc. congruence.
Qed.

(** What [trim] returns: the text between the blanks, which starts and ends with a character that is none. *)
Lemma trim_spec (s : chars) :
  ∃ a b, s = a ++ trim s ++ b ∧ blank a ∧ blank b ∧
         (∀ c, head (trim s) = Some c → is_ascii_whitespace c = false) ∧
         (∀ c, last (trim s) = Some c → is_ascii_whitespace c = false).
Proof.
  destruct (begin_loop_spec s) as (a & E & Ha & Hh). unfold trim.
  set (r := drop (begin_loop s) s) in *.
  destruct (end_loop_spec r (length r) ltac:(lia)) as (b & E' & Hb & _ & Hl).
  rewrite firstn_all in E'. exists a, b. split_and!; [by rewrite <-E'|done|done| |done].
  intros c Hc. apply Hh. rewrite E'. destruct (take _ r); [done|exact Hc].
Qed.

Lemma begin_loop_app (a m : chars) :
  blank a → (∀ c, head m = Some c → is_ascii_whitespace c = false) → begin_loop (a ++ m) = length a.
Proof.
  intros Ha Hm. induction Ha as [|c a Hc Ha IH]; cbn [app begin_loop length].
  - destruct m as [|c m]; [done|]. cbn. by rewrite (Hm c eq_refl).
  - by rewrite Hc, IH.
Qed.

Lemma end_loop_app (m b : chars) :
  blank b → (∀ c, last m = Some c → is_ascii_whitespace c = false) →
  end_loop (m ++ b) (length (m ++ b)) = length m.
Proof.
  intros Hb Hm. induction b as [|c b IH] using rev_ind.
  - rewrite app_nil_r. destruct m as [|c m _] using rev_ind; [done|].
    rewrite length_app, Nat.add_1_r. cbn [end_loop]. rewrite list_lookup_middle by done. cbn.
    by rewrite (Hm c) by apply last_snoc.
  - apply Forall_app in Hb as [Hb Hc]. apply Forall_cons in Hc as [Hc _].
    rewrite app_assoc, length_app, Nat.add_1_r. cbn [end_loop]. rewrite list_lookup_middle by done. cbn. rewrite Hc.
    rewrite <-IH by done.
    assert (K : ∀ n, (n <= length (m ++ b))%nat → end_loop ((m ++ b) ++ [c]) n = end_loop (m ++ b) n).
    { induction n as [|n IHn]; intros Hn; [done|]. cbn [end_loop].
      rewrite (lookup_app_l (m ++ b) [c]) by lia. rewrite IHn by lia. done. }
    by rewrite K.
Qed.

(** Surrounding blanks are what [trim] removes, and all it removes. *)
Lemma trim_blank (a m b : chars) :
  blank a → blank b →
  (∀ c, head m = Some c → is_ascii_whitespace c = false) →
  (∀ c, last m = Some c → is_ascii_whitespace c = false) → trim (a ++ m ++ b) = m.
Proof.
  intros Ha Hb Hh Hl. unfold trim. destruct m as [|x m].
  - cbn [app]. pose proof (begin_loop_app (a ++ b) []) as E. rewrite app_nil_r in E.
    rewrite E by (try apply Forall_app; done). by rewrite drop_all, take_nil.
  - rewrite (begin_loop_app a ((x :: m) ++ b)) by done.
    rewrite drop_app_length, end_loop_app by done. apply take_app_length.
Qed.

Lemma split_loop_spec (d to : chars) (fuel : nat) (s : chars) :
  d ≠ [] → (length s < fuel)%nat →
  ∃ f fs, split_loop fuel s d = f :: fs ∧ s = f ++ concat (map (app d) fs) ∧
    Forall (fun g => ∀ a b, g ≠ a ++ d ++ b) (f :: fs) ∧
    replace_loop fuel s d to = f ++ concat (map (app to) fs).
Proof.
  intros Hd. revert s; induction fuel as [|fuel IH]; intros s Hs; [lia|]. cbn [split_loop replace_loop].
  destruct (find_sub d s) as [i|] eqn:E.
  - apply find_sub_Some in E as (a & r & -> & Ha & Hmin). subst i.
    rewrite take_app_length, <-drop_drop, drop_app_length, drop_app_length.
    destruct (IH r) as (f & fs & -> & Er & Hf & Et).
    { rewrite !length_app in Hs. destruct d; [done|cbn in Hs; lia]. }
    exists a, (f :: fs). rewrite Et. cbn [map concat].
    split_and!; [done|by rewrite Er at 1; rewrite <-!app_assoc| |by rewrite <-!app_assoc].
    constructor; [|exact Hf]. intros u v ->.
    specialize (Hmin (length u)). rewrite <-!app_assoc, drop_app_length in Hmin.
    rewrite (proj2 (is_prefix_spec _ _)) in Hmin by eauto.
    rewrite !length_app in Hmin. destruct d; [done|]. cbn in Hmin. discriminate Hmin. lia.
  - exists s, []. cbn. rewrite !app_nil_r. split_and!; [done|done| |done].
    constructor; [|done]. by apply find_sub_None.
Qed.

(** Enough fuel is enough. *)
Lemma split_loop_fuel (d : chars) (n m : nat) (s : chars) :
  d ≠ [] → (length s < n)%nat → (length s < m)%nat → split_loop n s d = split_loop m s d.
Proof.
  intros Hd. revert m s; induction n as [|n IH]; intros [|m] s Hn Hm; [lia..|]. cbn [split_loop].
  destruct (find_sub d s) as [i|] eqn:E; [|done]. f_equal.
  apply find_sub_Some in E as (a & r & -> & Ha & _). destruct d as [|x d]; [done|].
  rewrite !length_app in *. cbn [length] in *.
  apply IH; rewrite length_drop, !length_app; cbn [length]; lia.
Qed.

Lemma is_prefix_app (d l e : chars) : (length d <= length l)%nat → is_prefix d (l ++ e) = is_prefix d l.
Proof.
  revert l; induction d as [|x d IH]; intros [|c l] Hl; cbn in *; [done|done|lia|]. by rewrite IH by lia.
Qed.

(** Text appended to the input only changes the last field. *)
Lemma split_loop_app (d : chars) (n : nat) (s e : chars) :
  d ≠ [] → (length s < n)%nat →
  ∃ lines rest, split_loop n s d = lines ++ [rest] ∧
    ∀ m, (length (s ++ e) < m)%nat → split_loop m (s ++ e) d = lines ++ split_loop m (rest ++ e) d.
Proof.
  intros Hd. revert s; induction n as [|n IH]; intros s Hn; [lia|]. cbn [split_loop].
  destruct (find_sub d s) as [i|] eqn:E; [|by exists [], s].
  apply find_sub_Some in E as (a & r & -> & Ha & Hmin). subst i.
  rewrite take_app_length, <-drop_drop, !drop_app_length.
  assert (Hlen : (0 < length d)%nat) by (by destruct d; [|cbn; lia]).
  destruct (IH r) as (lines & rest & Es & Hm); [rewrite !length_app in Hn; lia|].
  exists (a :: lines), rest. split; [by rewrite Es|]. intros m Hl. destruct m as [|m]; [lia|]. cbn [split_loop].
  rewrite <-!app_assoc, (find_sub_first d a (r ++ e)).
  - rewrite take_app_length, <-drop_drop, !drop_app_length. cbn [app]. f_equal.
    rewrite !length_app in Hl. rewrite (split_loop_fuel d m (S m)) by (rewrite ?length_app; done || lia).
    apply Hm. rewrite length_app. lia.
  - intros j Hj. replace (a ++ d ++ r ++ e) with ((a ++ d ++ r) ++ e) by (by rewrite <-!app_assoc).
    rewrite drop_app_le by (rewrite !length_app; lia).
    rewrite is_prefix_app; [by apply Hmin|]. rewrite length_drop, !length_app. lia.
Qed.

Lemma join_cons (f : chars) (fs : list chars) (d : chars) : join (f :: fs) d = f ++ concat (map (app d) fs).
Proof.
  unfold join. cbn [foldl]. change ([] ++ [] ++ f) with f. generalize f as acc.
  induction fs as [|g fs IH]; intros acc; cbn; [by rewrite app_nil_r|]. rewrite IH. by rewrite !app_assoc.
Qed.

(** ** Integers: lemmas *)

Abbreviation all_digits := (Forall (fun c => is_digit c = true)).

Lemma span_digits_spec (s : chars) :
  let '(ds, rest) := span_digits s in
  s = ds ++ rest ∧ all_digits ds ∧ ∀ c, head rest = Some c → is_digit c = false.
Proof.
  induction s as [|c s IH]; cbn [span_digits]; [done|]. destruct (is_digit c) eqn:D.
  - destruct (span_digits s) as [ds rest]. destruct IH as (-> & Hd & Hr). split_and!; [done|by constructor|done].
  - split_and!; [done|done|]. cbn. congruence.
Qed.

Lemma span_digits_app (ds rest : chars) :
  all_digits ds → (∀ c, head rest = Some c → is_digit c = false) → span_digits (ds ++ rest) = (ds, rest).
Proof.
  intros Hd Hr. induction Hd as [|c ds Hc Hd IH]; cbn.
  - destruct rest as [|c rest]; [done|]. cbn. by rewrite (Hr c eq_refl).
  - by rewrite Hc, IH.
Qed.

Lemma digit_not_sign (c : char) : is_digit c = true → c ≠ "-"%char ∧ c ≠ "+"%char.
Proof. intros H. split; intros ->; by vm_compute in H. Qed.

Lemma digits_head (ds : chars) : all_digits ds → head ds ≠ Some "-"%char.
Proof. destruct 1 as [|c ds Hc]; [done|]. cbn. intros [= ->]. by vm_compute in Hc. Qed.

(** A sign and digits: the texts [from_chars] accepts up to their end. *)
Definition numeral (minus : bool) (ds text : chars) : Prop :=
  text = (if minus then ["-"%char] else []) ++ ds ∧ ds ≠ [] ∧ all_digits ds.
Definition numeral_value (minus : bool) (ds : chars) : Z := if minus then - dval ds else dval ds.

(** Whether the number fits decides between success and [kOutOfRange]. *)
Definition classify (lo hi v : Z) : NumberStatus * Z :=
  if (lo <=? v) && (v <=? hi) then (kOk, v) else (kOutOfRange, 0).

Lemma from_chars_split (lo hi : Z) (text : chars) :
  ∃ minus ds rest,
    text = (if (minus : bool) then ["-"%char] else []) ++ ds ++ rest ∧ all_digits ds ∧
    (∀ c, head rest = Some c → is_digit c = false) ∧ (minus = true → lo < 0) ∧
    from_chars lo hi text =
      if decide (ds = []) then (text, kInvalid, 0)
      else let v := numeral_value minus ds in
           if (lo <=? v) && (v <=? hi) then (rest, kOk, v) else (rest, kOutOfRange, 0).
Proof.
  assert (G : ∃ minus body, text = (if (minus : bool) then ["-"%char] else []) ++ body ∧ (minus = true → lo < 0) ∧
    match text with
    | c :: s' => if decide (c = "-"%char) then if lo <? 0 then (true, s') else (false, text) else (false, text)
    | [] => (false, text)
    end = (minus, body)).
  { destruct text as [|c t]; [by exists false, []|].
    destruct (decide (c = "-"%char)) as [->|]; [|by exists false, (c :: t)].
    destruct (lo <? 0) eqn:L; bool_prop; [by exists true, t|by exists false, ("-"%char :: t)]. }
  destruct G as (minus & body & E & Hm & G). unfold from_chars. rewrite G.
  pose proof (span_digits_spec body) as S. destruct (span_digits body) as [ds rest]. destruct S as (-> & Hd & Hr).
  exists minus, ds, rest. split_and!; [done|done|done|done|]. done.
Qed.

Lemma finish_int_numeral (lo hi : Z) (minus : bool) (ds text : chars) :
  numeral minus ds text → (minus = true → lo < 0) → finish_int lo hi text = classify lo hi (numeral_value minus ds).
Proof.
  intros (-> & Hne & Hd) Hm. unfold finish_int, from_chars, classify.
  assert (E : ∀ lo' : Z, (minus = true → lo' < 0) →
    match (if minus then ["-"%char] else []) ++ ds with
    | c :: s' => if decide (c = "-"%char) then if lo' <? 0 then (true, s') else (false, (if minus then ["-"%char] else []) ++ ds)
                 else (false, (if minus then ["-"%char] else []) ++ ds)
    | [] => (false, (if minus then ["-"%char] else []) ++ ds)
    end = (minus, ds)).
  { intros lo' Hlo. destruct minus; cbn [app].
    - rewrite decide_True by done. by rewrite (proj2 (Z.ltb_lt lo' 0)) by auto.
    - destruct ds as [|c ds]; [done|]. apply Forall_cons in Hd as [Hc _]. apply digit_not_sign in Hc as [].
      by rewrite decide_False. }
  rewrite (E lo Hm). pose proof (span_digits_app ds [] Hd) as S. rewrite app_nil_r in S. rewrite S by done.
  rewrite (decide_False (P := ds = [])) by done. fold (numeral_value minus ds).
  destruct ((lo <=? _) && _); by rewrite decide_True.
Qed.

Lemma finish_int_other (lo hi : Z) (text : chars) :
  lo <= 0 → (∀ minus ds, numeral minus ds text → minus = true ∧ 0 <= lo) → finish_int lo hi text = (kInvalid, 0).
Proof.
  intros Hlo H. unfold finish_int.
  destruct (from_chars_split lo hi text) as (minus & ds & rest & E & Hd & Hr & Hm & ->).
  destruct (decide (ds = [])) as [->|Hne]; [by destruct (decide (text = []))|].
  destruct rest as [|c rest].
  - destruct (H minus ds) as [-> ?]; [|specialize (Hm eq_refl); lia].
    rewrite app_nil_r in E. done.
  - cbv zeta. destruct ((lo <=? _) && _); by rewrite decide_False.
Qed.

(** A blank-free text after an optional plus. *)
Lemma strip_plus_spec (text : chars) :
  (∃ t, text = "+"%char :: t ∧ strip_plus text = t) ∨ head text ≠ Some "+"%char ∧ strip_plus text = text.
Proof.
  destruct text as [|c t]; [by right|]. cbn. destruct (decide (c = "+"%char)) as [->|]; [by left; exists t|].
  right. split; [congruence|done].
Qed.

Lemma numeral_head (minus : bool) (ds text : chars) : numeral minus ds text → text ≠ [] ∧ head text ≠ Some "+"%char.
Proof.
  intros (-> & Hne & Hd). destruct minus; cbn; [done|]. destruct ds as [|c ds]; [done|].
  apply Forall_cons in Hd as [Hc _]. apply digit_not_sign in Hc as []. split; [done|]. cbn. congruence.
Qed.

(** What is left after the blanks: an optional plus, an optional minus, and at least one digit. *)
Definition literal (plus minus : bool) (ds input : chars) : Prop :=
  ∃ text, numeral minus ds text ∧ trim input = (if plus then ["+"%char] else []) ++ text.

Lemma literal_strip (plus minus : bool) (ds input : chars) :
  literal plus minus ds input →
  trim input ≠ [] ∧ strip_plus (trim input) ≠ [] ∧ numeral minus ds (strip_plus (trim input)).
Proof.
  intros (text & Hn & E). destruct (numeral_head _ _ _ Hn) as [Hne Hp].
  assert (S : strip_plus (trim input) = text).
  { rewrite E. destruct plus; [done|]. cbn. destruct text as [|c t]; [done|]. cbn in *. by rewrite decide_False by congruence. }
  rewrite S. split_and!; [|done|done]. rewrite E. by destruct plus.
Qed.

Lemma numeral_literal (minus : bool) (ds input : chars) :
  numeral minus ds (strip_plus (trim input)) → ∃ plus, literal plus minus ds input.
Proof.
  intros Hn. destruct (strip_plus_spec (trim input)) as [(t & E & S)|[_ S]]; rewrite S in Hn.
  - by exists true, t.
  - by exists false, (trim input).
Qed.

Lemma ParseInt64_literal (plus minus : bool) (ds input : chars) :
  literal plus minus ds input → ParseInt64 input = classify INT64_MIN INT64_MAX (numeral_value minus ds).
Proof.
  intros L. destruct (literal_strip _ _ _ _ L) as (H1 & H2 & Hn). unfold ParseInt64.
  rewrite !decide_False by done. by apply finish_int_numeral.
Qed.

Lemma ParseInt64_other (input : chars) :
  (∀ plus minus ds, ¬ literal plus minus ds input) → ParseInt64 input = (kInvalid, 0).
Proof.
  intros H. unfold ParseInt64. case_decide; [done|]. case_decide; [done|]. apply finish_int_other; [done|].
  intros minus ds Hn. apply numeral_literal in Hn as (plus & L). by destruct (H plus minus ds).
Qed.

Lemma ParseUint64_literal (plus : bool) (ds input : chars) :
  literal plus false ds input → ParseUint64 input = classify 0 UINT64_MAX (dval ds).
Proof.
  intros L. destruct (literal_strip _ _ _ _ L) as (H1 & H2 & Hn). unfold ParseUint64.
  rewrite !decide_False by done. rewrite bool_decide_eq_false_2.
  - by apply (finish_int_numeral 0 UINT64_MAX false).
  - destruct Hn as (-> & _ & Hd). by apply digits_head.
Qed.

Lemma ParseUint64_other (input : chars) :
  (∀ plus ds, ¬ literal plus false ds input) → ParseUint64 input = (kInvalid, 0).
Proof.
  intros H. unfold ParseUint64. case_decide; [done|]. case_decide; [done|]. case_bool_decide as Hh; [done|].
  apply finish_int_other; [lia|]. intros minus ds Hn. destruct minus.
  - destruct Hn as (E & _). by rewrite E in Hh.
  - apply numeral_literal in Hn as (plus & L). by destruct (H plus ds).
Qed.

Lemma digit_not_blank (c : char) : is_digit c = true → is_ascii_whitespace c = false.
Proof.
  intros H. unfold is_ascii_whitespace. apply bool_decide_eq_false_2. intros E.
  rewrite !elem_of_cons in E. destruct_or! E; try subst c; try by vm_compute in H. by apply not_elem_of_nil in E.
Qed.

(** The decimal text of a number between blanks is a literal of that number. *)
Lemma dec_literal (a b : chars) (v : Z) :
  blank a → blank b → ∃ ds, literal false (v <? 0) ds (a ++ dec v ++ b) ∧ numeral_value (v <? 0) ds = v.
Proof.
  intros Ha Hb. set (ds := udec (Z.abs v)). exists ds.
  assert (Hd : all_digits ds) by (apply udec_digits; lia). assert (Hv : dval ds = Z.abs v) by (apply udec_val; lia).
  assert (Hne : ds ≠ []) by apply udec_nonempty.
  assert (E : dec v = (if v <? 0 then ["-"%char] else []) ++ ds).
  { unfold dec, ds. destruct (v <? 0) eqn:N; bool_prop; cbn; by rewrite ?Z.abs_eq, ?Z.abs_neq by lia. }
  clearbody ds. split.
  - exists (dec v). split; [by split_and!|]. cbn [app]. apply trim_blank; [done|done| |].
    + rewrite E. destruct (v <? 0); cbn; [intros c [= <-]; reflexivity|]. destruct ds as [|c0 ds']; [done|].
      intros c [= <-]. apply Forall_cons in Hd as [Hc _]. by apply digit_not_blank.
    + intros c Hl. rewrite E in Hl. rewrite last_app in Hl. destruct (last ds) as [c'|] eqn:L.
      * injection Hl as ->. apply digit_not_blank. rewrite Forall_forall in Hd. by apply Hd, last_Some_elem_of.
      * by apply last_None in L.
  - unfold numeral_value. destruct (v <? 0) eqn:N; bool_prop; lia.
Qed.

(** ** Properties *)

(** C21. Splitting loses nothing: with a non-empty delimiter the fields joined by it are the input, no field
    contains it (so there is one field more than there are delimiters), and [replace_all] is the same fields
    joined by the replacement. An empty delimiter is refused by both. *)
Theorem split_join_replace (s d to : chars) :
  (d = [] ∧ split s d = Fault (Throw (InvalidArgument "split: delimiter must not be empty")) ∧
   replace_all s d to = Fault (Throw (InvalidArgument "replace_all: 'from' must not be empty"))) ∨
  (d ≠ [] ∧ ∃ fields, split s d = Ok fields ∧ fields ≠ [] ∧ join fields d = s ∧
     Forall (fun f => ∀ a b, f ≠ a ++ d ++ b) fields ∧ replace_all s d to = Ok (join fields to)).
Proof.
  unfold split, replace_all. destruct (decide (d = [])) as [->|Hd]; [by left|]. right. split; [done|].
  destruct (split_loop_spec d to (S (length s)) s Hd ltac:(lia)) as (f & fs & -> & E & Hf & ->).
  exists (f :: fs). rewrite !join_cons. by split_and!.
Qed.

(** [trim] removes exactly the blanks around a text: what it returns starts and ends with a character that
    is no blank and only blanks were cut off; it is the identity on what it returned, and [ltrim] and [rtrim]
    are its two halves. *)
Theorem trim_exact (s : chars) :
  (∃ a b, s = a ++ trim s ++ b ∧ blank a ∧ blank b ∧
          (∀ c, head (trim s) = Some c → is_ascii_whitespace c = false) ∧
          (∀ c, last (trim s) = Some c → is_ascii_whitespace c = false)) ∧
  trim (trim s) = trim s ∧ trim s = rtrim (ltrim s).
Proof.
  pose proof (trim_spec s) as H. split_and!; [exact H| |done].
  destruct H as (a & b & _ & _ & _ & Hh & Hl). pose proof (trim_blank [] (trim s) [] ) as E.
  cbn [app] in E. rewrite app_nil_r in E. by apply E.
Qed.

(** C22. The integer parsers accept exactly the literals, an optional plus, then (signed only) an optional minus,
    then digits, between blanks, and give their value or an out-of-range error; everything else, a minus for
    an unsigned type included, is an invalid argument. In particular what [%d] prints reads back. *)
Theorem integer_literals (input context : chars) :
  (∀ plus minus ds, literal plus minus ds input →
     to_int64 input context =
       or_throw (classify INT64_MIN INT64_MAX (numeral_value minus ds)) context $"int64" input) ∧
  (∀ plus ds, literal plus false ds input →
     to_uint64 input context = or_throw (classify 0 UINT64_MAX (dval ds)) context $"uint64" input) ∧
  ((∀ plus minus ds, ¬ literal plus minus ds input) →
     to_int64 input context = Fault (ThrowNumberError kInvalid context $"int64" input)) ∧
  ((∀ plus ds, ¬ literal plus false ds input) →
     to_uint64 input context = Fault (ThrowNumberError kInvalid context $"uint64" input)) ∧
  (∀ a b v, blank a → blank b → input = a ++ dec v ++ b →
     (INT64_MIN <= v <= INT64_MAX → to_int64 input context = Ok v) ∧
     (0 <= v <= UINT64_MAX → to_uint64 input context = Ok v)).
Proof.
  unfold to_int64, to_uint64. split_and!.
  - intros plus minus ds L. by rewrite (ParseInt64_literal plus minus ds).
  - intros plus ds L. by rewrite (ParseUint64_literal plus ds).
  - intros H. by rewrite ParseInt64_other.
  - intros H. by rewrite ParseUint64_other.
  - intros a b v Ha Hb ->. destruct (dec_literal a b v Ha Hb) as (ds & L & Hv). split; intros Hr.
    + rewrite (ParseInt64_literal _ _ _ _ L), Hv. unfold classify.
      by rewrite (proj2 (Z.leb_le INT64_MIN v)), (proj2 (Z.leb_le v INT64_MAX)) by lia.
    + rewrite (proj2 (Z.ltb_ge v 0)) in L, Hv by lia. cbn in Hv. rewrite (ParseUint64_literal _ _ _ L), Hv. unfold classify.
      by rewrite (proj2 (Z.leb_le 0 v)), (proj2 (Z.leb_le v UINT64_MAX)) by lia.
Qed.

Lemma integer_literals_witness :
  literal true true $"5" $" +-5" ∧ to_int64 $" +-5" [] = Ok (-5) ∧ to_int64 $" -17 " [] = Ok (-17).
Proof.
  assert (L : literal true true $"5" $" +-5").
  { exists $"-5". split; [|reflexivity]. split_and!; [reflexivity|discriminate|]. by repeat constructor. }
  split_and!; [exact L| |].
  - rewrite (proj1 (integer_literals $" +-5" []) true true $"5" L). reflexivity.
  - refine (proj1 (proj2 (proj2 (proj2 (proj2 (integer_literals $" -17 " [])))) $" " $" " (-17) _ _ _) _);
      [by repeat constructor|by repeat constructor|reflexivity|by vm_compute].
Defined.
