(* ===== verification/Config.v ===== *)
(** * Config: the value tree, the JSON back end, lookup by dotted path

    Models [deps/common/config]: [config_value.{h,cpp}], [config_json.cpp], [config_parser.cpp] and
    [config.{h,cpp}]. The values are immutable and shared by [shared_ptr<const ...>], so a pointer into the
    tree is the node it points to. rapidjson is third-party code: its document is the type [rjson], its parser
    an argument. Files are an argument as well: what [ifstream] and [rdbuf] give for a path. *)

From Stdlib Require Import SpecFloat.
From S2P Require Import Prelude Timestamp Strings.

(** ** config_value *)

(** [Storage] and [ConfigValue]: the alternatives of the variant and the node with its path. *)
(* @src config_value.h | class ConfigValue { | using Storage = *)
Inductive ConfigValue :=
| CV (value_ : Storage) (path_ : chars)
with Storage :=
| SNull
| SBool (b : bool)
| SInt (z : Z)
| SDouble (d : double)
| SString (s : chars)
| SArray (items : list ConfigValue)
| SObject (fields : list (chars * ConfigValue)).

Definition value_ (v : ConfigValue) : Storage := let 'CV s _ := v in s.
Definition path_ (v : ConfigValue) : chars := let 'CV _ p := v in p.

(** [Type], the index of the alternative. *)
(* @src config_value.h | enum class Type *)
Inductive ValueType := TNull | TBool | TInt | TDouble | TString | TArray | TObject.
#[global] Instance ValueType_eq_dec : EqDecision ValueType.
Proof. solve_decision. Defined.
(* @src config_value.h | Type type() const noexcept *)
Definition type (this : ConfigValue) : ValueType :=
  match value_ this with
  | SNull => TNull | SBool _ => TBool | SInt _ => TInt | SDouble _ => TDouble | SString _ => TString
  | SArray _ => TArray | SObject _ => TObject
  end.
(* @src config_value.h | bool is_null() const noexcept *)
Definition is_null (this : ConfigValue) : bool := bool_decide (type this = TNull).
(* @src config_value.h | bool is_container() const noexcept | } *)
Definition is_container (this : ConfigValue) : bool := bool_decide (type this = TArray) || bool_decide (type this = TObject).

Definition throw_config {A : Type} (message : chars) : outcome A :=
  Fault (Throw (ConfigError (string_of_list_ascii message))).

(* @src config_value.cpp | const char* type_name( | return "unknown"; *)
Definition type_name (s : Storage) : chars :=
  match s with
  | SNull => $"null"
  | SBool _ => $"bool"
  | SInt _ => $"int"
  | SDouble _ => $"double"
  | SString _ => $"string"
  | SArray _ => $"array"
  | SObject _ => $"object"
  end.

(* @src config_value.cpp | ConfigValue ConfigValue::make_null( *)
Definition make_null (path : chars) : ConfigValue := CV SNull path.
(* @src config_value.cpp | ConfigValue ConfigValue::make_bool( *)
Definition make_bool (value : bool) (path : chars) : ConfigValue := CV (SBool value) path.
(* @src config_value.cpp | ConfigValue ConfigValue::make_int( *)
Definition make_int (value : Z) (path : chars) : ConfigValue := CV (SInt value) path.
(* @src config_value.cpp | ConfigValue ConfigValue::make_double( *)
Definition make_double (value : double) (path : chars) : ConfigValue := CV (SDouble value) path.
(* @src config_value.cpp | ConfigValue ConfigValue::make_string( *)
Definition make_string (value : chars) (path : chars) : ConfigValue := CV (SString value) path.
(* @src config_value.cpp | ConfigValue ConfigValue::make_array( *)
Definition make_array (items : list ConfigValue) (path : chars) : ConfigValue := CV (SArray items) path.

(* @src config_value.cpp | std::string ConfigValue::child_path( *)
Definition child_path (parent key : chars) : chars := if decide (parent = []) then key else parent ++ "."%char :: key.

(** The inner and the outer loop of [make_object]: the first later field with the name of an earlier one. *)
Fixpoint same_name (name : chars) (fields : list (chars * ConfigValue)) : option (chars * ConfigValue) :=
  match fields with
  | [] => None
  | f :: fields' => if decide (name = f.1) then Some f else same_name name fields'
  end.
Fixpoint duplicate (fields : list (chars * ConfigValue)) : option (chars * ConfigValue) :=
  match fields with
  | [] => None
  | f :: fields' => match same_name f.1 fields' with Some g => Some g | None => duplicate fields' end
  end.

(* @src config_value.cpp | ConfigValue ConfigValue::make_object( *)
Definition make_object (fields : list (chars * ConfigValue)) (path : chars) : outcome ConfigValue :=
  match duplicate fields with
  | Some (name, v) =>
      throw_config ((if decide (path_ v = []) then child_path path name else path_ v) ++ $": duplicate key")
  | None => Ok (CV (SObject fields) path)
  end.

(* @src config_value.cpp | void ConfigValue::throw_type_error( *)
Definition throw_type_error {A : Type} (this : ConfigValue) (expected : chars) : outcome A :=
  throw_config ((if decide (path_ this = []) then [] else path_ this ++ $": ") ++
                $"expected " ++ expected ++ $", got " ++ type_name (value_ this)).
Definition or_root (path : chars) : chars := if decide (path = []) then $"<root>" else path.
(* @src config_value.cpp | void ConfigValue::throw_missing_key( *)
Definition throw_missing_key {A : Type} (this : ConfigValue) (key : chars) : outcome A :=
  throw_config (or_root (path_ this) ++ $": key '" ++ key ++ $"' not found").

(* @src config_value.cpp | bool ConfigValue::as_bool() const *)
Definition as_bool (this : ConfigValue) : outcome bool :=
  if value_ this is SBool b then Ok b else throw_type_error this $"bool".
(* @src config_value.cpp | int64_t ConfigValue::as_int() const *)
Definition as_int (this : ConfigValue) : outcome Z :=
  if value_ this is SInt z then Ok z else throw_type_error this $"int".
(* @src config_value.cpp | double ConfigValue::as_double() const *)
Definition as_double (this : ConfigValue) : outcome double :=
  match value_ this with
  | SDouble d => Ok d
  | SInt z => Ok (double_of_Z z)
  | _ => throw_type_error this $"double"
  end.
(* @src config_value.cpp | const std::string& ConfigValue::as_string() const *)
Definition as_string (this : ConfigValue) : outcome chars :=
  if value_ this is SString s then Ok s else throw_type_error this $"string".
(* @src config_value.cpp | const ConfigArray& ConfigValue::as_array() const *)
Definition as_array (this : ConfigValue) : outcome (list ConfigValue) :=
  if value_ this is SArray items then Ok items else throw_type_error this $"array".
(* @src config_value.cpp | const ConfigObject& ConfigValue::as_object() const *)
Definition as_object (this : ConfigValue) : outcome (list (chars * ConfigValue)) :=
  if value_ this is SObject fields then Ok fields else throw_type_error this $"object".

(** A linear search for a field; [std::find_if] and the loops over the fields. *)
Fixpoint field_of (fields : list (chars * ConfigValue)) (key : chars) : option ConfigValue :=
  match fields with
  | [] => None
  | f :: fields' => if decide (f.1 = key) then Some f.2 else field_of fields' key
  end.

(* @src config_value.cpp | const ConfigValue& ConfigValue::operator[](std::string_view key) const *)
Definition at_key (this : ConfigValue) (key : chars) : outcome ConfigValue :=
  fields ← as_object this;
  match field_of fields key with Some v => Ok v | None => throw_missing_key this key end.
(* @src config_value.cpp | const ConfigValue& ConfigValue::operator[](size_t index) const *)
Definition at_index (this : ConfigValue) (index : Z) : outcome ConfigValue :=
  items ← as_array this;
  match items !! Z.to_nat index with
  | Some v => Ok v
  | None => throw_config (or_root (path_ this) ++ $": index " ++ udec index ++ $" out of range, size is " ++ udec (zlen items))
  end.
(* @src config_value.cpp | bool ConfigValue::has( *)
Definition value_has (this : ConfigValue) (key : chars) : bool :=
  if value_ this is SObject fields then if field_of fields key is Some _ then true else false else false.
(* @src config_value.cpp | size_t ConfigValue::size() const *)
Definition size (this : ConfigValue) : outcome Z :=
  match value_ this with
  | SArray items => Ok (zlen items)
  | SObject fields => Ok (zlen fields)
  | _ => throw_type_error this $"array or object"
  end.
(* @src config_value.cpp | std::vector<std::string> ConfigValue::keys() const *)
Definition keys (this : ConfigValue) : outcome (list chars) := fields ← as_object this; Ok (fields.*1).

(** ** config_json *)

(** A [rapidjson::Value] as the code reads it: [GetType], and for numbers the first of [IsUint64], [IsInt64]
    that holds, else a double. A string may hold NUL characters. *)
Inductive rjson :=
| RNull
| RTrue
| RFalse
| RUint64 (n : Z)
| RInt64 (n : Z)
| RDouble (d : double)
| RString (s : chars)
| RArray (items : list rjson)
| RObject (members : list (chars * rjson)).

Section Loops.
Context (conv : rjson → chars → outcome ConfigValue).
(** The loops of the array and of the object case. *)
Definition convert_items (path : chars) : list rjson → Z → outcome (list ConfigValue) :=
  fix loop items index :=
    match items with
    | [] => Ok []
    | item :: items' =>
        v ← conv item (child_path path (udec index)); rest ← loop items' (index + 1); Ok (v :: rest)
    end.
Definition convert_members (path : chars) : list (chars * rjson) → outcome (list (chars * ConfigValue)) :=
  fix loop members :=
    match members with
    | [] => Ok []
    | member :: members' =>
        let name := c_str member.1 in
        v ← conv member.2 (child_path path name); rest ← loop members'; Ok ((name, v) :: rest)
    end.
End Loops.

(* @src config_json.cpp | ConfigValue convert( *)
Fixpoint convert (node : rjson) (path : chars) : outcome ConfigValue :=
  match node with
  | RNull => Ok (make_null path)
  | RTrue => Ok (make_bool true path)
  | RFalse => Ok (make_bool false path)
  | RUint64 n => Ok (make_int (i64 n) path)
  | RInt64 n => Ok (make_int n path)
  | RDouble d => Ok (make_double d path)
  | RString s => Ok (make_string (c_str s) path)
  | RArray items => vs ← convert_items convert path items 0; Ok (make_array vs path)
  | RObject members => fields ← convert_members convert path members; make_object fields path
  end.

(* @src config_json.cpp | const char* json_type_name( | return "unknown"; *)
Definition json_type_name (node : rjson) : chars :=
  match node with
  | RNull => $"null"
  | RTrue | RFalse => $"bool"
  | RUint64 _ | RInt64 _ | RDouble _ => $"number"
  | RString _ => $"string"
  | RArray _ => $"array"
  | RObject _ => $"object"
  end.

(** ** config_parser and config *)

(* @src config.h | enum class ConfigFormat *)
Inductive ConfigFormat := Auto | Json.

(* @src config.h | explicit Config( | bool loaded_ = false; *)
Record Config := { format_ : ConfigFormat; root_ : ConfigValue; loaded_ : bool }.
Definition new_config (format : ConfigFormat) : Config :=
  {| format_ := format; root_ := CV SNull []; loaded_ := false |}.

(* @src config.cpp | bool is_index( *)
Definition is_index (segment : chars) : bool := if decide (segment = []) then false else forallb is_digit segment.

(** The tail of a path after its last point. *)
Fixpoint after_last_dot (path : chars) : option chars :=
  match path with
  | [] => None
  | c :: path' =>
      match after_last_dot path' with
      | Some e => Some e
      | None => if decide (c = "."%char) then Some path' else None
      end
  end.

(* @src config_parser.cpp | ConfigFormat config_format_from_extension( *)
Definition config_format_from_extension (path : chars) : outcome ConfigFormat :=
  let extension := from_option id [] (after_last_dot path) in
  if decide (extension = $"json") then Ok Json
  else throw_config ($"cannot infer config format from file '" ++ path ++ $"', supported extensions: .json").

(** One turn of the loop of [find]: the node a segment leads to. *)
Definition descend (current : ConfigValue) (segment : chars) : option ConfigValue :=
  match value_ current with
  | SArray items =>
      if is_index segment then
        if (19 <? length segment)%nat then None else items !! Z.to_nat (dval segment)
      else None
  | SObject fields => field_of fields segment
  | _ => None
  end.

Fixpoint find_loop (fuel : nat) (current : ConfigValue) (rest : chars) : option ConfigValue :=
  match fuel with
  | O => None
  | S fuel =>
      let dot := find_sub $"." rest in
      let segment := match dot with None => rest | Some d => take d rest end in
      if decide (segment = []) then None else
      match descend current segment with
      | None => None
      | Some next => match dot with None => Some next | Some d => find_loop fuel next (drop (d + 1) rest) end
      end
  end.

(** A null pointer is [None]. *)
(* @src config.cpp | const ConfigValue* Config::find( *)
Definition find (this : Config) (path : chars) : outcome (option ConfigValue) :=
  if negb (loaded_ this) then throw_config $"config not loaded" else
  if decide (path = []) then Ok (Some (root_ this)) else
  Ok (find_loop (S (length path)) (root_ this) path).
(* @src config.cpp | const ConfigValue& Config::node( *)
Definition node (this : Config) (path : chars) : outcome ConfigValue :=
  found ← find this path;
  match found with Some v => Ok v | None => throw_config ($"config key '" ++ path ++ $"' not found") end.
(* @src config.h | bool has(std::string_view path) const *)
Definition has (this : Config) (path : chars) : outcome bool :=
  found ← find this path; Ok (if found is Some _ then true else false).

(** [static_cast<float>] of a double: rounding to binary32. *)
Definition float_of_double (d : double) : spec_float :=
  match d with
  | S754_finite s m e => binary_normalize 24 128 (if s then Z.neg m else Z.pos m) e s
  | _ => d
  end.

(** The branches of [get<T>], by the type. *)
Definition unsigned_of (cast : Z → Z) (value : ConfigValue) : outcome Z :=
  raw ← as_int value;
  if raw <? 0 then throw_config (or_root (path_ value) ++ $": value is negative, cannot read as unsigned")
  else Ok (cast raw).
Definition signed_of (cast : Z → Z) (value : ConfigValue) : outcome Z := raw ← as_int value; Ok (cast raw).
Definition floating_of (cast : double → spec_float) (value : ConfigValue) : outcome spec_float :=
  d ← as_double value; Ok (cast d).

(** The instances of the template: a C++ type with its branch. *)
Record getter := { ty : Type; read : ConfigValue → outcome ty }.
Definition T_bool : getter := {| ty := bool; read := as_bool |}.
Definition T_int32 : getter := {| ty := Z; read := signed_of i32 |}.
Definition T_uint32 : getter := {| ty := Z; read := unsigned_of u32 |}.
Definition T_int64 : getter := {| ty := Z; read := signed_of i64 |}.
Definition T_uint64 : getter := {| ty := Z; read := unsigned_of u64 |}.
Definition T_float : getter := {| ty := spec_float; read := floating_of float_of_double |}.
Definition T_double : getter := {| ty := spec_float; read := floating_of id |}.
Definition T_string : getter := {| ty := chars; read := as_string |}.

(* @src config.cpp | T Config::get(std::string_view path) const *)
Definition get (T : getter) (this : Config) (path : chars) : outcome (ty T) :=
  value ← node this path; read T value.
(* @src config.cpp | T Config::get_or(std::string_view path, T fallback) const *)
Definition get_or (T : getter) (this : Config) (path : chars) (fallback : ty T) : outcome (ty T) :=
  b ← has this path; if negb b then Ok fallback else get T this path.

Section Loading.
(** [document.Parse] with comments and trailing commas allowed: the document, or the offset and the text of
    the parse error. *)
Context (Parse : chars → rjson + Z * chars).
(** The bytes of a file: cannot be opened, cannot be read, or its content. *)
Context (slurp : chars → option (option chars)).

(* @src config_json.cpp | ConfigValue parse_json( *)
Definition parse_json (content : chars) : outcome ConfigValue :=
  match Parse content with
  | inr (offset, error) => throw_config ($"json parse error at offset " ++ udec offset ++ $": " ++ error)
  | inl (RObject members) => convert (RObject members) []
  | inl document => throw_config ($"json root must be an object, got " ++ json_type_name document)
  end.

(* @src config_parser.cpp | ConfigValue parse_config( *)
Definition parse_config (content : chars) (format : ConfigFormat) : outcome ConfigValue :=
  match format with
  | Json => parse_json content
  | Auto => throw_config $"cannot infer config format for in-memory content, specify the format explicitly"
  end.

(** The object after the call, and what the call returned or threw. *)
(* @src config.cpp | bool Config::load_string( *)
Definition load_string (this : Config) (content : chars) (format : ConfigFormat) : Config * outcome bool :=
  let resolved := match format with Auto => format_ this | Json => Json end in
  match parse_config content resolved with
  | Fault f => (this, Fault f)
  | Ok root => ({| format_ := resolved; root_ := root; loaded_ := true |}, Ok true)
  end.
(* @src config.cpp | bool Config::load_file( *)
Definition load_file (this : Config) (path : chars) : Config * outcome bool :=
  match slurp path with
  | None => (this, throw_config ($"cannot open config file '" ++ path ++ $"'"))
  | Some None => (this, throw_config ($"cannot read config file '" ++ path ++ $"'"))
  | Some (Some content) =>
      match (match format_ this with Auto => config_format_from_extension path | Json => Ok Json end) with
      | Fault f => (this, Fault f)
      | Ok resolved => load_string this content resolved
      end
  end.
End Loading.

(** ** Lookup along the fields of a path *)

(** The specification of [find]: one step per field of the path, no field empty. *)
Fixpoint walk (v : ConfigValue) (segments : list chars) : option ConfigValue :=
  match segments with
  | [] => Some v
  | s :: segments' =>
      if decide (s = []) then None
      else match descend v s with Some w => walk w segments' | None => None end
  end.

Lemma find_loop_walk (fuel : nat) (v : ConfigValue) (rest : chars) :
  (length rest < fuel)%nat → find_loop fuel v rest = walk v (split_loop fuel rest $".").
Proof.
  revert v rest; induction fuel as [|fuel IH]; intros v rest Hf; [lia|].
  cbn [find_loop split_loop]. cbv zeta. destruct (find_sub $"." rest) as [d|] eqn:E; cbn [walk].
  - apply find_sub_Some in E as (a & b & -> & Ha & _). subst d.
    case_decide; [done|]. destruct (descend v _) as [w|]; [|done].
    change (length $".") with 1%nat. apply IH.
    rewrite length_drop. rewrite !length_app in *. cbn in *. lia.
  - case_decide; [done|]. by destruct (descend v rest).
Qed.

(** Clean segments survive the dotted path. *)
Definition clean (s : chars) : Prop := s ≠ [] ∧ "."%char ∉ s.

Lemma is_prefix_dot (s : chars) : is_prefix $"." s = bool_decide (head s = Some "."%char).
Proof.
  destruct s as [|c s]; [done|]. cbn. rewrite andb_true_r.
  apply bool_decide_ext. split; [by intros <-|by intros [= ->]].
Qed.

Lemma find_dot_clean (s r : chars) : "."%char ∉ s → find_sub $"." (s ++ "."%char :: r) = Some (length s).
Proof.
  intros Hs. apply (find_sub_first $"." s r). intros j Hj. rewrite is_prefix_dot.
  apply bool_decide_eq_false_2. intros E. apply Hs. rewrite drop_app_le in E by lia.
  destruct (drop j s) as [|c t] eqn:D; [apply (f_equal length) in D; rewrite length_drop in D; cbn in D; lia|].
  injection E as ->. eapply (list_elem_of_lookup_2 _ j). rewrite <-(Nat.add_0_r j), <-lookup_drop, D. done.
Qed.

Lemma find_dot_none (s : chars) : "."%char ∉ s → find_sub $"." s = None.
Proof.
  intros Hs. destruct (find_sub $"." s) as [i|] eqn:E; [|done]. exfalso. apply Hs.
  apply find_sub_Some in E as (a & b & -> & _). set_solver.
Qed.

Lemma split_join_clean (fuel : nat) (s : chars) (segments : list chars) :
  Forall clean (s :: segments) → (length (join (s :: segments) $".") < fuel)%nat →
  split_loop fuel (join (s :: segments) $".") $"." = s :: segments.
Proof.
  revert fuel s; induction segments as [|t segments IH]; intros fuel s Hc Hf;
    apply Forall_cons in Hc as [[_ Hs] Hc]; (destruct fuel as [|fuel]; [lia|]); rewrite join_cons in *; cbn [split_loop].
  - cbn [map concat]. rewrite app_nil_r. by rewrite find_dot_none.
  - cbn [map concat] in *. change ($"." ++ t) with ("."%char :: t) in *. cbn [app] in *.
    rewrite (find_dot_clean s) by done. rewrite take_app_length, <-drop_drop, drop_app_length.
    change (drop (length $".") ("."%char :: t ++ concat (map (app $".") segments))) with (t ++ concat (map (app $".") segments)).
    rewrite <-join_cons. f_equal. apply IH; [done|]. rewrite join_cons. rewrite length_app in Hf. cbn [length] in Hf. lia.
Qed.

(** Appending segments one by one gives the dotted path. *)
Lemma child_path_join (segments : list chars) (p : chars) :
  p ≠ [] → foldl child_path p segments = p ++ concat (map (app $".") segments).
Proof.
  revert p; induction segments as [|s segments IH]; intros p Hp; cbn; [by rewrite app_nil_r|].
  unfold child_path at 2. rewrite decide_False by done. rewrite IH by (by destruct p). by rewrite <-app_assoc.
Qed.

Lemma path_join (s : chars) (segments : list chars) :
  s ≠ [] → foldl child_path [] (s :: segments) = join (s :: segments) $".".
Proof. intros Hs. cbn [foldl]. rewrite join_cons. unfold child_path at 2. by rewrite decide_True, child_path_join. Qed.

(** ** Conversion of documents *)

(** Where a node of a document is: member names and array positions from the root. A rapidjson array has a
    32-bit size. *)
Inductive located : rjson → list chars → rjson → Prop :=
| loc_here n : located n [] n
| loc_item items i n segments m :
    items !! i = Some n → Z.of_nat i < 2 ^ 32 → located n segments m →
    located (RArray items) (udec (Z.of_nat i) :: segments) m
| loc_member members i name n segments m :
    members !! i = Some (name, n) → located n segments m → located (RObject members) (name :: segments) m.

Lemma convert_items_lookup conv path items k vs i n :
  0 <= k → convert_items conv path items k = Ok vs → items !! i = Some n →
  ∃ v, vs !! i = Some v ∧ conv n (child_path path (udec (k + Z.of_nat i))) = Ok v.
Proof.
  revert k vs i; induction items as [|x items IH]; intros k vs i Hk H Hi; [done|].
  cbn in H. bind_inv H. bind_inv H. injection H as <-. destruct i as [|i]; cbn in Hi.
  - injection Hi as ->. exists a. by rewrite Z.add_0_r.
  - destruct (IH (k + 1) a0 i) as (v & Hv & Ec); [lia|done|done|]. exists v. split; [done|].
    by replace (k + Z.of_nat (S i)) with (k + 1 + Z.of_nat i) by lia.
Qed.

Lemma convert_items_length conv path items k vs : convert_items conv path items k = Ok vs → length vs = length items.
Proof.
  revert k vs; induction items as [|x items IH]; intros k vs H; cbn in H; [by injection H as <-|].
  bind_inv H. bind_inv H. injection H as <-. cbn. f_equal. eauto.
Qed.

Lemma convert_members_lookup conv path members fields i name n :
  convert_members conv path members = Ok fields → members !! i = Some (name, n) →
  ∃ v, fields !! i = Some (c_str name, v) ∧ conv n (child_path path (c_str name)) = Ok v.
Proof.
  revert fields i; induction members as [|x members IH]; intros fields i H Hi; [done|].
  cbn in H. bind_inv H. bind_inv H. injection H as <-. destruct i as [|i]; cbn in Hi.
  - injection Hi as ->. by exists a.
  - destruct (IH a0 i E0 Hi) as (v & Hv & Ec). by exists v.
Qed.

Lemma convert_members_names conv path members fields :
  convert_members conv path members = Ok fields → fields.*1 = c_str <$> members.*1.
Proof.
  revert fields; induction members as [|x members IH]; intros fields H; cbn in H; [by injection H as <-|].
  bind_inv H. bind_inv H. injection H as <-. cbn. f_equal. eauto.
Qed.

Lemma same_name_None name fields : same_name name fields = None ↔ name ∉ fields.*1.
Proof.
  induction fields as [|f fields IH]; cbn; [set_solver|]. case_decide; [set_solver|]. rewrite IH. set_solver.
Qed.

Lemma duplicate_None fields : duplicate fields = None ↔ NoDup (fields.*1).
Proof.
  induction fields as [|f fields IH]; cbn; [split; [constructor|done]|].
  rewrite NoDup_cons, <-IH, <-same_name_None. destruct (same_name f.1 fields); naive_solver.
Qed.

Lemma field_of_lookup fields i name v :
  NoDup (fields.*1) → fields !! i = Some (name, v) → field_of fields name = Some v.
Proof.
  revert i; induction fields as [|f fields IH]; intros i Hn Hi; [done|]. apply NoDup_cons in Hn as [Hf Hn].
  destruct i as [|i]; cbn in *; [injection Hi as ->; by rewrite decide_True|].
  rewrite decide_False; [by eapply IH|]. intros E. apply Hf. rewrite E.
  apply list_elem_of_fmap. exists (name, v). split; [done|]. by eapply list_elem_of_lookup_2.
Qed.

Lemma udec_index (i : Z) : 0 <= i < 2 ^ 32 → is_index (udec i) = true ∧ (length (udec i) <= 19)%nat ∧ dval (udec i) = i.
Proof.
  intros Hi. split_and!; [| |apply udec_val; lia].
  - unfold is_index. rewrite decide_False by apply udec_nonempty. apply forallb_forall. intros c Hc.
    pose proof (udec_digits i ltac:(lia)) as H. rewrite Forall_forall in H. by apply H, list_elem_of_In.
  - apply udec_length; [|lia]. change (10 ^ Z.of_nat 19) with 10000000000000000000. lia.
Qed.

Lemma c_str_id (s : chars) : "000"%char ∉ s → c_str s = s.
Proof. induction s as [|c s IH]; intros H; [done|]. cbn. rewrite decide_False, IH by set_solver. done. Qed.

(** A converted tree holds, at every clean position, the conversion of the node there, labelled with its path. *)
Lemma convert_located (n : rjson) (segments : list chars) (m : rjson) :
  located n segments m → Forall (fun s => s ≠ [] ∧ "000"%char ∉ s) segments →
  ∀ p v, convert n p = Ok v →
  ∃ w, walk v segments = Some w ∧ path_ w = foldl child_path p segments ∧ convert m (path_ w) = Ok w.
Proof.
  induction 1 as [n|items i n segments m Hi Hb _ IH|members i name n segments m Hi _ IH]; intros Hs p v H.
  - exists v. split; [done|]. assert (E : path_ v = p).
    { destruct n; cbn in H; try (by injection H as <-); bind_inv H; [by injection H as <-|].
      unfold make_object in H. destruct (duplicate _) as [[]|]; [done|]. by injection H as <-. }
    by rewrite E.
  - apply Forall_cons in Hs as [[Hs _] Hr]. cbn in H. bind_inv H. injection H as <-.
    destruct (convert_items_lookup convert p items 0 a i n ltac:(lia) E Hi) as (v & Hv & Hc). rewrite Z.add_0_l in Hc.
    destruct (IH Hr _ _ Hc) as (w & Hw & Hp & Hcw). exists w. split_and!; [|done|done].
    destruct (udec_index (Z.of_nat i) ltac:(lia)) as (Hx & Hl & Hd). cbn [walk]. rewrite decide_False by done.
    cbn [descend make_array value_]. rewrite Hx, (proj2 (Nat.ltb_ge _ _)) by done.
    by rewrite Hd, Nat2Z.id, Hv.
  - apply Forall_cons in Hs as [[Hs Hz] Hr]. cbn in H. bind_inv H. unfold make_object in H.
    destruct (duplicate a) as [[]|] eqn:D; [done|]. injection H as <-. apply duplicate_None in D.
    destruct (convert_members_lookup _ _ _ _ _ _ _ E Hi) as (v & Hv & Hc). rewrite c_str_id in Hv, Hc by done.
    destruct (IH Hr _ _ Hc) as (w & Hw & Hp & Hcw). exists w. split_and!; [|done|done].
    cbn [walk]. rewrite decide_False by done. cbn [descend value_]. by rewrite (field_of_lookup _ _ _ _ D Hv).
Qed.

(** No object of the document has two members whose names read as the same C string. *)
Inductive no_dups : rjson → Prop :=
| nd_array items : Forall no_dups items → no_dups (RArray items)
| nd_object members :
    NoDup (c_str <$> members.*1) → Forall (fun m => no_dups m.2) members → no_dups (RObject members)
| nd_scalar n : (match n with RArray _ | RObject _ => False | _ => True end) → no_dups n.

Section rjson_ind.
Context (P : rjson → Prop).
Context (Hs : ∀ n, (match n with RArray _ | RObject _ => False | _ => True end) → P n).
Context (Ha : ∀ items, Forall P items → P (RArray items)).
Context (Ho : ∀ members, Forall (fun m => P m.2) members → P (RObject members)).
(** Induction that reaches into the lists. *)
Fixpoint rjson_deep (n : rjson) : P n :=
  match n with
  | RArray items =>
      Ha items ((fix go l : Forall P l := match l with [] => List.Forall_nil _ | x :: l => List.Forall_cons _ _ _ (rjson_deep x) (go l) end) items)
  | RObject members =>
      Ho members ((fix go (l : list (chars * rjson)) : Forall (fun m => P m.2) l :=
                     match l with [] => List.Forall_nil _ | x :: l => List.Forall_cons _ _ _ (rjson_deep x.2) (go l) end) members)
  | n => Hs n I
  end.
End rjson_ind.

(** Conversion succeeds exactly on documents without duplicates, and its only exception is [ConfigError]. *)
Lemma convert_total (n : rjson) (p : chars) :
  (no_dups n ∧ ∃ v, convert n p = Ok v) ∨ (¬ no_dups n ∧ ∃ what, convert n p = Fault (Throw (ConfigError what))).
Proof.
  revert p. induction n as [n Hn|items IH|members IH] using rjson_deep; intros p.
  - left. split; [by apply nd_scalar|]. destruct n; cbn; eauto; done.
  - assert (G : ∀ k, (Forall no_dups items ∧ ∃ vs, convert_items convert p items k = Ok vs) ∨
                     (¬ Forall no_dups items ∧ ∃ what, convert_items convert p items k = Fault (Throw (ConfigError what)))).
    { induction IH as [|x items Hx _ IH']; intros k; cbn [convert_items]; [left; eauto|].
      rewrite Forall_cons. destruct (Hx (child_path p (udec k))) as [[Hd (v & ->)]|[Hd (w & ->)]]; cbn; [|right; naive_solver].
      destruct (IH' (k + 1)) as [[Hi (vs & E)]|[Hi (w & E)]]; rewrite E; cbn; [left; eauto|right; naive_solver]. }
    cbn. destruct (G 0) as [[Hd (vs & ->)]|[Hd (w & ->)]]; cbn; [left; split; [by constructor|eauto]|].
    right. split; [|eauto]. by inversion 1.
  - assert (G : (Forall (fun m => no_dups m.2) members ∧ ∃ fs, convert_members convert p members = Ok fs) ∨
                (¬ Forall (fun m => no_dups m.2) members ∧ ∃ what, convert_members convert p members = Fault (Throw (ConfigError what)))).
    { induction IH as [|x members Hx _ IH']; cbn [convert_members]; [left; eauto|].
      rewrite Forall_cons. cbv zeta. destruct (Hx (child_path p (c_str x.1))) as [[Hd (v & ->)]|[Hd (w & ->)]]; cbn; [|right; naive_solver].
      destruct IH' as [[Hi (vs & E)]|[Hi (w & E)]]; rewrite E; cbn; [left; eauto|right; naive_solver]. }
    cbn. destruct G as [[Hd (fs & E)]|[Hd (w & ->)]]; cbn; [|right; split; [by inversion 1|eauto]].
    rewrite E. cbn. pose proof (duplicate_None fs) as D. rewrite (convert_members_names _ _ _ _ E) in D.
    unfold make_object. destruct (duplicate fs) as [[nm v]|].
    + right. split; [|unfold throw_config; eauto]. inversion 1; [|done]. by destruct D as [_ D]; specialize (D ltac:(assumption)).
    + left. split; [constructor; [by apply D|done]|eauto].
Qed.

Lemma find_walk (c : Config) (path : chars) :
  loaded_ c = true → path ≠ [] →
  ∃ fields, split path $"." = Ok fields ∧ find c path = Ok (walk (root_ c) fields).
Proof.
  intros Hl Hp. exists (split_loop (S (length path)) path $"."). split; [done|].
  unfold find. rewrite Hl, decide_False by done. cbn [negb]. by rewrite find_loop_walk by lia.
Qed.

(** What a node holds for a node of the document. *)
Definition holds (m : rjson) (w : ConfigValue) : Prop :=
  match m with
  | RNull => value_ w = SNull
  | RTrue => value_ w = SBool true
  | RFalse => value_ w = SBool false
  | RUint64 n => value_ w = SInt (i64 n)
  | RInt64 n => value_ w = SInt n
  | RDouble d => value_ w = SDouble d
  | RString s => value_ w = SString (c_str s)
  | RArray items => size w = Ok (zlen items)
  | RObject members => keys w = Ok (c_str <$> members.*1)
  end.

Lemma convert_holds (m : rjson) (p : chars) (w : ConfigValue) : convert m p = Ok w → holds m w.
Proof.
  destruct m; cbn [convert holds]; intros H; try (by injection H as <-); bind_inv H.
  - injection H as <-. cbn. unfold zlen. by erewrite convert_items_length.
  - unfold make_object in H. destruct (duplicate a) as [[]|]; [done|]. injection H as <-. cbn.
    by erewrite convert_members_names.
Qed.

(** ** Properties *)

(** C23. Loading is all or nothing: [load_string] succeeds exactly when the text parses to an object in which no
    object has two members of one name, and then the whole tree is replaced; otherwise it throws [ConfigError]
    and the configuration is the one before the call. *)
Theorem load_all_or_nothing (Parse : chars → rjson + Z * chars) (c : Config) (content : chars) :
  let '(c', r) := load_string Parse c content Json in
  (∃ members root, Parse content = inl (RObject members) ∧ no_dups (RObject members) ∧ r = Ok true ∧
     convert (RObject members) [] = Ok root ∧ c' = {| format_ := Json; root_ := root; loaded_ := true |}) ∨
  ((∀ members, Parse content = inl (RObject members) → ¬ no_dups (RObject members)) ∧ c' = c ∧
   ∃ what, r = Fault (Throw (ConfigError what))).
Proof.
  unfold load_string, parse_config, parse_json. destruct (Parse content) as [doc|[off err]].
  - destruct doc; try (right; unfold throw_config; split_and!; [done|done|eauto]).
    destruct (convert_total (RObject members) []) as [[Hd (v & E)]|[Hd (w & E)]]; rewrite E.
    + left. by exists members, v.
    + right. split_and!; [by intros ? [= <-]|done|eauto].
  - right. unfold throw_config. split_and!; [done|done|eauto].
Qed.

(** C24. After a successful load every node of the document whose position has non-empty names without points
    or NULs is found at the dotted path of its position, carries that path, and holds the document's value;
    lookup of any other non-empty path follows the fields [split] gives and answers null, never an error. *)
Theorem paths_resolve (Parse : chars → rjson + Z * chars) (c c' : Config) (content : chars) (doc : rjson) :
  load_string Parse c content Json = (c', Ok true) → Parse content = inl doc →
  (∀ s segments m, located doc (s :: segments) m → Forall clean (s :: segments) →
     Forall (fun t => "000"%char ∉ t) (s :: segments) →
     ∃ w, find c' (join (s :: segments) $".") = Ok (Some w) ∧ path_ w = join (s :: segments) $"." ∧ holds m w) ∧
  (∀ path, path ≠ [] → ∃ fields, split path $"." = Ok fields ∧ find c' path = Ok (walk (root_ c') fields)).
Proof.
  intros H Hp.
  assert (G : convert doc [] = Ok (root_ c') ∧ loaded_ c' = true).
  { unfold load_string, parse_config, parse_json in H. rewrite Hp in H. destruct doc; try done.
    destruct (convert (RObject members) []); [|done]. by injection H as <-. }
  destruct G as [Hc Hl]. split; [|by intros; apply find_walk].
  intros s segments m Hm Hcl Hz.
  destruct (convert_located _ _ _ Hm) with (p := @nil char) (v := root_ c') as (w & Hw & Hpw & Hcw); [|done|].
  { rewrite Forall_forall in *. intros t Ht. destruct (Hcl t Ht). split; [done|]. by apply Hz. }
  assert (Hs : s ≠ []) by (by apply Forall_cons in Hcl as [[] _]). rewrite path_join in Hpw by done.
  exists w. split_and!; [|done|by eapply convert_holds].
  unfold find. rewrite Hl, decide_False.
  - cbn [negb]. rewrite find_loop_walk, split_join_clean by (done || lia). by rewrite Hw.
  - rewrite join_cons. by destruct s.
Qed.

Lemma paths_resolve_witness :
  let doc := RObject [($"port", RUint64 2121); ($"servers", RArray [RObject [($"host", RString $"a")]])] in
  let c' := (load_string (fun _ => inl doc) (new_config Json) [] Json).1 in
  ∃ w, find c' $"servers.0.host" = Ok (Some w) ∧ path_ w = $"servers.0.host" ∧ value_ w = SString $"a".
Proof.
  intros doc c'.
  destruct (paths_resolve (fun _ => inl doc) (new_config Json) c' [] doc eq_refl eq_refl) as [H _].
  apply (H $"servers" [$"0"; $"host"] (RString $"a")).
  - apply (loc_member _ 1 _ (RArray [RObject [($"host", RString $"a")]])); [done|].
    apply (loc_item _ 0 (RObject [($"host", RString $"a")])); [done|lia|].
    apply (loc_member _ 0 _ (RString $"a")); [done|]. constructor.
  - repeat constructor; (discriminate || apply (bool_decide_unpack _); vm_compute; exact I).
  - repeat constructor; apply (bool_decide_unpack _); vm_compute; exact I.
Defined.

(** C25. Reading an integer node keeps its value only where the type holds it: [int64_t] always, [uint64_t] from
    zero on (a negative value is refused); [int32_t] and [uint32_t] take it modulo 2^32 without an error. A
    document number above the [int64_t] range is stored negative, so [int64_t] reads it wrapped and
    [uint64_t] refuses it. *)
Theorem get_widths (c : Config) (path p : chars) (z : Z) :
  find c path = Ok (Some (CV (SInt z) p)) → INT64_MIN <= z <= INT64_MAX →
  get T_int64 c path = Ok z ∧
  get T_int32 c path = Ok (i32 z) ∧
  (0 <= z → get T_uint64 c path = Ok z ∧ get T_uint32 c path = Ok (u32 z)) ∧
  (z < 0 → get T_uint64 c path = throw_config (or_root p ++ $": value is negative, cannot read as unsigned") ∧
           get T_uint32 c path = throw_config (or_root p ++ $": value is negative, cannot read as unsigned")) ∧
  get T_string c path = throw_type_error (CV (SInt z) p) $"string" ∧
  (∀ n q, INT64_MAX < n <= UINT64_MAX → convert (RUint64 n) q = Ok (CV (SInt (n - 2 ^ 64)) q)).
Proof.
  intros Hf Hz. unfold get, node. rewrite Hf. cbn -[i64 u64 i32 u32]. unfold signed_of, unsigned_of, as_int.
  cbn -[i64 u64 i32 u32].
  split_and!; try done.
  - by rewrite i64_small.
  - intros Hp. rewrite (proj2 (Z.ltb_ge z 0)) by done. split; [|done].
    rewrite u64_small; [done|]. unfold INT64_MAX in Hz. lia.
  - intros Hn. by rewrite (proj2 (Z.ltb_lt z 0)).
  - intros n q Hn. unfold make_int. do 3 f_equal. unfold i64, INT64_MAX, UINT64_MAX in *.
    replace (n + 2 ^ 63) with (n - 2 ^ 64 + 2 ^ 63 + 1 * 2 ^ 64) by lia. rewrite Z.mod_add by lia.
    rewrite Z.mod_small; lia.
Qed.

Lemma get_widths_witness :
  let c := {| format_ := Json; root_ := CV (SObject [($"n", CV (SInt (2 ^ 32 + 5)) $"n")]) []; loaded_ := true |} in
  get T_int32 c $"n" = Ok 5 ∧ get T_uint64 c $"n" = Ok (2 ^ 32 + 5).
Proof.
  intros c. destruct (get_widths c $"n" $"n" (2 ^ 32 + 5)) as (_ & H32 & H64 & _);
    [reflexivity|by vm_compute|]. split; [exact H32|]. apply H64. lia.
Defined.
