(* ===== verification/ConfigTypes.v ===== *)
(** * ConfigTypes: typed access to a loaded configuration

    The typing of [Config]'s value trees: integers have 64 bits, strings end at a NUL, the fields of an object have
    distinct names and every node carries its path. Loading gives well-typed trees, lookup stays in them, and the
    instances of [Config::get] (deps/common/config/config.cpp) read a node exactly when its type is theirs. *)

From S2P Require Import Prelude Timestamp Strings Config.

(** ** Well-typed trees *)

Definition scalar_ok (s : Storage) : Prop :=
  match s with
  | SNull | SBool _ | SDouble _ => True
  | SInt z => INT64_MIN <= z <= INT64_MAX
  | SString s => "000"%char ∉ s
  | SArray _ | SObject _ => False
  end.

Inductive well_typed : chars → ConfigValue → Prop :=
| wt_scalar p s : scalar_ok s → well_typed p (CV s p)
| wt_array p items :
    (∀ i v, items !! i = Some v → well_typed (child_path p (udec (Z.of_nat i))) v) → well_typed p (CV (SArray items) p)
| wt_object p fields :
    NoDup (fields.*1) → (∀ i name v, fields !! i = Some (name, v) → well_typed (child_path p name) v) →
    well_typed p (CV (SObject fields) p).

(** What rapidjson promises of its numbers: [GetUint64] and [GetInt64] return values of their types. *)
Inductive numbers_fit : rjson → Prop :=
| nf_array items : Forall numbers_fit items → numbers_fit (RArray items)
| nf_object members : Forall (fun m => numbers_fit m.2) members → numbers_fit (RObject members)
| nf_scalar n :
    match n with
    | RUint64 z => 0 <= z <= UINT64_MAX
    | RInt64 z => INT64_MIN <= z <= INT64_MAX
    | RArray _ | RObject _ => False
    | _ => True
    end → numbers_fit n.

Lemma i64_range (z : Z) : INT64_MIN <= i64 z <= INT64_MAX.
Proof. unfold i64, INT64_MIN, INT64_MAX. pose proof (Z.mod_pos_bound (z + 2 ^ 63) (2 ^ 64)). lia. Qed.
Lemma i32_range (z : Z) : - 2 ^ 31 <= i32 z < 2 ^ 31.
Proof. unfold i32. pose proof (Z.mod_pos_bound (z + 2 ^ 31) (2 ^ 32)). lia. Qed.

Lemma c_str_no_nul (s : chars) : "000"%char ∉ c_str s.
Proof. induction s as [|c s IH]; cbn; [set_solver|]. case_decide; set_solver. Qed.

Lemma convert_items_at conv path items k vs i v :
  0 <= k → convert_items conv path items k = Ok vs → vs !! i = Some v →
  ∃ n, items !! i = Some n ∧ conv n (child_path path (udec (k + Z.of_nat i))) = Ok v.
Proof.
  intros Hk H Hv. destruct (items !! i) as [n|] eqn:Hi.
  - destruct (convert_items_lookup _ _ _ _ _ _ _ Hk H Hi) as (v' & Hv' & E). exists n. split; [done|]. rewrite Hv in Hv'. by injection Hv' as ->.
  - apply lookup_lt_Some in Hv. apply lookup_ge_None in Hi. rewrite (convert_items_length _ _ _ _ _ H) in Hv. lia.
Qed.

Lemma convert_members_at conv path members fields i name v :
  convert_members conv path members = Ok fields → fields !! i = Some (name, v) →
  ∃ m, members !! i = Some m ∧ conv m.2 (child_path path name) = Ok v.
Proof.
  intros H Hf. destruct (members !! i) as [[nm n]|] eqn:Hi.
  - destruct (convert_members_lookup _ _ _ _ _ _ _ H Hi) as (v' & Hv' & E). exists (nm, n). split; [done|]. rewrite Hf in Hv'. by injection Hv' as -> ->.
  - apply lookup_lt_Some in Hf. apply lookup_ge_None in Hi. pose proof (f_equal length (convert_members_names _ _ _ _ H)) as L.
    rewrite !length_fmap in L. lia.
Qed.

(** Conversion types the tree. *)
Lemma convert_typed (n : rjson) : numbers_fit n → ∀ p v, convert n p = Ok v → well_typed p v.
Proof.
  induction n as [n Hn|items IH|members IH] using rjson_deep; intros Hf p v H.
  - inversion Hf; subst; [done|done|].
    destruct n; cbn in H; try done; injection H as <-; apply wt_scalar; cbn; try done; [apply i64_range|apply c_str_no_nul].
  - assert (Hi : Forall numbers_fit items) by (by inversion Hf). cbn in H. bind_inv H. injection H as <-. apply wt_array. intros i v Hv.
    destruct (convert_items_at _ _ _ 0 _ _ _ ltac:(lia) E Hv) as (n & Hn & Hc). rewrite Z.add_0_l in Hc.
    rewrite Forall_lookup in IH, Hi. by eapply IH; eauto.
  - assert (Hm : Forall (fun m => numbers_fit m.2) members) by (by inversion Hf). cbn in H. bind_inv H. unfold make_object in H.
    destruct (duplicate a) as [[]|] eqn:D; [done|]. injection H as <-. apply duplicate_None in D. apply wt_object; [done|].
    intros i name v Hv. destruct (convert_members_at _ _ _ _ _ _ _ E Hv) as (m & Hi & Hc).
    rewrite Forall_lookup in IH, Hm. by eapply IH; eauto.
Qed.

(** A step down a well-typed tree, and any lookup. *)
Lemma descend_typed p v segment w : well_typed p v → descend v segment = Some w → ∃ q, well_typed q w.
Proof.
  intros Ht. unfold descend. destruct Ht as [p s Hs|p items Hi|p fields Hn Hf]; cbn [value_].
  - by destruct s.
  - destruct (is_index segment); [|done]. destruct (19 <? length segment)%nat; [done|]. intros H. eauto.
  - intros H. assert (Hw : ∃ i, fields !! i = Some (segment, w)).
    { clear Hn Hf. induction fields as [|f fields IH]; [done|]. cbn in H. case_decide as E.
      - injection H as <-. exists 0%nat. cbn. rewrite <-E. by destruct f.
      - destruct (IH H) as (i & Hi). by exists (S i). }
    destruct Hw as (i & Hi). eauto.
Qed.

Lemma walk_typed segments : ∀ p v w, well_typed p v → walk v segments = Some w → ∃ q, well_typed q w.
Proof.
  induction segments as [|s segments IH]; intros p v w Ht H; cbn in H; [injection H as <-; eauto|].
  case_decide; [done|]. destruct (descend v s) as [u|] eqn:E; [|done].
  destruct (descend_typed p v s u Ht E) as (q & Hq). eauto.
Qed.

Lemma well_typed_path p v : well_typed p v → path_ v = p.
Proof. by destruct 1. Qed.

(** ** The instances of [Config::get] *)

Inductive instance := IBool | IInt32 | IUint32 | IInt64 | IUint64 | IFloat | IDouble | IString.
Definition getter_of (g : instance) : getter :=
  match g with
  | IBool => T_bool | IInt32 => T_int32 | IUint32 => T_uint32 | IInt64 => T_int64 | IUint64 => T_uint64
  | IFloat => T_float | IDouble => T_double | IString => T_string
  end.
(** The types of node an instance reads, and the name its type error gives. *)
Definition reads (g : instance) (t : ValueType) : bool :=
  match g with
  | IBool => bool_decide (t = TBool)
  | IInt32 | IUint32 | IInt64 | IUint64 => bool_decide (t = TInt)
  | IFloat | IDouble => bool_decide (t = TInt) || bool_decide (t = TDouble)
  | IString => bool_decide (t = TString)
  end.
Definition expected (g : instance) : chars :=
  match g with
  | IBool => $"bool" | IInt32 | IUint32 | IInt64 | IUint64 => $"int" | IFloat | IDouble => $"double" | IString => $"string"
  end.
(** The values of the C++ type. *)
Definition of_type (g : instance) : ty (getter_of g) → Prop :=
  match g with
  | IInt32 => fun z => - 2 ^ 31 <= z < 2 ^ 31
  | IUint32 => fun z => 0 <= z < 2 ^ 32
  | IInt64 => fun z => INT64_MIN <= z <= INT64_MAX
  | IUint64 => fun z => 0 <= z <= UINT64_MAX
  | IString => fun s => "000"%char ∉ s
  | _ => fun _ => True
  end.
(** An unsigned type asked of a negative node. *)
Definition negative (g : instance) (v : ConfigValue) : bool :=
  match g, value_ v with IUint32, SInt z | IUint64, SInt z => z <? 0 | _, _ => false end.

Lemma read_typed (g : instance) (p : chars) (v : ConfigValue) :
  well_typed p v →
  if negb (reads g (type v)) then read (getter_of g) v = throw_type_error v (expected g)
  else if negative g v then read (getter_of g) v = throw_config (or_root p ++ $": value is negative, cannot read as unsigned")
  else ∃ x, read (getter_of g) v = Ok x ∧ of_type g x.
Proof.
  intros Ht. assert (Hs : scalar_ok (value_ v) ∨ is_container v = true) by (destruct Ht; [by left|by right..]).
  pose proof (well_typed_path _ _ Ht) as Hp. destruct v as [s q]. cbn in Hp. subst q. unfold reads, negative.
  destruct g, s; cbn -[i32 u32 i64 u64] in *; unfold signed_of, unsigned_of, floating_of, as_bool, as_int, as_double, as_string;
    cbn -[i32 u32 i64 u64]; try done; try (eexists; split; [reflexivity|]); try done.
  all: try (destruct (z <? 0) eqn:E; [done|]; eexists; split; [reflexivity|]).
  - apply i32_range.
  - unfold u32. pose proof (Z.mod_pos_bound z (2 ^ 32)). lia.
  - apply i64_range.
  - unfold u64, UINT64_MAX. pose proof (Z.mod_pos_bound z (2 ^ 64)). lia.
  - by destruct Hs.
Qed.

(** C26. Typed access: in a tree loaded from a document (whose numbers have the widths rapidjson promises), every node
    a path leads to is well-typed, and each instance of [get] is a typed partial function on it: it returns a
    value of its C++ type when the node has a type it reads (an integer also reads as floating point), refuses
    a negative node for an unsigned type, and otherwise throws the type error that names both types. [get_or]
    gives the fallback exactly when there is no node, and never hides a type error. *)
Theorem typed_access (Parse : chars → rjson + Z * chars) (c c' : Config) (content : chars) (doc : rjson) (path : chars) (g : instance) :
  load_string Parse c content Json = (c', Ok true) → Parse content = inl doc → numbers_fit doc →
  match find c' path with
  | Ok (Some v) =>
      well_typed (path_ v) v ∧
      (if negb (reads g (type v)) then get (getter_of g) c' path = throw_type_error v (expected g)
       else if negative g v
            then get (getter_of g) c' path = throw_config (or_root (path_ v) ++ $": value is negative, cannot read as unsigned")
            else ∃ x, get (getter_of g) c' path = Ok x ∧ of_type g x) ∧
      (∀ fallback, get_or (getter_of g) c' path fallback = get (getter_of g) c' path)
  | Ok None =>
      get (getter_of g) c' path = throw_config ($"config key '" ++ path ++ $"' not found") ∧
      (∀ fallback, get_or (getter_of g) c' path fallback = Ok fallback)
  | Fault _ => False
  end.
Proof.
  intros H Hp Hf.
  assert (G : convert doc [] = Ok (root_ c') ∧ loaded_ c' = true).
  { unfold load_string, parse_config, parse_json in H. rewrite Hp in H. destruct doc; try done.
    destruct (convert (RObject members) []); [|done]. by injection H as <-. }
  destruct G as [Hc Hl]. pose proof (convert_typed doc Hf _ _ Hc) as Hroot.
  assert (Hfind : ∃ r, find c' path = Ok r ∧ (∀ v, r = Some v → ∃ q, well_typed q v)).
  { destruct (decide (path = [])) as [->|Hne].
    - exists (Some (root_ c')). unfold find. rewrite Hl. split; [done|]. intros v [= <-]. eauto.
    - destruct (find_walk c' path Hl Hne) as (fields & _ & ->). eexists. split; [done|]. intros v Hv. by eapply walk_typed. }
  destruct Hfind as ([v|] & Ef & Hv); unfold get_or, get, node, has; rewrite Ef; cbn [mbind outcome_bind negb]; [|done].
  destruct (Hv v eq_refl) as (q & Ht). pose proof (well_typed_path _ _ Ht) as Eq. split_and!; [by rewrite Eq| |done].
  rewrite Eq. by apply read_typed.
Qed.

Lemma typed_access_witness :
  let doc := RObject [($"port", RUint64 2121); ($"name", RString $"ftp"); ($"limit", RInt64 (-1))] in
  let c' := (load_string (fun _ => inl doc) (new_config Json) [] Json).1 in
  (∃ x, get T_uint32 c' $"port" = Ok x ∧ 0 <= x < 2 ^ 32) ∧
  get T_int32 c' $"name" = throw_type_error (CV (SString $"ftp") $"name") $"int" ∧
  get T_uint64 c' $"limit" = throw_config ($"limit" ++ $": value is negative, cannot read as unsigned").
Proof.
  intros doc c'.
  assert (Hd : numbers_fit doc) by (apply nf_object; repeat constructor; by vm_compute).
  split_and!.
  - exact (proj1 (proj2 (typed_access (fun _ => inl doc) (new_config Json) c' [] doc $"port" IUint32 eq_refl eq_refl Hd))).
  - exact (proj1 (proj2 (typed_access (fun _ => inl doc) (new_config Json) c' [] doc $"name" IInt32 eq_refl eq_refl Hd))).
  - exact (proj1 (proj2 (typed_access (fun _ => inl doc) (new_config Json) c' [] doc $"limit" IUint64 eq_refl eq_refl Hd))).
Defined.
