(* ===== verification/Queues.v ===== *)
(** * Queues: the latch, the unbounded and the bounded blocking queue

    Models [deps/common/base/count_down_latch.h], [blocking_queue.h] and [bounded_blocking_queue.h]. Every
    operation runs under the object's mutex, so an operation is a function of the object's state; a wait on a
    condition variable whose predicate does not hold gives [Blocked]: the thread releases the mutex and
    evaluates its predicate again in a later state. *)

From S2P Require Import Prelude.

(** The end of a critical section: it waits, or it runs to the end with a result. *)
Inductive section (S R : Type) :=
| Blocked
| Done (s : S) (r : R).
Arguments Blocked {S R}.
Arguments Done {S R} s r.

(** ** CountDownLatch *)

(* @src count_down_latch.h | explicit CountDownLatch( *)
Definition CountDownLatch (count : Z) : outcome Z :=
  if count <? 0 then Fault (Throw (InvalidArgument "CountDownLatch count < 0")) else Ok count.
(** The new count and whether the waiters are notified. *)
(* @src count_down_latch.h | void count_down() *)
Definition count_down (count_ : Z) : Z * bool :=
  if count_ =? 0 then (count_, false) else (count_ - 1, count_ - 1 =? 0).
(* @src count_down_latch.h | void wait() *)
Definition latch_wait (count_ : Z) : section Z unit := if count_ =? 0 then Done count_ tt else Blocked.
(** [wait_for] returns the predicate's value when it stops waiting. *)
(* @src count_down_latch.h | bool wait_for( *)
Definition latch_wait_for (count_ : Z) : bool := count_ =? 0.

Section Queues.
Context {T : Type}.

(** ** BlockingQueue *)

(* @src blocking_queue.h | std::mutex mtx_; | bool done_{false}; | BlockingQueue *)
Record BlockingQueue := { q_ : list T; done_ : bool }.
Definition new_queue : BlockingQueue := {| q_ := []; done_ := false |}.

(* @src blocking_queue.h | void put(T&& value) { *)
Definition put (value : T) (s : BlockingQueue) : BlockingQueue := {| q_ := q_ s ++ [value]; done_ := done_ s |}.
(* @src blocking_queue.h | T take() { *)
Definition take_ (s : BlockingQueue) : section BlockingQueue (outcome T) :=
  match q_ s with
  | [] => if done_ s then Done s (Fault (Throw (RuntimeError "queue is closed"))) else Blocked
  | value :: q' => Done {| q_ := q'; done_ := done_ s |} (Ok value)
  end.
(* @src blocking_queue.h | std::optional<T> try_take() { *)
Definition try_take (s : BlockingQueue) : BlockingQueue * option T :=
  match q_ s with
  | [] => (s, None)
  | value :: q' => ({| q_ := q'; done_ := done_ s |}, Some value)
  end.
(* @src blocking_queue.h | void shutdown() { *)
Definition queue_shutdown (s : BlockingQueue) : BlockingQueue := {| q_ := q_ s; done_ := true |}.
(* @src blocking_queue.h | size_t size() const { *)
Definition queue_size (s : BlockingQueue) : nat := length (q_ s).
(* @src blocking_queue.h | bool empty() const { *)
Definition queue_empty (s : BlockingQueue) : bool := bool_decide (q_ s = []).

(** ** BoundedBlockingQueue *)

(** The default value [resize] fills with, and what a move leaves in a slot. *)
Context (default : T) (moved : T → T).

(* @src bounded_blocking_queue.h | std::mutex mu_; | bool stopped_ = false; | BoundedBlockingQueue *)
Record BoundedBlockingQueue := {
  buffer_ : list T;
  max_size_ : nat;
  size_ : nat;
  front_ : nat;
  back_ : nat;
  stopped_ : bool
}.

(* @src bounded_blocking_queue.h | explicit BoundedBlockingQueue( *)
Definition new_bounded (max_size : nat) : BoundedBlockingQueue :=
  {| buffer_ := replicate max_size default; max_size_ := max_size; size_ := 0; front_ := 0; back_ := 0;
     stopped_ := false |}.
(* @src bounded_blocking_queue.h | bool is_empty_locked() *)
Definition is_empty_locked (s : BoundedBlockingQueue) : bool := (size_ s =? 0)%nat.
(* @src bounded_blocking_queue.h | bool is_full_locked() *)
Definition is_full_locked (s : BoundedBlockingQueue) : bool := (size_ s =? max_size_ s)%nat.

(** An access past the end of the vector and a remainder by zero are undefined; [--size_] on an empty queue,
    which would wrap around, is made a fault here as well: none of them is reached. *)
(* @src bounded_blocking_queue.h | void emplace_internal( *)
Definition emplace_internal (value : T) (s : BoundedBlockingQueue) : outcome BoundedBlockingQueue :=
  if (back_ s <? length (buffer_ s))%nat && negb (max_size_ s =? 0)%nat then
    Ok {| buffer_ := <[back_ s := value]> (buffer_ s); max_size_ := max_size_ s; size_ := size_ s + 1;
          front_ := front_ s; back_ := (back_ s + 1) mod max_size_ s; stopped_ := stopped_ s |}
  else Fault Undefined.
(* @src bounded_blocking_queue.h | T pop_internal() *)
Definition pop_internal (s : BoundedBlockingQueue) : outcome (BoundedBlockingQueue * T) :=
  match buffer_ s !! front_ s with
  | Some value =>
      if (max_size_ s =? 0)%nat || (size_ s =? 0)%nat then Fault Undefined else
      Ok ({| buffer_ := <[front_ s := moved value]> (buffer_ s); max_size_ := max_size_ s; size_ := size_ s - 1;
             front_ := (front_ s + 1) mod max_size_ s; back_ := back_ s; stopped_ := stopped_ s |}, value)
  | None => Fault Undefined
  end.

(* @src bounded_blocking_queue.h | void stop() { *)
Definition stop (s : BoundedBlockingQueue) : BoundedBlockingQueue :=
  {| buffer_ := buffer_ s; max_size_ := max_size_ s; size_ := size_ s; front_ := front_ s; back_ := back_ s;
     stopped_ := true |}.
(* @src bounded_blocking_queue.h | void push(const T& value) { *)
Definition push (value : T) (s : BoundedBlockingQueue) : outcome (section BoundedBlockingQueue unit) :=
  if negb (negb (is_full_locked s) || stopped_ s) then Ok Blocked
  else if stopped_ s then Ok (Done s tt)
  else s' ← emplace_internal value s; Ok (Done s' tt).
(* @src bounded_blocking_queue.h | bool try_push(const T& value) { *)
Definition try_push (value : T) (s : BoundedBlockingQueue) : outcome (section BoundedBlockingQueue bool) :=
  if is_full_locked s || stopped_ s then Ok (Done s false)
  else s' ← emplace_internal value s; Ok (Done s' true).
(* @src bounded_blocking_queue.h | std::optional<T> pop() { *)
Definition pop (s : BoundedBlockingQueue) : outcome (section BoundedBlockingQueue (option T)) :=
  if negb (negb (is_empty_locked s) || stopped_ s) then Ok Blocked
  else if stopped_ s then Ok (Done s None)
  else '(s', v) ← pop_internal s; Ok (Done s' (Some v)).
(** [timed_out] tells whether the time ran out with the predicate false. *)
(* @src bounded_blocking_queue.h | std::optional<T> try_pop_for( *)
Definition try_pop_for (timed_out : bool) (s : BoundedBlockingQueue) : outcome (section BoundedBlockingQueue (option T)) :=
  if negb (negb (is_empty_locked s) || stopped_ s) then Ok (if timed_out then Done s None else Blocked)
  else if stopped_ s then Ok (Done s None)
  else '(s', v) ← pop_internal s; Ok (Done s' (Some v)).
(* @src bounded_blocking_queue.h | size_t size() const { *)
Definition bounded_size (s : BoundedBlockingQueue) : nat := size_ s.

(** ** The specification of the bounded queue: a list with a capacity *)

Record fifo := { content : list T; capacity : nat; closed : bool }.

Inductive bop := OPush (v : T) | OTryPush (v : T) | OPop | OTryPopFor (timed_out : bool) | OStop | OSize.
Inductive bres := RVoid | RBool (b : bool) | ROpt (o : option T) | RSize (n : nat) | RBlocked.

Definition fifo_add (v : T) (f : fifo) : fifo :=
  {| content := content f ++ [v]; capacity := capacity f; closed := closed f |}.
Definition fifo_full (f : fifo) : bool := (length (content f) =? capacity f)%nat.
Definition fifo_pop (block : bres) (f : fifo) : fifo * bres :=
  if closed f then (f, ROpt None)
  else match content f with
       | [] => (f, block)
       | v :: q => ({| content := q; capacity := capacity f; closed := closed f |}, ROpt (Some v))
       end.
Definition fifo_op (o : bop) (f : fifo) : fifo * bres :=
  match o with
  | OPush v => if closed f then (f, RVoid) else if fifo_full f then (f, RBlocked) else (fifo_add v f, RVoid)
  | OTryPush v => if closed f || fifo_full f then (f, RBool false) else (fifo_add v f, RBool true)
  | OPop => fifo_pop RBlocked f
  | OTryPopFor timed_out => fifo_pop (if timed_out then ROpt None else RBlocked) f
  | OStop => ({| content := content f; capacity := capacity f; closed := true |}, RVoid)
  | OSize => (f, RSize (length (content f)))
  end.

(** The implementation's operations with the same results. *)
Definition result {R : Type} (show : R → bres) (s : BoundedBlockingQueue) (m : outcome (section BoundedBlockingQueue R))
  : outcome (BoundedBlockingQueue * bres) :=
  r ← m; match r with Blocked => Ok (s, RBlocked) | Done s' x => Ok (s', show x) end.
Definition bounded_op (o : bop) (s : BoundedBlockingQueue) : outcome (BoundedBlockingQueue * bres) :=
  match o with
  | OPush v => result (fun _ => RVoid) s (push v s)
  | OTryPush v => result RBool s (try_push v s)
  | OPop => result ROpt s (pop s)
  | OTryPopFor t => result ROpt s (try_pop_for t s)
  | OStop => Ok (stop s, RVoid)
  | OSize => Ok (s, RSize (bounded_size s))
  end.

Fixpoint bounded_run (os : list bop) (s : BoundedBlockingQueue) : outcome (list bres) :=
  match os with
  | [] => Ok []
  | o :: os' => '(s', r) ← bounded_op o s; rs ← bounded_run os' s'; Ok (r :: rs)
  end.
Fixpoint fifo_run (os : list bop) (f : fifo) : list bres :=
  match os with
  | [] => []
  | o :: os' => let '(f', r) := fifo_op o f in r :: fifo_run os' f'
  end.

(** The ring holds the list: element [i] is [i] slots after [front_], and [back_] is the slot after the last. *)
Record ring (s : BoundedBlockingQueue) (f : fifo) : Prop := {
  ring_len : length (buffer_ s) = max_size_ s;
  ring_cap : capacity f = max_size_ s;
  ring_stop : closed f = stopped_ s;
  ring_size : length (content f) = size_ s;
  ring_le : (size_ s <= max_size_ s)%nat;
  ring_front : max_size_ s ≠ 0%nat → (front_ s < max_size_ s)%nat;
  ring_back : max_size_ s ≠ 0%nat → back_ s = ((front_ s + size_ s) mod max_size_ s)%nat;
  ring_slots : ∀ i x, content f !! i = Some x → buffer_ s !! ((front_ s + i) mod max_size_ s)%nat = Some x
}.
End Queues.
Arguments BlockingQueue : clear implicits.
Arguments BoundedBlockingQueue : clear implicits.
Arguments fifo : clear implicits.
Arguments bop : clear implicits.
Arguments bres : clear implicits.

(** ** The ring: lemmas *)

Lemma slot_inj (m a i j : nat) : (i < m)%nat → (j < m)%nat → ((a + i) mod m = (a + j) mod m)%nat → i = j.
Proof.
  intros Hi Hj E. apply (f_equal Z.of_nat) in E. rewrite !Nat2Z.inj_mod, !Nat2Z.inj_add in E.
  set (M := Z.of_nat m) in *. set (A := Z.of_nat a) in *.
  assert (HM : 0 < M) by (unfold M; lia).
  pose proof (Z.div_mod (A + Z.of_nat i) M ltac:(lia)) as D1. pose proof (Z.div_mod (A + Z.of_nat j) M ltac:(lia)) as D2.
  rewrite E in D1. assert (Z.of_nat i - Z.of_nat j = M * ((A + Z.of_nat i) / M - (A + Z.of_nat j) / M)) by lia.
  assert ((A + Z.of_nat i) / M - (A + Z.of_nat j) / M = 0) by (unfold M in *; nia). lia.
Qed.

Section Ring.
Context {T : Type} (default : T) (moved : T → T).
Implicit Types (s : BoundedBlockingQueue T) (f : fifo T).

Lemma new_ring (n : nat) : ring (new_bounded default n) {| content := []; capacity := n; closed := false |}.
Proof.
  split; cbn; try done; try lia; intros; [by rewrite length_replicate|by rewrite Nat.Div0.mod_0_l].
Qed.

Lemma emplace_ring (v : T) s f :
  ring s f → fifo_full f = false → ∃ s', emplace_internal v s = Ok s' ∧ ring s' (fifo_add v f).
Proof.
  intros [Hl Hc Hs Hz Hle Hf Hb Hx] Hn. unfold fifo_full in Hn. apply Nat.eqb_neq in Hn.
  assert (Hm : max_size_ s ≠ 0%nat) by lia. specialize (Hf Hm). specialize (Hb Hm).
  assert (Hlt : (back_ s < max_size_ s)%nat) by (rewrite Hb; by apply Nat.mod_upper_bound).
  unfold emplace_internal. rewrite (proj2 (Nat.ltb_lt _ _)) by lia. rewrite (proj2 (Nat.eqb_neq _ _)) by done.
  eexists. split; [reflexivity|].
  split; cbn [buffer_ max_size_ size_ front_ back_ stopped_ content capacity closed fifo_add]; try done.
  - by rewrite length_insert.
  - rewrite length_app. cbn. lia.
  - lia.
  - intros _. rewrite Hb, Nat.Div0.add_mod_idemp_l. f_equal. lia.
  - intros i x Hi. destruct (decide (i < length (content f))%nat) as [Hlt'|Hge].
    + rewrite lookup_app_l in Hi by done. rewrite list_lookup_insert_ne; [by apply Hx|].
      rewrite Hb. intros E. apply slot_inj in E; lia.
    + assert (i = length (content f)) as -> by (apply lookup_lt_Some in Hi; rewrite length_app in Hi; cbn in Hi; lia).
      rewrite list_lookup_middle in Hi by done. injection Hi as <-.
      rewrite Hz, <-Hb. apply list_lookup_insert_eq. lia.
Qed.

Lemma pop_ring s f (v : T) (q : list T) :
  ring s f → content f = v :: q →
  ∃ s', pop_internal moved s = Ok (s', v) ∧ ring s' {| content := q; capacity := capacity f; closed := closed f |}.
Proof.
  intros [Hl Hc Hs Hz Hle Hf Hb Hx] Hq. rewrite Hq in Hz. cbn in Hz.
  assert (Hm : max_size_ s ≠ 0%nat) by lia. specialize (Hf Hm). specialize (Hb Hm).
  assert (Hv : buffer_ s !! front_ s = Some v).
  { specialize (Hx 0%nat v). rewrite Hq, Nat.add_0_r, Nat.mod_small in Hx by done. by apply Hx. }
  unfold pop_internal. rewrite Hv, (proj2 (Nat.eqb_neq (max_size_ s) 0)), (proj2 (Nat.eqb_neq (size_ s) 0)) by lia.
  eexists. split; [reflexivity|].
  split; cbn [buffer_ max_size_ size_ front_ back_ stopped_ content capacity closed orb]; try done.
  - by rewrite length_insert.
  - lia.
  - lia.
  - intros _. by apply Nat.mod_upper_bound.
  - intros _. rewrite Hb, Nat.Div0.add_mod_idemp_l. f_equal. lia.
  - intros i x Hi. rewrite Nat.Div0.add_mod_idemp_l. replace (front_ s + 1 + i)%nat with (front_ s + S i)%nat by lia.
    assert (i < length q)%nat by (by eapply lookup_lt_Some).
    rewrite list_lookup_insert_ne; [by apply (Hx (S i)); rewrite Hq|].
    intros E. rewrite <-(Nat.mod_small (front_ s) (max_size_ s)) in E at 1 by done.
    rewrite <-(Nat.add_0_r (front_ s)) in E at 1. apply slot_inj in E; lia.
Qed.

Lemma full_ring s f : ring s f → is_full_locked s = fifo_full f.
Proof. intros []. unfold is_full_locked, fifo_full. by rewrite ring_size0, ring_cap0. Qed.

Lemma empty_ring s f : ring s f → is_empty_locked s = if content f is [] then true else false.
Proof.
  intros []. unfold is_empty_locked. rewrite <-ring_size0. by destruct (content f).
Qed.

Lemma pop_op_ring (block : section (BoundedBlockingQueue T) (option T)) s f :
  ring s f → block = Blocked ∨ block = Done s None →
  let m := if negb (negb (is_empty_locked s) || stopped_ s) then Ok block
           else if stopped_ s then Ok (Done s None) else '(s', v) ← pop_internal moved s; Ok (Done s' (Some v)) in
  let '(f', r) := fifo_pop (if block is Blocked then RBlocked else ROpt None) f in
  ∃ s', result ROpt s m = Ok (s', r) ∧ ring s' f'.
Proof.
  intros H Hb. pose proof (ring_stop _ _ H) as Hs. unfold fifo_pop. rewrite (empty_ring s f H), Hs.
  destruct (stopped_ s) eqn:S; cbn; [rewrite orb_true_r; cbn; eauto|].
  destruct (content f) as [|v q] eqn:Q; cbn.
  - destruct Hb as [-> | ->]; eauto.
  - destruct (pop_ring s f v q H Q) as (s' & -> & H'). cbn. rewrite <-Hs. eauto.
Qed.

(** Every operation of the ring gives the list's result and keeps the correspondence. *)
Lemma bounded_op_ring (o : bop T) s f :
  ring s f → let '(f', r) := fifo_op o f in ∃ s', bounded_op moved o s = Ok (s', r) ∧ ring s' f'.
Proof.
  intros H. pose proof (ring_stop _ _ H) as Hs. pose proof (full_ring _ _ H) as Hf. destruct o; cbn [fifo_op bounded_op].
  - unfold push. rewrite Hf, Hs. destruct (stopped_ s) eqn:S; cbn; [rewrite orb_true_r; cbn; eauto|].
    destruct (fifo_full f) eqn:F; cbn; [eauto|]. destruct (emplace_ring v s f H F) as (s' & -> & H'). cbn. eauto.
  - unfold try_push. rewrite Hf, Hs, (orb_comm (stopped_ s)). destruct (fifo_full f || stopped_ s) eqn:S; cbn; [eauto|].
    bool_prop. destruct (emplace_ring v s f H ltac:(done)) as (s' & -> & H'). cbn. eauto.
  - apply (pop_op_ring Blocked); auto.
  - destruct timed_out; [apply (pop_op_ring (Done s None)); auto|apply (pop_op_ring Blocked); auto].
  - exists (stop s). split; [done|]. by destruct H.
  - exists s. split; [|done]. unfold bounded_size. by rewrite (ring_size _ _ H).
Qed.

(** C27. The bounded queue is a first-in first-out list of the given capacity: any sequence of its operations
    gives the results of the list, waits exactly where the list is full or empty and the queue not stopped,
    and never leaves the ring; a capacity of zero and the elements left behind by [stop] are included. *)
Theorem bounded_queue_refines_fifo (n : nat) (os : list (bop T)) :
  bounded_run moved os (new_bounded default n) = Ok (fifo_run os {| content := []; capacity := n; closed := false |}).
Proof.
  pose proof (new_ring n) as H. revert H. generalize (new_bounded default n) as s.
  generalize {| content := @nil T; capacity := n; closed := false |} as f.
  induction os as [|o os IH]; intros f s H; [done|]. cbn [bounded_run fifo_run].
  pose proof (bounded_op_ring o s f H) as Ho. destruct (fifo_op o f) as [f' r]. destruct Ho as (s' & -> & H').
  cbn. by rewrite (IH f' s' H').
Qed.
End Ring.
