(* ===== verification/Pools.v ===== *)
(** * Pools: worker threads over a guarded task queue

    Models [deps/common/base/thread_pool.{h,cpp}] and [example/miniftpd/src/thread_pool.h]. Both pools share
    one scheme: producers append to a queue under a mutex and notify one waiting worker; a worker waits for a
    task or the end of the pool, under the mutex, then runs the task outside it; closing notifies all. The
    scheme is a class, [Monitor], of the critical sections, with laws; the interleaving of producers, workers
    and the closing thread is a step relation over any monitor; each pool is an instance. *)

From S2P Require Import Prelude Queues.

(** ** The critical sections *)

(** What a worker's critical section ends with: it waits, it sees the end, it has a task. *)
Inductive taking (S T : Type) := TWait | TClosed | TGot (t : T) (s : S).
Arguments TWait {S T}.
Arguments TClosed {S T}.
Arguments TGot {S T} t s.

Class Monitor (S T : Type) := {
  items : S → list T;
  is_closed : S → bool;
  enter : T → S → option S;
  leave : S → taking S T;
  close : S → S
}.

Class MonitorLaws (S T : Type) `{Monitor S T} := {
  enter_law t s s' : enter t s = Some s' → items s' = items s ++ [t] ∧ is_closed s' = is_closed s;
  leave_law s :
    match leave s with
    | TWait => items s = [] ∧ is_closed s = false
    | TClosed => items s = [] ∧ is_closed s = true
    | TGot t s' => items s = t :: items s' ∧ is_closed s' = is_closed s
    end;
  close_law s : items (close s) = items s ∧ is_closed (close s) = true
}.

(** ** base::ThreadPool *)

Section Base.
Context {T : Type}.

(** [queue_] and [running_]; the threads are the workers of the step relation below. *)
(* @src base/thread_pool.h | std::string name_; | std::condition_variable cond_; | ThreadPool *)
Record ThreadPool := { queue_ : list T; running_ : bool }.

(* @src base/thread_pool.cpp | ThreadPool::ThreadPool( *)
Definition new_pool : ThreadPool := {| queue_ := []; running_ := false |}.

(** The workers to create; none when the pool runs already. *)
(* @src base/thread_pool.cpp | void ThreadPool::start( *)
Definition pool_start (numThread : nat) (s : ThreadPool) : ThreadPool * nat :=
  if running_ s then (s, 0%nat) else ({| queue_ := queue_ s; running_ := true |}, numThread).
(* @src base/thread_pool.h | void run(F&& f) { *)
Definition pool_run (f : T) (s : ThreadPool) : outcome ThreadPool :=
  if negb (running_ s) then Fault (Throw (RuntimeError "ThreadPool is not running"))
  else Ok {| queue_ := queue_ s ++ [f]; running_ := running_ s |}.
(** The locked part of one turn of the worker's loop. *)
(* @src base/thread_pool.cpp | void ThreadPool::run_in_thread() *)
Definition run_in_thread (s : ThreadPool) : taking ThreadPool T :=
  if negb (negb (running_ s) || negb (bool_decide (queue_ s = []))) then TWait
  else if negb (running_ s) && bool_decide (queue_ s = []) then TClosed
  else match queue_ s with
       | task :: q => TGot task {| queue_ := q; running_ := running_ s |}
       | [] => TWait
       end.
(** The compare-and-exchange of [stop]; the notification and the joins are steps of their own. *)
(* @src base/thread_pool.cpp | void ThreadPool::stop() *)
Definition pool_stop (s : ThreadPool) : ThreadPool := {| queue_ := queue_ s; running_ := false |}.

#[global] Instance pool_monitor : Monitor ThreadPool T := {|
  items := queue_;
  is_closed s := negb (running_ s);
  enter t s := if pool_run t s is Ok s' then Some s' else None;
  leave := run_in_thread;
  close := pool_stop
|}.

#[global] Instance pool_laws : MonitorLaws ThreadPool T.
Proof.
  split.
  - intros t [q []] s'; cbn; [|done]. by intros [= <-].
  - intros [[|x q] []]; by cbn.
  - done.
Qed.

(** ** ftp::ThreadPool: its queue *)

#[global] Instance queue_monitor : Monitor (BlockingQueue T) T := {|
  items := q_;
  is_closed := done_;
  enter t s := Some (put t s);
  leave s := match take_ s with
             | Blocked => TWait
             | Done s' (Ok t) => TGot t s'
             | Done _ (Fault _) => TClosed
             end;
  close := queue_shutdown
|}.

#[global] Instance queue_laws : MonitorLaws (BlockingQueue T) T.
Proof.
  split.
  - by intros t s s' [= <-].
  - by intros [[|x q] []].
  - done.
Qed.
End Base.
Arguments ThreadPool : clear implicits.

(** ** The interleaving *)

Section Interleaving.
Context {S T : Type} `{MonitorLaws S T}.

(** A worker is about to lock, waits on the condition variable, runs a task, has returned, or was left by an
    exception of its task. *)
Inductive worker := Idle | Waiting | Running (t : T) | Returned | Crashed.

(** [notifies]: producers between their critical section and [notify_one]. [closing]: between the close and
    [notify_all]. [accepted] and [taken] record the history. *)
Record pool := {
  mon : S;
  workers : list worker;
  notifies : nat;
  closing : bool;
  accepted : list T;
  taken : list T
}.

Definition set_worker (i : nat) (w : worker) (p : pool) : pool :=
  {| mon := mon p; workers := <[i := w]> (workers p); notifies := notifies p; closing := closing p;
     accepted := accepted p; taken := taken p |}.
Definition wake (w : worker) : worker := if w is Waiting then Idle else w.

Inductive pool_step : pool → pool → Prop :=
| s_enter p t s' : enter t (mon p) = Some s' →
    pool_step p {| mon := s'; workers := workers p; notifies := notifies p + 1; closing := closing p;
                   accepted := accepted p ++ [t]; taken := taken p |}
| s_notify p i : (0 < notifies p)%nat → workers p !! i = Some Waiting →
    pool_step p {| mon := mon p; workers := <[i := Idle]> (workers p); notifies := notifies p - 1;
                   closing := closing p; accepted := accepted p; taken := taken p |}
| s_notify_none p : (0 < notifies p)%nat → Waiting ∉ workers p →
    pool_step p {| mon := mon p; workers := workers p; notifies := notifies p - 1;
                   closing := closing p; accepted := accepted p; taken := taken p |}
| s_spurious p i : workers p !! i = Some Waiting → pool_step p (set_worker i Idle p)
| s_wait p i : workers p !! i = Some Idle → leave (mon p) = TWait → pool_step p (set_worker i Waiting p)
| s_return p i : workers p !! i = Some Idle → leave (mon p) = TClosed → pool_step p (set_worker i Returned p)
| s_take p i t s' : workers p !! i = Some Idle → leave (mon p) = TGot t s' →
    pool_step p {| mon := s'; workers := <[i := Running t]> (workers p); notifies := notifies p;
                   closing := closing p; accepted := accepted p; taken := taken p ++ [t] |}
| s_finish p i t : workers p !! i = Some (Running t) → pool_step p (set_worker i Idle p)
| s_crash p i t : workers p !! i = Some (Running t) → pool_step p (set_worker i Crashed p)
| s_close p : is_closed (mon p) = false →
    pool_step p {| mon := close (mon p); workers := workers p; notifies := notifies p; closing := true;
                   accepted := accepted p; taken := taken p |}
| s_notify_all p : closing p = true →
    pool_step p {| mon := mon p; workers := wake <$> workers p; notifies := notifies p; closing := false;
                   accepted := accepted p; taken := taken p |}.

Definition started (s : S) (n : nat) : pool :=
  {| mon := s; workers := replicate n Idle; notifies := 0; closing := false; accepted := []; taken := [] |}.

(** ** Counting workers *)

Definition idle (w : worker) : nat := if w is Idle then 1%nat else 0%nat.
Definition count (g : worker → nat) (l : list worker) : nat := sum_list_with g l.
#[global] Arguments count : simpl never.

Lemma count_insert (g : worker → nat) (l : list worker) (i : nat) (w v : worker) :
  l !! i = Some w → (count g (<[i := v]> l) + g w = count g l + g v)%nat.
Proof.
  unfold count. revert i; induction l as [|x l IH]; intros [|i] Hi; cbn in *; [done|done| |].
  - injection Hi as ->. lia.
  - rewrite <-!Nat.add_assoc. f_equal. exact (IH i Hi).
Qed.

Lemma insert_waiting (l : list worker) (i : nat) (w : worker) :
  w ≠ Waiting → Waiting ∈ <[i := w]> l → Waiting ∈ l.
Proof.
  intros Hw Hin. apply list_elem_of_lookup in Hin as (j & Hj). apply list_lookup_insert_Some in Hj.
  destruct Hj as [(_ & E & _)|[_ Hj]]; [congruence|]. by eapply list_elem_of_lookup_2.
Qed.

Lemma wake_waiting (l : list worker) : Waiting ∉ wake <$> l.
Proof. rewrite list_elem_of_fmap. intros (w & E & _). by destruct w. Qed.

(** ** The invariant *)

(** Tasks are taken in the order they were accepted; while some worker waits, there is an idle worker or an
    outstanding notification for every queued task; once the close has been announced nobody waits. *)
Record pool_ok (p : pool) : Prop := {
  ok_fifo : taken p ++ items (mon p) = accepted p;
  ok_wakeup : Waiting ∈ workers p → (length (items (mon p)) <= count idle (workers p) + notifies p)%nat;
  ok_closed : is_closed (mon p) = true → closing p = false → Waiting ∉ workers p
}.

Lemma started_ok (s : S) (n : nat) : items s = [] → pool_ok (started s n).
Proof.
  intros E. assert (W : Waiting ∉ replicate n Idle) by (rewrite elem_of_replicate; by intros []).
  split; cbn; [by rewrite E|done|done].
Qed.

(** A worker that changes, not to waiting, and takes no task keeps the invariant. *)
Lemma set_worker_ok (p : pool) (i : nat) (w v : worker) :
  workers p !! i = Some w → v ≠ Waiting → (idle w <= idle v)%nat ∨ items (mon p) = [] →
  pool_ok p → pool_ok (set_worker i v p).
Proof.
  intros Hi Hv Hle [Hf Hw Hc]. split; cbn; [done| |].
  - intros Hin. apply insert_waiting in Hin; [|done]. specialize (Hw Hin).
    pose proof (count_insert idle _ i w v Hi). destruct Hle as [|Hle]; [lia|]. rewrite Hle. apply Nat.le_0_l.
  - intros ? ? Hin. apply insert_waiting in Hin; [|done]. by apply Hc.
Qed.

Lemma pool_step_ok (p p' : pool) : pool_ok p → pool_step p p' → pool_ok p'.
Proof.
  intros Hok Hs. revert Hok.
  destruct Hs as [p t s' E|p i Hn Hi|p Hn Hi|p i Hi|p i Hi E|p i Hi E|p i t s' Hi E|p i t Hi|p i t Hi|p E|p E];
    intros Hok; pose proof Hok as [Hf Hw Hc]; pose proof (leave_law (mon p)) as L; rewrite ?E in L.
  - apply enter_law in E as [E Ec]. split; cbn; [by rewrite E, app_assoc, Hf| |by rewrite Ec].
    intros Hin. specialize (Hw Hin). rewrite E, length_app. cbn. lia.
  - split; cbn; [done| |intros ? ? Hin; apply insert_waiting in Hin; [by apply Hc|done]].
    intros Hin. apply insert_waiting in Hin; [|done]. specialize (Hw Hin).
    pose proof (count_insert idle _ i Waiting Idle Hi). cbn in *. lia.
  - by split.
  - eapply set_worker_ok; [done|done|cbn; lia|done].
  - destruct L as [L1 L2]. split; cbn; [done|rewrite L1; intros; apply Nat.le_0_l|congruence].
  - destruct L as [L1 L2]. eapply set_worker_ok; [done|done|by right|done].
  - destruct L as [L1 L2]. rewrite L1 in Hf, Hw.
    split; cbn; [by rewrite <-app_assoc| |intros ? ? Hin; apply insert_waiting in Hin; [apply Hc; congruence|done]].
    intros Hin. apply insert_waiting in Hin; [|done]. specialize (Hw Hin).
    pose proof (count_insert idle _ i Idle (Running t) Hi). cbn in *. lia.
  - eapply set_worker_ok; [done|done|cbn; lia|done].
  - eapply set_worker_ok; [done|done|cbn; lia|done].
  - destruct (close_law (mon p)) as [L1 L2]. split; cbn; [by rewrite L1|by rewrite L1|done].
  - split; cbn; [done| |intros; apply wake_waiting]. intros Hin. by apply wake_waiting in Hin.
Qed.

Lemma pool_run_ok (s : S) (n : nat) (p : pool) : items s = [] → rtc pool_step (started s n) p → pool_ok p.
Proof. intros E Hr. apply (started_ok s n) in E. induction Hr; eauto using pool_step_ok. Qed.

(** ** After the close, when a closed monitor refuses tasks *)

Context (closed_refuses : ∀ (t : T) (s : S), is_closed s = true → enter t s = None).

(** A worker returns only from an empty, closed queue, which stays so. *)
Definition returned_ok (p : pool) : Prop := Returned ∈ workers p → is_closed (mon p) = true ∧ items (mon p) = [].

Lemma insert_returned (l : list worker) (i : nat) (w : worker) :
  w ≠ Returned → Returned ∈ <[i := w]> l → Returned ∈ l.
Proof.
  intros Hw Hin. apply list_elem_of_lookup in Hin as (j & Hj). apply list_lookup_insert_Some in Hj.
  destruct Hj as [(_ & E & _)|[_ Hj]]; [congruence|]. by eapply list_elem_of_lookup_2.
Qed.

Lemma wake_returned (l : list worker) : Returned ∈ wake <$> l → Returned ∈ l.
Proof. rewrite list_elem_of_fmap. intros (w & E & Hw). by destruct w. Qed.

Lemma returned_step (p p' : pool) : returned_ok p → pool_step p p' → returned_ok p'.
Proof.
  intros Hok Hs. revert Hok. unfold returned_ok.
  destruct Hs as [p t s' E|p i Hn Hi|p Hn Hi|p i Hi|p i Hi E|p i Hi E|p i t s' Hi E|p i t Hi|p i t Hi|p E|p E];
    intros Hok; cbn; pose proof (leave_law (mon p)) as L; rewrite ?E in L;
    try (intros Hin; apply insert_returned in Hin; [by apply Hok|done]).
  - intros Hin. destruct (Hok Hin) as [Hc _]. by rewrite (closed_refuses t) in E.
  - done.
  - by destruct L.
  - intros Hin. apply insert_returned in Hin; [|done]. destruct (Hok Hin) as [_ He]. destruct L as [L _]. congruence.
  - intros Hin. destruct (Hok Hin) as [Hc _]. congruence.
  - intros Hin. apply wake_returned in Hin. by apply Hok.
Qed.

Lemma returned_run (p0 p : pool) : rtc pool_step p0 p → returned_ok p0 → returned_ok p.
Proof. induction 1; eauto using returned_step. Qed.

(** What is left to do: queued tasks, running ones, workers that have to come back to the queue. *)
Definition weight (w : worker) : nat := match w with Idle => 1 | Running _ => 2 | _ => 0 end%nat.
Definition work_left (p : pool) : nat := (3 * length (items (mon p)) + count weight (workers p) + notifies p)%nat.
Definition ended (w : worker) : Prop := w = Returned ∨ w = Crashed.
Definition active (w : worker) : bool := match w with Idle | Running _ => true | _ => false end.

Lemma closed_step (p p' : pool) :
  pool_ok p → is_closed (mon p) = true → closing p = false → pool_step p p' →
  is_closed (mon p') = true ∧ closing p' = false ∧ (work_left p' < work_left p)%nat.
Proof.
  intros Hok Hcl Hcg Hs. pose proof (ok_closed _ Hok Hcl Hcg) as Hw. revert Hok Hcl Hcg Hw. unfold work_left.
  destruct Hs as [p t s' E|p i Hn Hi|p Hn Hi|p i Hi|p i Hi E|p i Hi E|p i t s' Hi E|p i t Hi|p i t Hi|p E|p E];
    intros Hok Hcl Hcg Hw; cbn; pose proof (leave_law (mon p)) as L; rewrite ?E in L;
    try (by rewrite (closed_refuses t) in E); try congruence;
    try (by destruct Hw; eapply list_elem_of_lookup_2).
  - split_and!; [done|done|lia].
  - destruct L; congruence.
  - pose proof (count_insert weight _ i Idle Returned Hi). cbn in *. split_and!; [done|done|lia].
  - pose proof (count_insert weight _ i Idle (Running t) Hi). destruct L as [-> L2]. cbn in *.
    split_and!; [congruence|done|lia].
  - pose proof (count_insert weight _ i (Running t) Idle Hi). cbn in *. split_and!; [done|done|lia].
  - pose proof (count_insert weight _ i (Running t) Crashed Hi). cbn in *. split_and!; [done|done|lia].
Qed.

(** A closed pool some of whose workers have not ended can take a step. *)
Lemma closed_progress (p : pool) :
  pool_ok p → is_closed (mon p) = true → closing p = false →
  Forall ended (workers p) ∨ ∃ p', pool_step p p'.
Proof.
  intros Hok Hcl Hcg. pose proof (ok_closed _ Hok Hcl Hcg) as Hw.
  destruct (decide (Exists (fun w => active w = true) (workers p))) as [E|E].
  - right. apply Exists_exists in E as (w & Hin & Hc). apply list_elem_of_lookup in Hin as (i & Hi).
    destruct w; try done; [|by eexists; eapply s_finish].
    destruct (leave (mon p)) as [| |t s'] eqn:L; [|by eexists; eapply s_return|by eexists; eapply s_take].
    by eexists; eapply s_wait.
  - left. apply Forall_forall. intros w Hin. unfold ended. destruct w; auto.
    + destruct E. apply Exists_exists. eauto.
    + done.
    + destruct E. apply Exists_exists. eauto.
Qed.
End Interleaving.

(** ** Properties of base::ThreadPool *)



(** ** ftp::ThreadPool: the bound on pending tasks *)

(* @src miniftpd/src/thread_pool.h | static constexpr size_t kMaxPending *)
Definition kMaxPending : Z := 256.

Section Ftp.
Context {T : Type}.
(** Whether a task ends with a [std::runtime_error]; any other exception ends the program. *)
Context (throws : T → bool).
(** The number of threads that may be inside [trySubmit] at one time. *)
Context (submitters : nat).

(** The threads inside [trySubmit] after the test, and those after the increment, each with its task; the
    tasks the workers run; [lost] counts the tasks that threw. *)
(* @src miniftpd/src/thread_pool.h | common::base::BlockingQueue<Task> queue_; | std::vector<std::thread> workers_; | ThreadPool *)
Record fpool := {
  fqueue : BlockingQueue T;
  pending_ : Z;
  tested : list T;
  counted : list T;
  running : list T;
  lost : nat
}.

Definition new_fpool : fpool :=
  {| fqueue := new_queue; pending_ := 0; tested := []; counted := []; running := []; lost := 0 |}.

(** [trySubmit] tests [pending_], increments it and puts the task, three accesses other threads may come
    between. *)
(* @src miniftpd/src/thread_pool.h | bool trySubmit(Task task) { *)
Inductive trySubmit : fpool → fpool → Prop :=
| t_test s t : pending_ s < kMaxPending → (length (tested s) + length (counted s) < submitters)%nat →
    trySubmit s {| fqueue := fqueue s; pending_ := pending_ s; tested := tested s ++ [t]; counted := counted s;
                   running := running s; lost := lost s |}
| t_count s t a b : tested s = a ++ t :: b →
    trySubmit s {| fqueue := fqueue s; pending_ := pending_ s + 1; tested := a ++ b; counted := counted s ++ [t];
                   running := running s; lost := lost s |}
| t_put s t a b : counted s = a ++ t :: b →
    trySubmit s {| fqueue := put t (fqueue s); pending_ := pending_ s; tested := tested s; counted := a ++ b;
                   running := running s; lost := lost s |}.

(** A worker takes a task; the task ends and the wrapper counts it down, or it throws and the handler ends
    the worker. *)
(* @src miniftpd/src/thread_pool.h | void run() { *)
Inductive worker_run : fpool → fpool → Prop :=
| w_take s q t : take_ (fqueue s) = Done q (Ok t) →
    worker_run s {| fqueue := q; pending_ := pending_ s; tested := tested s; counted := counted s;
                    running := running s ++ [t]; lost := lost s |}
| w_done s t a b : running s = a ++ t :: b → throws t = false →
    worker_run s {| fqueue := fqueue s; pending_ := pending_ s - 1; tested := tested s; counted := counted s;
                    running := a ++ b; lost := lost s |}
| w_throw s t a b : running s = a ++ t :: b → throws t = true →
    worker_run s {| fqueue := fqueue s; pending_ := pending_ s; tested := tested s; counted := counted s;
                    running := a ++ b; lost := S (lost s) |}.

Definition fpool_step (s s' : fpool) : Prop := trySubmit s s' ∨ worker_run s s'.

(** [pending_] counts every task that was counted and has not ended regularly. *)
Record fpool_ok (s : fpool) : Prop := {
  pending_exact : pending_ s = zlen (counted s) + zlen (q_ (fqueue s)) + zlen (running s) + Z.of_nat (lost s);
  pending_bound : pending_ s + zlen (tested s) <= kMaxPending - 1 + Z.of_nat submitters ∨
                  submitters = 0%nat;
  inside : (length (tested s) + length (counted s) <= submitters)%nat
}.

Lemma fpool_step_ok (s s' : fpool) : fpool_ok s → fpool_step s s' → fpool_ok s'.
Proof.
  intros Hok Hs. revert Hok.
  destruct Hs as [Hs|Hs]; revert Hs; [intros [u t Hp Hi|u t a b E|u t a b E]|intros [u q t E|u t a b E Ht|u t a b E Ht]];
    clear s s'; rename u into s; intros [He Hb Hn].
  - split; cbn; autorewrite with moban; [done| |rewrite length_app; cbn; lia]. left. unfold zlen. lia.
  - rewrite E in *. split; cbn; autorewrite with moban in *; rewrite ?length_app in *; cbn in *; lia.
  - rewrite E in *. split; cbn; autorewrite with moban in *; rewrite ?length_app in *; cbn in *; lia.
  - unfold take_ in E. destruct (q_ (fqueue s)) as [|x l] eqn:Q; [by destruct (done_ (fqueue s))|].
    injection E as <- <-. split; cbn; autorewrite with moban in *; lia.
  - rewrite E in *. split; cbn; autorewrite with moban in *; lia.
  - rewrite E in *. split; cbn; autorewrite with moban in *; lia.
Qed.

Lemma new_fpool_ok : fpool_ok new_fpool.
Proof.
  split; [done| |cbn; lia]. destruct submitters as [|k]; [by right|left]. unfold kMaxPending. cbn [pending_ tested new_fpool].
  rewrite (@zlen_nil T). lia.
Qed.

Lemma fpool_run_ok (s s' : fpool) : rtc fpool_step s s' → fpool_ok s → fpool_ok s'.
Proof. induction 1; eauto using fpool_step_ok. Qed.

Lemma lost_mono (s s' : fpool) : rtc fpool_step s s' → (lost s <= lost s')%nat.
Proof.
  induction 1 as [|s s1 s' Hs _ IH]; [done|].
  assert (lost s <= lost s1)%nat; [|lia]. by destruct Hs as [[]|[]]; cbn; lia.
Qed.
End Ftp.
Arguments fpool : clear implicits.


