(* ===== verification/Ftp.v ===== *)
(** * Ftp: one FTP session of miniftpd

    Models [example/miniftpd/src/ftp_session.{h,cpp}]. A session lives in one loop thread: its control
    connection's messages, its data connection's events, the functors it queues and the results of the disk
    tasks are handled one at a time, each by a function from the world before to the world after. The world is
    the session, its data connections and servers, the functors queued in the loop, the tasks handed to the
    disk pool, and a log of what was sent. The file system and the clock are an argument, [Disk]. *)

From S2P Require Import Prelude Buffer Strings.

(** ** The outside *)

(** The fields of [struct stat] that are read; what [localtime_r] and [strftime] print for a time. *)
Record stat := { st_mode : Z; st_nlink : Z; st_uid : Z; st_gid : Z; st_size : Z; st_mtime : Z }.

(** [stat], [open] and [opendir] by path, [pread] by descriptor, count and offset: bytes, or [errno]. *)
Record Disk := {
  disk_stat : chars → option stat;
  disk_open : chars → Z;
  disk_pread : Z → Z → Z → chars + Z;
  disk_opendir : chars → option (list chars);
  disk_time : Z → chars
}.

(** ** Data *)

(* @src ftp_session.h | enum class State *)
Inductive State := kNeedUser | kNeedPass | kLoggedIn.
(* @src ftp_session.h | enum class Xfer *)
Inductive Xfer := kNone | kList | kRetr.
#[global] Instance State_eq_dec : EqDecision State.
Proof. solve_decision. Defined.
#[global] Instance Xfer_eq_dec : EqDecision Xfer.
Proof. solve_decision. Defined.

(** Data servers, connections and timers have numbers; [xferDir_] is the names [readdir] has yet to return. *)
(* @src ftp_session.h | Muduo::EventLoop* loop_; | static constexpr int kPasvTimeoutSec | FtpSession *)
Record FtpSession := mkSession {
  state_ : State;
  cwd_ : chars;
  dataServer_ : option nat;
  dataConn_ : option nat;
  xfer_ : Xfer;
  longNameList_ : bool;
  xferFile_ : chars;
  xferFd_ : Z;
  nextReadOffset_ : Z;
  xferDone_ : bool;
  xferGen_ : Z;
  xferDir_ : option (list chars);
  pasvTimerId_ : option nat
}.

(* @src ftp_session.cpp | FtpSession::FtpSession( *)
Definition new_session : FtpSession :=
  mkSession kNeedUser $"/" None None kNone true [] (-1) 0 false 0 None None.

(** The state of a data connection as the session depends on it: its [TcpConnection] state, whether the
    write-complete callback is set, and whether output waits in its buffer. *)
Inductive cstate := Up | Disconnecting | Down.
#[global] Instance cstate_eq_dec : EqDecision cstate.
Proof. solve_decision. Defined.
Record dconn := { of_server : nat; cst : cstate; has_callback : bool; unsent : bool }.

(** What the kernel does with the next direct write: it takes all, it leaves a rest, the peer is gone. *)
Inductive kwrite := Takes | Keeps | Gone.

(** The tasks given to the disk pool, with the values their lambdas capture. *)
Inductive task :=
| RetrTask (gen fd offset : Z)
| ListTask (gen : Z) (dirPath : chars) (names : list chars) (longList : bool).

(** The functors in the session's loop. A connection posts [FWriteComplete] with a copy of the callback when a
    direct write took everything, and [FWriteCompleteLate], which looks at the callback when it runs, when
    [handleWrite] has drained the buffer. *)
Inductive functor :=
| FCloseDataServer
| FDelete (server : nat)
| FForceClose (conn : nat)
| FWriteComplete (conn : nat)
| FWriteCompleteLate (conn : nat)
| FChunk (gen : Z) (chunk : chars) (atEof ioError : bool).

(** What the session does to the outside: texts given to the control connection, bytes a data connection has
    accepted, the closing of its write half, files and directories. *)
Inductive effect :=
| Reply (text : chars)
| CtrlShutdown
| CtrlForceClose
| DataSend (conn : nat) (chunk : chars)
| DataShutdown (conn : nat)
| OpenFile (path : chars)
| OpenDir (path : chars)
| CloseFd (fd : Z)
| CloseDir.

Record World := mkWorld {
  session : FtpSession;
  conns : gmap nat dconn;
  next_id : nat;
  timers : list nat;
  functors : list functor;
  tasks : list task;
  kernel : kwrite;
  pool_accepts : bool;
  log : list effect
}.

(** ** Updates *)

Definition on_session (f : FtpSession → FtpSession) (w : World) : World :=
  mkWorld (f (session w)) (conns w) (next_id w) (timers w) (functors w) (tasks w) (kernel w) (pool_accepts w) (log w).
Definition emit (e : effect) (w : World) : World :=
  mkWorld (session w) (conns w) (next_id w) (timers w) (functors w) (tasks w) (kernel w) (pool_accepts w) (log w ++ [e]).
Definition queueInLoop (f : functor) (w : World) : World :=
  mkWorld (session w) (conns w) (next_id w) (timers w) (functors w ++ [f]) (tasks w) (kernel w) (pool_accepts w) (log w).
Definition set_conn (c : nat) (d : dconn) (w : World) : World :=
  mkWorld (session w) (<[c := d]> (conns w)) (next_id w) (timers w) (functors w) (tasks w) (kernel w) (pool_accepts w) (log w).
Definition set_timers (ts : list nat) (w : World) : World :=
  mkWorld (session w) (conns w) (next_id w) ts (functors w) (tasks w) (kernel w) (pool_accepts w) (log w).
Definition set_functors (fs : list functor) (w : World) : World :=
  mkWorld (session w) (conns w) (next_id w) (timers w) fs (tasks w) (kernel w) (pool_accepts w) (log w).
Definition set_tasks (ts : list task) (w : World) : World :=
  mkWorld (session w) (conns w) (next_id w) (timers w) (functors w) ts (kernel w) (pool_accepts w) (log w).
Definition set_kernel (k : kwrite) (w : World) : World :=
  mkWorld (session w) (conns w) (next_id w) (timers w) (functors w) (tasks w) k (pool_accepts w) (log w).
Definition emits (es : list effect) (w : World) : World :=
  mkWorld (session w) (conns w) (next_id w) (timers w) (functors w) (tasks w) (kernel w) (pool_accepts w) (log w ++ es).
Definition queue_all (fs : list functor) (w : World) : World :=
  mkWorld (session w) (conns w) (next_id w) (timers w) (functors w ++ fs) (tasks w) (kernel w) (pool_accepts w) (log w).
Definition fresh (w : World) : World :=
  mkWorld (session w) (conns w) (S (next_id w)) (timers w) (functors w) (tasks w) (kernel w) (pool_accepts w) (log w).

Definition set_state v s := mkSession v (cwd_ s) (dataServer_ s) (dataConn_ s) (xfer_ s) (longNameList_ s) (xferFile_ s) (xferFd_ s) (nextReadOffset_ s) (xferDone_ s) (xferGen_ s) (xferDir_ s) (pasvTimerId_ s).
Definition set_dataServer v s := mkSession (state_ s) (cwd_ s) v (dataConn_ s) (xfer_ s) (longNameList_ s) (xferFile_ s) (xferFd_ s) (nextReadOffset_ s) (xferDone_ s) (xferGen_ s) (xferDir_ s) (pasvTimerId_ s).
Definition set_dataConn v s := mkSession (state_ s) (cwd_ s) (dataServer_ s) v (xfer_ s) (longNameList_ s) (xferFile_ s) (xferFd_ s) (nextReadOffset_ s) (xferDone_ s) (xferGen_ s) (xferDir_ s) (pasvTimerId_ s).
Definition set_xfer v s := mkSession (state_ s) (cwd_ s) (dataServer_ s) (dataConn_ s) v (longNameList_ s) (xferFile_ s) (xferFd_ s) (nextReadOffset_ s) (xferDone_ s) (xferGen_ s) (xferDir_ s) (pasvTimerId_ s).
Definition set_long v s := mkSession (state_ s) (cwd_ s) (dataServer_ s) (dataConn_ s) (xfer_ s) v (xferFile_ s) (xferFd_ s) (nextReadOffset_ s) (xferDone_ s) (xferGen_ s) (xferDir_ s) (pasvTimerId_ s).
Definition set_file v s := mkSession (state_ s) (cwd_ s) (dataServer_ s) (dataConn_ s) (xfer_ s) (longNameList_ s) v (xferFd_ s) (nextReadOffset_ s) (xferDone_ s) (xferGen_ s) (xferDir_ s) (pasvTimerId_ s).
Definition set_fd v s := mkSession (state_ s) (cwd_ s) (dataServer_ s) (dataConn_ s) (xfer_ s) (longNameList_ s) (xferFile_ s) v (nextReadOffset_ s) (xferDone_ s) (xferGen_ s) (xferDir_ s) (pasvTimerId_ s).
Definition set_offset v s := mkSession (state_ s) (cwd_ s) (dataServer_ s) (dataConn_ s) (xfer_ s) (longNameList_ s) (xferFile_ s) (xferFd_ s) v (xferDone_ s) (xferGen_ s) (xferDir_ s) (pasvTimerId_ s).
Definition set_done v s := mkSession (state_ s) (cwd_ s) (dataServer_ s) (dataConn_ s) (xfer_ s) (longNameList_ s) (xferFile_ s) (xferFd_ s) (nextReadOffset_ s) v (xferGen_ s) (xferDir_ s) (pasvTimerId_ s).
Definition bump_gen s := mkSession (state_ s) (cwd_ s) (dataServer_ s) (dataConn_ s) (xfer_ s) (longNameList_ s) (xferFile_ s) (xferFd_ s) (nextReadOffset_ s) (xferDone_ s) (u64 (xferGen_ s + 1)) (xferDir_ s) (pasvTimerId_ s).
Definition set_dir v s := mkSession (state_ s) (cwd_ s) (dataServer_ s) (dataConn_ s) (xfer_ s) (longNameList_ s) (xferFile_ s) (xferFd_ s) (nextReadOffset_ s) (xferDone_ s) (xferGen_ s) v (pasvTimerId_ s).
Definition set_timer v s := mkSession (state_ s) (cwd_ s) (dataServer_ s) (dataConn_ s) (xfer_ s) (longNameList_ s) (xferFile_ s) (xferFd_ s) (nextReadOffset_ s) (xferDone_ s) (xferGen_ s) (xferDir_ s) v.

(** ** Constants and printing *)

(* @src ftp_session.cpp | constexpr const char* kCRLF *)
Definition kCRLF : chars := ["013"%char; "010"%char].
(* @src ftp_session.cpp | constexpr const char* kFtpRoot *)
Definition kFtpRoot : chars := $".".
(* @src ftp_session.cpp | constexpr size_t kReadChunkSize *)
Definition kReadChunkSize : Z := 64 * 1024.
(* @src ftp_session.cpp | constexpr size_t kListBatchEntries *)
Definition kListBatchEntries : nat := 64.

(** Fill on the right: [%-8u]. *)
Definition pad_right (width : nat) (s : chars) : chars := s ++ replicate (width - length s) " "%char.
Definition bit (mode : Z) (k : Z) (c : char) : char := if Z.testbit mode k then c else "-"%char.
(** The file type bits of [st_mode]. *)
Definition S_ISDIR (mode : Z) : bool := Z.land mode 61440 =? 16384.
Definition S_ISREG (mode : Z) : bool := Z.land mode 61440 =? 32768.

(* @src ftp_session.cpp | std::string unixListLine( *)
Definition unixListLine (disk : Disk) (st : stat) (name : chars) : chars :=
  let m := st_mode st in
  let mode := (if S_ISDIR m then "d"%char else "-"%char) ::
    [bit m 8 "r"; bit m 7 "w"; bit m 6 "x"; bit m 5 "r"; bit m 4 "w"; bit m 3 "x"; bit m 2 "r"; bit m 1 "w"; bit m 0 "x"]%char in
  let timeBuf := snprintf 64 (disk_time disk (st_mtime st)) in
  snprintf 512 (mode ++ $" " ++ fill " " 3 (udec (st_nlink st)) ++ $" " ++ pad_right 8 (udec (st_uid st)) ++ $" " ++
                pad_right 8 (udec (st_gid st)) ++ $" " ++ fill " " 8 (udec (u64 (st_size st))) ++ $" " ++ timeBuf ++ $" " ++
                c_str name).

(** The bytes of an address and of a port as they lie in memory. *)
(* @src ftp_session.cpp | std::string FtpSession::pasvReply( *)
Definition pasvReply (ip port : list Z) : chars :=
  snprintf 64 ($"227 Entering Passive Mode (" ++ join (udec <$> (ip ++ port)) $"," ++ $")").

(** ** The data connection's interface *)

Definition connected (c : nat) (w : World) : bool :=
  if conns w !! c is Some d then bool_decide (cst d = Up) else false.

(** The connection's operations as the session sees them: the connection after the call, the functors it posts
    and the bytes it accepts. *)
Inductive posted := PWriteComplete | PWriteCompleteLate | PForceClose.
Definition with_cst (st : cstate) (d : dconn) : dconn :=
  {| of_server := of_server d; cst := st; has_callback := has_callback d; unsent := unsent d |}.
Definition with_unsent (b : bool) (d : dconn) : dconn :=
  {| of_server := of_server d; cst := cst d; has_callback := has_callback d; unsent := b |}.
Definition with_callback (b : bool) (d : dconn) : dconn :=
  {| of_server := of_server d; cst := cst d; has_callback := b; unsent := unsent d |}.

(** [send]: behind a rest the bytes are appended; nothing is written of an empty text, so that no callback
    is due; a message to a peer that is gone is given up. *)
Definition dconn_send (k : kwrite) (chunk : chars) (d : dconn) : dconn * list posted * chars :=
  if negb (bool_decide (cst d = Up)) then (d, [], []) else
  if unsent d then (d, [], chunk) else
  if decide (chunk = []) then (d, [], []) else
  match k with
  | Takes => (d, if has_callback d then [PWriteComplete] else [], chunk)
  | Keeps => (with_unsent true d, [], chunk)
  | Gone => (d, [], [])
  end.
(** [shutdown], and whether the write half is closed at once. *)
Definition dconn_shutdown (d : dconn) : dconn * bool :=
  if bool_decide (cst d = Up) then (with_cst Disconnecting d, negb (unsent d)) else (d, false).
(** [forceClose]. *)
Definition dconn_forceClose (d : dconn) : dconn * list posted :=
  if bool_decide (cst d = Down) then (d, []) else (with_cst Disconnecting d, [PForceClose]).
(** [handleWrite] that sends the rest, and whether it closes the write half. *)
Definition dconn_writable (d : dconn) : dconn * list posted * bool :=
  if unsent d && negb (bool_decide (cst d = Down))
  then (with_unsent false d, if has_callback d then [PWriteCompleteLate] else [], bool_decide (cst d = Disconnecting))
  else (d, [], false).

Definition functor_of (c : nat) (p : posted) : functor :=
  match p with PWriteComplete => FWriteComplete c | PWriteCompleteLate => FWriteCompleteLate c | PForceClose => FForceClose c end.

Definition data_send (c : nat) (chunk : chars) (w : World) : World :=
  match conns w !! c with
  | Some d => let '(d', ps, taken) := dconn_send (kernel w) chunk d in
              queue_all (functor_of c <$> ps) (emits (if decide (taken = []) then [] else [DataSend c taken]) (set_conn c d' w))
  | None => w
  end.
Definition data_shutdown (c : nat) (w : World) : World :=
  match conns w !! c with
  | Some d => let '(d', shut) := dconn_shutdown d in emits (if shut : bool then [DataShutdown c] else []) (set_conn c d' w)
  | None => w
  end.
Definition data_forceClose (c : nat) (w : World) : World :=
  match conns w !! c with
  | Some d => let '(d', ps) := dconn_forceClose d in queue_all (functor_of c <$> ps) (set_conn c d' w)
  | None => w
  end.
Definition data_writable (c : nat) (w : World) : World :=
  match conns w !! c with
  | Some d => let '(d', ps, shut) := dconn_writable d in
              queue_all (functor_of c <$> ps) (emits (if shut : bool then [DataShutdown c] else []) (set_conn c d' w))
  | None => w
  end.
Definition set_callback (b : bool) (c : nat) (w : World) : World :=
  match conns w !! c with
  | Some d => set_conn c (with_callback b d) w
  | None => w
  end.
(** Through the shared pointer [dataConn_], which may be null. *)
Definition on_dataConn (f : nat → World → World) (w : World) : World :=
  if dataConn_ (session w) is Some c then f c w else w.
(** [loop_->cancel(pasvTimerId_)]. *)
Definition cancel_pasv (w : World) : World :=
  if pasvTimerId_ (session w) is Some t then set_timers (filter (fun u => u ≠ t) (timers w)) w else w.

(** ** The session *)

(* @src ftp_session.cpp | void FtpSession::reply( *)
Definition reply (text : chars) (w : World) : World := emit (Reply text) w.
(* @src ftp_session.cpp | void FtpSession::start( *)
Definition start (w : World) : World := reply $"220 miniftpd ready" w.

(* @src ftp_session.cpp | void FtpSession::abortTransfer() *)
Definition abortTransfer (w : World) : World :=
  let w := on_session (fun s => bump_gen (set_offset 0 (set_file [] (set_done false (set_xfer kNone s))))) w in
  let w := if 0 <=? xferFd_ (session w) then on_session (set_fd (-1)) (emit (CloseFd (xferFd_ (session w))) w) else w in
  let w := if xferDir_ (session w) is Some _ then on_session (set_dir None) (emit CloseDir w) else w in
  on_dataConn (set_callback false) w.

(* @src ftp_session.cpp | void FtpSession::sendDataEndReply() *)
Definition sendDataEndReply (w : World) : World :=
  let w := match xfer_ (session w) with
           | kList => reply $"226 list transfer complete" w
           | kRetr => reply $"226 transfer complete" w
           | kNone => w
           end in
  abortTransfer (cancel_pasv w).

(* @src ftp_session.cpp | void FtpSession::closeDataServer() *)
Definition closeDataServer (w : World) : World :=
  let w := on_session (set_dataConn None) w in
  match dataServer_ (session w) with
  | Some raw => queueInLoop (FDelete raw) (on_session (set_dataServer None) w)
  | None => w
  end.

(* @src ftp_session.cpp | FtpSession::~FtpSession() *)
Definition destroy (w : World) : World :=
  let w := if 0 <=? xferFd_ (session w) then emit (CloseFd (xferFd_ (session w))) w else w in
  let w := if xferDir_ (session w) is Some _ then emit CloseDir w else w in
  closeDataServer w.

(* @src ftp_session.cpp | void FtpSession::transferRejected( *)
Definition transferRejected (w : World) : World :=
  queueInLoop FCloseDataServer (on_dataConn data_forceClose (abortTransfer (reply $"451 local error in processing" w))).

(** [diskPool_->trySubmit]: the task is handed over, or refused. *)
Definition trySubmit_ (t : task) (w : World) : World :=
  if pool_accepts w then set_tasks (tasks w ++ [t]) w else transferRejected w.

(** A null [dataConn_] is dereferenced at the end of a transfer: undefined. *)
(* @src ftp_session.cpp | void FtpSession::sendChunkReady( *)
Definition sendChunkReady (gen : Z) (chunk : chars) (atEof ioError : bool) (w : World) : outcome World :=
  let s := session w in
  if negb (gen =? xferGen_ s) || bool_decide (xfer_ s = kNone) then Ok w else
  if ioError then
    let w := reply (if bool_decide (xfer_ s = kRetr) then $"550 read error during transfer" else $"550 failed to list directory") w in
    Ok (queueInLoop FCloseDataServer (on_dataConn data_forceClose (abortTransfer w)))
  else if bool_decide (chunk = []) && atEof then
    let w := on_session (set_done true) w in
    match dataConn_ s with
    | Some c => Ok (data_shutdown c w)
    | None => Fault Undefined
    end
  else match dataConn_ s with
       | Some c =>
           if negb (connected c w) then Ok w else
           let w := data_send c chunk w in
           Ok (if atEof then data_shutdown c (on_session (set_done true) w) else w)
       | None => Ok w
       end.

(* @src ftp_session.cpp | void FtpSession::requestNextChunk() *)
Definition requestNextChunk (w : World) : outcome World :=
  let s := session w in
  if bool_decide (xfer_ s = kNone) || negb (if dataConn_ s is Some c then connected c w else false) then Ok w else
  let gen := xferGen_ s in
  if bool_decide (xfer_ s = kRetr) then
    let offset := nextReadOffset_ s in
    Ok (trySubmit_ (RetrTask gen (xferFd_ s) offset) (on_session (set_offset (offset + kReadChunkSize)) w))
  else
    let dirPath := kFtpRoot ++ cwd_ s in
    match xferDir_ s with
    | None => Fault Undefined
    | Some entries =>
        let names := take kListBatchEntries entries in
        let w := on_session (set_dir (Some (drop kListBatchEntries entries))) w in
        if decide (names = []) then sendChunkReady gen [] true false w
        else Ok (trySubmit_ (ListTask gen dirPath names (longNameList_ s)) w)
    end.

Section WithDisk.
Context (disk : Disk).

(* @src ftp_session.cpp | void FtpSession::tryStartTransfer() *)
Definition tryStartTransfer (w : World) : outcome World :=
  let s := session w in
  match dataConn_ s with
  | Some c =>
      if negb (connected c w) || bool_decide (xfer_ s = kNone) then Ok w else
      if bool_decide (xfer_ s = kRetr) then
        let fd := disk_open disk (c_str (xferFile_ s)) in
        let w := emit (OpenFile (c_str (xferFile_ s))) (on_session (set_fd fd) w) in
        if fd <? 0 then Ok (queueInLoop FCloseDataServer (data_forceClose c (reply $"550 failed to open file" w)))
        else requestNextChunk w
      else
        let dir := disk_opendir disk (c_str (kFtpRoot ++ cwd_ s)) in
        let w := emit (OpenDir (c_str (kFtpRoot ++ cwd_ s))) (on_session (set_dir dir) w) in
        match dir with
        | None => Ok (queueInLoop FCloseDataServer (data_forceClose c (reply $"550 failed to list directory" w)))
        | Some _ => requestNextChunk w
        end
  | None => Ok w
  end.

(* @src ftp_session.cpp | void FtpSession::handleDataConnected( *)
Definition handleDataConnected (c : nat) (w : World) : outcome World :=
  if connected c w then
    match dataConn_ (session w) with
    | Some _ => Ok (data_forceClose c w)
    | None => tryStartTransfer (set_callback true c (on_session (set_dataConn (Some c)) w))
    end
  else
    let s := session w in
    let w := if negb (bool_decide (xfer_ s = kNone)) && negb (xferDone_ s)
             then reply $"426 connection closed; transfer aborted" (abortTransfer w)
             else sendDataEndReply w in
    Ok (queueInLoop FCloseDataServer w).

(** The lambda a task runs in the pool: the result it queues in the session's loop. *)
Definition list_line (dirPath name : chars) : chars :=
  match disk_stat disk (c_str (dirPath ++ $"/" ++ name)) with
  | Some st => unixListLine disk st name ++ kCRLF
  | None => []
  end.
(* @src ftp_session.cpp | ssize_t n = ::pread( | self->sendChunkReady(gen, std::move(chunk), false, false); *)
Definition run_task (t : task) : functor :=
  match t with
  | RetrTask gen fd offset =>
      match disk_pread disk fd kReadChunkSize offset with
      | inl chunk => FChunk gen chunk (bool_decide (chunk = [])) false
      | inr _ => FChunk gen [] false true
      end
  | ListTask gen dirPath names longList =>
      FChunk gen (concat (map (fun name => if longList then list_line dirPath name else name ++ kCRLF) names)) false false
  end.

(** The write-complete callback [handleDataConnected] sets. *)
(* @src ftp_session.cpp | conn->setWriteCompleteCallback( | }); | write complete callback *)
Definition writeComplete (w : World) : outcome World :=
  if negb (bool_decide (xfer_ (session w) = kNone)) then requestNextChunk w else Ok w.
(** The functor of [handleWrite] calls the member [writeCompleteCallback_], which may be empty by then. *)
Definition writeCompleteLate (c : nat) (w : World) : outcome World :=
  match conns w !! c with
  | Some d => if has_callback d then writeComplete w else Fault (Throw BadFunctionCall)
  | None => Ok w
  end.

(** ** Commands *)

(* @src ftp_session.cpp | bool FtpSession::requireLogin( *)
Definition requireLogin (w : World) (body : World → outcome World) : outcome World :=
  if bool_decide (state_ (session w) = kLoggedIn) then body w
  else Ok (reply $"530 please login with USER and PASS" w).
(* @src ftp_session.cpp | void FtpSession::cmdUser( *)
Definition cmdUser (w : World) : World := reply $"331 password required" (on_session (set_state kNeedPass) w).
(* @src ftp_session.cpp | void FtpSession::cmdPass( *)
Definition cmdPass (w : World) : World :=
  if bool_decide (state_ (session w) = kNeedPass)
  then reply $"230 login successful" (on_session (set_state kLoggedIn) w)
  else reply $"503 login with USER first" w.
(* @src ftp_session.cpp | void FtpSession::cmdSyst( *)
Definition cmdSyst (w : World) : World := reply $"215 UNIX Type: L8" w.
(* @src ftp_session.cpp | void FtpSession::cmdPwd( *)
Definition cmdPwd (w : World) : outcome World :=
  requireLogin w (fun w => Ok (reply ($"257 " ++ ["034"%char] ++ cwd_ (session w) ++ ["034"%char] ++ $" is the current directory") w)).
(* @src ftp_session.cpp | void FtpSession::cmdType( *)
Definition cmdType (w : World) : outcome World := requireLogin w (fun w => Ok (reply $"200 type set to I" w)).

(** The address of the control connection and the port the kernel gives to a server, as bytes in memory. *)
Context (local_ip : list Z) (server_port : nat → list Z).

(* @src ftp_session.cpp | void FtpSession::cmdPasv( *)
Definition cmdPasv (w : World) : outcome World :=
  requireLogin w (fun w =>
    let w := if dataServer_ (session w) is Some _ then closeDataServer w else w in
    let id := next_id w in
    let w := fresh (on_session (fun s => set_timer (Some id) (set_dataServer (Some id) s)) w) in
    let w := set_timers (timers w ++ [id]) w in
    Ok (reply (pasvReply local_ip (server_port id)) w)).

(** The lambda of the timer. *)
(* @src ftp_session.cpp | pasvTimerId_ = loop_->runAfter( | }); | pasv timer *)
Definition pasvTimeout (w : World) : World :=
  let s := session w in
  if (if dataServer_ s is Some _ then true else false) && bool_decide (xfer_ s = kNone) && bool_decide (dataConn_ s = None)
  then closeDataServer (reply $"425 passive mode timed out" w) else w.

(* @src ftp_session.cpp | void FtpSession::cmdList( *)
Definition cmdList (longNames : bool) (w : World) : outcome World :=
  requireLogin w (fun w =>
    if dataServer_ (session w) is Some _ then
      let w := on_session (fun s => set_long longNames (set_xfer kList (bump_gen s))) w in
      tryStartTransfer (reply $"150 here comes the directory listing" (cancel_pasv w))
    else Ok (reply $"425 use PASV first" w)).

(* @src ftp_session.cpp | void FtpSession::cmdRetr( *)
Definition cmdRetr (arg : chars) (w : World) : outcome World :=
  requireLogin w (fun w =>
    if dataServer_ (session w) is Some _ then
      if decide (arg = []) then Ok (reply $"501 no file name given" w) else
      if (if find_sub $".." arg is Some _ then true else false) || bool_decide (head arg = Some "/"%char)
      then Ok (reply $"550 invalid path" w) else
      let fullPath := kFtpRoot ++ $"/" ++ arg in
      if (if disk_stat disk (c_str fullPath) is Some st then negb (S_ISREG (st_mode st)) else true)
      then Ok (reply $"550 no such file" w) else
      let w := on_session (fun s => set_done false (set_offset 0 (set_file fullPath (set_xfer kRetr (bump_gen s))))) w in
      tryStartTransfer (reply $"150 opening BINARY mode data connection" (cancel_pasv w))
    else Ok (reply $"425 use PASV first" w)).

(* @src ftp_session.cpp | void FtpSession::cmdQuit( *)
Definition cmdQuit (w : World) : World := emit CtrlShutdown (reply $"221 bye" w).

(** [std::toupper] in the C locale. *)
(* @src ftp_session.cpp | void FtpSession::handleCommand( *)
Definition handleCommand (line : chars) (w : World) : outcome World :=
  let '(cmd, arg) := match find_sub $" " line with
                     | Some sp => (take sp line, drop (sp + 1) line)
                     | None => (line, [])
                     end in
  let cmd := to_upper cmd in
  if decide (cmd = $"USER") then Ok (cmdUser w) else
  if decide (cmd = $"PASS") then Ok (cmdPass w) else
  if decide (cmd = $"SYST") then Ok (cmdSyst w) else
  if decide (cmd = $"PWD" ∨ cmd = $"XPWD") then cmdPwd w else
  if decide (cmd = $"TYPE") then cmdType w else
  if decide (cmd = $"PASV") then cmdPasv w else
  if decide (cmd = $"LIST") then cmdList true w else
  if decide (cmd = $"NLST") then cmdList false w else
  if decide (cmd = $"RETR") then cmdRetr arg w else
  if decide (cmd = $"QUIT") then Ok (cmdQuit w) else
  Ok (reply $"502 command not implemented" w).

(** ** Messages *)

(** The loop of [onMessage] on the connection's input buffer: the buffer and the world after it. Every turn
    but the last takes a line off the buffer, so [fuel] above the readable bytes is enough. *)
Fixpoint onMessage_loop (fuel : nat) (b : Buffer) (w : World) : outcome (Buffer * World) :=
  match fuel with
  | O => Fault Undefined
  | S fuel =>
      if 0 <? readableBytes b then
        crlf ← findCRLF b;
        match crlf with
        | None => Ok (b, if 4096 <? readableBytes b then emit CtrlForceClose w else w)
        | Some p =>
            line ← vec_read (buffer_ b) (peek b) (p - peek b);
            b' ← retrieveUntil b (p + 2);
            w' ← handleCommand line w;
            onMessage_loop fuel b' w'
        end
      else Ok (b, w)
  end.
(* @src ftp_session.cpp | void FtpSession::onMessage( *)
Definition onMessage (b : Buffer) (w : World) : outcome (Buffer * World) :=
  onMessage_loop (S (Z.to_nat (readableBytes b))) b w.

(* @src ftp_session.cpp | void FtpSession::handleDataMessage( *)
Definition handleDataMessage (b : Buffer) : Buffer := retrieveAll b.

(** ** The session's loop *)

(** [delete raw]: the server's destructor runs [connnectDestroyed] on each of its connections: a connected
    one goes down and its callback runs, one that is shutting down fails the channel's assertion. *)
Definition delete_conn (c : nat) (w : World) : outcome World :=
  match conns w !! c with
  | Some d =>
      match cst d with
      | Up => handleDataConnected c (set_conn c (with_cst Down d) w)
      | Disconnecting => Fault AssertFail
      | Down => Ok w
      end
  | None => Ok w
  end.
Definition conns_of (server : nat) (w : World) : list nat :=
  filter (fun c => of_server <$> conns w !! c = Some server) (seq 0 (next_id w)).

(** [handleClose] of a connection: the peer closed it, or the loop runs [forceCloseInLoop]. *)
Definition close_conn (c : nat) (w : World) : outcome World :=
  match conns w !! c with
  | Some d =>
      if bool_decide (cst d = Down) then Ok w
      else handleDataConnected c (set_conn c (with_cst Down d) w)
  | None => Ok w
  end.

Definition run_functor (f : functor) (w : World) : outcome World :=
  match f with
  | FCloseDataServer => Ok (closeDataServer w)
  | FDelete server => foldM delete_conn (conns_of server w) w
  | FForceClose c => close_conn c w
  | FWriteComplete c => writeComplete w
  | FWriteCompleteLate c => writeCompleteLate c w
  | FChunk gen chunk atEof ioError => sendChunkReady gen chunk atEof ioError w
  end.

(** What can happen next in the session's loop. *)
Inductive event :=
| ECommand (line : chars)
| EDataUp (server : nat)
| EDataDown (c : nat)
| EDataWritable (c : nat)
| ETask (i : nat)
| EFunctor
| ETimer (t : nat)
| EPool (accepts : bool)
| EKernel (k : kwrite).

Definition handle_event (e : event) (w : World) : outcome World :=
  match e with
  | ECommand line => handleCommand line w
  | EDataUp server =>
      let c := next_id w in
      handleDataConnected c (fresh (set_conn c {| of_server := server; cst := Up; has_callback := false; unsent := false |} w))
  | EDataDown c => close_conn c w
  | EDataWritable c => Ok (data_writable c w)
  | ETask i =>
      match tasks w !! i with
      | Some t => Ok (queueInLoop (run_task t) (set_tasks (delete i (tasks w)) w))
      | None => Ok w
      end
  | EFunctor =>
      match functors w with
      | f :: fs => run_functor f (set_functors fs w)
      | [] => Ok w
      end
  | ETimer t => Ok (if decide (t ∈ timers w) then pasvTimeout (set_timers (filter (fun u => u ≠ t) (timers w)) w) else w)
  | EPool b => Ok (mkWorld (session w) (conns w) (next_id w) (timers w) (functors w) (tasks w) (kernel w) b (log w))
  | EKernel k => Ok (set_kernel k w)
  end.
Definition run_events (es : list event) (w : World) : outcome World := foldM handle_event es w.
Definition new_world : World := mkWorld new_session ∅ 0 [] [] [] Takes true [].
End WithDisk.

(** ** What a session opens and says: invariant *)

(** The length a reply stays below. *)
Definition reply_bound : Z := 128.

Section Guard.
Context (disk : Disk) (local_ip : list Z) (server_port : nat → list Z).
(** The log when the session was first looked at. *)
Context (base : list effect).

(** A path below the served directory: relative, not going up, and a regular file when it was asked for. *)
Definition confined (f : chars) : Prop :=
  ∃ arg st, f = $"./" ++ arg ∧ arg ≠ [] ∧ head arg ≠ Some "/"%char ∧ (∀ a b, arg ≠ a ++ $".." ++ b) ∧
            disk_stat disk (c_str f) = Some st ∧ S_ISREG (st_mode st) = true.

Definition session_guard (s : FtpSession) : Prop :=
  cwd_ s = $"/" ∧ (xfer_ s = kRetr → confined (xferFile_ s)).
Definition effect_guard (e : effect) : Prop :=
  match e with
  | OpenFile p => ∃ f, p = c_str f ∧ confined f
  | OpenDir p => p = $"./"
  | Reply text => zlen text <= reply_bound
  | CtrlForceClose => False
  | _ => True
  end.
Definition guard (w : World) : Prop :=
  session_guard (session w) ∧ ∃ l, log w = base ++ l ∧ Forall effect_guard l.

Lemma guard_session (f : FtpSession → FtpSession) w :
  (session_guard (session w) → session_guard (f (session w))) → guard w → guard (on_session f w).
Proof. intros Hf [Hs Hl]. split; cbn; auto. Qed.

Lemma guard_emit e w : effect_guard e → guard w → guard (emit e w).
Proof.
  intros He [Hs (l & El & Hl)]. split; cbn; [done|]. exists (l ++ [e]). rewrite El, app_assoc. split; [done|].
  apply Forall_app. split; [done|]. by constructor.
Qed.

(** The updates of the session that neither start a transfer nor change its file. *)
Lemma session_guard_same f s :
  cwd_ (f s) = cwd_ s → xfer_ (f s) = xfer_ s → xferFile_ (f s) = xferFile_ s → session_guard s → session_guard (f s).
Proof. unfold session_guard. by intros -> -> ->. Qed.

(** The other parts of the world are not looked at. *)
Lemma guard_queueInLoop f w : guard w → guard (queueInLoop f w).
Proof. done. Qed.
Lemma guard_set_conn c d w : guard w → guard (set_conn c d w).
Proof. done. Qed.
Lemma guard_set_tasks t w : guard w → guard (set_tasks t w).
Proof. done. Qed.
Lemma guard_set_timers t w : guard w → guard (set_timers t w).
Proof. done. Qed.
Lemma guard_set_functors t w : guard w → guard (set_functors t w).
Proof. done. Qed.
Lemma guard_queue_all fs w : guard w → guard (queue_all fs w).
Proof. done. Qed.
Lemma guard_emits es w : Forall effect_guard es → guard w → guard (emits es w).
Proof.
  intros He [Hs (l & El & Hl)]. split; cbn; [done|]. exists (l ++ es). rewrite El, app_assoc. split; [done|]. by apply Forall_app.
Qed.
Lemma guard_fresh w : guard w → guard (fresh w).
Proof. done. Qed.

Ltac guard_step :=
  match goal with
  | |- guard (if ?b then _ else _) => destruct b
  | |- guard (match ?x with _ => _ end) => destruct x
  | |- guard (emit _ _) => apply guard_emit; [exact I|]
  | |- guard (on_session _ _) => apply guard_session; [by apply session_guard_same|]
  | |- guard (reply _ _) => apply guard_emit; [cbn [effect_guard]; try case_bool_decide; by vm_compute|]
  | |- guard (queueInLoop _ _) => apply guard_queueInLoop
  | |- guard (set_conn _ _ _) => apply guard_set_conn
  | |- guard (set_tasks _ _) => apply guard_set_tasks
  | |- guard (set_timers _ _) => apply guard_set_timers
  | |- guard (set_functors _ _) => apply guard_set_functors
  | |- guard (queue_all _ _) => apply guard_queue_all
  | |- guard (emits _ _) => apply guard_emits; [repeat case_match; repeat constructor|]
  | |- guard (fresh _) => apply guard_fresh
  end.
Ltac keeps_guard := repeat guard_step; try assumption.

Lemma guard_shutdown c w : guard w → guard (data_shutdown c w).
Proof. intros. unfold data_shutdown. keeps_guard. Qed.
Lemma guard_forceClose c w : guard w → guard (data_forceClose c w).
Proof. intros. unfold data_forceClose. keeps_guard. Qed.
Lemma guard_send c t w : guard w → guard (data_send c t w).
Proof. intros. unfold data_send. keeps_guard. Qed.
Lemma guard_writable c w : guard w → guard (data_writable c w).
Proof. intros. unfold data_writable. keeps_guard. Qed.
Lemma guard_callback b c w : guard w → guard (set_callback b c w).
Proof. intros. unfold set_callback. keeps_guard. Qed.
Lemma guard_on_conn f w : (∀ c, guard w → guard (f c w)) → guard w → guard (on_dataConn f w).
Proof. intros Hf Hw. unfold on_dataConn. destruct (dataConn_ _); auto. Qed.
Lemma guard_cancel w : guard w → guard (cancel_pasv w).
Proof. intros. unfold cancel_pasv. keeps_guard. Qed.

Lemma guard_abort w : guard w → guard (abortTransfer w).
Proof.
  intros H. unfold abortTransfer. apply guard_on_conn; [intros; by apply guard_callback|].
  assert (G : guard (on_session (fun s => bump_gen (set_offset 0 (set_file [] (set_done false (set_xfer kNone s))))) w)).
  { apply guard_session; [|done]. intros [Hc _]. by split. }
  revert G. generalize (on_session (fun s => bump_gen (set_offset 0 (set_file [] (set_done false (set_xfer kNone s))))) w).
  intros v G. destruct (0 <=? xferFd_ (session v)); keeps_guard.
Qed.

Lemma guard_close w : guard w → guard (closeDataServer w).
Proof. intros. unfold closeDataServer. keeps_guard. Qed.
Lemma guard_end w : guard w → guard (sendDataEndReply w).
Proof. intros. unfold sendDataEndReply. apply guard_abort, guard_cancel. keeps_guard. Qed.
Lemma guard_submit t w : guard w → guard (trySubmit_ t w).
Proof.
  intros. unfold trySubmit_, transferRejected. destruct (pool_accepts w); keeps_guard.
  apply guard_on_conn; [intros; by apply guard_forceClose|]. apply guard_abort. keeps_guard.
Qed.

Lemma guard_chunk gen chunk e i w w' : guard w → sendChunkReady gen chunk e i w = Ok w' → guard w'.
Proof.
  intros Hw. unfold sendChunkReady. destruct (_ || _); [by intros [= <-]|]. destruct i.
  - intros [= <-]. keeps_guard. apply guard_on_conn; [intros; by apply guard_forceClose|]. apply guard_abort. keeps_guard.
  - destruct (_ && _), (dataConn_ _) as [c|]; try done; try (by intros [= <-]).
    + intros [= <-]. apply guard_shutdown. keeps_guard.
    + destruct (connected c w); cbn; [|by intros [= <-]]. intros [= <-].
      destruct e; [apply guard_shutdown; keeps_guard|]; by apply guard_send.
Qed.

Lemma guard_next w w' : guard w → requestNextChunk w = Ok w' → guard w'.
Proof.
  intros Hw. unfold requestNextChunk. destruct (_ || _); [by intros [= <-]|]. destruct (bool_decide _).
  - intros [= <-]. apply guard_submit. keeps_guard.
  - destruct (xferDir_ _) as [es|]; [|done].
    assert (G : guard (on_session (set_dir (Some (drop kListBatchEntries es))) w)) by keeps_guard.
    case_decide; [by apply guard_chunk|]. intros [= <-]. by apply guard_submit.
Qed.

Lemma guard_complete w w' : guard w → writeComplete w = Ok w' → guard w'.
Proof. intros Hw. unfold writeComplete. destruct (negb _); [by apply guard_next|by intros [= <-]]. Qed.

Lemma guard_start w w' : guard w → tryStartTransfer disk w = Ok w' → guard w'.
Proof.
  intros Hw. pose proof Hw as [[Hc Hf] _]. unfold tryStartTransfer. destruct (dataConn_ _) as [c|]; [|by intros [= <-]].
  destruct (_ || _); [by intros [= <-]|]. case_bool_decide as Hx.
  - set (v := emit _ _). assert (G : guard v).
    { apply guard_emit; [cbn; eauto|]. keeps_guard. }
    destruct (_ <? 0); [|by apply guard_next]. intros [= <-]. keeps_guard. apply guard_forceClose. keeps_guard.
  - set (v := emit _ _). assert (G : guard v).
    { apply guard_emit; [cbn; by rewrite Hc|]. keeps_guard. }
    destruct (disk_opendir _ _); [by apply guard_next|]. intros [= <-]. keeps_guard. apply guard_forceClose. keeps_guard.
Qed.

Lemma guard_connected c w w' : guard w → handleDataConnected disk c w = Ok w' → guard w'.
Proof.
  intros Hw. unfold handleDataConnected. destruct (connected c w).
  - destruct (dataConn_ _); [intros [= <-]; by apply guard_forceClose|].
    apply guard_start. apply guard_callback. keeps_guard.
  - intros [= <-]. keeps_guard; [by apply guard_abort|by apply guard_end].
Qed.

Lemma guard_login w w' body :
  guard w → (∀ v, guard w → body w = Ok v → guard v) → requireLogin w body = Ok w' → guard w'.
Proof.
  intros Hw Hb. unfold requireLogin. destruct (bool_decide _); [by apply Hb|]. intros [= <-]. keeps_guard.
Qed.

Lemma snprintf_le n s : 1 <= n → zlen (snprintf n s) <= n - 1.
Proof. intros. unfold snprintf, zlen. rewrite length_take. lia. Qed.

Lemma guard_pasv w w' : guard w → cmdPasv local_ip server_port w = Ok w' → guard w'.
Proof.
  intros Hw. apply guard_login; [done|]. intros v _ [= <-].
  apply guard_emit; [cbn; etrans; [by apply snprintf_le|by vm_compute]|]. keeps_guard.
  apply guard_session; [intros [Hc Hf]; by split|]. destruct (dataServer_ _); [by apply guard_close|done].
Qed.

Lemma guard_list long w w' : guard w → cmdList disk long w = Ok w' → guard w'.
Proof.
  intros Hw. apply guard_login; [done|]. intros v _.
  destruct (dataServer_ _); [|intros [= <-]; keeps_guard].
  apply guard_start. keeps_guard. apply guard_cancel. apply guard_session; [|done].
  intros [Hc _]. by split.
Qed.

Lemma guard_retr arg w w' : guard w → cmdRetr disk arg w = Ok w' → guard w'.
Proof.
  intros Hw. apply guard_login; [done|]. intros v _.
  destruct (dataServer_ _); [|intros [= <-]; keeps_guard].
  case_decide as Ha; [intros [= <-]; keeps_guard|].
  destruct (find_sub $".." arg) as [i|] eqn:F; cbn [orb]; [intros [= <-]; keeps_guard|].
  case_bool_decide as Hh; [intros [= <-]; keeps_guard|].
  destruct (disk_stat disk _) as [st|] eqn:S; [|intros [= <-]; keeps_guard].
  destruct (S_ISREG (st_mode st)) eqn:R; cbn [negb]; [|intros [= <-]; keeps_guard].
  apply guard_start. keeps_guard. apply guard_cancel. apply guard_session; [|done].
  intros [Hc _]. split; [exact Hc|]. intros _. exists arg, st. split_and!; try done. by apply find_sub_None.
Qed.

Lemma guard_command line w w' : guard w → handleCommand disk local_ip server_port line w = Ok w' → guard w'.
Proof.
  intros Hw. unfold handleCommand. destruct (match find_sub _ _ with Some _ => _ | None => _ end) as [cmd arg].
  repeat case_decide; try (intros [= <-]; unfold cmdUser, cmdPass, cmdSyst, cmdQuit; keeps_guard; done).
  - apply guard_login; [done|]. intros v G [= <-]. apply guard_emit; [|done]. destruct G as [[Hc _] _]. cbn. rewrite Hc. by vm_compute.
  - apply guard_login; [done|]. intros v _ [= <-]. keeps_guard.
  - by apply guard_pasv.
  - by apply guard_list.
  - by apply guard_list.
  - by apply guard_retr.
Qed.

Lemma guard_close_conn c w w' : guard w → close_conn disk c w = Ok w' → guard w'.
Proof.
  intros Hw. unfold close_conn. destruct (conns w !! c); [|by intros [= <-]].
  destruct (bool_decide _); [by intros [= <-]|]. apply guard_connected. keeps_guard.
Qed.

Lemma guard_delete_conn c w w' : guard w → delete_conn disk c w = Ok w' → guard w'.
Proof.
  intros Hw. unfold delete_conn. destruct (conns w !! c) as [d|]; [|by intros [= <-]].
  destruct (cst d); [|done|by intros [= <-]]. apply guard_connected. keeps_guard.
Qed.

Lemma guard_foldM {A : Type} (body : A → World → outcome World) l w w' :
  (∀ x v v', guard v → body x v = Ok v' → guard v') → guard w → foldM body l w = Ok w' → guard w'.
Proof.
  intros Hb. revert w; induction l as [|x l IH]; intros w Hw H; cbn in H; [by injection H as <-|].
  bind_inv H. eauto.
Qed.

Lemma guard_functor f w w' : guard w → run_functor disk f w = Ok w' → guard w'.
Proof.
  intros Hw. destruct f; cbn; [intros [= <-]; by apply guard_close| |by apply guard_close_conn|by apply guard_complete|
    |by apply guard_chunk].
  - apply guard_foldM; [|done]. intros; by eapply guard_delete_conn.
  - unfold writeCompleteLate. destruct (conns w !! conn) as [d|]; [|by intros [= <-]]. destruct (has_callback d); [by apply guard_complete|done].
Qed.

Lemma guard_event e w w' : guard w → handle_event disk local_ip server_port e w = Ok w' → guard w'.
Proof.
  intros Hw. destruct e; cbn [handle_event].
  - by apply guard_command.
  - apply guard_connected. keeps_guard.
  - by apply guard_close_conn.
  - intros [= <-]. by apply guard_writable.
  - destruct (tasks w !! i); intros [= <-]; keeps_guard.
  - destruct (functors w); [by intros [= <-]|]. apply guard_functor. keeps_guard.
  - intros [= <-]. destruct (decide _); [|done]. unfold pasvTimeout.
    destruct (_ && _); [apply guard_close|]; keeps_guard.
  - by intros [= <-].
  - by intros [= <-].
Qed.

End Guard.

Lemma guard_new disk : guard disk [] new_world.
Proof. split; [by split|]. by exists []. Qed.

(** The replies to commands that change nothing but the login state. *)
Definition login_reply (line : chars) (w w' : World) : Prop :=
  w' = cmdQuit w ∨
  ∃ st text, w' = reply text (on_session (set_state st) w) ∧
    text ∈ [$"331 password required"; $"230 login successful"; $"503 login with USER first"; $"215 UNIX Type: L8";
            $"530 please login with USER and PASS"; $"502 command not implemented"] ∧
    (st = kLoggedIn → state_ (session w) = kNeedPass ∧ ∃ a b, line = a ++ b ∧ to_upper a = $"PASS").

Lemma on_session_same w : on_session (set_state (state_ (session w))) w = w.
Proof. by destruct w as [[]]. Qed.

Section Login.
Context (disk : Disk) (local_ip : list Z) (server_port : nat → list Z).

Lemma keep_login text line w :
  state_ (session w) ≠ kLoggedIn →
  text ∈ [$"331 password required"; $"230 login successful"; $"503 login with USER first"; $"215 UNIX Type: L8";
          $"530 please login with USER and PASS"; $"502 command not implemented"] →
  login_reply line w (reply text w).
Proof.
  intros Hs Ht. right. exists (state_ (session w)), text. rewrite on_session_same. split_and!; [done|done|]. congruence.
Qed.

Lemma requireLogin_refused line w body :
  state_ (session w) ≠ kLoggedIn → ∃ w', requireLogin w body = Ok w' ∧ login_reply line w w'.
Proof.
  intros Hs. unfold requireLogin. rewrite bool_decide_eq_false_2 by done. eexists. split; [done|].
  apply keep_login; [done|set_solver].
Qed.

Lemma command_parts (line : chars) :
  ∃ cmd arg rest, line = cmd ++ rest ∧
    (match find_sub $" " line with Some sp => (take sp line, drop (sp + 1) line) | None => (line, []) end) = (cmd, arg).
Proof.
  destruct (find_sub $" " line) as [sp|]; [|exists line, [], []; by rewrite app_nil_r].
  exists (take sp line), (drop (sp + 1) line), (drop sp line). by rewrite take_drop.
Qed.

Lemma not_logged_in line w :
  state_ (session w) ≠ kLoggedIn →
  ∃ w', handleCommand disk local_ip server_port line w = Ok w' ∧ login_reply line w w'.
Proof.
  intros Hs. unfold handleCommand. destruct (command_parts line) as (cmd & arg & rest & E & ->).
  case_decide as H1; [eexists; split; [done|]|].
  { right. exists kNeedPass, $"331 password required". split_and!; [done|set_solver|done]. }
  case_decide as H2; [eexists; split; [done|]|].
  { unfold cmdPass. case_bool_decide as H3; [|apply keep_login; [done|set_solver]].
    right. exists kLoggedIn, $"230 login successful". split_and!; [done|set_solver|]. eauto. }
  case_decide; [eexists; split; [done|apply keep_login; [done|set_solver]]|].
  do 6 (case_decide; [by apply requireLogin_refused|]).
  case_decide; [eexists; split; [done|by left]|].
  eexists. split; [done|]. apply keep_login; [done|set_solver].
Qed.
End Login.


(** A disk with one small file, for examples. *)
Definition demo_stat : stat := {| st_mode := 33188; st_nlink := 1; st_uid := 0; st_gid := 0; st_size := 5; st_mtime := 0 |}.
Definition demo_disk : Disk := {|
  disk_stat := fun _ => Some demo_stat;
  disk_open := fun _ => 7;
  disk_pread := fun _ n off => inl (take (Z.to_nat n) (drop (Z.to_nat off) $"hello"));
  disk_opendir := fun _ => Some [$"."; $".."; $"a"];
  disk_time := fun _ => $"Jan 01 00:00"
|}.
Definition demo_ip : list Z := [127; 0; 0; 1].
Definition demo_port : nat → list Z := fun _ => [4; 210].
Definition demo_login : list event := [ECommand $"user x"; ECommand $"PASS y"; ECommand $"PASV"; EDataUp 0].
Definition is_ok (o : outcome World) : bool := if o is Ok _ then true else false.


(** ** Command lines *)

Section Lines.
Context (disk : Disk) (local_ip : list Z) (server_port : nat → list Z).
Abbreviation command := (handleCommand disk local_ip server_port).

(** What [onMessage] does after the complete lines: an unfinished line that has grown too long ends it. *)
Definition too_long (rest : chars) (w : World) : World := if 4096 <? zlen rest then emit CtrlForceClose w else w.

Lemma onMessage_lines (fuel : nat) (b : Buffer) (w : World) :
  wf b → (length (content b) < fuel)%nat →
  ∃ lines rest b', split_loop fuel (content b) kCRLF = lines ++ [rest] ∧ wf b' ∧ content b' = rest ∧
    onMessage_loop disk local_ip server_port fuel b w = (w' ← foldM command lines w; Ok (b', too_long rest w')).
Proof.
  revert b w; induction fuel as [|fuel IH]; intros b w Hwf Hf; [lia|].
  cbn [onMessage_loop split_loop]. rewrite readable_content by done.
  destruct (0 <? zlen (content b)) eqn:Z; bool_prop.
  - destruct (findCRLF_spec b Hwf) as [(line & rest & Hc & Hs & ->)|(Hs & ->)]; cbn [mbind outcome_bind];
      fold KCRLF in Hs; change kCRLF with KCRLF; rewrite Hs.
    + replace (peek b + zlen line - peek b) with (zlen line) by lia.
      rewrite read_content by (rewrite ?Hc, ?zlen_app; pose proof (zlen_nonneg line); pose proof (zlen_nonneg (KCRLF ++ rest));
        rewrite ?zlen_app in *; done || lia). cbn [mbind outcome_bind].
      destruct (retrieve_line b line rest Hwf Hc) as (b1 & -> & W1 & C1). cbn [mbind outcome_bind].
      destruct (command (take (Z.to_nat (zlen line)) (content b)) w) as [w1|f] eqn:E.
      all: rewrite Hc, take_zlen in E by done; rewrite Hc, take_app_length, <-drop_drop, !drop_app_length.
      all: destruct (IH b1 (if command line w is Ok w1 then w1 else w)) as (ls & r & b' & Es & W' & C' & El);
        [done|rewrite C1; rewrite Hc, !length_app in Hf; cbn in Hf; lia|].
      all: rewrite C1 in Es; change kCRLF with KCRLF in Es; exists (line :: ls), r, b'; rewrite Es; split_and!; [done|done|done|].
      all: cbn [foldM]; rewrite E in El |- *; cbn [mbind outcome_bind]; first [exact El|done].
    + exists [], (content b), b. by split_and!.
  - assert (E : content b = []) by (apply zlen_0; pose proof (zlen_nonneg (content b)); lia).
    exists [], [], b. rewrite E. by split_and!.
Qed.
End Lines.

(** C31. Command framing: [onMessage] runs the handler once for every complete line of the input, in order, and
    leaves the unfinished rest in the buffer (closing when it exceeds 4096 bytes). How the bytes were cut into
    packets makes no difference: with more bytes [d], the lines are those handled now followed by the lines
    of the rest with [d]. *)
Theorem command_framing (disk : Disk) (local_ip : list Z) (server_port : nat → list Z) (b : Buffer) (w : World) :
  wf b →
  ∃ lines rest b', split (content b) kCRLF = Ok (lines ++ [rest]) ∧ wf b' ∧ content b' = rest ∧
    onMessage disk local_ip server_port b w =
      (w' ← foldM (handleCommand disk local_ip server_port) lines w; Ok (b', too_long rest w')) ∧
    ∀ d, ∃ more, split (content b ++ d) kCRLF = Ok (lines ++ more) ∧ split (rest ++ d) kCRLF = Ok more.
Proof.
  intros Hwf. unfold onMessage. rewrite (readable_content b Hwf). unfold zlen at 1. rewrite Nat2Z.id.
  destruct (onMessage_lines disk local_ip server_port (S (length (content b))) b w Hwf) as (lines & rest & b' & Es & W' & C' & E); [lia|].
  exists lines, rest, b'. split_and!; [by rewrite <-Es|done|done|done|]. intros d.
  destruct (split_loop_app kCRLF (S (length (content b))) (content b) d) as (ls & r & Es' & Hm); [done|lia|].
  rewrite Es in Es'. apply app_inj_tail in Es' as [<- <-].
  exists (split_loop (S (length (content b ++ d))) (rest ++ d) kCRLF). unfold split.
  rewrite decide_False by done. split; [by rewrite Hm by lia|]. f_equal. apply split_loop_fuel; [done|lia|].
  assert (length rest <= length (content b))%nat; [|rewrite !length_app; lia].
  destruct (split_loop_spec kCRLF [] (S (length (content b))) (content b)) as (f & fs & Ef & Ec & _); [done|lia|].
  rewrite Es in Ef. rewrite Ec. destruct lines as [|l lines]; injection Ef as <- <-; [rewrite length_app; lia|].
  rewrite map_app, concat_app, !length_app. cbn [map concat]. rewrite !length_app. lia.
Qed.

Lemma command_framing_witness :
  let b := mkBuffer ($"NOOP" ++ kCRLF ++ $"QUI" ++ $"12345678") 0 9 in
  wf b ∧ ∃ lines rest b', split (content b) kCRLF = Ok (lines ++ [rest]) ∧ wf b' ∧ content b' = rest ∧
    onMessage demo_disk demo_ip demo_port b new_world =
      (w' ← foldM (handleCommand demo_disk demo_ip demo_port) lines new_world; Ok (b', too_long rest w')).
Proof.
  intros b. assert (Hwf : wf b) by (unfold wf, b; cbn; unfold PTRDIFF_MAX; split_and!; by vm_compute).
  split; [exact Hwf|].
  destruct (command_framing demo_disk demo_ip demo_port b new_world Hwf) as (lines & rest & b' & H1 & H2 & H3 & H4 & _).
  exists lines, rest, b'. exact (conj H1 (conj H2 (conj H3 H4))).
Defined.
