(* ===== verification/FtpTransfer.v ===== *)
(** * FtpTransfer: what a transfer delivers

    Theorems on the transfers of [Ftp]: the pump of [requestNextChunk], the disk task, [sendChunkReady] and the
    write-complete callback sends the whole file, or the whole listing, and then shuts the connection down;
    and what goes wrong when data connections overlap. *)

From S2P Require Import Prelude Buffer Strings Ftp.

(** The bytes sent on a data connection. *)
Definition data_sent (c : nat) (l : list effect) : chars :=
  concat (omap (fun e => if e is DataSend d chunk then if decide (d = c) then Some chunk else None else None) l).

Lemma data_sent_app c l k : data_sent c (l ++ k) = data_sent c l ++ data_sent c k.
Proof. unfold data_sent. by rewrite omap_app, concat_app. Qed.

Lemma data_sent_one c chunk : data_sent c [DataSend c chunk] = chunk.
Proof. unfold data_sent. cbn. rewrite decide_True by done. cbn. by rewrite app_nil_r. Qed.

(** One turn of the pump: the disk task runs and its result is handled in the loop; the kernel takes all of the
    data at once ([b]), or keeps a rest that goes out when the socket is writable; the functor that the
    connection posted runs. *)
Definition mode (b : bool) : kwrite := if b then Takes else Keeps.
Definition flush (c : nat) (b : bool) : list event := (if b then [] else [EDataWritable c]) ++ [EFunctor].
Definition round (c : nat) (b : bool) : list event := [EKernel (mode b); ETask 0; EFunctor] ++ flush c b.
Definition rounds (bs : list bool) (c : nat) : list event := concat (map (round c) bs).

Lemma rounds_cons (b : bool) (bs : list bool) (c : nat) : rounds (b :: bs) c = round c b ++ rounds bs c.
Proof. reflexivity. Qed.

(** The data was sent and the connection shut down; nothing is under way. *)
Record finished (c : nat) (w : World) : Prop := {
  fin_tasks : tasks w = [];
  fin_functors : functors w = [];
  fin_done : xferDone_ (session w) = true;
  fin_conn : dataConn_ (session w) = Some c;
  fin_shut : ∃ d, conns w !! c = Some d ∧ cst d = Disconnecting ∧ unsent d = false
}.

Lemma emits_nil w : emits [] w = w.
Proof. destruct w. unfold emits. cbn. by rewrite app_nil_r. Qed.
Lemma queue_all_nil w : queue_all [] w = w.
Proof. destruct w. unfold queue_all. cbn. by rewrite app_nil_r. Qed.
Lemma set_conn_id c d w : conns w !! c = Some d → set_conn c d w = w.
Proof. intros E. destruct w. unfold set_conn. cbn in *. by rewrite insert_id. Qed.

Section Transfer.
Context (disk : Disk) (local_ip : list Z) (server_port : nat → list Z).
Abbreviation run := (run_events disk local_ip server_port).

Lemma run_app es es' w : run (es ++ es') w = (w' ← run es w; run es' w').
Proof. apply foldM_app. Qed.

Lemma writable_idle c d w : conns w !! c = Some d → unsent d = false → data_writable c w = w.
Proof.
  intros E U. unfold data_writable. rewrite E. unfold dconn_writable. rewrite U. cbn.
  by rewrite set_conn_id, emits_nil, queue_all_nil.
Qed.

Lemma run_flush c b w d : conns w !! c = Some d → unsent d = false → functors w = [] → run (flush c b) w = Ok w.
Proof.
  intros E U F. unfold run_events, flush. destruct b; cbn [foldM app handle_event mbind outcome_bind];
    rewrite ?(writable_idle c d w E U), F; done.
Qed.

Lemma run_idle bs c w : tasks w = [] → functors w = [] → (∃ d, conns w !! c = Some d ∧ unsent d = false) →
  ∃ k, run (rounds bs c) w = Ok (set_kernel k w).
Proof.
  intros Ht Hf (d & Hd & Hu). revert w Ht Hf Hd. induction bs as [|b bs IH]; intros w Ht Hf Hd.
  { exists (kernel w). by destruct w. }
  rewrite rounds_cons, run_app. unfold round. rewrite run_app.
  assert (E : run [EKernel (mode b); ETask 0; EFunctor] w = Ok (set_kernel (mode b) w)).
  { unfold run_events. cbn. rewrite Ht. cbn. by rewrite Hf. }
  rewrite E. cbn [mbind outcome_bind]. rewrite (run_flush c b _ d) by done. cbn [mbind outcome_bind].
  destruct (IH (set_kernel (mode b) w)) as (k & ->); [done..|]. by exists k.
Qed.

(** ** RETR *)

(** A transfer in progress: [s] is the session, one task is with the pool. *)
Section Round.
Context (s : FtpSession) (cs : gmap nat dconn) (id : nat) (tm : list nat) (c : nat) (d : dconn) (lg : list effect) (k : kwrite).
Context (Hc : dataConn_ s = Some c) (Hd : cs !! c = Some d) (Hup : cst d = Up) (Hcb : has_callback d = true) (Hun : unsent d = false).

Abbreviation world s cs t k lg := (mkWorld s cs id tm [] t k true lg).

Lemma deliver b (t : task) :
  run (round c b) (world s cs [t] k lg) =
    (w1 ← run_functor disk (run_task disk t) (world s cs [] (mode b) lg); run (flush c b) w1).
Proof. unfold round. rewrite run_app. unfold run_events. cbn. by destruct (run_functor disk (run_task disk t) _). Qed.

Lemma chunk_eof :
  xfer_ s ≠ kNone →
  sendChunkReady (xferGen_ s) [] true false (world s cs [] k lg) =
    Ok (world (set_done true s) (<[c := with_cst Disconnecting d]> cs) [] k (lg ++ [DataShutdown c])).
Proof.
  intros Hx. unfold sendChunkReady. cbn [session]. rewrite Z.eqb_refl, bool_decide_eq_false_2 by done. cbn.
  rewrite Hc. unfold data_shutdown. cbn. rewrite Hd. unfold dconn_shutdown. by rewrite bool_decide_eq_true_2, Hun.
Qed.

Lemma eof_flush b :
  run (flush c b) (world (set_done true s) (<[c := with_cst Disconnecting d]> cs) [] k (lg ++ [DataShutdown c])) =
    Ok (world (set_done true s) (<[c := with_cst Disconnecting d]> cs) [] k (lg ++ [DataShutdown c])).
Proof. apply (run_flush c b _ (with_cst Disconnecting d)); [cbn; by rewrite lookup_insert_eq|done|done]. Qed.

Lemma drain : dconn_writable (with_unsent true d) = (d, [PWriteCompleteLate], false).
Proof.
  unfold dconn_writable, with_unsent. destruct d as [sv st cb un]. cbn in *. by rewrite Hup, Hcb, Hun.
Qed.

(** A chunk goes out, and its completion asks for the next. *)
Lemma chunk_data b chunk :
  xfer_ s ≠ kNone → chunk ≠ [] →
  (w1 ← sendChunkReady (xferGen_ s) chunk false false (world s cs [] (mode b) lg); run (flush c b) w1) =
    requestNextChunk (world s cs [] (mode b) (lg ++ [DataSend c chunk])).
Proof.
  intros Hx Hk. unfold sendChunkReady. cbn [session]. rewrite Z.eqb_refl, bool_decide_eq_false_2 by done. cbn [negb orb].
  rewrite andb_false_r, Hc. unfold connected. cbn [conns]. rewrite Hd, bool_decide_eq_true_2 by done. cbn [negb].
  unfold data_send. cbn [conns kernel]. rewrite Hd. unfold dconn_send. rewrite Hup, Hun. cbn [bool_decide decide_rel negb].
  rewrite bool_decide_eq_true_2, (decide_False (P := chunk = [])) by done. cbn [negb].
  unfold writeComplete. destruct b; cbn [mode]; rewrite ?Hcb.
  - unfold run_events, flush. cbn -[requestNextChunk]. rewrite decide_False by done. cbn -[requestNextChunk].
    unfold set_functors. cbn -[requestNextChunk]. unfold writeComplete. cbn -[requestNextChunk].
    rewrite bool_decide_eq_false_2 by done. cbn -[requestNextChunk]. rewrite insert_id by done. by destruct (requestNextChunk _).
  - unfold run_events, flush. cbn -[requestNextChunk]. rewrite decide_False by done. cbn -[requestNextChunk].
    unfold data_writable. cbn -[requestNextChunk]. rewrite lookup_insert_eq. cbn -[requestNextChunk]. rewrite drain.
    cbn -[requestNextChunk]. unfold set_functors. cbn -[requestNextChunk]. unfold writeCompleteLate. cbn -[requestNextChunk].
    rewrite lookup_insert_eq, Hcb. unfold writeComplete. cbn -[requestNextChunk]. rewrite bool_decide_eq_false_2 by done.
    cbn -[requestNextChunk]. rewrite app_nil_r, insert_insert_eq, insert_id by done. by destruct (requestNextChunk _).
Qed.

Lemma next_retr :
  xfer_ s = kRetr →
  requestNextChunk (world s cs [] k lg) =
    Ok (world (set_offset (nextReadOffset_ s + kReadChunkSize) s) cs [RetrTask (xferGen_ s) (xferFd_ s) (nextReadOffset_ s)] k lg).
Proof.
  intros Hx. unfold requestNextChunk. cbn [session]. rewrite Hx, Hc. unfold connected. cbn [conns].
  rewrite Hd, (bool_decide_eq_true_2 (cst d = Up)) by done. done.
Qed.

Lemma next_list entries :
  xfer_ s = kList → xferDir_ s = Some entries →
  requestNextChunk (world s cs [] k lg) =
    let s' := set_dir (Some (drop kListBatchEntries entries)) s in
    if decide (take kListBatchEntries entries = []) then sendChunkReady (xferGen_ s) [] true false (world s' cs [] k lg)
    else Ok (world s' cs [ListTask (xferGen_ s) (kFtpRoot ++ cwd_ s) (take kListBatchEntries entries) (longNameList_ s)] k lg).
Proof.
  intros Hx He. unfold requestNextChunk. cbn [session]. rewrite Hx, Hc. unfold connected. cbn [conns].
  rewrite Hd, (bool_decide_eq_true_2 (cst d = Up)) by done. by rewrite He.
Qed.
End Round.

Section Streams.
Context (id : nat) (tm : list nat) (c : nat) (d : dconn).
Context (Hup : cst d = Up) (Hcb : has_callback d = true) (Hun : unsent d = false).
Abbreviation world s cs t k lg := (mkWorld s cs id tm [] t k true lg).

Lemma finished_shut s cs k lg :
  dataConn_ s = Some c → finished c (world (set_done true s) (<[c := with_cst Disconnecting d]> cs) [] k lg).
Proof. intros Hc. split; cbn; try done. exists (with_cst Disconnecting d). by rewrite lookup_insert_eq. Qed.

(** After the end of the data the connection is shut; the rounds left find nothing to do. *)
Lemma idle_after_eof bs s cs k lg :
  dataConn_ s = Some c → cs !! c = Some d → xfer_ s ≠ kNone →
  ∃ w', (w1 ← sendChunkReady (xferGen_ s) [] true false (world s cs [] k lg); run (rounds bs c) w1) = Ok w' ∧
        finished c w' ∧ session w' = set_done true s ∧ log w' = lg ++ [DataShutdown c].
Proof.
  intros Hc Hd Hx. rewrite (chunk_eof s cs id tm c d lg k) by done. cbn [mbind outcome_bind].
  set (w1 := world _ _ _ _ _). pose proof (finished_shut s cs k (lg ++ [DataShutdown c]) Hc) as Fin. fold w1 in Fin.
  destruct (run_idle bs c w1) as (k' & ->); [done|done| |].
  { destruct (fin_shut _ _ Fin) as (d' & Hd' & _ & Hu). by exists d'. }
  exists (set_kernel k' w1). split_and!; try done. by destruct Fin; split.
Qed.

Lemma rounds_after_eof b bs s cs k lg :
  dataConn_ s = Some c → cs !! c = Some d → xfer_ s ≠ kNone →
  ∃ w', (w1 ← (w1 ← sendChunkReady (xferGen_ s) [] true false (world s cs [] k lg); run (flush c b) w1); run (rounds bs c) w1) = Ok w' ∧
        finished c w' ∧ session w' = set_done true s ∧ log w' = lg ++ [DataShutdown c].
Proof.
  intros Hc Hd Hx. destruct (idle_after_eof bs s cs k lg) as (w' & Hr & Hw'); [done..|]. exists w'. split; [|exact Hw'].
  revert Hr. rewrite (chunk_eof s cs id tm c d lg k) by done. cbn [mbind outcome_bind].
  by rewrite (eof_flush s cs id tm c d lg k) by done.
Qed.

(** The rounds from the task that reads at [off] on. *)
Lemma retr_rounds (F : chars) (fd : Z) :
  (∀ off, 0 <= off → disk_pread disk fd kReadChunkSize off =
     inl (take (Z.to_nat kReadChunkSize) (drop (Z.to_nat off) F))) →
  ∀ bs s cs k lg off,
  bs ≠ [] → dataConn_ s = Some c → cs !! c = Some d → xfer_ s = kRetr → xferFd_ s = fd → 0 <= off →
  nextReadOffset_ s = off + kReadChunkSize → zlen (drop (Z.to_nat off) F) <= (zlen bs - 1) * kReadChunkSize →
  ∃ w', run (rounds bs c) (world s cs [RetrTask (xferGen_ s) fd off] k lg) = Ok w' ∧
        finished c w' ∧ xfer_ (session w') = kRetr ∧ xferFd_ (session w') = fd ∧ xferDir_ (session w') = xferDir_ s ∧
        data_sent c (log w') = data_sent c lg ++ drop (Z.to_nat off) F.
Proof.
  intros Hpread. assert (HK : 0 < kReadChunkSize) by done.
  induction bs as [|b bs IH]; intros s cs k lg off Hbs Hc Hd Hx Hfd Hoff Hnext Hlen; [done|].
  rewrite rounds_cons, run_app, (deliver s cs id tm c lg). cbn [run_task]. rewrite Hpread by done. cbn [run_functor].
  set (chunk := take (Z.to_nat kReadChunkSize) (drop (Z.to_nat off) F)).
  case_bool_decide as Ek.
  - assert (E : drop (Z.to_nat off) F = []).
    { unfold chunk in Ek. destruct (drop (Z.to_nat off) F); [done|]. by destruct (Z.to_nat kReadChunkSize) eqn:K; [|]. }
    rewrite Ek. destruct (rounds_after_eof b bs s cs (mode b) lg) as (w' & Hr & Hfin & Hs & Hl); [done..|congruence|].
    exists w'. rewrite Hs, Hl, data_sent_app, E. split_and!; done.
  - rewrite (chunk_data s cs id tm c d lg) by (done || congruence).
    rewrite (next_retr s cs id tm c d) by done. cbn [mbind outcome_bind]. rewrite Hfd, Hnext.
    assert (Hdrop : drop (Z.to_nat (off + kReadChunkSize)) F = drop (Z.to_nat kReadChunkSize) (drop (Z.to_nat off) F))
      by (rewrite drop_drop, Z2Nat.inj_add by lia; done).
    assert (Hbs' : bs ≠ []).
    { intros ->. apply Ek. unfold chunk. replace (drop (Z.to_nat off) F) with (@nil char); [apply take_nil|].
      symmetry. apply zlen_0. pose proof (zlen_nonneg (drop (Z.to_nat off) F)). change (zlen [b]) with 1 in Hlen. lia. }
    set (s' := set_offset _ s). set (lg' := lg ++ _).
    destruct (IH s' cs (mode b) lg' (off + kReadChunkSize)) as (w' & Hr & Hfin & H1 & H2 & H3 & Hs); try done; [lia| |].
    { rewrite Hdrop. destruct bs as [|b2 bs]; [done|]. unfold zlen in *. rewrite length_drop. cbn [length] in *. nia. }
    exists w'. split_and!; try done. rewrite Hs. unfold lg'. rewrite data_sent_app, data_sent_one, <-app_assoc. f_equal.
    rewrite Hdrop. apply take_drop.
Qed.

(** The lines of a listing: [LIST] leaves out an entry that cannot be examined, [NLST] has every name. *)
Definition listing (dirPath : chars) (longList : bool) (names : list chars) : chars :=
  concat (map (fun name => if longList then list_line disk dirPath name else name ++ kCRLF) names).

Lemma listing_app dirPath l a b : listing dirPath l (a ++ b) = listing dirPath l a ++ listing dirPath l b.
Proof. unfold listing. by rewrite map_app, concat_app. Qed.

(** Every entry has a line: always for [NLST], for [LIST] when its [stat] succeeds. *)
Definition listable (dirPath : chars) (longList : bool) (names : list chars) : Prop :=
  longList = true → Forall (fun name => disk_stat disk (c_str (dirPath ++ $"/" ++ name)) ≠ None) names.

Lemma listing_nonempty dirPath l names : listable dirPath l names → names ≠ [] → listing dirPath l names ≠ [].
Proof.
  intros Hl Hn. destruct names as [|a names]; [done|]. unfold listing. cbn. destruct l.
  - pose proof (Forall_inv (Hl eq_refl)) as Ha. unfold list_line. cbn in Ha |- *.
    destruct (disk_stat disk _); [|done]. by destruct (unixListLine _ _ _).
  - by destruct a.
Qed.

Lemma listable_split dirPath l n names :
  listable dirPath l names → listable dirPath l (take n names) ∧ listable dirPath l (drop n names).
Proof. intros H. split; intros E; specialize (H E); [by apply Forall_take|by apply Forall_drop]. Qed.

(** The rounds from the task that lists [names] on, with [entries] left in the directory. *)
Lemma list_rounds : ∀ bs s cs k lg entries names,
  bs ≠ [] → dataConn_ s = Some c → cs !! c = Some d → xfer_ s = kList → xferDir_ s = Some entries →
  names ≠ [] → listable (kFtpRoot ++ cwd_ s) (longNameList_ s) names → listable (kFtpRoot ++ cwd_ s) (longNameList_ s) entries →
  (length entries <= (length bs - 1) * kListBatchEntries)%nat →
  ∃ w', run (rounds bs c) (world s cs [ListTask (xferGen_ s) (kFtpRoot ++ cwd_ s) names (longNameList_ s)] k lg) = Ok w' ∧
        finished c w' ∧ xfer_ (session w') = kList ∧ xferDir_ (session w') = Some [] ∧ xferFd_ (session w') = xferFd_ s ∧
        data_sent c (log w') = data_sent c lg ++ listing (kFtpRoot ++ cwd_ s) (longNameList_ s) (names ++ entries).
Proof.
  induction bs as [|b bs IH]; intros s cs k lg entries names Hbs Hc Hd Hx He Hn Ln Le Hlen; [done|].
  rewrite rounds_cons, run_app, (deliver s cs id tm c lg). cbn [run_task run_functor].
  fold (listing (kFtpRoot ++ cwd_ s) (longNameList_ s) names).
  rewrite (chunk_data s cs id tm c d lg) by (done || congruence || by apply listing_nonempty).
  rewrite (next_list s cs id tm c d _ _ Hc Hd Hup entries) by done. cbv zeta.
  set (s' := set_dir _ s). set (lg' := lg ++ _).
  assert (Hlg : data_sent c lg' = data_sent c lg ++ listing (kFtpRoot ++ cwd_ s) (longNameList_ s) names)
    by (unfold lg'; by rewrite data_sent_app, data_sent_one).
  case_decide as Et.
  - assert (entries = []) as -> by (by destruct entries).
    destruct (idle_after_eof bs s' cs (mode b) lg') as (w' & Hr & Hfin & Hs & Hl); [done..|by (cbn; congruence)|].
    exists w'. rewrite Hs, Hl, data_sent_app, Hlg, !app_nil_r. split_and!; done.
  - cbn [mbind outcome_bind]. destruct (listable_split _ _ kListBatchEntries _ Le) as [Lt Ld].
    assert (Hbs' : bs ≠ []) by (intros ->; apply Et; destruct entries; [done|cbn in Hlen; lia]).
    destruct (IH s' cs (mode b) lg' (drop kListBatchEntries entries) (take kListBatchEntries entries)) as (w' & Hr & Hfin & H1 & H2 & H3 & Hs);
      try done; [rewrite length_drop; destruct bs; [done|cbn [length] in *; lia]|].
    exists w'. split_and!; try done. rewrite Hs, Hlg, take_drop, listing_app, <-app_assoc. done.
Qed.
End Streams.
End Transfer.

(** A logged-in session with its data connection up and no transfer under way; the pool takes tasks. *)
Record ready (c : nat) (w : World) : Prop := {
  rdy_login : state_ (session w) = kLoggedIn;
  rdy_server : dataServer_ (session w) ≠ None;
  rdy_conn : dataConn_ (session w) = Some c;
  rdy_up : ∃ d, conns w !! c = Some d ∧ cst d = Up ∧ has_callback d = true ∧ unsent d = false;
  rdy_none : xferDir_ (session w) = None ∧ xferFd_ (session w) < 0;
  rdy_quiet : tasks w = [] ∧ functors w = [];
  rdy_pool : pool_accepts w = true
}.

Section Commands.
Context (disk : Disk) (local_ip : list Z) (server_port : nat → list Z).
Abbreviation run := (run_events disk local_ip server_port).

Lemma cancel_world s cs id tm fs ts cps pa lg :
  ∃ tm', cancel_pasv (mkWorld s cs id tm fs ts cps pa lg) = mkWorld s cs id tm' fs ts cps pa lg.
Proof. unfold cancel_pasv. cbn. destruct (pasvTimerId_ s); by eexists. Qed.

Lemma start_retr s cs id tm k lg c d :
  dataConn_ s = Some c → cs !! c = Some d → cst d = Up → xfer_ s = kRetr →
  0 <= disk_open disk (c_str (xferFile_ s)) →
  tryStartTransfer disk (mkWorld s cs id tm [] [] k true lg) =
    let s' := set_fd (disk_open disk (c_str (xferFile_ s))) s in
    Ok (mkWorld (set_offset (nextReadOffset_ s + kReadChunkSize) s') cs id tm []
          [RetrTask (xferGen_ s) (xferFd_ s') (nextReadOffset_ s)] k true (lg ++ [OpenFile (c_str (xferFile_ s))])).
Proof.
  intros Hc Hd Hup Hx Hfd. unfold tryStartTransfer. cbn [session]. rewrite Hc, Hx. unfold connected. cbn [conns].
  rewrite Hd, (bool_decide_eq_true_2 (cst d = Up)) by done. cbn [negb orb bool_decide decide_rel].
  rewrite bool_decide_eq_false_2, (bool_decide_eq_true_2 (kRetr = kRetr)) by done.
  rewrite (proj2 (Z.ltb_ge _ 0)) by done.
  exact (next_retr (set_fd (disk_open disk (c_str (xferFile_ s))) s) cs id tm c d (lg ++ [OpenFile (c_str (xferFile_ s))]) k Hc Hd Hup Hx).
Qed.

Lemma start_list s cs id tm k lg c d entries :
  dataConn_ s = Some c → cs !! c = Some d → cst d = Up → xfer_ s = kList →
  disk_opendir disk (c_str (kFtpRoot ++ cwd_ s)) = Some entries →
  tryStartTransfer disk (mkWorld s cs id tm [] [] k true lg) =
    requestNextChunk (mkWorld (set_dir (Some entries) s) cs id tm [] [] k true (lg ++ [OpenDir (c_str (kFtpRoot ++ cwd_ s))])).
Proof.
  intros Hc Hd Hup Hx He. unfold tryStartTransfer. cbn [session]. rewrite Hc, Hx. unfold connected. cbn [conns].
  rewrite Hd, (bool_decide_eq_true_2 (cst d = Up)) by done.
  rewrite (bool_decide_eq_false_2 (kList = kNone)), (bool_decide_eq_false_2 (kList = kRetr)) by done. cbn [negb orb].
  by rewrite He.
Qed.

(** What [abortTransfer] leaves and releases. *)
Lemma abort_effects w :
  xfer_ (session (abortTransfer w)) = kNone ∧ functors (abortTransfer w) = functors w ∧
  log (abortTransfer w) = log w ++ (if 0 <=? xferFd_ (session w) then [CloseFd (xferFd_ (session w))] else []) ++
                          (if xferDir_ (session w) is Some _ then [CloseDir] else []).
Proof.
  destruct w as [[st cwd ds dc x ln xf fd off dn gen dir pt] cs id tm fs ts cps pa lg].
  unfold abortTransfer, on_dataConn, set_callback. cbn -[Z.leb].
  destruct (0 <=? fd), dir, dc as [c|]; cbn; try destruct (cs !! c); cbn; by rewrite <-?app_assoc, ?app_nil_r.
Qed.

(** The peer closes after the shutdown: the closing reply, and what the session releases. *)
Lemma end_of_transfer c w :
  finished c w → xfer_ (session w) ≠ kNone →
  ∃ w', run [EDataDown c] w = Ok w' ∧ xfer_ (session w') = kNone ∧ functors w' = [FCloseDataServer] ∧
    log w' = log w ++ [Reply (if bool_decide (xfer_ (session w) = kList) then $"226 list transfer complete" else $"226 transfer complete")] ++
             (if 0 <=? xferFd_ (session w) then [CloseFd (xferFd_ (session w))] else []) ++
             (if xferDir_ (session w) is Some _ then [CloseDir] else []).
Proof.
  intros [Ht Hf Hdn Hc (d & Hd & Hst & _)] Hx. destruct w as [s cs id tm fs ts cps pa lg]. cbn in *. subst fs.
  unfold run_events. cbn [foldM handle_event]. unfold close_conn. cbn [conns]. rewrite Hd, bool_decide_eq_false_2 by congruence.
  unfold handleDataConnected, connected, set_conn. cbn [conns]. rewrite lookup_insert_eq. cbn [cst].
  rewrite bool_decide_eq_false_2 by done. cbn [session]. rewrite Hdn. cbn [negb]. rewrite andb_false_r.
  unfold sendDataEndReply. cbn [session conns next_id timers functors tasks kernel pool_accepts log].
  set (text := if bool_decide (xfer_ s = kList) then _ else _). set (cs' := <[c := _]> cs).
  assert (E : match xfer_ s with
              | kList => reply $"226 list transfer complete" (mkWorld s cs' id tm [] ts cps pa lg)
              | kRetr => reply $"226 transfer complete" (mkWorld s cs' id tm [] ts cps pa lg)
              | kNone => mkWorld s cs' id tm [] ts cps pa lg
              end = mkWorld s cs' id tm [] ts cps pa (lg ++ [Reply text])).
  { unfold text. destruct (xfer_ s); by cbn. }
  rewrite E. destruct (cancel_world s cs' id tm [] ts cps pa (lg ++ [Reply text])) as (tm' & ->).
  eexists. split; [reflexivity|].
  destruct (abort_effects (mkWorld s cs' id tm' [] ts cps pa (lg ++ [Reply text]))) as (Ex & Ef & El).
  cbn [session functors log] in *. split_and!; [exact Ex| |].
  - unfold queueInLoop. cbn [functors]. by rewrite Ef.
  - unfold queueInLoop. cbn [log]. by rewrite El, <-app_assoc.
Qed.
End Commands.

(** ** Properties *)


(** C33. LIST and NLST deliver the directory: batch after batch of names, the listing of every entry in the order
    of the directory is sent, then the connection is shut down, and the client gets its 226. *)
Theorem list_delivers_directory (disk : Disk) (local_ip : list Z) (server_port : nat → list Z)
    (w : World) (c : nat) (long : bool) (entries : list chars) (bs : list bool) :
  ready c w → bs ≠ [] → disk_opendir disk (c_str (kFtpRoot ++ cwd_ (session w))) = Some entries →
  listable disk (kFtpRoot ++ cwd_ (session w)) long entries →
  (length entries <= (length bs - 1) * kListBatchEntries)%nat →
  ∃ w1 w2 w3, cmdList disk long w = Ok w1 ∧
    run_events disk local_ip server_port (rounds bs c) w1 = Ok w2 ∧
    finished c w2 ∧ data_sent c (log w2) = data_sent c (log w) ++ listing disk (kFtpRoot ++ cwd_ (session w)) long entries ∧
    run_events disk local_ip server_port [EDataDown c] w2 = Ok w3 ∧ xfer_ (session w3) = kNone ∧
    log w3 = log w2 ++ [Reply $"226 list transfer complete"; CloseDir].
Proof.
  intros [Hl Hs Hc (d & Hd & Hup & Hcb & Hun) [_ Hfd] (Ht & Hf) Hp] Hbs He Le Hn.
  destruct w as [s cs id tm fs ts k pa lg]. cbn in Hl, Hs, Hc, Hd, Hfd, Ht, Hf, Hp. cbn [session] in *. subst fs ts pa.
  unfold cmdList, requireLogin. cbn [session]. rewrite Hl, bool_decide_eq_true_2 by done.
  destruct (dataServer_ s) as [srv|] eqn:Ek; [|done].
  unfold on_session. cbn [conns next_id timers functors tasks kernel pool_accepts log session]. set (s1 := set_long long _).
  destruct (cancel_world s1 cs id tm [] [] k true lg) as (tm' & ->).
  unfold reply, emit. cbn [session conns next_id timers functors tasks kernel pool_accepts log].
  rewrite (start_list disk s1 cs id tm' k _ c d entries) by done.
  set (s2 := set_dir _ s1). set (lg' := _ ++ [OpenDir _]).
  assert (Hlg : data_sent c lg' = data_sent c lg) by (unfold lg'; rewrite !data_sent_app; cbn; by rewrite !app_nil_r).
  assert (G : ∃ w1 w2, requestNextChunk (mkWorld s2 cs id tm' [] [] k true lg') = Ok w1 ∧
    run_events disk local_ip server_port (rounds bs c) w1 = Ok w2 ∧ finished c w2 ∧ xfer_ (session w2) = kList ∧
    xferDir_ (session w2) = Some [] ∧ xferFd_ (session w2) = xferFd_ s ∧
    data_sent c (log w2) = data_sent c lg ++ listing disk (kFtpRoot ++ cwd_ s) long entries).
  { rewrite (next_list s2 cs id tm' c d lg' k Hc Hd Hup entries) by done. cbv zeta. set (s3 := set_dir _ s2).
    destruct (decide (take kListBatchEntries entries = [])) as [Et|Et].
    - assert (entries = []) as -> by (by destruct entries).
      destruct (idle_after_eof disk local_ip server_port id tm' c d Hup Hun bs s3 cs k lg') as (w2 & Hr & Hfin & Hs2 & Hl2); [done..|].
      change (xferGen_ s2) with (xferGen_ s3). destruct (sendChunkReady _ _ _ _ _) as [w1|] eqn:E1; [|done].
      exists w1, w2. rewrite Hs2, Hl2, data_sent_app, Hlg. split_and!; done.
    - destruct (listable_split _ _ _ kListBatchEntries _ Le) as [Lt Ld].
      destruct (list_rounds disk local_ip server_port id tm' c d Hup Hcb Hun bs s3 cs k lg' (drop kListBatchEntries entries)
        (take kListBatchEntries entries)) as (w2 & Hr & Hfin & H1 & H2 & H3 & Hdata); try done; [rewrite length_drop; lia|].
      eexists _, w2. split_and!; [reflexivity|exact Hr|done|done|done|exact H3|].
      rewrite Hdata, Hlg, take_drop. done. }
  destruct G as (w1 & w2 & E1 & E2 & Hfin & Hx & Hdir & Hfd2 & Hdata).
  destruct (end_of_transfer disk local_ip server_port c w2 Hfin) as (w3 & H3 & Hx3 & _ & Hlog); [congruence|].
  rewrite Hx, Hfd2, Hdir, (proj2 (Z.leb_gt 0 (xferFd_ s))) in Hlog by done.
  exists w1, w2, w3. split_and!; try done.
Qed.

(** A session after login, PASV and the client's data connection. *)
Definition demo_ready : World :=
  mkWorld (mkSession kLoggedIn $"/" (Some 0%nat) (Some 1%nat) kNone true [] (-1) 0 false 0 None (Some 0%nat))
    {[1%nat := {| of_server := 0; cst := Up; has_callback := true; unsent := false |}]} 2 [0%nat] [] [] Takes true [].

Lemma demo_ready_ok : ready 1 demo_ready.
Proof. split; cbn; try done. eexists. by rewrite lookup_singleton_eq. Qed.


Lemma list_delivers_directory_witness :
  ready 1 demo_ready ∧
  ∃ w1 w2 w3, cmdList demo_disk false demo_ready = Ok w1 ∧
    run_events demo_disk demo_ip demo_port (rounds [true; false] 1) w1 = Ok w2 ∧
    finished 1 w2 ∧ data_sent 1 (log w2) = data_sent 1 (log demo_ready) ++
      listing demo_disk (kFtpRoot ++ cwd_ (session demo_ready)) false [$"."; $".."; $"a"] ∧
    run_events demo_disk demo_ip demo_port [EDataDown 1] w2 = Ok w3 ∧ xfer_ (session w3) = kNone ∧
    log w3 = log w2 ++ [Reply $"226 list transfer complete"; CloseDir].
Proof.
  split; [exact demo_ready_ok|].
  apply (list_delivers_directory demo_disk demo_ip demo_port demo_ready 1 false [$"."; $".."; $"a"] [true; false]);
    [exact demo_ready_ok|discriminate|reflexivity|intros H; discriminate H|cbn; unfold kListBatchEntries; lia].
Defined.

(** ** Overlapping data connections *)

Definition demo_run (es : list event) : outcome World := run_events demo_disk demo_ip demo_port es demo_ready.
Definition replies (o : outcome World) : list chars :=
  if o is Ok w then omap (fun e => if e is Reply t then Some t else None) (log w) else [].
Definition server_of (o : outcome World) : option nat := if o is Ok w then dataServer_ (session w) else None.

(** A second connection to the data port is refused, and its closing then ends the transfer of the first: the
    handler does not look which connection went down. *)
Example second_connection_aborts :
  replies (demo_run [ECommand $"RETR f"; EDataUp 0; EFunctor]) =
    [$"150 opening BINARY mode data connection"; $"426 connection closed; transfer aborted"].
Proof. vm_compute. reflexivity. Qed.

(** PASV with a data connection still up: the new server is announced, and destroyed by the functor that the
    old connection's callback queues when the old server is deleted. *)
Example second_pasv_loses_server :
  replies (demo_run [ECommand $"PASV"; EFunctor; EFunctor]) = [$"227 Entering Passive Mode (127,0,0,1,4,210)"] ∧
  server_of (demo_run [ECommand $"PASV"]) = Some 2%nat ∧
  server_of (demo_run [ECommand $"PASV"; EFunctor; EFunctor]) = None.
Proof. vm_compute. split_and!; reflexivity. Qed.

(** PASV between the last read of a file and its result: the end of file is handled with a null connection. *)
Example pasv_at_eof_is_undefined :
  demo_run [ECommand $"RETR f"; ETask 0; EFunctor; EFunctor; ETask 0; ECommand $"PASV"; EFunctor] = Fault Undefined.
Proof. vm_compute. reflexivity. Qed.

(** PASV while the last bytes of a transfer are being flushed: the old server's destructor fails an assertion. *)
Example pasv_during_shutdown_asserts :
  demo_run [ECommand $"RETR f"; ETask 0; EFunctor; EFunctor; ETask 0; EFunctor; ECommand $"PASV"; EFunctor] = Fault AssertFail.
Proof. vm_compute. reflexivity. Qed.

(** A second connection is refused while the first has a drained buffer: the functor of the refused one aborts
    the transfer and clears the callback that the functor of [handleWrite], queued behind it, then calls. *)
Example abort_before_late_completion :
  demo_run [ECommand $"RETR f"; ETask 0; EKernel Keeps; EFunctor; EDataUp 0; EDataWritable 1; EFunctor; EFunctor] =
    Fault (Throw BadFunctionCall).
Proof. vm_compute. reflexivity. Qed.

(** ** A listing that stalls *)

(** A directory whose last entry is a dangling link: [stat] fails on it. *)
Definition dangling_disk : Disk := {|
  disk_stat p := if decide (p = $".//gone") then None else Some demo_stat;
  disk_open _ := -1;
  disk_pread _ _ _ := inr 0;
  disk_opendir _ := Some (replicate kListBatchEntries $"." ++ [$"gone"]);
  disk_time _ := $"Jan  1 00:00"
|}.

(** Nothing is left that could move the transfer: no task, no functor, no output, no timer. *)
Definition stalled (c : nat) (w : World) : bool :=
  bool_decide (xfer_ (session w) ≠ kNone) && negb (xferDone_ (session w)) && connected c w &&
  bool_decide (length (tasks w) = 0%nat) && bool_decide (length (functors w) = 0%nat) && bool_decide (timers w = []) &&
  negb (from_option unsent true (conns w !! c)).

(** When no entry of a batch can be examined, its text is empty; [send] writes nothing, no completion follows and
    the next batch is never asked for: the client waits for ever. *)
Example list_batch_stalls :
  from_option (stalled 1) false
    (if run_events dangling_disk demo_ip demo_port
          [ECommand $"LIST"; ETask 0; EFunctor; EFunctor; ETask 0; EFunctor] demo_ready is Ok w then Some w else None) = true.
Proof. vm_compute. reflexivity. Qed.
