(* ===== verification/FtpConn.v ===== *)
(** * FtpConn: the session's data connection is a TcpConnection

    [Ftp] runs a session on connections reduced to what the session depends on ([dconn]): the state, whether the
    write-complete callback is set and whether output waits. This file proves that reduction against the model
    of [plugins/Muduo/muduo/net/TcpConnection.cpp]: every run of the calls a session makes on a connection and of
    the writable events of its socket is a run of the reduced connection, with the functors queued in the loop,
    the bytes accepted and the closing of the write half that the reduced connection says. *)

From S2P Require Import Prelude Buffer Strings Ftp Channel TcpConnection.

(** What happens to a data connection of a session between two callbacks. *)
Inductive dcall :=
| DSend (m : chars)
| DShutdown
| DForceClose
| DSetCallback (b : bool)
| DWritable.

(** The reduced connection: the connection after the call, the functors posted, the bytes accepted, whether the
    write half is closed. [k] is the kernel's answer; a writable event that does not drain changes nothing. *)
Definition dconn_step (k : kwrite) (o : dcall) (d : dconn) : dconn * list posted * chars * bool :=
  match o with
  | DSend m => let '(d, ps, taken) := dconn_send k m d in (d, ps, taken, false)
  | DShutdown => let '(d, shut) := dconn_shutdown d in (d, [], [], shut)
  | DForceClose => let '(d, ps) := dconn_forceClose d in (d, ps, [], false)
  | DSetCallback b => (with_callback b d, [], [], false)
  | DWritable => if k is Takes then let '(d, ps, shut) := dconn_writable d in (d, ps, [], shut) else (d, [], [], false)
  end.

Fixpoint dconn_steps (l : list (kwrite * dcall)) (d : dconn) : dconn * list posted * chars * bool :=
  match l with
  | [] => (d, [], [], false)
  | (k, o) :: l =>
      let '(d, ps, taken, shut) := dconn_step k o d in
      let '(d, ps', taken', shut') := dconn_steps l d in
      (d, ps ++ ps', taken ++ taken', shut || shut')
  end.

Section Refinement.
Context {CB T W S : Type} `{LS : LoopServices CB T W} `{LL : !LoopLaws CB T W} `{SK : SocketKernel S} `{SL : !SocketLaws S}.
Context (fn : conn_functor → T).
(** The number of the session's write-complete callback. *)
Context (wc : nat).
Implicit Types (c : TcpConnection CB S) (w : W) (d : dconn).

(** The same calls on the connection. *)
Definition conn_call (o : dcall) c w : outcome (TcpConnection CB S * W) :=
  match o with
  | DSend m => send fn m c w
  | DShutdown => shutdown fn c w
  | DForceClose => forceClose fn c w
  | DSetCallback b => Ok (setWriteCompleteCallback (if b then Some wc else None) c, w)
  | DWritable => handleWrite fn c w
  end.
Definition conn_calls (os : list dcall) c w : outcome (TcpConnection CB S * W) :=
  foldM (fun o '(c, w) => conn_call o c w) os (c, w).
Definition call_fits (o : dcall) : Prop := if o is DSend m then zlen m <= PTRDIFF_MAX else True.

Definition state_of (st : cstate) : StateE :=
  match st with Up => KConnected | Disconnecting => KDisconnecting | Down => KDisconnected end.
Definition functor_for (p : posted) : conn_functor :=
  match p with PWriteComplete => FWriteComplete wc | PWriteCompleteLate => FWriteCompleteLate | PForceClose => FForceCloseInLoop end.

(** The reduced connection describes the connection. *)
Record describes d c w : Prop := {
  ds_inv : conn_inv c w;
  ds_state : TcpConnection.state_ c = state_of (cst d);
  ds_callback : writeCompleteCallback_ c = if has_callback d then Some wc else None;
  ds_mark : highWaterMarkCallback_ c = None;
  ds_unsent : unsent d = negb (bool_decide (out c = []))
}.

(** A call did what the reduced connection says. *)
Definition matches (n : nat) c w (r : dconn * list posted * chars * bool) c' w' : Prop :=
  let '(d', ps, taken, sh) := r in
  describes d' c' w' ∧ can_queue n w' ∧ queued w' = queued w ++ (fn ∘ functor_for <$> ps) ∧
  stream c' = stream c ++ taken ∧ shut (socket_ c') = shut (socket_ c) || sh.

Lemma matches_stay n d c w : describes d c w → can_queue n w → matches n c w (d, [], [], false) c w.
Proof. intros D Q. split_and!; [done|done|by rewrite app_nil_r|by rewrite app_nil_r|by rewrite orb_false_r]. Qed.

Lemma not_connecting d c w : describes d c w → TcpConnection.state_ c ≠ KConnecting.
Proof. intros D. rewrite (ds_state _ _ _ D). by destruct (cst d). Qed.

Lemma describes_live d c w : describes d c w → live c ↔ cst d ≠ Down.
Proof. intros D. unfold live. rewrite (ds_state _ _ _ D). destruct (cst d); naive_solver. Qed.

(** The parts a call leaves alone. *)
Lemma describes_same d d' c w c' w' :
  describes d c w → conn_inv c' w' → TcpConnection.state_ c' = state_of (cst d') → same_callbacks c c' →
  has_callback d' = has_callback d → unsent d' = negb (bool_decide (out c' = [])) → describes d' c' w'.
Proof. intros D I St (C1 & C2 & _) Hc U. destruct D. split; [done|done|by rewrite C1, Hc|by rewrite C2|done]. Qed.

Lemma send_matches n m d c w :
  describes d c w → zlen m <= PTRDIFF_MAX → can_queue (Datatypes.S n) w →
  send fn m c w = Fault (Throw LengthError) ∨
  ∃ k c' w', send fn m c w = Ok (c', w') ∧ matches n c w (dconn_step k (DSend m) d) c' w'.
Proof.
  intros D Hm Q. pose proof (ds_inv _ _ _ D) as I. pose proof (ds_state _ _ _ D) as Es. unfold send, dconn_step, dconn_send.
  assert (Q0 : can_queue n w) by (by eapply can_queue_mono; [|exact Q]; lia). rewrite Es, (ci_thread _ _ I).
  destruct (cst d) eqn:Ed; cbn [state_of];
    [change (is_state KConnected KConnected) with true|right; exists Takes, c, w; split; [done|by apply matches_stay]..]. cbn iota.
  rewrite bool_decide_eq_true_2 by done. cbn [negb].
  destruct (sendInLoop_ok fn n m c w I (not_connecting _ _ _ D) Hm (room_of _ _ _ Q)) as [?|(c' & w' & E & I' & Q' & S1 & S2 & S3 & S4 & S5)]; [by left|right].
  assert (Ds : ∀ d', cst d' = Up → has_callback d' = has_callback d → unsent d' = negb (bool_decide (out c' = [])) → describes d' c' w').
  { intros d' Eu. apply (describes_same d d' c w c' w'); try done. by rewrite S1, Es, Eu. }
  assert (Sh : shut (socket_ c') = shut (socket_ c) || false) by (by rewrite orb_false_r).
  pose proof (ds_unsent _ _ _ D) as U. destruct S5 as [(G & A1 & A2 & A3)|[(B1 & B2 & B3 & B4 & B5)|(F1 & F2 & F3)]].
  - exists Gone, c', w'. split; [done|]. destruct G as [G|[G _]]; [by rewrite Es in G|].
    rewrite U, bool_decide_eq_true_2 by done. cbn [negb]. assert (unsent d = negb (bool_decide (out c' = []))) by (by rewrite A2).
    case_decide; (split_and!; [by apply Ds|done|by rewrite A3, app_nil_r|by rewrite A1, app_nil_r|done]).
  - exists Takes, c', w'. split; [done|]. rewrite U, bool_decide_eq_true_2, decide_False by done. cbn [negb].
    assert (unsent d = negb (bool_decide (out c' = []))) by (by rewrite U, B1, B4).
    split_and!; [by apply Ds|done| |done|done]. rewrite B5. f_equal. unfold announced. rewrite (ds_callback _ _ _ D). by destruct (has_callback d).
  - exists Keeps, c', w'. split; [done|]. specialize (F3 (ds_mark _ _ _ D)). destruct (decide (out c = [])) as [Eo|Eo].
    + rewrite U, bool_decide_eq_true_2 by done. cbn [negb]. case_decide as Em.
      * assert (out c' = []) by (by apply F2). assert (unsent d = negb (bool_decide (out c' = []))) by (rewrite U; by rewrite !bool_decide_eq_true_2).
        split_and!; [by apply Ds|done|by rewrite F3, app_nil_r|by rewrite F1, Em|done].
      * split_and!; [apply Ds; try done|done|by rewrite F3, app_nil_r|done|done]. cbn. rewrite bool_decide_eq_false_2; [done|]. naive_solver.
    + rewrite U, bool_decide_eq_false_2 by done. cbn [negb].
      assert (unsent d = negb (bool_decide (out c' = []))) by (rewrite U, !bool_decide_eq_false_2; naive_solver).
      split_and!; [by apply Ds|done|by rewrite F3, app_nil_r|done|done].
Qed.

Lemma shutdown_matches n d c w :
  describes d c w → can_queue n w → ∃ c', shutdown fn c w = Ok (c', w) ∧ matches n c w (dconn_step Takes DShutdown d) c' w.
Proof.
  intros D Q. pose proof (ds_inv _ _ _ D) as I. pose proof (ds_state _ _ _ D) as Es. unfold shutdown, dconn_step, dconn_shutdown.
  rewrite Es, (ci_thread _ _ I).
  destruct (cst d) eqn:Ed; cbn [state_of];
    [change (is_state KConnected KConnected) with true|exists c; split; [done|by apply matches_stay]..]. cbn iota.
  rewrite bool_decide_eq_true_2 by done.
  assert (I2 : conn_inv (with_state KDisconnecting c) w) by (apply inv_disconnecting; [done|by left]).
  destruct (shutdownInLoop_ok _ w I2 (or_introl eq_refl)) as (c' & E & I' & E1 & E2 & E3 & E4 & E5 & E6).
  exists c'. split; [exact E|]. pose proof (ds_unsent _ _ _ D) as U. change (out (with_state KDisconnecting c)) with (out c) in *.
  assert (Sh : shut (socket_ c) = false).
  { pose proof (ci_state _ _ I) as St. unfold state_inv in St. rewrite Es in St. apply St. }
  split_and!; [|done|by rewrite app_nil_r|by rewrite app_nil_r|].
  - eapply describes_same; [exact D|done|done|done|done|]. cbn. by rewrite E5.
  - rewrite U, Sh, negb_involutive. cbn [orb]. case_bool_decide as Eo; [by apply E3|]. rewrite E4 by done. exact Sh.
Qed.

Lemma forceClose_matches n d c w :
  describes d c w → can_queue (Datatypes.S n) w →
  ∃ c' w', forceClose fn c w = Ok (c', w') ∧ matches n c w (dconn_step Takes DForceClose d) c' w'.
Proof.
  intros D Q. pose proof (ds_inv _ _ _ D) as I. pose proof (ds_state _ _ _ D) as Es. unfold forceClose, dconn_step, dconn_forceClose.
  destruct (decide (cst d = Down)) as [Ed|Ed].
  - rewrite Es, Ed. exists c, w. split; [done|]. apply matches_stay; [done|by eapply can_queue_mono; [|exact Q]; lia].
  - rewrite bool_decide_eq_false_2 by done.
    assert (is_state (TcpConnection.state_ c) KConnected || is_state (TcpConnection.state_ c) KDisconnecting = true) as ->.
    { rewrite Es. by destruct (cst d). }
    destruct (post_ok fn n FForceCloseInLoop (with_state KDisconnecting c) w Q) as (w' & -> & I' & Q' & Eq).
    { apply inv_disconnecting; [done|]. by apply (describes_live d c w D). }
    eexists _, w'. split; [reflexivity|]. split_and!; [|done|done|by rewrite app_nil_r|by rewrite orb_false_r].
    eapply describes_same; [exact D|done|done|done|done|]. apply (ds_unsent _ _ _ D).
Qed.

Lemma callback_matches n b d c w :
  describes d c w → can_queue n w →
  matches n c w (dconn_step Takes (DSetCallback b) d) (setWriteCompleteCallback (if b then Some wc else None) c) w.
Proof.
  intros D Q. split_and!; [|done|by rewrite app_nil_r|by rewrite app_nil_r|by rewrite orb_false_r].
  destruct D as [I D2 D3 D4 D5]. split; try done. by destruct I.
Qed.

Lemma writable_matches n d c w :
  describes d c w → can_queue (Datatypes.S n) w →
  handleWrite fn c w = Fault (Throw LengthError) ∨
  ∃ k c' w', handleWrite fn c w = Ok (c', w') ∧ matches n c w (dconn_step k DWritable d) c' w'.
Proof.
  intros D Q. pose proof (ds_inv _ _ _ D) as I. pose proof (ds_state _ _ _ D) as Es. pose proof (ds_unsent _ _ _ D) as U.
  destruct (handleWrite_ok fn n c w I (not_connecting _ _ _ D) Q) as [?|(c' & w' & E & I' & Q' & Wr)]; [by left|right].
  destruct Wr as [(A1 & A2 & A3 & A4 & A5 & A6)|(L & No & A1 & A2 & A3 & A4 & A5 & A6)].
  - exists Keeps, c', w'. split; [done|]. split_and!; [|done|by rewrite A5, app_nil_r|by rewrite A2, app_nil_r|by rewrite A6, orb_false_r].
    eapply describes_same; [exact D|done|by rewrite A1|done|done|]. rewrite U. f_equal. by apply bool_decide_ext.
  - exists Takes, c', w'. split; [done|]. unfold dconn_step, dconn_writable. rewrite U.
    rewrite (bool_decide_eq_false_2 (out c = [])), (bool_decide_eq_false_2 (cst d = Down)) by (done || by apply (describes_live d c w D)).
    cbn [negb andb]. split_and!; [|done| |by rewrite A2, app_nil_r|].
    + eapply describes_same; [exact D|done|by rewrite A1|done|done|]. cbn. by rewrite A3.
    + rewrite A5. f_equal. unfold late. rewrite (ds_callback _ _ _ D). by destruct (has_callback d).
    + rewrite A6. destruct (live_inv c L (ci_state _ _ I)) as [_ Sh]. destruct (shut (socket_ c)); [by destruct No; auto|]. cbn.
      apply bool_decide_ext. rewrite Es. by destruct (cst d).
Qed.

Lemma call_matches n o d c w :
  describes d c w → call_fits o → can_queue (Datatypes.S n) w →
  conn_call o c w = Fault (Throw LengthError) ∨
  ∃ k c' w', conn_call o c w = Ok (c', w') ∧ matches n c w (dconn_step k o d) c' w'.
Proof.
  intros D F Q. assert (Q0 : can_queue n w) by (by eapply can_queue_mono; [|exact Q]; lia).
  destruct o as [m| | |b|]; cbn [conn_call call_fits] in *.
  - by apply send_matches.
  - right. destruct (shutdown_matches n d c w D Q0) as (c' & E & M). by exists Takes, c', w.
  - right. destruct (forceClose_matches n d c w D Q) as (c' & w' & E & M). by exists Takes, c', w'.
  - right. eexists Takes, _, w. split; [reflexivity|by apply callback_matches].
  - by apply writable_matches.
Qed.

(** C34. The data connection of a session is a [TcpConnection]: every sequence of the calls [FtpSession] makes on it
    ([send], [shutdown], [forceClose], setting and clearing the write-complete callback) and of writable events
    is matched by the reduced connection [dconn] under some answers of the kernel: the states agree again at
    the end, the functors posted to the loop, the bytes taken over for the peer and the closing of the write
    half are those [dconn] says. The only exception is an output buffer that cannot grow. *)
Theorem dconn_refines (n : nat) (os : list dcall) d c w :
  describes d c w → Forall call_fits os → can_queue (length os + n) w →
  conn_calls os c w = Fault (Throw LengthError) ∨
  ∃ ks c' w', length ks = length os ∧ conn_calls os c w = Ok (c', w') ∧ matches n c w (dconn_steps (zip ks os) d) c' w'.
Proof.
  intros D F. revert d c w D. induction F as [|o os Fo F IH]; intros d c w D Q.
  { right. exists [], c, w. split_and!; [done|done|by apply matches_stay]. }
  unfold conn_calls. cbn [foldM]. destruct (call_matches (length os + n) o d c w D Fo Q) as [->|(k & c1 & w1 & -> & M)]; [by left|].
  cbn [mbind outcome_bind]. fold (conn_calls os c1 w1).
  destruct (dconn_step k o d) as [[[d1 ps] taken] sh] eqn:Ed. destruct M as (D1 & Q1 & P1 & S1 & H1).
  destruct (IH d1 c1 w1 D1 Q1) as [->|(ks & c' & w' & Hk & E & M)]; [by left|right].
  exists (k :: ks), c', w'. split_and!; [cbn [length]; by rewrite Hk|done|]. cbn [zip zip_with dconn_steps]. rewrite Ed.
  destruct (dconn_steps _ d1) as [[[d2 ps2] taken2] sh2]. destruct M as (D2 & Q2 & P2 & S2 & H2).
  split_and!; [done|done|by rewrite P2, P1, fmap_app, app_assoc|by rewrite S2, S1, app_assoc|by rewrite H2, H1, orb_assoc].
Qed.

(** The functor of [handleWrite], and the end of a connection: what [Ftp.writeCompleteLate], [Ftp.close_conn] and
    [Ftp.delete_conn] say of the reduced connection. *)
Section Callbacks.
Context (user : nat → TcpConnection CB S → W → outcome (TcpConnection CB S * W)) (owner : nat → TcpConnection CB S → W → outcome W).

Lemma late_describes d c w :
  describes d c w →
  run_conn_functor fn user owner FWriteCompleteLate c w =
    if has_callback d then user wc c w else Fault (Throw BadFunctionCall).
Proof. intros D. cbn. unfold lateWriteComplete. rewrite (ds_callback _ _ _ D). by destruct (has_callback d). Qed.

Lemma down_describes n d c w :
  describes d c w → can_queue n w →
  ∃ c' w', on_channel disableAll (with_state KDisconnected c) w = Ok (c', w') ∧ describes (with_cst Down d) c' w' ∧ can_queue n w'.
Proof.
  intros D Q. pose proof (ds_inv _ _ _ D) as [I1 I2 I3 I4 I5 I6]. unfold on_channel, disableAll.
  change (channel_ (with_state KDisconnected c)) with (channel_ c).
  destruct (mask_ok KNoneEvent c w I1 I2) as (ch & w' & -> & E & C & T' & N & _).
  cbn. eexists _, w'. split_and!; [done| |auto]. eapply describes_same; [exact D|by split|done|done|done|]. apply (ds_unsent _ _ _ D).
Qed.

(** [handleClose] of a live connection: the connection is down when the session's callback runs. *)
Lemma close_describes n d c w :
  describes d c w → can_queue n w → cst d ≠ Down →
  ∃ c1 w1, describes (with_cst Down d) c1 w1 ∧ can_queue n w1 ∧
    handleClose user owner c w =
      ('(c2, w2) ← call_user user (connectionCallback_ c1) c1 w1;
       w3 ← call_owner owner (closeCallback_ c2) c2 w2; Ok (c2, w3)).
Proof.
  intros D Q Nd. destruct (down_describes n d c w D Q) as (c1 & w1 & E & D1 & Q1). exists c1, w1. split_and!; [done|done|].
  unfold handleClose. rewrite (assert_in c w (ds_inv _ _ _ D)). cbn [mbind outcome_bind]. rewrite assert_true.
  - cbn [mbind outcome_bind]. by rewrite E.
  - rewrite (ds_state _ _ _ D). by destruct (cst d).
Qed.

(** The server's destructor on a connection that is shutting down. *)
Lemma delete_describes d c w :
  describes d c w → cst d = Disconnecting → connnectDestroyed user c w = Fault AssertFail.
Proof.
  intros D Ed. pose proof (ds_inv _ _ _ D) as I. unfold connnectDestroyed. rewrite (assert_in c w I). cbn [mbind outcome_bind].
  rewrite (ds_state _ _ _ D), Ed. cbn [state_of]. change (is_state KDisconnecting KConnected) with false.
  cbn [mbind outcome_bind]. unfold on_channel, remove, isNoneEvent. pose proof (ci_state _ _ I) as St. unfold state_inv in St.
  rewrite (ds_state _ _ _ D), Ed in St. cbn in St. destruct St as [-> _]. by destruct (out c).
Qed.
End Callbacks.
End Refinement.

(** ** The sample connection *)

Definition sample_dconn : dconn := {| of_server := 0; cst := Up; has_callback := false; unsent := false |}.

Lemma sample_describes : describes 0 sample_dconn sample_conn sample_loop.
Proof. split; [exact sample_conn_inv|done|done|done|by vm_compute]. Qed.

(** A session sends, the kernel keeps a rest, the socket becomes writable, the transfer ends. *)
Lemma dconn_refines_witness :
  describes 0 sample_dconn sample_conn sample_loop ∧
  ∃ ks c' w', conn_calls (fun f => f) 0 [DSetCallback true; DSend $"hello"; DWritable; DWritable; DShutdown] sample_conn sample_loop = Ok (c', w') ∧
    matches (fun f => f) 0 0 sample_conn sample_loop
      (dconn_steps (zip ks [DSetCallback true; DSend $"hello"; DWritable; DWritable; DShutdown]) sample_dconn) c' w'.
Proof.
  split; [exact sample_describes|].
  destruct (dconn_refines (fun f => f) 0 0 [DSetCallback true; DSend $"hello"; DWritable; DWritable; DShutdown] sample_dconn
    sample_conn sample_loop sample_describes) as [E|(ks & c' & w' & _ & E & M)].
  - repeat constructor. by vm_compute.
  - apply sample_can_queue.
  - exfalso. vm_compute in E. discriminate E.
  - exists ks, c', w'. exact (conj E M).
Defined.
