(* ===== verification/Miniftpd.v ===== *)
(** * Miniftpd: the server's main, and how long its sessions live

    Models [example/miniftpd/src/main.cpp]: one [FtpSession] per control connection, kept in the context of the
    connection, and the references that keep a session alive beyond it: the data server's callbacks, data
    connections, queued functors, disk tasks and the PASV timer all hold [shared_from_this()]. *)

From S2P Require Import Prelude Buffer Sockets TcpConnection Strings Ftp FtpTransfer.

(** ** A control connection and its session *)

Inductive link := CtrlNew | CtrlUp | CtrlGone.
#[global] Instance link_eq_dec : EqDecision link.
Proof. solve_decision. Defined.

(** The control connection's state, input buffer and context; the session it was given, its world, and whether it
    has been destroyed. *)
Record Client := mkClient { ctrl : link; input : Buffer; context : any; world : World; destroyed : bool }.

#[global] Instance ftp_functor_eq_dec : EqDecision functor.
Proof. solve_decision. Defined.

(** The number of the session, as the object the context holds. *)
Definition the_session : nat := 0.
Definition has_value (a : any) : bool := if a is any_empty then false else true.

(* @src miniftpd/src/main.cpp | Muduo::InetAddress inetaddress(8888); *)
Definition listen_address : sockaddr_in := InetAddress_port 8888.
(* @src miniftpd/src/main.cpp | ftp::ThreadPool diskPool(4); *)
Definition disk_threads : nat := 4.
(* @src miniftpd/src/main.cpp | tcp_server.setThreadNum(2); *)
Definition io_threads : nat := 2.

(* @src miniftpd/src/main.cpp | [&diskPool](const Muduo::TcpConnectionPtr& conn) { | }); | main, connection callback *)
Definition connectionCallback (connected : bool) (c : Client) : Client :=
  if connected then mkClient (ctrl c) (input c) (any_object the_session) (start new_world) (destroyed c)
  else mkClient (ctrl c) (input c) any_empty (world c) (destroyed c).

(** What holds a reference to the session besides the context. *)
Definition is_up (d : dconn) : bool := negb (bool_decide (cst d = Down)).
Definition held (w : World) : bool :=
  (if dataServer_ (session w) is Some _ then true else false) || negb (bool_decide (length (functors w) = 0%nat)) ||
  negb (bool_decide (length (tasks w) = 0%nat)) || negb (bool_decide (length (timers w) = 0%nat)) ||
  existsb (fun p => is_up p.2) (map_to_list (conns w)).
(** The last reference runs the destructor. *)
Definition settle (c : Client) : Client :=
  if destroyed c || has_value (context c) || held (world c) || bool_decide (ctrl c = CtrlNew) then c
  else mkClient (ctrl c) (input c) (context c) (destroy (world c)) true.

Section Main.
Context (disk : Disk) (local_ip : list Z) (server_port : nat → list Z).

(** [any_cast] of another type would throw. *)
(* @src miniftpd/src/main.cpp | tcp_server.setMessageCallback([](const Muduo::TcpConnectionPtr& conn, | }); | main, message callback *)
Definition messageCallback (c : Client) : outcome Client :=
  match context c with
  | any_empty => Ok c
  | any_object _ =>
      '(b, w) ← onMessage disk local_ip server_port (input c) (world c);
      Ok (mkClient (ctrl c) b (context c) w (destroyed c))
  | any_nullptr => Fault (Throw BadAnyCast)
  end.

(** What happens to a client: its control connection, and its session's loop. *)
Inductive client_event :=
| ConnUp
| ConnData (data : chars)
| ConnDown
| InLoop (e : event).
Definition in_loop (e : event) : bool := if e is ECommand _ then false else true.

Definition client_event_step (e : client_event) (c : Client) : outcome Client :=
  match e with
  | ConnUp => Ok (if bool_decide (ctrl c = CtrlNew)
                  then connectionCallback true (mkClient CtrlUp (input c) (context c) (world c) (destroyed c)) else c)
  | ConnData data =>
      if bool_decide (ctrl c = CtrlUp) then
        b ← append (input c) data;
        messageCallback (mkClient (ctrl c) b (context c) (world c) (destroyed c))
      else Ok c
  | ConnDown => Ok (if bool_decide (ctrl c = CtrlUp)
                    then connectionCallback false (mkClient CtrlGone (input c) (context c) (world c) (destroyed c)) else c)
  | InLoop e =>
      if destroyed c || negb (in_loop e) then Ok c else
      w ← handle_event disk local_ip server_port e (world c);
      Ok (mkClient (ctrl c) (input c) (context c) w (destroyed c))
  end.
Definition client_step (e : client_event) (c : Client) : outcome Client := c ← client_event_step e c; Ok (settle c).
Definition run_client (es : list client_event) (c : Client) : outcome Client := foldM client_step es c.
End Main.

(** A connection before it is established; [context_] starts as a null pointer. *)
Definition new_client (b : Buffer) : Client := mkClient CtrlNew b any_nullptr new_world false.

(** ** Who will close the data server *)

Section Watched.
Context (disk : Disk) (local_ip : list Z) (server_port : nat → list Z).

Definition closing (w : World) : Prop := FCloseDataServer ∈ functors w.
Definition alive_conn (w : World) (c : nat) : Prop := ∃ d, conns w !! c = Some d ∧ cst d ≠ Down.
(** An open data server has a timer, a transfer or a connection that will have it closed, and the session's
    connection is alive; or the closing is queued. *)
Definition watched (w : World) : Prop :=
  closing w ∨
  ((dataServer_ (session w) ≠ None → timers w ≠ [] ∨ xfer_ (session w) ≠ kNone ∨ dataConn_ (session w) ≠ None) ∧
   (∀ c, dataConn_ (session w) = Some c → alive_conn w c)).

(** What most operations leave alone. *)
Record keeps (w w' : World) : Prop := {
  kp_server : dataServer_ (session w') = dataServer_ (session w);
  kp_conn : dataConn_ (session w') = dataConn_ (session w);
  kp_xfer : xfer_ (session w') = xfer_ (session w);
  kp_timers : timers w' = timers w;
  kp_functors : functors w ⊆ functors w';
  kp_alive : ∀ c, alive_conn w c → alive_conn w' c
}.

Lemma keeps_refl w : keeps w w.
Proof. by split. Qed.
Lemma keeps_trans w1 w2 w3 : keeps w1 w2 → keeps w2 w3 → keeps w1 w3.
Proof. intros [A1 A2 A3 A4 A5 A6] [B1 B2 B3 B4 B5 B6]. split; [congruence..|set_solver|auto]. Qed.

(** [keeps], or the closing is queued. *)
Definition fine (w w' : World) : Prop := keeps w w' ∨ closing w'.

Lemma closing_keeps w w' : closing w → keeps w w' → closing w'.
Proof. intros C K. by apply (kp_functors _ _ K). Qed.
Lemma fine_trans w1 w2 w3 : keeps w1 w2 → fine w2 w3 → fine w1 w3.
Proof. intros K [F|F]; [left; by eapply keeps_trans|by right]. Qed.

Lemma watched_fine w w' : watched w → fine w w' → watched w'.
Proof.
  intros Hw [K|C]; [|by left]. destruct Hw as [C|[Hs Hc]]; [left; by eapply closing_keeps|right].
  destruct K as [K1 K2 K3 K4 K5 K6]. rewrite K1, K2, K3, K4. split; [done|]. auto.
Qed.

Lemma keeps_session f w :
  dataServer_ (f (session w)) = dataServer_ (session w) → dataConn_ (f (session w)) = dataConn_ (session w) →
  xfer_ (f (session w)) = xfer_ (session w) → keeps w (on_session f w).
Proof. by split. Qed.
Lemma keeps_emit e w : keeps w (emit e w).
Proof. by split. Qed.
Lemma keeps_emits es w : keeps w (emits es w).
Proof. by split. Qed.
Lemma keeps_reply t w : keeps w (reply t w).
Proof. apply keeps_emit. Qed.
Lemma keeps_set_tasks ts w : keeps w (set_tasks ts w).
Proof. by split. Qed.
Lemma keeps_queueInLoop f w : keeps w (queueInLoop f w).
Proof. split; try done. cbn. set_solver. Qed.
Lemma keeps_queue_all fs w : keeps w (queue_all fs w).
Proof. split; try done. cbn. set_solver. Qed.
Lemma keeps_set_conn c d d' w : conns w !! c = Some d → (cst d ≠ Down → cst d' ≠ Down) → keeps w (set_conn c d' w).
Proof.
  intros E H. split; try done. intros c' (d0 & E0 & A0). unfold alive_conn. cbn. destruct (decide (c' = c)) as [->|N].
  - exists d'. rewrite lookup_insert_eq. split; [done|]. apply H. congruence.
  - exists d0. by rewrite lookup_insert_ne.
Qed.

Lemma closing_queued w : closing (queueInLoop FCloseDataServer w).
Proof. unfold closing. cbn. set_solver. Qed.

(** The operations on a data connection. *)
Lemma keeps_send c m w : keeps w (data_send c m w).
Proof.
  unfold data_send. destruct (conns w !! c) as [d|] eqn:E; [|apply keeps_refl].
  destruct (dconn_send (kernel w) m d) as [[d' ps] t] eqn:Ed.
  eapply keeps_trans; [|apply keeps_queue_all]. eapply keeps_trans; [|apply keeps_emits]. apply (keeps_set_conn _ d); [done|].
  revert Ed. unfold dconn_send. repeat case_match; naive_solver.
Qed.
Lemma keeps_shutdown c w : keeps w (data_shutdown c w).
Proof.
  unfold data_shutdown. destruct (conns w !! c) as [d|] eqn:E; [|apply keeps_refl].
  destruct (dconn_shutdown d) as [d' sh] eqn:Ed. eapply keeps_trans; [|apply keeps_emits]. apply (keeps_set_conn _ d); [done|].
  revert Ed. unfold dconn_shutdown. repeat case_match; naive_solver.
Qed.
Lemma keeps_forceClose c w : keeps w (data_forceClose c w).
Proof.
  unfold data_forceClose. destruct (conns w !! c) as [d|] eqn:E; [|apply keeps_refl].
  destruct (dconn_forceClose d) as [d' ps] eqn:Ed. eapply keeps_trans; [|apply keeps_queue_all]. apply (keeps_set_conn _ d); [done|].
  revert Ed. unfold dconn_forceClose. repeat case_match; naive_solver.
Qed.
Lemma keeps_writable c w : keeps w (data_writable c w).
Proof.
  unfold data_writable. destruct (conns w !! c) as [d|] eqn:E; [|apply keeps_refl].
  destruct (dconn_writable d) as [[d' ps] sh] eqn:Ed.
  eapply keeps_trans; [|apply keeps_queue_all]. eapply keeps_trans; [|apply keeps_emits]. apply (keeps_set_conn _ d); [done|].
  revert Ed. unfold dconn_writable. repeat case_match; naive_solver.
Qed.
Lemma keeps_set_callback b c w : keeps w (set_callback b c w).
Proof.
  unfold set_callback. destruct (conns w !! c) as [d|] eqn:E; [|apply keeps_refl]. by apply (keeps_set_conn _ d).
Qed.

(** The transfers. *)
Lemma fine_submit t w : fine w (trySubmit_ t w).
Proof. unfold trySubmit_. destruct (pool_accepts w); [left; apply keeps_set_tasks|right; apply closing_queued]. Qed.

Lemma fine_chunk gen chunk e i w w' : sendChunkReady gen chunk e i w = Ok w' → fine w w'.
Proof.
  unfold sendChunkReady. destruct (_ || _); [intros [= <-]; left; apply keeps_refl|].
  destruct i; [intros [= <-]; right; apply closing_queued|].
  assert (Kd : ∀ v, keeps v (on_session (set_done true) v)) by (by split).
  destruct (_ && _), (dataConn_ _) as [c|]; try done; [| |intros [= <-]; left; apply keeps_refl].
  - intros [= <-]. left. eapply keeps_trans; [apply Kd|apply keeps_shutdown].
  - destruct (negb _); intros [= <-]; left; [apply keeps_refl|].
    destruct e; [|apply keeps_send]. eapply keeps_trans; [apply keeps_send|]. eapply keeps_trans; [apply Kd|apply keeps_shutdown].
Qed.

Lemma fine_next w w' : requestNextChunk w = Ok w' → fine w w'.
Proof.
  unfold requestNextChunk. destruct (_ || _); [intros [= <-]; left; apply keeps_refl|]. destruct (bool_decide _).
  - intros [= <-]. eapply fine_trans; [|apply fine_submit]. by apply keeps_session.
  - destruct (xferDir_ _) as [es|]; [|done]. case_decide as Hd.
    + intros H. apply fine_chunk in H. eapply fine_trans; [|exact H]. by apply keeps_session.
    + intros [= <-]. eapply fine_trans; [|apply fine_submit]. by apply keeps_session.
Qed.

Lemma fine_complete w w' : writeComplete w = Ok w' → fine w w'.
Proof. unfold writeComplete. destruct (negb _); [by apply fine_next|]. intros [= <-]. left. apply keeps_refl. Qed.

Lemma fine_start w w' : tryStartTransfer disk w = Ok w' → fine w w'.
Proof.
  unfold tryStartTransfer. destruct (dataConn_ _) as [c|]; [|intros [= <-]; left; apply keeps_refl].
  destruct (_ || _); [intros [= <-]; left; apply keeps_refl|].
  assert (Ks : ∀ (f : FtpSession → FtpSession) e v, dataServer_ (f (session v)) = dataServer_ (session v) → dataConn_ (f (session v)) = dataConn_ (session v) →
    xfer_ (f (session v)) = xfer_ (session v) → keeps v (emit e (on_session f v))).
  { intros f e v A1 A2 A3. eapply keeps_trans; [by apply keeps_session|apply keeps_emit]. }
  destruct (bool_decide _).
  - destruct (_ <? 0); [intros [= <-]; right; apply closing_queued|]. intros H. apply fine_next in H.
    eapply fine_trans; [|exact H]. by apply Ks.
  - destruct (disk_opendir _ _); [|intros [= <-]; right; apply closing_queued]. intros H. apply fine_next in H.
    eapply fine_trans; [|exact H]. by apply Ks.
Qed.

(** A data connection comes up or goes down. *)
Lemma watched_connected c w w' :
  watched w → alive_conn w c ∨ connected c w = false → handleDataConnected disk c w = Ok w' → watched w'.
Proof.
  intros Hw Ha. unfold handleDataConnected. destruct (connected c w); [|intros [= <-]; left; apply closing_queued].
  destruct Ha as [Ha|]; [|done]. destruct (dataConn_ (session w)) as [c0|] eqn:Ec.
  - intros [= <-]. eapply watched_fine; [exact Hw|]. left. apply keeps_forceClose.
  - intros H. apply fine_start in H. eapply watched_fine; [|exact H].
    eapply watched_fine; [|left; apply keeps_set_callback]. destruct Hw as [C|[Hs Hc]]; [by left|right].
    split; [by right; right|]. by intros c' [= <-].
Qed.

Lemma watched_close w : watched (closeDataServer w).
Proof. right. unfold closeDataServer. destruct (dataServer_ (session (on_session _ w))) eqn:E; cbn in *; by rewrite ?E. Qed.

Lemma watched_down c w w' : close_conn disk c w = Ok w' → watched w → watched w'.
Proof.
  unfold close_conn. destruct (conns w !! c) as [d|] eqn:E; [|by intros [= <-]].
  destruct (bool_decide _); [by intros [= <-]|]. intros H _. unfold handleDataConnected in H.
  assert (X : connected c (set_conn c (with_cst Down d) w) = false) by (unfold connected; cbn; by rewrite lookup_insert_eq).
  rewrite X in H. injection H as <-. left. apply closing_queued.
Qed.

Lemma watched_delete c w w' : delete_conn disk c w = Ok w' → watched w → watched w'.
Proof.
  unfold delete_conn. destruct (conns w !! c) as [d|] eqn:E; [|by intros [= <-]].
  destruct (cst d); [|done|by intros [= <-]]. intros H _. unfold handleDataConnected in H.
  assert (X : connected c (set_conn c (with_cst Down d) w) = false) by (unfold connected; cbn; by rewrite lookup_insert_eq).
  rewrite X in H. injection H as <-. left. apply closing_queued.
Qed.

(** The commands. *)
Lemma fine_login body w w' :
  requireLogin w body = Ok w' → fine w w' ∨ body w = Ok w'.
Proof.
  unfold requireLogin. destruct (bool_decide _); [by right|]. intros [= <-]. left; left. apply keeps_reply.
Qed.

Lemma watched_pasv w w' : watched w → cmdPasv local_ip server_port w = Ok w' → watched w'.
Proof.
  intros Hw H. destruct (fine_login _ _ _ H) as [F|E]; [by eapply watched_fine|]. injection E as <-.
  eapply watched_fine; [|left; apply keeps_reply].
  assert (Ht : ∀ v k, timers v ++ [k] ≠ []) by (intros v k; by destruct (timers v)).
  destruct (dataServer_ (session w)) as [k|] eqn:Ek; unfold closeDataServer; cbn; rewrite ?Ek.
  - right. split; [intros _; left; apply Ht|by intros c [=]].
  - destruct Hw as [C|[Hs Hc]]; [by left|right]. split; [intros _; left; apply Ht|exact Hc].
Qed.

(** Starting a transfer after its kind has been set. *)
Lemma watched_transfer f text w w' :
  watched w → (∀ s, dataServer_ (f s) = dataServer_ s) → (∀ s, dataConn_ (f s) = dataConn_ s) → (∀ s, xfer_ (f s) ≠ kNone) →
  tryStartTransfer disk (reply text (cancel_pasv (on_session f w))) = Ok w' → watched w'.
Proof.
  intros Hw H1 H2 H3 H. apply fine_start in H. eapply watched_fine; [|exact H].
  eapply watched_fine; [|left; apply keeps_reply].
  assert (G : ∀ v, functors v = functors w → conns v = conns w → session v = f (session w) → watched v).
  { intros v E1 E2 E3. unfold watched, closing, alive_conn. rewrite E1, E2, E3, H1, H2. destruct Hw as [C|[Hs Hc]]; [by left|right].
    split; [|exact Hc]. intros _. right; left. apply H3. }
  apply G; unfold cancel_pasv; cbn; by destruct (pasvTimerId_ _).
Qed.

Lemma watched_list long w w' : watched w → cmdList disk long w = Ok w' → watched w'.
Proof.
  intros Hw H. destruct (fine_login _ _ _ H) as [F|E]; [by eapply watched_fine|].
  destruct (dataServer_ (session w)); [|injection E as <-; eapply watched_fine; [done|left; apply keeps_reply]].
  by eapply watched_transfer in E.
Qed.

Lemma watched_retr arg w w' : watched w → cmdRetr disk arg w = Ok w' → watched w'.
Proof.
  intros Hw H. destruct (fine_login _ _ _ H) as [F|E]; [by eapply watched_fine|].
  assert (R : ∀ t, Ok (reply t w) = Ok w' → watched w') by (intros t [= <-]; eapply watched_fine; [done|left; apply keeps_reply]).
  destruct (dataServer_ (session w)); [|by eapply R]. case_decide; [by eapply R|]. destruct (_ || _); [by eapply R|].
  cbv zeta in E. destruct (disk_stat disk _) as [st|]; [|by eapply R]. destruct (negb _); [by eapply R|].
  by eapply watched_transfer in E.
Qed.

Lemma watched_command line w w' : watched w → handleCommand disk local_ip server_port line w = Ok w' → watched w'.
Proof.
  intros Hw. unfold handleCommand. destruct (match find_sub _ _ with Some _ => _ | None => _ end) as [cmd arg].
  assert (L : ∀ body, (∀ v, fine w v → watched v) → requireLogin w body = Ok w' → (∀ v, body w = Ok v → fine w v) → watched w').
  { intros body Hf H Hb. destruct (fine_login _ _ _ H) as [F|E]; auto. }
  assert (Hf : ∀ v, fine w v → watched v) by (intros v; by apply watched_fine).
  assert (S : ∀ f t, (∀ s, dataServer_ (f s) = dataServer_ s) → (∀ s, dataConn_ (f s) = dataConn_ s) → (∀ s, xfer_ (f s) = xfer_ s) →
    fine w (reply t (on_session f w))).
  { intros f t H1 H2 H3. left. eapply keeps_trans; [by apply keeps_session|apply keeps_reply]. }
  repeat case_decide.
  - intros [= <-]. by apply Hf, S.
  - intros [= <-]. unfold cmdPass. destruct (bool_decide _); apply Hf; [by apply S|left; apply keeps_reply].
  - intros [= <-]. apply Hf. left. apply keeps_reply.
  - intros Hc. eapply L; [done|exact Hc|]. intros v [= <-]. left. apply keeps_reply.
  - intros Hc. eapply L; [done|exact Hc|]. intros v [= <-]. left. apply keeps_reply.
  - by apply watched_pasv.
  - by apply watched_list.
  - by apply watched_list.
  - by apply watched_retr.
  - intros [= <-]. apply Hf. left. eapply keeps_trans; [apply keeps_reply|apply keeps_emit].
  - intros [= <-]. apply Hf. left. apply keeps_reply.
Qed.

Lemma watched_foldM {A : Type} (body : A → World → outcome World) l w w' :
  (∀ x v v', body x v = Ok v' → watched v → watched v') → watched w → foldM body l w = Ok w' → watched w'.
Proof.
  intros Hb. revert w; induction l as [|x l IH]; intros w Hw H; cbn in H; [by injection H as <-|].
  bind_inv H. eauto.
Qed.

(** A functor other than the closing leaves the queue. *)
Lemma watched_functor w w' f fs :
  watched w → functors w = f :: fs → run_functor disk f (set_functors fs w) = Ok w' → watched w'.
Proof.
  intros Hw Hf H. destruct (decide (f = FCloseDataServer)) as [->|N]; [injection H as <-; apply watched_close|].
  assert (G : watched (set_functors fs w)).
  { destruct Hw as [C|[Hs Hc]]; [left|by right]. unfold closing in *. rewrite Hf in C. cbn. set_solver. }
  destruct f as [|k|c|c|c|gen chunk e i]; [done|..]; cbn in H.
  - by eapply watched_foldM; [| |exact H]; [apply watched_delete|].
  - by eapply watched_down.
  - eapply watched_fine; [exact G|by apply fine_complete].
  - unfold writeCompleteLate in H. destruct (conns _ !! c) as [d|]; [|by injection H as <-].
    destruct (has_callback d); [|done]. eapply watched_fine; [exact G|by apply fine_complete].
  - eapply watched_fine; [exact G|by eapply fine_chunk].
Qed.

Lemma watched_event e w w' : watched w → handle_event disk local_ip server_port e w = Ok w' → watched w'.
Proof.
  intros Hw. destruct e as [line|k|c|c|i| |t|b|k]; cbn [handle_event].
  - by apply watched_command.
  - intros H. eapply watched_connected; [|left|exact H].
    + destruct Hw as [C|[Hs Hc]]; [by left|right]. split; [done|]. intros c E. destruct (Hc c E) as (d & E1 & E2).
      unfold alive_conn. cbn. destruct (decide (c = next_id w)) as [->|N]; [rewrite lookup_insert_eq; by eexists|].
      exists d. by rewrite lookup_insert_ne.
    + unfold alive_conn. cbn. rewrite lookup_insert_eq. by eexists.
  - intros H. by eapply watched_down.
  - intros [= <-]. eapply watched_fine; [exact Hw|left; apply keeps_writable].
  - destruct (tasks w !! i); intros [= <-]; [|done]. eapply watched_fine; [exact Hw|left].
    eapply keeps_trans; [apply keeps_set_tasks|apply keeps_queueInLoop].
  - destruct (functors w) as [|f fs] eqn:E; [by intros [= <-]|]. by apply watched_functor.
  - intros [= <-]. case_decide; [|done]. unfold pasvTimeout. cbn [session set_timers].
    destruct (_ && _ && _) eqn:Et; [apply watched_close|].
    destruct Hw as [C|[Hs Hc]]; [by left|right]. split; [|exact Hc]. intros Hn. right. cbn [session set_timers] in Hn |- *.
    destruct (dataServer_ (session w)); [|done]. cbn in Et.
    apply andb_false_iff in Et as [Et|Et]; apply bool_decide_eq_false in Et; auto.
  - by intros [= <-].
  - by intros [= <-].
Qed.

(** ** Clients *)

Lemma watched_new : watched new_world.
Proof. by right. Qed.

(** The session of a client that is not destroyed is watched; a destroyed one has let go of everything. *)
Record client_inv (c : Client) : Prop := {
  cl_watched : watched (world c);
  cl_context : ctrl c = CtrlUp → context c = any_object the_session;
  cl_gone : ctrl c = CtrlGone → context c = any_empty;
  cl_new : ctrl c = CtrlNew → destroyed c = false;
  cl_destroyed : destroyed c = true → ctrl c = CtrlGone ∧ held (world c) = false;
  cl_held : destroyed c = false → ctrl c = CtrlGone → held (world c) = true
}.

Lemma watched_messages fuel : ∀ b w b' w',
  watched w → onMessage_loop disk local_ip server_port fuel b w = Ok (b', w') → watched w'.
Proof.
  induction fuel as [|fuel IH]; intros b w b' w' Hw H; cbn [onMessage_loop] in H; [done|].
  destruct (0 <? readableBytes b); [|by injection H as <- <-]. bind_inv H. destruct a as [q|].
  - do 3 bind_inv H. eapply IH; [|exact H]. by eapply watched_command.
  - injection H as <- <-. destruct (_ <? _); [|done]. eapply watched_fine; [exact Hw|left; apply keeps_emit].
Qed.

(** A client between an event and the end of the references it dropped. *)
Record unsettled (c : Client) : Prop := {
  un_watched : watched (world c);
  un_context : ctrl c = CtrlUp → context c = any_object the_session;
  un_gone : ctrl c = CtrlGone → context c = any_empty;
  un_destroyed : destroyed c = true → ctrl c = CtrlGone ∧ held (world c) = false
}.

Lemma held_server w : held w = false → dataServer_ (session w) = None ∧ functors w = [] ∧ tasks w = [] ∧ timers w = [].
Proof.
  unfold held. intros H. apply orb_false_iff in H as [H _]. apply orb_false_iff in H as [H H4].
  apply orb_false_iff in H as [H H3]. apply orb_false_iff in H as [H1 H2].
  destruct (dataServer_ _), (functors w), (tasks w), (timers w); done.
Qed.

Lemma destroy_settled w : held w = false → watched (destroy w) ∧ held (destroy w) = false.
Proof.
  intros H. destruct (held_server w H) as (H1 & H2 & H3 & H4). split; [apply watched_close|].
  assert (E : ∃ s lg, dataServer_ s = None ∧ destroy w = mkWorld s (conns w) (next_id w) (timers w) (functors w) (tasks w) (kernel w) (pool_accepts w) lg).
  { destruct w as [[? ? ds ? ? ? ? fd ? ? ? dir ?] cs id tm fs ts k pa lg]. cbn in H1. subst ds.
    unfold destroy, closeDataServer. cbn -[Z.leb]. destruct (0 <=? fd), dir; cbn; (eexists _, _; split; [|reflexivity]; done). }
  destruct E as (s & lg & Es & ->). revert H. unfold held. cbn [session functors tasks timers conns]. by rewrite Es, H1.
Qed.

Lemma settle_inv c : unsettled c → client_inv (settle c).
Proof.
  intros [H1 H2 H3 H4]. unfold settle.
  destruct (destroyed c) eqn:Ed; cbn [orb].
  { destruct (H4 eq_refl) as [E1 E2]. split; try done; congruence. }
  destruct (has_value (context c)) eqn:Ev; cbn [orb].
  { split; try done; [congruence|]. intros _ E. by rewrite (H3 E) in Ev. }
  destruct (held (world c)) eqn:Eh; cbn [orb]; [by split; [..|congruence|]|].
  case_bool_decide as En; [split; congruence|].
  destruct (destroy_settled _ Eh) as [W Hd]. split; cbn; try done.
  intros _. split; [|done]. destruct (ctrl c) eqn:E; [done| |done]. by rewrite (H2 eq_refl) in Ev.
Qed.

Lemma client_step_inv e c c' : client_inv c → client_step disk local_ip server_port e c = Ok c' → client_inv c'.
Proof.
  intros [W Hu Hg Hn Hd Hh] H. unfold client_step in H. bind_inv H. injection H as <-. apply settle_inv.
  assert (Same : unsettled c) by (by split).
  destruct e as [|data| |e]; cbn [client_event_step] in E.
  - injection E as <-. case_bool_decide as En; [|done]. split; cbn; try done.
    + eapply watched_fine; [exact watched_new|left; apply keeps_reply].
    + by rewrite (Hn En).
  - case_bool_decide as En; [|by injection E as <-]. bind_inv E. unfold messageCallback in E. cbn [context] in E.
    rewrite (Hu En) in E. bind_inv E. destruct a1 as [b w]. injection E as <-. split; cbn; try done; [|by rewrite En|].
    + eapply watched_messages; [exact W|]. unfold onMessage in E1. exact E1.
    + intros D. destruct (Hd D) as [E _]. congruence.
  - injection E as <-. case_bool_decide as En; [|done]. split; cbn; try done.
    intros D. split; [done|]. by apply Hd.
  - destruct (destroyed c || negb (in_loop e)) eqn:Eb; [by injection E as <-|]. apply orb_false_iff in Eb as [Eb _].
    bind_inv E. injection E as <-. split; cbn; try done; [by eapply watched_event|]. by rewrite Eb.
Qed.

Lemma run_client_inv es c c' : client_inv c → run_client disk local_ip server_port es c = Ok c' → client_inv c'.
Proof.
  revert c; induction es as [|e es IH]; intros c I H; cbn in H; [by injection H as <-|].
  bind_inv H. eapply IH; [|exact H]. by eapply client_step_inv.
Qed.

Lemma new_client_inv b : client_inv (new_client b).
Proof. split; cbn; try done. apply watched_new. Qed.

End Watched.

(** ** Sessions on the sample disk *)

Definition client_run (es : list client_event) : outcome Client :=
  b ← newBuffer; run_client demo_disk demo_ip demo_port es (new_client b).
Definition login_pasv : chars := $"USER a" ++ kCRLF ++ $"PASS b" ++ kCRLF ++ $"PASV" ++ kCRLF.
Definition is_destroyed (o : outcome Client) : bool := if o is Ok c then destroyed c else false.
Definition forgotten (o : outcome Client) : bool :=
  if o is Ok c then negb (destroyed c) && bool_decide (ctrl c = CtrlGone) && bool_decide (functors (world c) = []) &&
    bool_decide (length (tasks (world c)) = 0%nat) && bool_decide (timers (world c) = [])
  else false.

(** Left after PASV alone, the session ends with its timer: the closing, and the server's deletion. *)
Example pasv_then_timeout :
  is_destroyed (client_run [ConnUp; ConnData login_pasv; ConnDown; InLoop (ETimer 0); InLoop EFunctor]) = true.
Proof. vm_compute. reflexivity. Qed.

(** Left after PASV and LIST without a data connection, it is never destroyed. *)
Example forgotten_session : forgotten (client_run [ConnUp; ConnData (login_pasv ++ $"LIST" ++ kCRLF); ConnDown]) = true.
Proof. vm_compute. reflexivity. Qed.

(** The timer of a first PASV is not cancelled by a second one, and closes the new server early. *)
Example stale_pasv_timer :
  server_of (run_events demo_disk demo_ip demo_port (take 3 demo_login ++ [ECommand $"PASV"; EFunctor]) new_world) = Some 1%nat ∧
  server_of (run_events demo_disk demo_ip demo_port (take 3 demo_login ++ [ECommand $"PASV"; EFunctor; ETimer 0]) new_world) = None.
Proof. vm_compute. split; reflexivity. Qed.

(** A second RETR during a transfer opens its file over the descriptor of the first, which stays open. *)
Example second_retr_leaks_descriptor :
  (if demo_run [ECommand $"RETR f"; ECommand $"RETR f"; EDataDown 1; EFunctor] is Ok w
   then omap (fun e => match e with OpenFile _ => Some true | CloseFd _ => Some false | _ => None end) (log w) else []) =
    [true; true; false].
Proof. vm_compute. reflexivity. Qed.

