(* ===== verification/FtpCtrl.v ===== *)
(** * FtpCtrl: the control connection of a session, from the socket to the session and back

    Puts the parts together: main's callbacks ([example/miniftpd/src/main.cpp]) and [FtpSession] ([Ftp]) on the
    [TcpConnection] that [TcpServer::newConnection] makes, for any loop and any socket that keep their laws. The callbacks carry state: the loop has the session's world
    beside it ([beside_services]), and what a handler of the session says to its control connection, the new
    entries of its log, is done on the connection. *)

From S2P Require Import Prelude Buffer Strings TcpServer Ftp Miniftpd Channel Sockets TcpConnection.

(** ** What a session says to its control connection *)

(** The lines it replies with. *)
Definition replies (es : list effect) : list chars :=
  omap (fun e => if e is Reply text then Some (text ++ kCRLF) else None) es.
(** The calls of [forceClose], each of which queues a functor. *)
Definition closes (e : effect) : nat := if e is CtrlForceClose then 1 else 0.
Definition short (e : effect) : Prop := if e is Reply text then zlen text <= reply_bound else True.
Definition new_effects (F F' : World) : list effect := drop (length (log F)) (log F').

Lemma new_effects_app F F' es : log F' = log F ++ es → new_effects F F' = es.
Proof. intros E. unfold new_effects. by rewrite E, drop_app_length. Qed.

(** The lines it replies with up to the point where it closes the connection; whether it closes it. *)
Definition is_close (e : effect) : bool := match e with CtrlShutdown | CtrlForceClose => true | _ => false end.
Fixpoint said (es : list effect) : list chars :=
  match es with
  | [] => []
  | e :: es => if is_close e then [] else replies [e] ++ said es
  end.
Definition closed (es : list effect) : bool := existsb is_close es.

Lemma said_app l k : said (l ++ k) = if closed l then said l else said l ++ said k.
Proof.
  induction l as [|e l IH]; [done|]. cbn [app said closed existsb]. destruct (is_close e); [done|]. cbn [orb].
  rewrite IH. unfold closed. destruct (existsb is_close l); [done|by rewrite app_assoc].
Qed.
Lemma closed_app l k : closed (l ++ k) = closed l || closed k.
Proof. apply existsb_app. Qed.
Lemma said_open l : closed l = false → said l = replies l.
Proof.
  induction l as [|e l IH]; [done|]. cbn [closed existsb said]. intros [-> H]%orb_false_iff. rewrite IH by done.
  unfold replies. by rewrite <-omap_app.
Qed.

Section Control.
Context {CB T L S : Type} `{LS : LoopServices CB T L} `{LL : !LoopLaws CB T L} `{SK : SocketKernel S} `{SL : !SocketLaws S}.
Context (fn : conn_functor → T).
Context (disk : Disk) (local_ip : list Z) (server_port : nat → list Z).
(** The close callback of the connection's server. *)
Context (owner : nat → TcpConnection CB S → L → outcome L).
Implicit Types (c : TcpConnection CB S) (l : L) (F : World).

(* @src ftp_session.cpp | void FtpSession::reply( *)
Definition ctrl_effect (e : effect) c l : outcome (TcpConnection CB S * L) :=
  match e with
  | Reply text => send fn (text ++ kCRLF) c l
  | CtrlShutdown => shutdown fn c l
  | CtrlForceClose => forceClose fn c l
  | _ => Ok (c, l)
  end.
Definition ctrl_effects (es : list effect) c l : outcome (TcpConnection CB S * L) :=
  foldM (fun e '(c, l) => ctrl_effect e c l) es (c, l).
(** A handler took the session from [F] to [F']. *)
Definition acting c l F F' : outcome (TcpConnection CB S * (L * World)) :=
  '(c, l) ← ctrl_effects (new_effects F F') c l; Ok (c, (l, F')).

(** The callbacks main gives to the server, by number. *)
Definition main_connection : nat := 3.
Definition main_message : nat := 4.
Definition main_server (s : TcpServer) : TcpServer :=
  server_setMessageCallback (Some main_message) (server_setConnectionCallback (Some main_connection) s).

(* @src miniftpd/src/main.cpp | [&diskPool](const Muduo::TcpConnectionPtr& conn) { | }); | main, connection callback *)
Definition ctrl_connected c (w : L * World) : outcome (TcpConnection CB S * (L * World)) :=
  if connected c then acting (setContext (any_object the_session) c) w.1 new_world (start new_world)
  else Ok (setContext any_empty c, w).

(* @src miniftpd/src/main.cpp | tcp_server.setMessageCallback([](const Muduo::TcpConnectionPtr& conn, | }); | main, message callback *)
Definition ctrl_message c (w : L * World) : outcome (TcpConnection CB S * (L * World)) :=
  match getContext c with
  | any_empty => Ok (c, w)
  | any_object _ =>
      '(b, F') ← onMessage disk local_ip server_port (inputBuffer_ c) w.2;
      acting (with_input b c) w.1 w.2 F'
  | any_nullptr => Fault (Throw BadAnyCast)
  end.
Definition session_user (k : nat) c (w : L * World) : outcome (TcpConnection CB S * (L * World)) :=
  if decide (k = main_connection) then ctrl_connected c w else ctrl_message c w.
Definition session_owner (k : nat) c (w : L * World) : outcome (L * World) := l ← owner k c w.1; Ok (l, w.2).

(** What happens in the connection's loop: its socket's events, the functor of [forceClose], and everything that
    happens to the session elsewhere: its data connection, functors, disk tasks and timers. *)
Inductive ctrl_event := CReadable | CWritable | CError | CForceClose | CSession (e : event).

Definition ctrl_step (e : ctrl_event) '((c, (l, F)) : TcpConnection CB S * (L * World)) : outcome (TcpConnection CB S * (L * World)) :=
  match e with
  | CReadable =>
      if is_state (TcpConnection.state_ c) KConnected || is_state (TcpConnection.state_ c) KDisconnecting
      then handleRead session_user session_owner c (l, F) else Ok (c, (l, F))
  | CWritable => '(c, l) ← handleWrite fn c l; Ok (c, (l, F))
  | CError => '(c, l) ← handleError c l; Ok (c, (l, F))
  | CForceClose => forceCloseInLoop session_user session_owner c (l, F)
  | CSession e =>
      if in_loop e then F' ← handle_event disk local_ip server_port e F; acting c l F F' else Ok (c, (l, F))
  end.
Definition ctrl_run (es : list ctrl_event) (x : TcpConnection CB S * (L * World)) : outcome (TcpConnection CB S * (L * World)) :=
  foldM ctrl_step es x.

(** ** The session's own steps *)

Inductive session_step F : World → Prop :=
| by_event e F' : in_loop e = true → handle_event disk local_ip server_port e F = Ok F' → session_step F F'
| by_input b b' F' : wf b → onMessage disk local_ip server_port b F = Ok (b', F') → session_step F F'.
Inductive session_fault F : fault → Prop :=
| event_fault e f : in_loop e = true → handle_event disk local_ip server_port e F = Fault f → session_fault F f
| input_fault b f : wf b → onMessage disk local_ip server_port b F = Fault f → session_fault F f.

(** A step keeps the session's guard, adds short replies to its log, and calls [forceClose] at most once. *)
Definition steps_to F F' : Prop :=
  session_guard disk (session F') ∧
  ∃ es, log F' = log F ++ es ∧ Forall short es ∧ (sum_list_with closes es <= 1)%nat.

Lemma guard_steps F F' : guard disk (log F) F' → ∃ es, log F' = log F ++ es ∧ Forall short es ∧ sum_list_with closes es = 0%nat.
Proof.
  intros (_ & es & E & H). exists es. split; [done|]. clear E. induction H as [|e es He H [H1 H2]]; [done|].
  split; [constructor; [by destruct e|done]|]. cbn. rewrite H2. by destruct e.
Qed.

Lemma session_guard_start F : session_guard disk (session F) → guard disk (log F) F.
Proof. intros H. split; [done|]. exists []. by rewrite app_nil_r. Qed.

Lemma event_steps e F F' :
  session_guard disk (session F) → handle_event disk local_ip server_port e F = Ok F' → steps_to F F'.
Proof.
  intros G H. assert (G' : guard disk (log F) F') by (eapply guard_event; [by apply session_guard_start|exact H]).
  split; [apply G'|]. destruct (guard_steps F F' G') as (es & E1 & E2 & E3). exists es. rewrite E3. by split_and!; [..|lia].
Qed.

Lemma input_steps b b' F F' :
  wf b → session_guard disk (session F) → onMessage disk local_ip server_port b F = Ok (b', F') → wf b' ∧ steps_to F F'.
Proof.
  intros Wb G H. unfold onMessage in H. rewrite (readable_content b Wb) in H. unfold zlen in H. rewrite Nat2Z.id in H.
  destruct (onMessage_lines disk local_ip server_port (Datatypes.S (length (content b))) b F Wb) as (lines & rest & b1 & _ & W1 & _ & E); [lia|].
  rewrite E in H. bind_inv H. injection H as <- <-. split; [done|].
  assert (G' : guard disk (log F) a).
  { eapply guard_foldM; [|by apply session_guard_start|exact E0]. intros; by eapply guard_command. }
  destruct (guard_steps F a G') as (es & E1 & E2 & E3). split; [destruct G'; by unfold too_long; destruct (_ <? _)|].
  unfold too_long. destruct (4096 <? zlen rest).
  - exists (es ++ [CtrlForceClose]). cbn. rewrite E1, app_assoc, sum_list_with_app, E3. split_and!; [done| |done].
    apply Forall_app. split; [done|by constructor].
  - exists es. rewrite E3. by split_and!; [..|lia].
Qed.

(** ** The connection under a session's effects *)

(** The peer does not reset the connection: a write that takes nothing is only refused for lack of room. *)
Context (peer_reads : ∀ d (s : S) n e s', shut s = false → sock_write d s = (n, e, s') → n <= 0 → e ≠ EPIPE ∧ e ≠ ECONNRESET).
(** The server's close callback queues at most one functor. *)
Context (close_law : ∀ k n c l, conn_inv c l → can_queue (Datatypes.S n) l →
  ∃ l', owner k c l = Ok l' ∧ conn_inv c l' ∧ can_queue n l').

Definition quiet c : Prop := writeCompleteCallback_ c = None ∧ highWaterMarkCallback_ c = None.
Lemma quiet_room n c l : quiet c → can_queue n l → room n c l.
Proof. unfold room. by intros [-> ->]. Qed.

(** The effects were done: on a connected connection the replies up to the close went into the stream, and a close
    ended the connected state; on another nothing changed. *)
Definition spoke (es : list effect) c c' : Prop :=
  same_callbacks c c' ∧
  if decide (TcpConnection.state_ c = KConnected)
  then TcpConnection.state_ c' = (if closed es then KDisconnecting else KConnected) ∧ stream c' = stream c ++ mjoin (said es)
  else TcpConnection.state_ c' = TcpConnection.state_ c ∧ stream c' = stream c.

Lemma spoke_silent es c c' :
  said es = [] → closed es = false → same_callbacks c c' → TcpConnection.state_ c' = TcpConnection.state_ c →
  stream c' = stream c → spoke es c c'.
Proof. intros E Cl U R St. split; [done|]. case_decide as D; [|done]. by rewrite Cl, E, R, St, app_nil_r. Qed.

Lemma spoke_established es c c' : TcpConnection.state_ c ≠ KConnecting → spoke es c c' → TcpConnection.state_ c' ≠ KConnecting.
Proof. intros NC [_ H]. case_decide; destruct H as [-> _]; [by destruct (closed es)|done]. Qed.

Lemma spoke_trans es1 es2 c1 c2 c3 : spoke es1 c1 c2 → spoke es2 c2 c3 → spoke (es1 ++ es2) c1 c3.
Proof.
  intros ((U1 & U2 & U3) & H1) ((U4 & U5 & U6) & H2). split; [split_and!; congruence|].
  rewrite said_app, closed_app. destruct (decide (TcpConnection.state_ c1 = KConnected)) as [E1|E1], H1 as [R1 S1].
  - destruct (closed es1); cbn [orb]; [rewrite decide_False in H2 by congruence|rewrite decide_True in H2 by done]; destruct H2 as [R2 S2].
    + split; congruence.
    + split; [done|]. by rewrite S2, S1, join_app, app_assoc.
  - rewrite decide_False in H2 by congruence. destruct H2 as [R2 S2]. split; congruence.
Qed.

Lemma reply_ok n text c l :
  conn_inv c l → TcpConnection.state_ c ≠ KConnecting → quiet c → zlen text <= reply_bound → can_queue n l →
  ends n (fun c' _ => spoke [Reply text] c c') (send fn (text ++ kCRLF) c l).
Proof.
  intros I NC Hq Ht Q. unfold send. destruct (is_state (TcpConnection.state_ c) KConnected) eqn:Es.
  - apply bool_decide_eq_true in Es. rewrite (ci_thread _ _ I). eapply ends_mono; [done| |apply sendInLoop_ok; try done].
    + intros c' l' (E1 & _ & E2 & _ & [(G & _)|H]).
      * exfalso. destruct G as [G|(_ & k & e & s' & W & Hk & He)]; [congruence|].
        assert (Sh : shut (socket_ c) = false).
        { pose proof (ci_state _ _ I) as St. unfold state_inv in St. rewrite Es in St. apply St. }
        destruct (peer_reads _ _ _ _ _ Sh W Hk) as [? ?]. by destruct He.
      * assert (St : stream c' = stream c ++ (text ++ kCRLF)) by (by destruct H as [(_ & _ & St & _)|(St & _)]).
        split; [done|]. rewrite decide_True by done. split; [by rewrite E1|]. rewrite St. cbn. by rewrite app_nil_r.
    + rewrite zlen_app. change (zlen kCRLF) with 2. unfold reply_bound, PTRDIFF_MAX in *. lia.
    + by apply quiet_room.
  - apply bool_decide_eq_false in Es. right. exists c, l. split_and!; [done..|]. split; [done|]. by rewrite decide_False.
Qed.

Lemma effect_ok n e c l :
  conn_inv c l → TcpConnection.state_ c ≠ KConnecting → quiet c → short e → can_queue (closes e + n) l →
  ends n (fun c' _ => spoke [e] c c') (ctrl_effect e c l).
Proof.
  intros I NC Hq Hs Q.
  assert (Stay : ∀ n e, can_queue n l → TcpConnection.state_ c ≠ KConnected → ends n (fun c' _ => spoke [e] c c') (Ok (c, l))).
  { intros m e' Qm N. right. exists c, l. split_and!; [done..|]. split; [done|]. by rewrite decide_False. }
  destruct e as [text| | |k t|k|p|p|fd|]; cbn [ctrl_effect short closes Nat.add] in *;
    try (right; exists c, l; split_and!; [done..|by apply spoke_silent]).
  - by apply reply_ok.
  - unfold shutdown. destruct (is_state (TcpConnection.state_ c) KConnected) eqn:Es;
      [apply bool_decide_eq_true in Es|apply bool_decide_eq_false in Es; by apply Stay].
    rewrite (ci_thread _ _ I).
    destruct (shutdownInLoop_ok (with_state KDisconnecting c) l) as (c' & -> & I' & E1 & E2 & _ & _ & _ & E3);
      [apply inv_disconnecting; [done|by left]|by left|].
    right. exists c', l. split_and!; [done..|]. split; [exact E3|]. rewrite decide_True by done. split; [exact E1|].
    rewrite E2. cbn. by rewrite app_nil_r.
  - unfold forceClose. assert (Q0 : can_queue n l) by (eapply can_queue_mono; [|exact Q]; lia).
    destruct (is_state (TcpConnection.state_ c) KConnected || is_state (TcpConnection.state_ c) KDisconnecting) eqn:Es;
      [|apply orb_false_iff in Es as [Es _]; apply bool_decide_eq_false in Es; by apply Stay].
    apply orb_true_iff in Es. assert (Lv : live c) by (destruct Es as [Es|Es]; apply bool_decide_eq_true in Es; unfold live; auto).
    destruct (post_ok fn n FForceCloseInLoop (with_state KDisconnecting c) l Q) as (l' & -> & I' & Q' & _); [by apply inv_disconnecting|].
    right. eexists _, l'. split_and!; [done..|]. split; [done|]. case_decide as D; [by cbn; rewrite app_nil_r|].
    destruct Lv as [E|E]; [done|by rewrite E].
Qed.

Lemma effects_ok n es c l :
  conn_inv c l → TcpConnection.state_ c ≠ KConnecting → quiet c → Forall short es → can_queue (sum_list_with closes es + n) l →
  ends n (fun c' _ => spoke es c c') (ctrl_effects es c l).
Proof.
  intros I NC Hq F. revert c l I NC Hq; induction F as [|e es He F IH]; intros c l I NC Hq Q.
  { right. exists c, l. split_and!; [done..|by apply spoke_silent]. }
  unfold ctrl_effects. cbn [foldM]. cbn in Q. rewrite <-Nat.add_assoc in Q.
  destruct (effect_ok _ e c l I NC Hq He Q) as [->|(c1 & l1 & -> & I1 & Q1 & M1)]; [by left|].
  cbn [mbind outcome_bind]. fold (ctrl_effects es c1 l1). pose proof M1 as ((U1 & U2 & U3) & _).
  eapply ends_mono; [done| |apply IH; try done].
  - intros c' l' M2. change (e :: es) with ([e] ++ es). by eapply spoke_trans.
  - exact (spoke_established _ _ _ NC M1).
  - destruct Hq. split; congruence.
Qed.

(** ** Invariant *)

(** The connection carries the session: its callbacks are main's, its context holds the session while it is up,
    and what was accepted for the client after [s0] are the session's replies, in order; all of those before
    the session closed the connection, unless the connection is down. *)
Record serves (s0 : chars) c l F : Prop := {
  sv_inv : conn_inv c l;
  sv_state : TcpConnection.state_ c ≠ KConnecting;
  sv_quiet : quiet c;
  sv_connection : connectionCallback_ c = Some main_connection;
  sv_message : messageCallback_ c = Some main_message;
  sv_context : live c → getContext c = any_object the_session;
  sv_guard : session_guard disk (session F);
  sv_said : ∃ acc, acc `prefix_of` said (log F) ∧ stream c = s0 ++ mjoin acc ∧
    (live c → acc = said (log F) ∧ TcpConnection.state_ c = if closed (log F) then KDisconnecting else KConnected)
}.

Lemma serves_spoke s0 c l F c' l' F' es :
  serves s0 c l F → conn_inv c' l' → spoke es c c' → log F' = log F ++ es → session_guard disk (session F') →
  serves s0 c' l' F'.
Proof.
  intros [I NC [Q1 Q2] Hc Hm Hx G (acc & P & St & A)] I' Sp El G'. pose proof (spoke_established _ _ _ NC Sp) as NC'.
  destruct Sp as ((U1 & U2 & U3) & H). injection U3 as E1 E2 E3 E4.
  assert (Lv : live c' → live c).
  { unfold live. case_decide as D; [by left|]. by destruct H as [-> _]. }
  split; [done|done|split; congruence|congruence..|intros L'; unfold getContext; rewrite E4; auto|done|].
  rewrite El, said_app, closed_app. case_decide as D; destruct H as [R' St'].
  - destruct (A (or_introl D)) as [-> Hcl]. rewrite D in Hcl. destruct (closed (log F)); [done|]. cbn [orb].
    exists (said (log F) ++ said es). split_and!; [done|by rewrite St', St, join_app, app_assoc|by intros _; rewrite R'].
  - exists acc. split_and!; [destruct (closed (log F)); [done|by apply prefix_app_r]|by rewrite St', St|].
    intros L'. destruct (A (Lv L')) as [-> Hcl]. rewrite R', Hcl. destruct (closed (log F)); [done|]. congruence.
Qed.

(** What is left of an event: the outcome of the run goes on. *)
Definition goes_on (n : nat) (s0 : chars) F (r : outcome (TcpConnection CB S * (L * World))) : Prop :=
  r = Fault (Throw LengthError) ∨
  (∃ F1 f, rtc session_step F F1 ∧ session_fault F1 f ∧ r = Fault f) ∨
  ∃ c l F', r = Ok (c, (l, F')) ∧ rtc session_step F F' ∧ serves s0 c l F' ∧ can_queue n l.

Lemma goes_on_same n s0 c l F : serves s0 c l F → can_queue n l → goes_on n s0 F (Ok (c, (l, F))).
Proof. intros Sv Q. right; right. by exists c, l, F. Qed.

Lemma acting_ok n s0 c l F F' :
  serves s0 c l F → steps_to F F' → session_step F F' → can_queue (1 + n) l →
  goes_on n s0 F (acting c l F F').
Proof.
  intros Sv (G & es & El & Fs & Hc) Hs Q. unfold acting. rewrite (new_effects_app F F' es El).
  destruct (effects_ok n es c l) as [->|(c' & l' & -> & I' & Q' & M)]; [by apply Sv..|done| |by left|].
  { eapply can_queue_mono; [|exact Q]. lia. }
  right; right. exists c', l', F'. split_and!; [done|by apply rtc_once| |done]. by eapply serves_spoke.
Qed.

Lemma inv_beside c l F : conn_inv (W := L) c l → conn_inv (W := L * World) c (l, F).
Proof. intros [I1 I2 I3 I4 I5 I6]. by split. Qed.
Lemma inv_alone c (w : L * World) : conn_inv c w → conn_inv c w.1.
Proof. intros [I1 I2 I3 I4 I5 I6]. by split. Qed.

(** Operations of the channel leave the session alone. *)
Lemma channel_beside (f : Channel CB → Channel CB) c (w w' : L * World) c' :
  on_channel (fun ch w => update (f ch) w) c w = Ok (c', w') → w'.2 = w.2.
Proof.
  unfold on_channel, update. cbn. intros H. bind_inv H. destruct a as [ch v]. injection H as <- <-.
  bind_inv E. destruct a as [ch1 v1]. by injection E as <- <-.
Qed.

Lemma close_ok n s0 c l F :
  serves s0 c l F → live c → can_queue (1 + n) l →
  goes_on n s0 F (handleClose session_user session_owner c (l, F)).
Proof.
  intros Sv Lv Q. destruct Sv as [I NC [Q1 Q2] Hc Hm Hx G (acc & P & St & A)].
  destruct (handleClose_down session_user session_owner (1 + n) c (l, F) (inv_beside c l F I) Lv Q)
    as (c1 & w1 & E & I1 & Qw & E1 & S1 & (U1 & U2 & U3) & ->).
  apply (channel_beside (with_events KNoneEvent)) in E. destruct w1 as [l1 F1]. cbn in E. subst F1.
  injection U3 as X1 X2 X3 X4. rewrite X1, Hc. cbn [call_user].
  destruct (ci_set _ _ I) as (_ & _ & [cl Ecl]).
  change (session_user main_connection c1 (l1, F)) with (ctrl_connected c1 (l1, F)).
  unfold ctrl_connected, connected. rewrite E1. change (is_state KDisconnected KConnected) with false. cbn [mbind outcome_bind].
  change (closeCallback_ (setContext any_empty c1)) with (closeCallback_ c1). rewrite X3, Ecl. cbn [call_owner].
  assert (I2 : conn_inv (setContext any_empty c1) l1) by (apply inv_alone in I1; destruct I1; by split).
  unfold session_owner. cbn [fst snd]. destruct (close_law cl n _ l1 I2 Qw) as (l2 & -> & I3 & Q3). cbn [mbind outcome_bind].
  right; right. exists (setContext any_empty c1), l2, F. split_and!; [done|done| |done].
  split; [done|by cbn; rewrite E1|split; cbn; congruence|cbn; congruence|cbn; congruence|unfold live; cbn; rewrite E1; by intros [?|?]|done|].
  exists acc. split_and!; [done|by rewrite <-St, <-S1|]. unfold live. cbn. rewrite E1. by intros [?|?].
Qed.

Lemma message_ok n s0 c l F :
  serves s0 c l F → live c → can_queue (1 + n) l → goes_on n s0 F (ctrl_message c (l, F)).
Proof.
  intros Sv Lv Q. unfold ctrl_message. rewrite (sv_context _ _ _ _ Sv Lv). cbn [fst snd].
  pose proof (ci_in _ _ (sv_inv _ _ _ _ Sv)) as Wb.
  destruct (onMessage disk local_ip server_port (inputBuffer_ c) F) as [[b F']|f] eqn:E; cbn [mbind outcome_bind].
  - destruct (input_steps _ _ _ _ Wb (sv_guard _ _ _ _ Sv) E) as [W' St].
    apply acting_ok; [|done|exact (by_input F _ _ _ Wb E)|done].
    destruct Sv as [I NC Hq Hc Hm Hx G Hsaid]. split; try done. destruct I. by split.
  - right; left. exists F, f. split_and!; [done|exact (input_fault F _ _ Wb E)|done].
Qed.

Lemma step_ok n s0 e c l F :
  serves s0 c l F → can_queue (1 + n) l → goes_on n s0 F (ctrl_step e (c, (l, F))).
Proof.
  intros Sv Q. assert (Q0 : can_queue n l) by (eapply can_queue_mono; [|exact Q]; lia).
  assert (Lv : is_state (TcpConnection.state_ c) KConnected || is_state (TcpConnection.state_ c) KDisconnecting = true → live c).
  { intros [E|E]%orb_true_iff; apply bool_decide_eq_true in E; unfold live; auto. }
  destruct e as [| | | |e]; cbn [ctrl_step].
  - destruct (is_state _ KConnected || _); [specialize (Lv eq_refl)|by apply goes_on_same].
    destruct (handleRead_cases session_user session_owner c (l, F) (inv_beside c l F (sv_inv _ _ _ _ Sv)) Lv)
      as [->|(c1 & I1 & E1 & S1 & (U1 & U2 & U3) & _ & H)]; [by left|].
    assert (Sv1 : serves s0 c1 l F).
    { destruct Sv as [I NC [Q1 Q2] Hc Hm Hx G Hs]. injection U3 as X1 X2 X3 X4.
      split; [by apply inv_alone in I1|congruence|split; congruence|congruence..|unfold live, getContext; by rewrite E1, X4|done|].
      unfold live. by rewrite S1, E1. }
    assert (L1 : live c1) by (unfold live; by rewrite E1).
    destruct H as [->|[->| ->]]; [|by apply close_ok|by apply goes_on_same].
    rewrite (sv_message _ _ _ _ Sv1). cbn [call_user]. by apply message_ok.
  - destruct (handleWrite_ok fn n c l (sv_inv _ _ _ _ Sv) (sv_state _ _ _ _ Sv) Q) as [->|(c' & l' & -> & I' & Q' & Wr)]; [by left|].
    cbn [mbind outcome_bind]. right; right. exists c', l', F. split_and!; [done|done| |done].
    assert (Sp : spoke [] c c').
    { destruct Wr as [(E1 & E2 & _ & E3 & _)|(_ & _ & E1 & E2 & _ & E3 & _)]; by apply spoke_silent. }
    eapply serves_spoke; [exact Sv|done|exact Sp|by rewrite app_nil_r|apply Sv].
  - unfold handleError. destruct (getError_law (socket_ c)) as [G1 G2]. destruct (sock_getError (socket_ c)) as [er s'].
    cbn [mbind outcome_bind]. cbn in G1, G2. apply goes_on_same; [|done].
    destruct Sv as [I NC Hq Hc Hm Hx G (acc & P & St & A)]. split; try done; [by apply inv_socket|].
    exists acc. split_and!; [done| |done]. rewrite <-St. unfold stream. cbn. by rewrite G1.
  - unfold forceCloseInLoop. rewrite (assert_in c (l, F) (inv_beside c l F (sv_inv _ _ _ _ Sv))). cbn [mbind outcome_bind].
    destruct (is_state _ KConnected || _); [|by apply goes_on_same]. apply close_ok; auto.
  - destruct (in_loop e) eqn:Ei; [|by apply goes_on_same].
    destruct (handle_event disk local_ip server_port e F) as [F'|f] eqn:E; cbn [mbind outcome_bind].
    + apply acting_ok; [done|by eapply event_steps; [apply Sv|]|by eapply by_event|done].
    + right; left. exists F, f. split_and!; [done|by eapply event_fault|done].
Qed.

Lemma run_ok n s0 es c l F :
  serves s0 c l F → can_queue (length es + n) l → goes_on n s0 F (ctrl_run es (c, (l, F))).
Proof.
  revert c l F; induction es as [|e es IH]; intros c l F Sv Q; [by apply goes_on_same|].
  unfold ctrl_run. cbn [foldM]. destruct (step_ok (length es + n) s0 e c l F Sv Q) as [->|[(F1 & f & R1 & Hf & ->)|(c1 & l1 & F1 & -> & R1 & Sv1 & Q1)]].
  - by left.
  - right; left. by exists F1, f.
  - cbn [mbind outcome_bind]. destruct (IH c1 l1 F1 Sv1 Q1) as [?|[(F2 & f & R2 & Hf & ?)|(c2 & l2 & F2 & ? & R2 & Sv2 & Q2)]]; [by left|right..].
    + left. exists F2, f. split_and!; [by etrans|done..].
    + right. exists c2, l2, F2. split_and!; [done|by etrans|done..].
Qed.

(** ** From the accepted socket on *)

(** Main's server makes the connection of an accepted socket; its loop [l] establishes it; then [es] happens. *)
Definition ctrl_serve (es : list ctrl_event) (srv : TcpServer) (a : accepted CB S) (self : nat) l :
    outcome (TcpConnection CB S * (L * World)) :=
  '(_, c, _) ← newConnection true a (main_server srv);
  x ← connectEstablished session_user self c (l, new_world);
  ctrl_run es x.

Lemma established_ok n self c l :
  conn_inv (W := L) c l → TcpConnection.state_ c = KConnecting → quiet c → connectionCallback_ c = Some main_connection →
  messageCallback_ c = Some main_message → can_queue n l →
  connectEstablished session_user self c (l, new_world) = Fault (Throw LengthError) ∨
  ∃ c' l', connectEstablished session_user self c (l, new_world) = Ok (c', (l', start new_world)) ∧
    serves (stream c) c' l' (start new_world) ∧ can_queue n l'.
Proof.
  intros I Ec [Q1 Q2] Hc Hm Q.
  destruct (connectEstablished_up session_user self c (l, new_world) (inv_beside c l _ I) Ec)
    as (c1 & w1 & E & I1 & N & E1 & S1 & (U1 & U2 & U3) & ->).
  apply (channel_beside (fun ch => with_events (Z.lor (events_ ch) KReadEvent) ch)) in E.
  specialize (N n Q). destruct w1 as [l1 F1]. cbn in E. subst F1. injection U3 as X1 X2 X3 X4. rewrite X1, Hc. cbn [call_user].
  change (session_user main_connection c1 (l1, new_world)) with (ctrl_connected c1 (l1, new_world)).
  unfold ctrl_connected, connected. rewrite E1. change (is_state KConnected KConnected) with true. cbn iota. cbn [fst].
  set (c2 := setContext (any_object the_session) c1).
  assert (Sv : serves (stream c) c2 l1 new_world).
  { apply inv_alone in I1. split; [by destruct I1|by cbn; rewrite E1|split; cbn; congruence|cbn; congruence..|done|by apply guard_new|].
    exists []. split_and!; [done|by rewrite app_nil_r; exact S1|done]. }
  unfold acting. destruct (effects_ok n [Reply $"220 miniftpd ready"] c2 l1) as [E|(c' & l' & E & I' & Q' & M)];
    [by apply Sv..|by repeat constructor|done| |]; (change (new_effects new_world (start new_world)) with [Reply $"220 miniftpd ready"]; rewrite E).
  - by left.
  - right. exists c', l'. split_and!; [done| |done]. by eapply serves_spoke; [exact Sv|done|exact M|done|apply Sv].
Qed.

End Control.

(** ** A client at the server *)

From S2P Require Import EventLoop.

(** A peer that only reads: what it receives, how much the kernel takes of the next writes, what it sends. *)
Record pipe := mkPipe { p_sent : chars; p_shut : bool; p_room : list nat; p_in : list chars }.

#[global] Instance pipe_kernel : SocketKernel pipe := {|
  sock_write d s :=
    if p_shut s then (-1, EPIPE, s) else
    match p_room s with
    | [] => (-1, EWOULDBLOCK, s)
    | r :: rs => (Z.min (Z.of_nat r) (zlen d), 0, mkPipe (p_sent s ++ take r d) false rs (p_in s))
    end;
  sock_readv cap s :=
    match p_in s with
    | [] => (ReadvError EWOULDBLOCK, s)
    | d :: ds => (ReadvBytes (take (Z.to_nat cap) d), mkPipe (p_sent s) (p_shut s) (p_room s) ds)
    end;
  sock_shutdownWrite s := mkPipe (p_sent s) true (p_room s) (p_in s);
  sock_getError s := (0, s);
  sock_setopt o on s := s;
  sent := p_sent;
  shut := p_shut
|}.

#[global] Instance pipe_laws : SocketLaws pipe.
Proof.
  split; cbn.
  - intros d s. pose proof (zlen_nonneg d). destruct (p_shut s) eqn:Es; [|destruct (p_room s) as [|r rs]];
      cbn; rewrite ?app_nil_r; bool_prop; split_and!; try done; try lia.
    f_equal. destruct (decide (Z.of_nat r <= zlen d)); [by rewrite Z.min_l, Nat2Z.id|].
    rewrite Z.min_r, !take_ge by (unfold zlen in *; lia). done.
  - intros cap s. destruct (p_in s) as [|d ds]; cbn; [done|]. split_and!; [done..|]. intros. unfold zlen.
    rewrite length_take. lia.
  - done.
  - done.
  - done.
Qed.

Lemma pipe_reads d (s : pipe) n e s' :
  shut s = false → sock_write d s = (n, e, s') → n <= 0 → e ≠ EPIPE ∧ e ≠ ECONNRESET.
Proof. cbn. intros ->. destruct (p_room s); by intros [= <- <- <-] _. Qed.

(** A client logs in with its requests cut in the middle, and quits; the kernel takes the replies in portions. *)
Definition demo_pipe : pipe :=
  mkPipe [] false [5%nat; 100%nat; 3%nat; 100%nat; 100%nat; 100%nat] [$"USER a" ++ kCRLF ++ $"PA"; $"SS b" ++ kCRLF; $"QUIT" ++ kCRLF].
Definition demo_accepted : accepted nat pipe :=
  mkAccepted 7 demo_pipe listen_address (InetAddress_port 81) 0 0 5 (0, 1, 2, 3)%nat.
Definition demo_server : TcpServer :=
  mkServer $"0.0.0.0:8888" $"miniftpd" (mkPool 0 true 0 0 []) (Some default_connection) (Some default_message) None None true 1 ∅ ∅.
Definition demo_ctrl (es : list ctrl_event) :=
  ctrl_serve (fun f => f) demo_disk demo_ip demo_port close_queue es demo_server demo_accepted 1 conn_loop.
Definition demo_talk : list ctrl_event :=
  [CWritable; CReadable; CWritable; CReadable; CReadable; CWritable; CSession (ETimer 0)].
Definition lines (l : list chars) : chars := concat (map (fun t => t ++ kCRLF) l).

Example demo_talk_replies :
  (if demo_ctrl demo_talk is Ok (c, _) then Some (p_sent (socket_ c), p_shut (socket_ c)) else None) =
  Some (lines [$"220 miniftpd ready"; $"331 password required"; $"230 login successful"; $"221 bye"], true).
Proof. vm_compute. reflexivity. Qed.

