(* ===== verification/FileUtils.v ===== *)
(** * FileUtils: reading, writing and atomically replacing files

    Models [deps/common/utilities/file_utils.{h,cpp}]. The system calls are a class, [Files], over an abstract
    state of the file system; their documented behaviour is [FilesLaws]. A function of the module is a program
    over that state: it passes through a list of states, one per system call, and ends with a value or with a
    [std::system_error]. The destructors of [ScopedFd] and [TempFileGuard] run where the scopes end. *)

From S2P Require Import Prelude Strings.

(** ** System calls *)

(** The fields of [struct stat] used here. *)
Record fstat := { fs_mode : Z; fs_size : Z; fs_dev : Z; fs_ino : Z }.
Definition is_reg (m : Z) : bool := Z.land m 61440 =? 32768.

Definition EINTR : Z := 4.
Definition EIO : Z := 5.
Definition ENOMEM : Z := 12.
Definition EEXIST : Z := 17.
Definition ENOTDIR : Z := 20.

(** The calls: [inl errno] or [inr result], and the state after. [file w k] is what reading the entry [k]
    shows to others: mode and content. [fd_entry] and [unread] describe our own descriptors, [signals] bounds
    the interruptions still to come. *)
Class Files (W K : Type) := {
  resolve : chars → K;
  file : W → K → option (Z * chars);
  fd_entry : W → Z → option K;
  unread : W → Z → chars;
  signals : W → nat;
  s_open_read : chars → W → (Z + Z) * W;
  s_open_trunc : chars → W → (Z + Z) * W;
  s_open_excl : chars → W → (Z + Z) * W;
  s_read : Z → Z → W → (Z + chars) * W;
  s_write : Z → chars → W → (Z + Z) * W;
  s_fstat : Z → W → (Z + fstat) * W;
  s_lstat : chars → W → (Z + fstat) * W;
  s_fchmod : Z → Z → W → (Z + unit) * W;
  s_fsync : Z → W → (Z + unit) * W;
  s_close : Z → W → (Z + unit) * W;
  s_rename : chars → chars → W → (Z + unit) * W;
  s_unlink : chars → W → (Z + unit) * W;
  s_sync_dir : chars → W → W
}.

(** ** Programs *)

Section Program.
Context {W : Type}.

(** The states after each call, the last state, and the outcome. *)
Definition prog (A : Type) : Type := W → list W * (W * outcome A).
Definition ret {A : Type} (a : A) : prog A := fun w => ([], (w, Ok a)).
Definition throw {A : Type} (f : fault) : prog A := fun w => ([], (w, Fault f)).
Definition call {A : Type} (op : W → A * W) : prog A := fun w => let '(r, w') := op w in ([w'], (w', Ok r)).
Definition bind {A B : Type} (m : prog A) (k : A → prog B) : prog B := fun w =>
  let '(t, (w', o)) := m w in
  match o with
  | Ok a => let '(t', r) := k a w' in (t ++ t', r)
  | Fault f => (t, (w', Fault f))
  end.
(** Destructors that run when [m] is left by an exception. *)
Definition on_throw {A : Type} (m : prog A) (cleanup : prog unit) : prog A := fun w =>
  let '(t, (w', o)) := m w in
  match o with
  | Ok a => (t, (w', Ok a))
  | Fault f => let '(t', (w'', _)) := cleanup w' in (t ++ t', (w'', Fault f))
  end.
Definition ignore {A : Type} (m : prog A) : prog unit := bind m (fun _ => ret tt).
End Program.

Notation "x <~ m ; k" := (bind m (fun x => k)) (at level 100, m at next level, right associativity, only parsing).
Notation "m ;~ k" := (bind m (fun _ => k)) (at level 100, right associativity, only parsing).

(* @src file_utils.cpp | constexpr size_t kReadBufferSize *)
Definition kReadBufferSize : Z := 64 * 1024.
(* @src file_utils.cpp | constexpr size_t kMaxFileNameLength *)
Definition kMaxFileNameLength : Z := 255.

(* @src file_utils.cpp | void ThrowFileError(const std::error_code& ec, | throw std::system_error(ec, message); *)
Definition ThrowFileError (code : Z) (action path : chars) : fault :=
  Throw (SystemError code (string_of_list_ascii (action ++ $" '" ++ path ++ $"'"))).
(* @src file_utils.cpp | void ThrowOutOfMemory(std::string_view action, *)
Definition ThrowOutOfMemory (action path : chars) : fault := ThrowFileError ENOMEM action path.

(** ** Paths: the parts of [std::filesystem::path] that are used *)

Fixpoint after_last_slash (p : chars) : option chars :=
  match p with
  | [] => None
  | c :: p' => match after_last_slash p' with
               | Some f => Some f
               | None => if decide (c = "/"%char) then Some p' else None
               end
  end.
(** [filename()]: what follows the last slash. *)
Definition filename (p : chars) : chars := from_option id p (after_last_slash p).
(** The path without its trailing slashes, a lone root excepted. *)
Fixpoint strip_slashes (n : nat) (p : chars) : chars :=
  match n with
  | O => p
  | S n => if decide (last p = Some "/"%char ∧ (1 < length p)%nat) then strip_slashes n (removelast p) else p
  end.
(** [parent_path()]. *)
Definition parent_path (p : chars) : chars :=
  let d := take (length p - length (filename p)) p in strip_slashes (length d) d.
(** [has_parent_path() ? parent_path() : "."]. *)
Definition directory_of (p : chars) : chars := if decide (parent_path p = []) then $"." else parent_path p.

(** [%016llx]. *)
Fixpoint hex_digits (n : nat) (v : Z) : chars :=
  match n with
  | O => []
  | S n => hex_digits n (v / 16) ++ [char_of_code (if v mod 16 <? 10 then 48 + v mod 16 else 87 + v mod 16)]
  end.
(* @src file_utils.cpp | std::string HexString( *)
Definition HexString (value : Z) : chars := snprintf 17 (hex_digits 16 value).

Section Module.
Context {W K : Type} `{FS : Files W K}.
Abbreviation M := (@prog W).
(** Whether a string of a size can be allocated; the process id; [RandomBits] by the value of the counter;
    the fuel of the loops. *)
Context (can_hold : Z → bool) (pid : Z) (random : Z → Z) (fuel : nat).

(** Turn an error of a call into the exception. *)
Definition or_throw_file {A : Type} (r : Z + A) (action path : chars) : M A :=
  match r with inl e => throw (ThrowFileError e action path) | inr a => ret a end.

(** ** Reading *)

(** The loop of [ReadInto], with what the sink holds. *)
Fixpoint read_loop (n : nat) (fd : Z) (path sink : chars) : M chars :=
  match n with
  | O => throw Undefined
  | S n =>
      r <~ call (s_read fd kReadBufferSize);
      match r with
      | inl e => if e =? EINTR then read_loop n fd path sink else throw (ThrowFileError e $"cannot read file" path)
      | inr data =>
          if decide (data = []) then ret sink
          else if can_hold (zlen sink + zlen data) then read_loop n fd path (sink ++ data)
          else throw (ThrowOutOfMemory $"cannot read file" path)
      end
  end.

(** The scope of a [ScopedFd]: its destructor closes, whether the scope is left by an exception or not. *)
(* @src file_utils.cpp | class ScopedFd { | int fd_ = -1; *)
Definition scoped {A : Type} (fd : Z) (m : M A) : M A :=
  a <~ on_throw m (ignore (call (s_close fd))); call (s_close fd) ;~ ret a.

(* @src file_utils.cpp | void ReadInto(const std::string& path, Sink& sink) { *)
Definition ReadInto (path : chars) : M chars :=
  r <~ call (s_open_read path);
  fd <~ or_throw_file r $"cannot open file" path;
  scoped fd
    (st <~ call (s_fstat fd);
     if (if st is inr st then is_reg (fs_mode st) && (0 <? fs_size st) && negb (can_hold (fs_size st)) else false)
     then throw (ThrowOutOfMemory $"cannot read file" path)
     else read_loop fuel fd path []).

(* @src file_utils.cpp | std::string read_file( *)
Definition read_file (path : chars) : M chars := ReadInto path.
(* @src file_utils.cpp | std::vector<uint8_t> read_file_bytes( *)
Definition read_file_bytes (path : chars) : M (list Z) := value <~ ReadInto path; ret (char_code <$> value).

(** ** Writing *)

(** The loop of [WriteAll] on what is left to write. *)
Fixpoint write_loop (n : nat) (fd : Z) (rest path : chars) : M unit :=
  if decide (rest = []) then ret tt else
  match n with
  | O => throw Undefined
  | S n =>
      r <~ call (s_write fd rest);
      match r with
      | inl e => if e =? EINTR then write_loop n fd rest path else throw (ThrowFileError e $"cannot write file" path)
      | inr result =>
          if result =? 0 then throw (ThrowFileError EIO $"cannot write file" path)
          else write_loop n fd (drop (Z.to_nat result) rest) path
      end
  end.
(* @src file_utils.cpp | void WriteAll(int fd, *)
Definition WriteAll (fd : Z) (content path : chars) : M unit := write_loop fuel fd content path.

(** [file.close()]: the descriptor is given up whether or not the call succeeds. *)
Definition close_or_throw (fd : Z) (path : chars) : M unit :=
  r <~ call (s_close fd); or_throw_file r $"cannot close file" path.

(* @src file_utils.cpp | void write_file(const std::string& path, *)
Definition write_file (path content : chars) : M unit :=
  r <~ call (s_open_trunc path);
  fd <~ or_throw_file r $"cannot open file" path;
  on_throw (WriteAll fd content path) (ignore (call (s_close fd))) ;~
  close_or_throw fd path.
(* @src file_utils.cpp | void write_file_bytes(const std::string& path, *)
Definition write_file_bytes (path : chars) (content : list Z) : M unit :=
  write_file path (if decide (content = []) then [] else char_of_code <$> content).

(** ** Replacing atomically *)

(** [None]: no mode to inherit. *)
(* @src file_utils.cpp | bool TargetMode(const std::string& path, *)
Definition TargetMode (path : chars) : M (option Z) :=
  r <~ call (s_lstat path);
  ret (match r with
       | inl _ => None
       | inr st => if is_reg (fs_mode st) then Some (Z.land (fs_mode st) 511) else None
       end).

(** The name tried with a value of the counter: the prefix is cut so that the name stays below [NAME_MAX]. *)
Definition temp_name (name : chars) (counter : Z) : chars :=
  let suffix := udec pid ++ $"." ++ udec counter ++ $"." ++ HexString (random counter) in
  let budget := u64 (kMaxFileNameLength - zlen suffix - 1) in
  let head := $"." ++ name ++ $".tmp." in
  (if budget <? zlen head then take (Z.to_nat budget) head else head) ++ suffix.

(** The attempts left and the counter. *)
Fixpoint create_loop (attempts : nat) (counter : Z) (directory name target : chars) : M (Z * chars) :=
  match attempts with
  | O => throw (ThrowFileError EEXIST $"cannot create temporary file for" target)
  | S attempts =>
      let candidate := directory ++ $"/" ++ temp_name name counter in
      fd <~ call (s_open_excl candidate);
      match fd with
      | inr fd => ret (fd, candidate)
      | inl e => if e =? EEXIST then create_loop attempts (u64 (counter + 1)) directory name target
                 else throw (ThrowFileError e $"cannot create temporary file for" target)
      end
  end.
(* @src file_utils.cpp | TempFile CreateTempFile( *)
Definition CreateTempFile (counter : Z) (directory name target : chars) : M (Z * chars) :=
  create_loop 128 counter directory name target.

(* @src file_utils.cpp | void VerifyTempFile(int fd, *)
Definition VerifyTempFile (fd : Z) (temp_path target : chars) : M unit :=
  r <~ call (s_fstat fd);
  fd_st <~ or_throw_file r $"cannot stat temporary file for" target;
  r <~ call (s_lstat temp_path);
  path_st <~ or_throw_file r $"cannot stat temporary file for" target;
  if negb (fs_dev fd_st =? fs_dev path_st) || negb (fs_ino fd_st =? fs_ino path_st)
  then throw (ThrowFileError EIO $"temporary file was replaced while writing" target)
  else ret tt.

(* @src file_utils.cpp | void SyncDirectory( *)
Definition SyncDirectory (directory : chars) : M unit :=
  ignore (call (fun w => (tt, s_sync_dir directory w))).

(** What is written to the temporary file, up to its verification. *)
Definition fill_temp (fd : Z) (temp path content : chars) (target_mode : option Z) : M unit :=
  r <~ call (s_fstat fd);
  created_st <~ or_throw_file r $"cannot stat temporary file for" path;
  let default_mode := Z.land (fs_mode created_st) 511 in
  r <~ call (s_fchmod fd 384);
  or_throw_file r $"cannot set permissions on" path ;~
  WriteAll fd content path ;~
  r <~ call (s_fchmod fd (from_option id default_mode target_mode));
  or_throw_file r $"cannot set permissions on" path ;~
  r <~ call (s_fsync fd);
  or_throw_file r $"cannot flush file" path ;~
  VerifyTempFile fd temp path.

(** [TempFileGuard] removes the temporary file unless it was released; it is destroyed before the
    descriptor. *)
(* @src file_utils.cpp | void write_file_atomic( *)
Definition write_file_atomic (counter : Z) (path content : chars) : M unit :=
  let directory_path := directory_of path in
  target_mode <~ TargetMode path;
  temp <~ CreateTempFile counter directory_path (filename path) path;
  let '(fd, temp_path) := temp in
  on_throw (fill_temp fd temp_path path content target_mode)
           (call (s_unlink temp_path) ;~ ignore (call (s_close fd))) ;~
  on_throw (close_or_throw fd path) (ignore (call (s_unlink temp_path))) ;~
  on_throw (r <~ call (s_rename temp_path path); or_throw_file r $"cannot replace file" path)
           (ignore (call (s_unlink temp_path))) ;~
  SyncDirectory directory_path.
End Module.

(** ** Queries and listings *)

(** A query of [std::filesystem]: its answer and error code, or [std::bad_alloc] from building the path. *)
Inductive query := Answer (b : bool) (ec : Z) | NoMemory.
(* @src file_utils.cpp | bool QueryPath( *)
Definition QueryPath (q : query) : bool := match q with Answer b ec => b && (ec =? 0) | NoMemory => false end.

(** The status of a path: an error, or whether it exists and its kind. *)
Inductive kind := KNone | KRegular | KDirectory | KSymlink | KOther.
#[global] Instance kind_eq_dec : EqDecision kind.
Proof. solve_decision. Defined.
Definition status_query (mem : bool) (st : kind * Z) (want : kind → bool) : query :=
  if mem then Answer (want st.1) st.2 else NoMemory.

(* @src file_utils.cpp | bool exists(const std::string& path) noexcept { *)
Definition exists_ (mem : bool) (status : kind * Z) : bool := QueryPath (status_query mem status (fun k => negb (bool_decide (k = KNone)))).
(* @src file_utils.cpp | bool is_directory( *)
Definition is_directory (mem : bool) (status : kind * Z) : bool := QueryPath (status_query mem status (fun k => bool_decide (k = KDirectory))).
(* @src file_utils.cpp | bool is_regular_file( *)
Definition is_regular_file (mem : bool) (status : kind * Z) : bool := QueryPath (status_query mem status (fun k => bool_decide (k = KRegular))).
(* @src file_utils.cpp | bool is_symlink( *)
Definition is_symlink (mem : bool) (symlink_status : kind * Z) : bool := QueryPath (status_query mem symlink_status (fun k => bool_decide (k = KSymlink))).
(* @src file_utils.cpp | uint64_t file_size( *)
Definition file_size (path : chars) (size ec : Z) : outcome Z :=
  if negb (ec =? 0) then Fault (ThrowFileError ec $"cannot get size of" path) else Ok (u64 size).

(** The directory iterator: an entry and the error code of the increment after it. *)
Fixpoint list_loop (entries : list (chars * Z)) (path : chars) (names : list chars) : outcome (list chars) :=
  match entries with
  | [] => Ok names
  | (entry, ec) :: entries' =>
      if negb (ec =? 0) then Fault (ThrowFileError ec $"cannot list directory" path)
      else list_loop entries' path (names ++ [filename entry])
  end.
(* @src file_utils.cpp | std::vector<std::string> list_directory( *)
Definition list_directory (path : chars) (status : kind * Z) (open_ec : Z) (entries : list (chars * Z)) : outcome (list chars) :=
  if negb (status.2 =? 0) then Fault (ThrowFileError status.2 $"cannot list directory" path) else
  if negb (bool_decide (status.1 = KDirectory)) then Fault (ThrowFileError ENOTDIR $"cannot list directory" path) else
  if negb (open_ec =? 0) then Fault (ThrowFileError open_ec $"cannot list directory" path) else
  list_loop entries path [].

(** ** The laws of the calls *)

Section Laws.
Context {W K : Type} `{FS : Files W K}.

Definition same_files (w w' : W) : Prop := ∀ k, file w' k = file w k.
Definition same_except (k : K) (w w' : W) : Prop := ∀ k', k' ≠ k → file w' k' = file w k'.
(** Nothing of ours changes and no interruption is added. *)
Definition quiet (w w' : W) : Prop :=
  (∀ fd, fd_entry w' fd = fd_entry w fd) ∧ (signals w' <= signals w)%nat.
End Laws.

(** The documented behaviour of the calls, for files that no other process touches meanwhile. *)
Class FilesLaws (W K : Type) `{Files W K} := {
  open_read_law p w : let '(r, w') := s_open_read p w in
    same_files w w' ∧ (signals w' <= signals w)%nat ∧
    ∀ fd m d, r = inr fd → file w (resolve p) = Some (m, d) → unread w' fd = d;
  read_law fd n w : 0 < n → let '(r, w') := s_read fd n w in
    same_files w w' ∧ quiet w w' ∧
    match r with
    | inl e => unread w' fd = unread w fd ∧ (e = EINTR → (signals w' < signals w)%nat)
    | inr d => unread w fd = d ++ unread w' fd ∧ (d = [] → unread w fd = [])
    end;
  open_trunc_law p w : let '(r, w') := s_open_trunc p w in
    (signals w' <= signals w)%nat ∧
    match r with
    | inl _ => same_files w w'
    | inr fd => same_except (resolve p) w w' ∧ fd_entry w' fd = Some (resolve p) ∧
                ∃ m, file w' (resolve p) = Some (m, []) ∧ ∀ m0 d0, file w (resolve p) = Some (m0, d0) → m = m0
    end;
  open_excl_law p w : let '(r, w') := s_open_excl p w in
    (signals w' <= signals w)%nat ∧
    match r with
    | inl _ => same_files w w'
    | inr fd => same_except (resolve p) w w' ∧ fd_entry w' fd = Some (resolve p) ∧
                file w (resolve p) = None ∧ ∃ m, file w' (resolve p) = Some (m, [])
    end;
  write_law fd k data w : data ≠ [] → fd_entry w fd = Some k → let '(r, w') := s_write fd data w in
    quiet w w' ∧
    match r with
    | inl e => same_files w w' ∧ (e = EINTR → (signals w' < signals w)%nat)
    | inr n => 0 <= n <= zlen data ∧ same_except k w w' ∧
               ∀ m c, file w k = Some (m, c) → file w' k = Some (m, c ++ take (Z.to_nat n) data)
    end;
  fstat_law fd w : let '(r, w') := s_fstat fd w in
    same_files w w' ∧ quiet w w' ∧ ∀ q, unread w' q = unread w q;
  lstat_law p w : let '(r, w') := s_lstat p w in same_files w w' ∧ quiet w w';
  fchmod_law fd k mode w : fd_entry w fd = Some k → let '(r, w') := s_fchmod fd mode w in
    quiet w w' ∧
    match r with
    | inl _ => same_files w w'
    | inr _ => same_except k w w' ∧ ∀ m c, file w k = Some (m, c) → file w' k = Some (mode, c)
    end;
  fsync_law fd w : let '(r, w') := s_fsync fd w in same_files w w' ∧ quiet w w';
  close_law fd w : let '(r, w') := s_close fd w in same_files w w' ∧ (signals w' <= signals w)%nat;
  rename_law a b w : let '(r, w') := s_rename a b w in
    match r with
    | inl _ => same_files w w'
    | inr _ => file w' (resolve b) = file w (resolve a) ∧
               (resolve a ≠ resolve b → file w' (resolve a) = None) ∧
               ∀ k, k ≠ resolve a → k ≠ resolve b → file w' k = file w k
    end;
  unlink_law p w : let '(r, w') := s_unlink p w in
    match r with
    | inl _ => same_files w w'
    | inr _ => same_except (resolve p) w w' ∧ file w' (resolve p) = None
    end;
  sync_dir_law d w : same_files w (s_sync_dir d w);
  sibling_law path n : n ≠ filename path → "/"%char ∉ n → resolve (directory_of path ++ $"/" ++ n) ≠ resolve path
}.

(** ** Specifications of programs *)

Section Triples.
Context {W : Type}.

(** From a state with [pre], every state on the way has [inv]; a value is returned with [post], or a
    [std::system_error] is thrown with [exc]. *)
Definition triple {A : Type} (pre : W → Prop) (m : @prog W A) (inv : W → Prop) (post : A → W → Prop) (exc : W → Prop) : Prop :=
  ∀ w, pre w → let '(t, (w', o)) := m w in
    Forall inv t ∧ match o with Ok a => post a w' | Fault f => (∃ code what, f = Throw (SystemError code what)) ∧ exc w' end.

Lemma triple_ret {A : Type} (a : A) pre inv post exc : (∀ w, pre w → post a w) → triple pre (ret a) inv post exc.
Proof. intros H w Hw. cbn. split; [constructor|]. by apply H. Qed.

Lemma triple_throw {A : Type} code action path pre inv (post : A → W → Prop) exc :
  (∀ w, pre w → exc w) → triple pre (throw (ThrowFileError code action path)) inv post exc.
Proof. intros H w Hw. cbn. split; [constructor|]. split; [by eexists _, _|]. by apply H. Qed.

Lemma triple_call {A : Type} (op : W → A * W) pre inv post exc :
  (∀ w, pre w → let '(r, w') := op w in inv w' ∧ post r w') → triple pre (call op) inv post exc.
Proof.
  intros H w Hw. specialize (H w Hw). unfold call. destruct (op w) as [r w']. destruct H. split; [by constructor|done].
Qed.

Lemma triple_bind {A B : Type} (m : prog A) (k : A → prog B) pre inv mid post exc :
  triple pre m inv mid exc → (∀ a, triple (mid a) (k a) inv post exc) → triple pre (bind m k) inv post exc.
Proof.
  intros Hm Hk w Hw. specialize (Hm w Hw). unfold bind. destruct (m w) as [t [w1 [a|f]]]; destruct Hm as [Ht Hp]; [|by split].
  specialize (Hk a w1 Hp). destruct (k a w1) as [t' [w2 o]]. destruct Hk as [Ht' Ho]. split; [by apply Forall_app|done].
Qed.

Lemma triple_on_throw {A : Type} (m : prog A) (cleanup : prog unit) pre inv post mid exc :
  triple pre m inv post mid → triple mid cleanup inv (fun _ => exc) exc → triple pre (on_throw m cleanup) inv post exc.
Proof.
  intros Hm Hc w Hw. specialize (Hm w Hw). unfold on_throw. destruct (m w) as [t [w1 [a|f]]]; destruct Hm as [Ht Hp]; [by split|].
  destruct Hp as [Hf Hp]. specialize (Hc w1 Hp). destruct (cleanup w1) as [t' [w2 o]]. destruct Hc as [Ht' Ho].
  split; [by apply Forall_app|]. split; [done|]. by destruct o as [?|?]; [|destruct Ho].
Qed.

Lemma triple_weaken {A : Type} (m : prog A) pre pre' inv post post' exc exc' :
  triple pre m inv post exc → (∀ w, pre' w → pre w) → (∀ a w, post a w → post' a w) → (∀ w, exc w → exc' w) →
  triple pre' m inv post' exc'.
Proof.
  intros Hm H1 H2 H3 w Hw. specialize (Hm w (H1 w Hw)). destruct (m w) as [t [w1 [a|f]]]; destruct Hm as [Ht Hp]; split; auto.
  destruct Hp; auto.
Qed.

Lemma triple_inv {A : Type} (m : prog A) pre (inv inv' : W → Prop) post exc :
  (∀ w, inv w → inv' w) → triple pre m inv post exc → triple pre m inv' post exc.
Proof.
  intros Hi Hm w Hw. specialize (Hm w Hw). destruct (m w) as [t [w1 o]]. destruct Hm as [Ht Hp]. split; [|done].
  by eapply Forall_impl.
Qed.

Lemma triple_assoc {A B C : Type} (m1 : prog A) (m2 : A → prog B) (m3 : B → prog C) pre inv post exc :
  triple pre (bind (bind m1 m2) m3) inv post exc → triple pre (bind m1 (fun a => bind (m2 a) m3)) inv post exc.
Proof.
  intros H w Hw. specialize (H w Hw). unfold bind in *. destruct (m1 w) as [t [w1 [a|f]]]; [|done].
  destruct (m2 a w1) as [t2 [w2 [b|f]]]; [|done]. destruct (m3 b w2) as [t3 r]. by rewrite app_assoc.
Qed.

Lemma triple_exists {A X : Type} (m : prog A) (pre : X → W → Prop) inv post exc :
  (∀ x, triple (pre x) m inv post exc) → triple (fun w => ∃ x, pre x w) m inv post exc.
Proof. intros H w [x Hw]. by apply (H x). Qed.

Lemma triple_pure {A : Type} (m : prog A) (P : Prop) pre inv post exc :
  (P → triple pre m inv post exc) → triple (fun w => P ∧ pre w) m inv post exc.
Proof. intros H w [HP Hw]. by apply H. Qed.

Lemma triple_or_throw {A : Type} (r : Z + A) action path pre inv post exc :
  (∀ w e, r = inl e → pre w → exc w) → (∀ w a, r = inr a → pre w → post a w) →
  triple pre (or_throw_file r action path) inv post exc.
Proof. intros He Ha. destruct r as [e|a]; [apply triple_throw|apply triple_ret]; eauto. Qed.

Lemma triple_ignore {A : Type} (m : prog A) pre inv post exc :
  triple pre m inv (fun _ => post) exc → triple pre (ignore m) inv (fun _ => post) exc.
Proof. intros Hm. eapply triple_bind; [exact Hm|]. intros a. by apply triple_ret. Qed.
End Triples.

Section Writing.
Context {W K : Type} `{FS : Files W K} `{L : !FilesLaws W K}.
Context (can_hold : Z → bool) (pid : Z) (random : Z → Z) (fuel : nat).

(** An open file being written: only the entry [k] differs from [w0], it holds [m] and [c], [s] bounds the
    interruptions. *)
Definition writing (w0 : W) (fd : Z) (k : K) (s : nat) (m : Z) (c : chars) (w : W) : Prop :=
  fd_entry w fd = Some k ∧ same_except k w0 w ∧ file w k = Some (m, c) ∧ (signals w <= s)%nat.
Definition some_writing (w0 : W) (fd : Z) (k : K) (s : nat) (w : W) : Prop := ∃ m c, writing w0 fd k s m c w.

Lemma same_trans k w0 w w' : same_except k w0 w → same_except k w w' → same_except k w0 w'.
Proof. intros H1 H2 k' Hk. rewrite H2, H1; done. Qed.
Lemma same_files_except k w w' : same_files w w' → same_except k w w'.
Proof. intros H k' _. apply H. Qed.

(** Calls that do not change files keep the picture. *)
Lemma writing_quiet w0 fd k s m c w w' :
  same_files w w' → quiet w w' → writing w0 fd k s m c w → writing w0 fd k s m c w'.
Proof.
  intros Hf [Hq Hs] (He & Hx & Hk & Hle). split_and!; [by rewrite Hq| |by rewrite Hf|lia].
  eapply same_trans; [done|by apply same_files_except].
Qed.

Lemma write_loop_spec w0 fd k path n : ∀ s m c rest,
  (length rest + s <= n)%nat →
  triple (writing w0 fd k s m c) (write_loop n fd rest path) (same_except k w0)
         (fun _ => writing w0 fd k s m (c ++ rest)) (some_writing w0 fd k s).
Proof.
  induction n as [|n IH]; intros s m c rest Hn; cbn [write_loop]; case_decide as Er.
  - subst rest. apply triple_ret. intros w. by rewrite app_nil_r.
  - destruct rest; [done|cbn in Hn; lia].
  - subst rest. apply triple_ret. intros w. by rewrite app_nil_r.
  - eapply (triple_bind _ _ _ _ (fun r w => match r with
      | inl e => ∃ s', (s' <= s)%nat ∧ (e = EINTR → (s' < s)%nat) ∧ writing w0 fd k s' m c w
      | inr i => 0 <= i <= zlen rest ∧ writing w0 fd k s m (c ++ take (Z.to_nat i) rest) w end)).
    + apply triple_call. intros w (He & Hx & Hk & Hle). pose proof (write_law fd k rest w Er He) as Lw.
      destruct (s_write fd rest w) as [[e|i] w']; destruct Lw as [[Hq Hs] Lw].
      * destruct Lw as [Hf Hi]. pose proof (same_trans _ _ _ _ Hx (same_files_except k _ _ Hf)).
        split; [done|]. exists (signals w'). split_and!; [lia|intros E; specialize (Hi E); lia|].
        split_and!; [by rewrite Hq|done|by rewrite Hf|done].
      * destruct Lw as (Hi & Hse & Hk'). pose proof (same_trans _ _ _ _ Hx Hse). split; [done|]. split; [done|].
        split_and!; [by rewrite Hq|done|by apply Hk'|lia].
    + intros [e|i].
      * destruct (e =? EINTR) eqn:Ee; bool_prop.
        -- intros w (s' & Hle & Hlt & Hw). specialize (Hlt Ee).
           pose proof (IH s' m c rest ltac:(lia) w Hw) as T. revert T.
           destruct (write_loop n fd rest path w) as [t [w' [u|f]]]; intros [Ht Hp]; split; try done.
           ++ destruct Hp as (? & ? & ? & ?). split_and!; try done. lia.
           ++ destruct Hp as [? (m' & c' & ? & ? & ? & ?)]. split; [done|]. exists m', c'. split_and!; try done. lia.
        -- apply triple_throw. intros w (s' & Hle & _ & (? & ? & ? & ?)). exists m, c. split_and!; try done. lia.
      * destruct (i =? 0) eqn:Ei; bool_prop.
        -- apply triple_throw. intros w [_ Hw]. eexists _, _. exact Hw.
        -- intros w [Hi Hw]. specialize (IH s m (c ++ take (Z.to_nat i) rest) (drop (Z.to_nat i) rest)).
           rewrite <-app_assoc, take_drop in IH. apply IH; [|done]. rewrite length_drop. unfold zlen in Hi. lia.
Qed.

(** ** [write_file] *)

(** A successful [write_file] leaves the content; whatever happens no other file changes. *)
Lemma write_file_spec w0 path content :
  (length content + signals w0 <= fuel)%nat →
  triple (eq w0) (write_file fuel path content) (same_except (resolve path) w0)
         (fun _ w => same_except (resolve path) w0 w ∧ (signals w <= signals w0)%nat ∧
            ∃ m, file w (resolve path) = Some (m, content) ∧ ∀ m0 d0, file w0 (resolve path) = Some (m0, d0) → m = m0)
         (same_except (resolve path) w0).
Proof.
  intros Hfuel. set (k := resolve path). unfold write_file.
  set (keeps m := ∀ m0 d0, file w0 k = Some (m0, d0) → m = m0).
  eapply (triple_bind _ _ _ _ (fun r w => match r with
    | inl _ => same_except k w0 w
    | inr fd => ∃ m, keeps m ∧ writing w0 fd k (signals w0) m [] w end)).
  { apply triple_call. intros w <-. pose proof (open_trunc_law path w0) as Lo.
    destruct (s_open_trunc path w0) as [[e|fd] w']; destruct Lo as [Hs Lo].
    - apply (same_files_except k) in Lo. done.
    - destruct Lo as (Hx & He & m & Hm & Hk). split; [done|]. exists m. by split. }
  intros [e|fd]; [eapply triple_bind; [by apply triple_or_throw with (post := fun _ _ => False)|intros a w []]|].
  eapply triple_bind.
  { apply triple_or_throw with (post := fun x w => x = fd ∧ ∃ m, keeps m ∧ writing w0 fd k (signals w0) m [] w); [done|].
    by intros w x [= <-]. }
  intros x. intros w [-> (m & Hk & Hw)]. revert w Hw.
  change (triple (writing w0 fd k (signals w0) m [])
    (bind (on_throw (WriteAll fuel fd content path) (ignore (call (s_close fd)))) (fun _ => close_or_throw fd path))
    (same_except k w0) (fun _ w => same_except k w0 w ∧ (signals w <= signals w0)%nat ∧ ∃ m, file w k = Some (m, content) ∧ keeps m)
    (same_except k w0)).
  eapply triple_bind.
  - eapply triple_on_throw; [by apply (write_loop_spec w0 fd k path fuel (signals w0) m [] content)|].
    apply triple_ignore, triple_call. intros w (m' & c' & _ & Hx & _). pose proof (close_law fd w) as Lc.
    destruct (s_close fd w) as [r w']. destruct Lc as [Hf _].
    split; (eapply same_trans; [exact Hx|by apply same_files_except]).
  - intros u. unfold close_or_throw.
    eapply (triple_bind _ _ _ _ (fun _ w => same_except k w0 w ∧ (signals w <= signals w0)%nat ∧ file w k = Some (m, content))).
    + apply triple_call. intros w (_ & Hx & Hc & Hs). pose proof (close_law fd w) as Lc.
      destruct (s_close fd w) as [r w']. destruct Lc as [Hf Hs'].
      pose proof (same_trans _ _ _ _ Hx (same_files_except k _ _ Hf)). split; [done|]. split_and!; [done|lia|by rewrite Hf].
    + intros r. apply triple_or_throw; [by intros w e _ [Hx _]|]. intros w a _ (Hx & Hs & Hc). split_and!; [done|done|]. by exists m.
Qed.

(** ** [read_file] *)

Lemma read_loop_spec fd path n : ∀ s d sink,
  (length d + s < n)%nat → (∀ z, z <= zlen sink + zlen d → can_hold z = true) →
  triple (fun w => unread w fd = d ∧ (signals w <= s)%nat) (read_loop can_hold n fd path sink) (fun _ => True)
         (fun r _ => r = sink ++ d) (fun _ => True).
Proof.
  induction n as [|n IH]; intros s d sink Hn Hh; [lia|]. cbn [read_loop].
  eapply (triple_bind _ _ _ _ (fun r w => match r with
    | inl e => unread w fd = d ∧ (signals w <= s)%nat ∧ (e = EINTR → (signals w < s)%nat)
    | inr x => d = x ++ unread w fd ∧ (x = [] → d = []) ∧ (signals w <= s)%nat end)).
  - apply triple_call. intros w [Hd Hs]. pose proof (read_law fd kReadBufferSize w ltac:(done)) as Lr.
    destruct (s_read fd kReadBufferSize w) as [[e|x] w']; destruct Lr as (_ & [_ Hs'] & Lr); (split; [done|]).
    + destruct Lr as [Hu He]. split_and!; [by rewrite Hu|lia|intros E; specialize (He E); lia].
    + destruct Lr as [Hu He]. rewrite Hd in *. split_and!; [done|done|lia].
  - intros [e|x].
    + destruct (e =? EINTR) eqn:Ee; bool_prop; [|by apply triple_throw].
      intros w (Hd & Hs & Hi). specialize (Hi Ee). apply (IH (s - 1)%nat d sink); [lia|done|]. split; [done|lia].
    + case_decide as Ex.
      * apply triple_ret. intros w (Hd & He & _). rewrite (He Ex). by rewrite app_nil_r.
      * intros w (Hd & He & Hs). assert (Hl : (length x <> 0)%nat) by (by destruct x).
        assert (Hz : zlen d = zlen x + zlen (unread w fd)) by (rewrite Hd at 1; apply zlen_app).
        rewrite Hh by (pose proof (zlen_nonneg (unread w fd)); lia). rewrite Hd, app_assoc.
        apply (IH s (unread w fd) (sink ++ x)); [|intros z Hzz; apply Hh; rewrite zlen_app in Hzz; lia|done].
        unfold zlen in Hz. lia.
Qed.

Lemma read_file_spec path w0 m d :
  file w0 (resolve path) = Some (m, d) → (length d + signals w0 < fuel)%nat → (∀ z, can_hold z = true) →
  triple (eq w0) (read_file can_hold fuel path) (fun _ => True) (fun r _ => r = d) (fun _ => True).
Proof.
  intros Hd Hfuel Hh. unfold read_file, ReadInto.
  eapply (triple_bind _ _ _ _ (fun r w => ∀ fd, r = inr fd → unread w fd = d ∧ (signals w <= signals w0)%nat)).
  { apply triple_call. intros w <-. pose proof (open_read_law path w0) as Lo. destruct (s_open_read path w0) as [r w'].
    destruct Lo as (_ & Hs & Hu). split; [done|]. intros fd E. split; [by eapply Hu|done]. }
  intros r. eapply triple_bind.
  { apply triple_or_throw with (post := fun fd w => unread w fd = d ∧ (signals w <= signals w0)%nat); [done|]. auto. }
  intros fd. unfold scoped. eapply (triple_bind _ _ _ _ (fun a _ => a = d)).
  - eapply triple_on_throw with (mid := fun _ => True); [|by apply triple_ignore, triple_call; intros w; destruct (s_close fd w)].
    eapply (triple_bind _ _ _ _ (fun _ w => unread w fd = d ∧ (signals w <= signals w0)%nat)).
    + apply triple_call. intros w [Hu Hs]. pose proof (fstat_law fd w) as Lf. destruct (s_fstat fd w) as [st w'].
      destruct Lf as (_ & [_ Hs'] & Hu'). split; [done|]. split; [by rewrite Hu'|lia].
    + intros st. replace (if st is inr st0 then _ else false) with false.
      * apply (read_loop_spec fd path fuel (signals w0) d []); [done|auto].
      * destruct st; [done|]. by rewrite Hh, andb_false_r.
  - intros a. eapply (triple_bind _ _ _ _ (fun _ _ => a = d)).
    + apply triple_call. intros w ->. by destruct (s_close fd w).
    + intros r'. by apply triple_ret.
Qed.

(** ** The names of temporary files *)

Lemma after_last_slash_None p : after_last_slash p = None → "/"%char ∉ p.
Proof.
  induction p as [|c p IH]; cbn; [intros _; apply not_elem_of_nil|]. destruct (after_last_slash p); [done|].
  case_decide; [done|]. intros _. rewrite not_elem_of_cons. split; [congruence|auto].
Qed.
Lemma after_last_slash_Some p f : after_last_slash p = Some f → "/"%char ∉ f.
Proof.
  induction p as [|c p IH]; cbn; [done|]. destruct (after_last_slash p) eqn:E; [intros [= <-]; auto|].
  case_decide; [|done]. intros [= <-]. by apply after_last_slash_None.
Qed.
Lemma filename_no_slash p : "/"%char ∉ filename p.
Proof.
  unfold filename. destruct (after_last_slash p) eqn:E; cbn; [by eapply after_last_slash_Some|by apply after_last_slash_None].
Qed.

Lemma code_not_slash (c : char) : char_code c ≠ 47 → c ≠ "/"%char.
Proof. by intros H ->. Qed.

Lemma udec_no_slash n : 0 <= n → "/"%char ∉ udec n.
Proof.
  intros Hn Hin. pose proof (udec_digits n Hn) as H. rewrite Forall_forall in H. specialize (H _ Hin). by vm_compute in H.
Qed.

Lemma HexString_spec v : length (HexString v) = 16%nat ∧ "/"%char ∉ HexString v.
Proof.
  unfold HexString.
  assert (G : ∀ n v, length (hex_digits n v) = n ∧ "/"%char ∉ hex_digits n v).
  { induction n as [|n IH]; intros u; [split; [done|apply not_elem_of_nil]|]. cbn [hex_digits].
    destruct (IH (u / 16)) as [Hl Hs]. rewrite length_app, Hl. split; [cbn; lia|].
    rewrite not_elem_of_app. split; [done|]. rewrite list_elem_of_singleton. intros E. symmetry in E. revert E. apply code_not_slash.
    pose proof (Z.mod_pos_bound u 16 ltac:(lia)). rewrite char_code_of_code.
    destruct (u mod 16 <? 10) eqn:C; bool_prop; rewrite Z.mod_small by lia; lia. }
  destruct (G 16%nat v) as [Hl Hs]. rewrite snprintf_short by (rewrite Hl; lia). done.
Qed.

Definition id_ok (z : Z) : Prop := 0 <= z < 2 ^ 64.

(** The name of a temporary file is none of the target's and stays below [NAME_MAX]. *)
Lemma temp_name_ok name counter :
  id_ok pid → id_ok counter → "/"%char ∉ name → zlen name <= 190 →
  temp_name pid random name counter ≠ name ∧ "/"%char ∉ temp_name pid random name counter ∧
  zlen (temp_name pid random name counter) <= kMaxFileNameLength.
Proof.
  unfold id_ok. intros Hp Hc Hs Hn. destruct (HexString_spec (random counter)) as [Hl Hh]. unfold temp_name.
  assert (Hpl : (length (udec pid) <= 20)%nat) by (apply udec_length; [change (10 ^ Z.of_nat 20) with 100000000000000000000; lia|lia]).
  assert (Hcl : (length (udec counter) <= 20)%nat) by (apply udec_length; [change (10 ^ Z.of_nat 20) with 100000000000000000000; lia|lia]).
  set (suffix := udec pid ++ _). assert (Hsl : zlen suffix <= 58).
  { unfold suffix, zlen. rewrite !length_app, Hl. change (length $".") with 1%nat. lia. }
  assert (Hss : "/"%char ∉ suffix).
  { unfold suffix. rewrite !not_elem_of_app. split_and!; [apply udec_no_slash; lia| |apply udec_no_slash; lia| |done];
      apply (bool_decide_unpack _); by vm_compute. }
  pose proof (zlen_nonneg suffix). set (head := $"." ++ name ++ $".tmp.").
  assert (Hhl : zlen head = zlen name + 6) by (unfold head; rewrite !zlen_app; change (zlen $".") with 1; change (zlen $".tmp.") with 5; lia).
  unfold kMaxFileNameLength. rewrite u64_small by lia. rewrite (proj2 (Z.ltb_ge _ _)) by lia.
  split_and!.
  - intros E. apply (f_equal zlen) in E. rewrite zlen_app in E. lia.
  - rewrite not_elem_of_app. split; [|done]. unfold head. rewrite !not_elem_of_app. split_and!; [|done|];
      apply (bool_decide_unpack _); by vm_compute.
  - rewrite zlen_app. lia.
Qed.

(** ** [write_file_atomic] *)

Section Atomic.
Context `{!EqDecision K}.
Context (w0 : W) (path content : chars).
Abbreviation target := (resolve path).

(** What a reader of the target may see: the old file, or the new one, whole. *)
Definition old_or_new (w : W) : Prop := file w target = file w0 target ∨ ∃ m, file w target = Some (m, content).

Lemma create_spec n : ∀ counter,
  id_ok pid → id_ok counter → zlen (filename path) <= 190 →
  triple (fun w => same_files w0 w ∧ (signals w <= signals w0)%nat)
    (create_loop pid random n counter (directory_of path) (filename path) path) old_or_new
    (fun r w => resolve r.2 ≠ target ∧ file w0 (resolve r.2) = None ∧
                ∃ m, writing w0 r.1 (resolve r.2) (signals w0) m [] w)
    (same_files w0).
Proof.
  induction n as [|n IH]; intros counter Hp Hc Hn; cbn [create_loop]; [apply triple_throw; by intros w []|].
  destruct (temp_name_ok (filename path) counter Hp Hc (filename_no_slash path) Hn) as (Hne & Hsl & _).
  pose proof (sibling_law path _ Hne Hsl) as Hk. set (cand := directory_of path ++ _) in *.
  eapply (triple_bind _ _ _ _ (fun r w => match r with
    | inl _ => same_files w0 w ∧ (signals w <= signals w0)%nat
    | inr fd => file w0 (resolve cand) = None ∧ ∃ m, writing w0 fd (resolve cand) (signals w0) m [] w end)).
  - apply triple_call. intros w [Hf Hs]. pose proof (open_excl_law cand w) as Lo.
    destruct (s_open_excl cand w) as [[e|fd] w']; destruct Lo as [Hs' Lo].
    + split; [left; by rewrite Lo, Hf|]. split; [intros k; by rewrite Lo, Hf|lia].
    + destruct Lo as (Hx & He & Hnone & m & Hm). split; [left; by rewrite Hx, Hf|]. split; [by rewrite <-Hf|].
      exists m. split_and!; [done| |done|lia]. intros k Hkk. by rewrite Hx, Hf.
  - intros [e|fd].
    + destruct (e =? EEXIST); [|apply triple_throw; by intros w []].
      apply IH; [done| |done]. unfold id_ok, u64. apply Z.mod_pos_bound. lia.
    + apply triple_ret. intros w (Hnone & m & Hw). cbn. by eauto.
Qed.

Section Filled.
Context (fd : Z) (temp : chars).
Context (Hk : resolve temp ≠ target) (Hnone : file w0 (resolve temp) = None).
Abbreviation k := (resolve temp).
Abbreviation s := (signals w0).

Lemma same_except_old w : same_except k w0 w → old_or_new w.
Proof. intros Hx. left. by apply Hx. Qed.

(** A call that changes no file, then its error check. *)
Lemma step_quiet {A : Type} (op : W → (Z + A) * W) action m c :
  (∀ w, let '(r, w') := op w in same_files w w' ∧ quiet w w') →
  triple (writing w0 fd k s m c) (r <~ call op; or_throw_file r action path) (same_except k w0)
         (fun _ => writing w0 fd k s m c) (some_writing w0 fd k s).
Proof.
  intros Hop. eapply (triple_bind _ _ _ _ (fun _ => writing w0 fd k s m c)).
  - apply triple_call. intros w Hw. specialize (Hop w). destruct (op w) as [r w']. destruct Hop as [Hf Hq].
    pose proof (writing_quiet _ _ _ _ _ _ _ _ Hf Hq Hw) as Hw'. split; [|done]. by destruct Hw' as (_ & ? & _).
  - intros r. apply triple_or_throw; [intros w e _ Hw; by eexists _, _|done].
Qed.

Lemma step_fchmod mode m c :
  triple (writing w0 fd k s m c) (r <~ call (s_fchmod fd mode); or_throw_file r $"cannot set permissions on" path)
         (same_except k w0) (fun _ => writing w0 fd k s mode c) (some_writing w0 fd k s).
Proof.
  eapply (triple_bind _ _ _ _ (fun r w => writing w0 fd k s (if r is inr _ then mode else m) c w)).
  - apply triple_call. intros w Hw. pose proof Hw as (He & Hx & Hc & Hs). pose proof (fchmod_law fd k mode w He) as Lf.
    destruct (s_fchmod fd mode w) as [[e|[]] w']; destruct Lf as [[Hq Hsg] Lf].
    + pose proof (writing_quiet _ _ _ _ _ _ _ _ Lf (conj Hq Hsg) Hw) as Hw'. split; [|done]. by destruct Hw' as (_ & ? & _).
    + destruct Lf as [Hse Hm]. pose proof (same_trans _ _ _ _ Hx Hse). split; [done|].
      split_and!; [by rewrite Hq|done|by eapply Hm|lia].
  - intros [e|[]]; apply triple_or_throw; try done. intros w e' _ Hw. by eexists _, _.
Qed.

Lemma verify_spec m c :
  triple (writing w0 fd k s m c) (VerifyTempFile fd temp path) (same_except k w0)
         (fun _ => writing w0 fd k s m c) (some_writing w0 fd k s).
Proof.
  unfold VerifyTempFile. apply triple_assoc. eapply triple_bind.
  { apply step_quiet. intros w. pose proof (fstat_law fd w) as Lf. destruct (s_fstat fd w). by destruct Lf as (? & ? & _). }
  intros fst. apply triple_assoc. eapply triple_bind.
  { apply step_quiet. intros w. exact (lstat_law temp w). }
  intros pst. destruct (_ || _); [apply triple_throw; intros w Hw; by eexists _, _|by apply triple_ret].
Qed.

Lemma fill_spec m tm :
  (length content + s <= fuel)%nat →
  triple (writing w0 fd k s m []) (fill_temp fuel fd temp path content tm) (same_except k w0)
    (fun _ w => ∃ m', (∀ x, tm = Some x → m' = x) ∧ writing w0 fd k s m' content w) (some_writing w0 fd k s).
Proof.
  intros Hfuel. unfold fill_temp. apply triple_assoc. eapply triple_bind.
  { apply step_quiet. intros w. pose proof (fstat_law fd w) as Lf. destruct (s_fstat fd w). by destruct Lf as (? & ? & _). }
  intros st. cbv zeta. apply triple_assoc. eapply triple_bind; [apply step_fchmod|]. intros u1. eapply triple_bind.
  { apply (write_loop_spec w0 fd k path fuel s 384 [] content Hfuel). }
  intros u2. apply triple_assoc. eapply triple_bind; [apply step_fchmod|]. intros u3.
  apply triple_assoc. eapply triple_bind; [apply step_quiet; intros w; exact (fsync_law fd w)|]. intros u4.
  eapply triple_weaken; [apply verify_spec|done| |done]. intros u5 w Hw.
  exists (from_option id (Z.land (fs_mode st) 511) tm). split; [by intros x ->|exact Hw].
Qed.

(** After a failure only the temporary file may be left, and only when it could not be removed. *)
Definition unlinks : Prop := ∀ p v, (s_unlink p v).1 = inr tt.
Definition undone (w : W) : Prop := same_except k w0 w ∧ (unlinks → file w k = None).

Lemma unlink_spec exc :
  triple (same_except k w0) (call (s_unlink temp)) old_or_new (fun _ => undone) exc.
Proof.
  apply triple_call. intros w Hx. pose proof (unlink_law temp w) as Lu. unfold undone, unlinks.
  destruct (s_unlink temp w) as [[e|[]] w'] eqn:E.
  - pose proof (same_trans _ _ _ _ Hx (same_files_except k _ _ Lu)) as Hx'. split; [by apply same_except_old|].
    split; [done|]. intros Hu. specialize (Hu temp w). by rewrite E in Hu.
  - destruct Lu as [Hs Hn]. pose proof (same_trans _ _ _ _ Hx Hs) as Hx'. split; [by apply same_except_old|]. by split.
Qed.

Lemma close_undone : triple undone (ignore (call (s_close fd))) old_or_new (fun _ => undone) undone.
Proof.
  apply triple_ignore, triple_call. intros w [Hx Hu]. pose proof (close_law fd w) as Lc. destruct (s_close fd w) as [r w'].
  destruct Lc as [Hf _]. pose proof (same_trans _ _ _ _ Hx (same_files_except k _ _ Hf)) as Hx'.
  split; [by apply same_except_old|]. split; [done|]. intros H. rewrite Hf. auto.
Qed.

Lemma rename_spec m :
  triple (fun w => same_except k w0 w ∧ file w k = Some (m, content))
    (r <~ call (s_rename temp path); or_throw_file r $"cannot replace file" path) old_or_new
    (fun _ w => file w target = Some (m, content) ∧ same_except target w0 w) (same_except k w0).
Proof.
  eapply (triple_bind _ _ _ _ (fun r w => match r with
    | inl _ => same_except k w0 w
    | inr _ => file w target = Some (m, content) ∧ same_except target w0 w end)).
  - apply triple_call. intros w [Hx Hc]. pose proof (rename_law temp path w) as Lr.
    destruct (s_rename temp path w) as [[e|[]] w'].
    + pose proof (same_trans _ _ _ _ Hx (same_files_except k _ _ Lr)) as Hx'. split; [by apply same_except_old|done].
    + destruct Lr as (Ht & Hgone & Ho). rewrite Hc in Ht. split; [right; eauto|]. split; [done|].
      intros k' Hk'. destruct (decide (k' = k)) as [->|Hne]; [by rewrite Hgone, Hnone|]. by rewrite Ho, Hx.
  - intros [e|[]]; by apply triple_or_throw.
Qed.

(** From the created temporary file to the end. *)
Lemma replace_spec m tm :
  (length content + s <= fuel)%nat →
  triple (writing w0 fd k s m [])
    (on_throw (fill_temp fuel fd temp path content tm) (call (s_unlink temp) ;~ ignore (call (s_close fd))) ;~
     on_throw (close_or_throw fd path) (ignore (call (s_unlink temp))) ;~
     on_throw (r <~ call (s_rename temp path); or_throw_file r $"cannot replace file" path) (ignore (call (s_unlink temp))) ;~
     SyncDirectory (directory_of path)) old_or_new
    (fun _ w => ∃ m', (∀ x, tm = Some x → m' = x) ∧ file w target = Some (m', content) ∧ same_except target w0 w) undone.
Proof.
  intros Hfuel.
  eapply (triple_bind _ _ _ _ (fun _ w => ∃ m', (∀ x, tm = Some x → m' = x) ∧ writing w0 fd k s m' content w)).
  { eapply triple_on_throw; [eapply triple_inv; [apply same_except_old|by apply fill_spec]|].
    eapply triple_bind; [|intros r; apply close_undone].
    eapply triple_weaken; [apply (unlink_spec undone)|by intros w (? & ? & _ & ? & _)|done|done]. }
  intros _. apply triple_exists. intros m'. apply triple_pure. intros Hm.
  eapply (triple_bind _ _ _ _ (fun _ w => same_except k w0 w ∧ file w k = Some (m', content))).
  { eapply triple_on_throw; [|apply triple_ignore, unlink_spec]. unfold close_or_throw.
    eapply (triple_bind _ _ _ _ (fun _ w => same_except k w0 w ∧ file w k = Some (m', content))).
    - apply triple_call. intros w (_ & Hx & Hc & _). pose proof (close_law fd w) as Lc. destruct (s_close fd w) as [r w'].
      destruct Lc as [Hf _]. pose proof (same_trans _ _ _ _ Hx (same_files_except k _ _ Hf)) as Hx'.
      split; [by apply same_except_old|]. split; [done|by rewrite Hf].
    - intros r. apply triple_or_throw; [by intros w e _ []|done]. }
  intros _. eapply triple_bind; [eapply triple_on_throw; [apply rename_spec|apply triple_ignore, unlink_spec]|].
  intros u. unfold SyncDirectory. apply triple_ignore, triple_call. intros w [Ht Hx].
  pose proof (sync_dir_law (directory_of path) w) as Ls. split; [right; exists m'; by rewrite Ls|].
  exists m'. split_and!; [done|by rewrite Ls|]. intros k' Hk'. by rewrite Ls, Hx.
Qed.
End Filled.

Lemma atomic_spec counter :
  id_ok pid → id_ok counter → zlen (filename path) <= 190 → (length content + signals w0 <= fuel)%nat →
  triple (eq w0) (write_file_atomic pid random fuel counter path content) old_or_new
    (fun _ w => same_except target w0 w ∧ ∃ m, file w target = Some (m, content) ∧
       ∀ st, (s_lstat path w0).1 = inr st → is_reg (fs_mode st) = true → m = Z.land (fs_mode st) 511)
    (fun w => file w target = file w0 target ∧ (unlinks → same_files w0 w)).
Proof.
  intros Hp Hc Hn Hfuel. unfold write_file_atomic. cbv zeta.
  eapply (triple_bind _ _ _ _ (fun tm w => same_files w0 w ∧ (signals w <= signals w0)%nat ∧
    ∀ st, (s_lstat path w0).1 = inr st → is_reg (fs_mode st) = true → tm = Some (Z.land (fs_mode st) 511))).
  { unfold TargetMode. eapply (triple_bind _ _ _ _ (fun r w => same_files w0 w ∧ (signals w <= signals w0)%nat ∧ (s_lstat path w0).1 = r)).
    - apply triple_call. intros w <-. pose proof (lstat_law path w0) as Ll. destruct (s_lstat path w0) as [r w'].
      destruct Ll as [Hf [_ Hs]]. split; [left; by rewrite Hf|]. by split_and!.
    - intros r. apply triple_ret. intros w (Hf & Hs & Hr). split_and!; [done|done|]. intros st E Hreg. rewrite Hr in E.
      rewrite E. by rewrite Hreg. }
  intros tm w1 (Hf1 & Hs1 & Htm). revert w1 Hf1 Hs1.
  enough (T : triple (fun w => same_files w0 w ∧ (signals w <= signals w0)%nat)
    (temp <~ CreateTempFile pid random counter (directory_of path) (filename path) path;
     let '(fd, temp_path) := temp in
     on_throw (fill_temp fuel fd temp_path path content tm) (call (s_unlink temp_path) ;~ ignore (call (s_close fd))) ;~
     on_throw (close_or_throw fd path) (ignore (call (s_unlink temp_path))) ;~
     on_throw (r <~ call (s_rename temp_path path); or_throw_file r $"cannot replace file" path) (ignore (call (s_unlink temp_path))) ;~
     SyncDirectory (directory_of path)) old_or_new
    (fun _ w => same_except target w0 w ∧ ∃ m, file w target = Some (m, content) ∧ ∀ st, (s_lstat path w0).1 = inr st → is_reg (fs_mode st) = true → m = Z.land (fs_mode st) 511)
    (fun w => file w target = file w0 target ∧ (unlinks → same_files w0 w))).
  { intros w1 Hf1 Hs1. exact (T w1 (conj Hf1 Hs1)). }
  eapply triple_bind.
  { eapply triple_weaken; [by apply (create_spec 128 counter)|done|intros a w H; exact H|]. intros w Hf. split; [apply Hf|done]. }
  intros [fd temp]. cbn [fst snd]. apply triple_pure. intros Hk. apply triple_pure. intros Hnone. apply triple_exists. intros m.
  eapply triple_weaken; [by apply (replace_spec fd temp Hk Hnone m tm)|done| |].
  - intros u w (m' & Hm & Ht & Hx). split; [done|]. exists m'. split; [done|]. intros st E Hreg. apply Hm. by apply Htm.
  - intros w [Hx Hu]. split; [apply Hx; done|]. intros H k'. destruct (decide (k' = resolve temp)) as [->|]; [|by apply Hx].
    by rewrite Hnone, Hu.
Qed.
End Atomic.
End Writing.

(** ** Properties *)

(** C37. [write_file_atomic] is all or nothing: in every state on the way a reader of the target sees the old file
    or the whole new one; a normal return leaves the new content with the old permissions and changes no other
    entry; an exception is a [std::system_error], leaves the target as it was, and leaves no temporary file
    when [unlink] works. Interrupted and partial writes are continued; the loops end. *)
Theorem atomic_write_all_or_nothing {W K : Type} `{EqDecision K} `{FilesLaws W K} (pid : Z) (random : Z → Z) (fuel : nat)
    (w : W) (path content : chars) (counter : Z) :
  id_ok pid → id_ok counter → zlen (filename path) <= 190 → (length content + signals w <= fuel)%nat →
  let '(states, (w', o)) := write_file_atomic pid random fuel counter path content w in
  Forall (old_or_new w path content) states ∧
  match o with
  | Ok _ => same_except (resolve path) w w' ∧ ∃ m, file w' (resolve path) = Some (m, content) ∧
      ∀ st, (s_lstat path w).1 = inr st → is_reg (fs_mode st) = true → m = Z.land (fs_mode st) 511
  | Fault f => (∃ code what, f = Throw (SystemError code what)) ∧
      file w' (resolve path) = file w (resolve path) ∧ (unlinks → same_files w w')
  end.
Proof.
  intros Hp Hc Hn Hfuel. exact (atomic_spec pid random fuel w path content counter Hp Hc Hn Hfuel w eq_refl).
Qed.

(** C38. What [write_file] wrote, [read_file] reads, through short and interrupted calls: if both return, the
    text read is the text written; otherwise the exception is a [std::system_error]. *)
Theorem write_read_roundtrip {W K : Type} `{FilesLaws W K} (can_hold : Z → bool) (fuel : nat) (w : W) (path content : chars) :
  (length content + signals w < fuel)%nat → (∀ z, can_hold z = true) →
  let '(_, (w1, o)) := write_file fuel path content w in
  match o with
  | Ok _ => let '(_, (_, r)) := read_file can_hold fuel path w1 in
            match r with Ok text => text = content | Fault f => ∃ code what, f = Throw (SystemError code what) end
  | Fault f => ∃ code what, f = Throw (SystemError code what)
  end.
Proof.
  intros Hfuel Hh. pose proof (write_file_spec fuel w path content ltac:(lia) w eq_refl) as Hw.
  destruct (write_file fuel path content w) as [t [w1 [u|f]]]; [|by destruct Hw as [_ [? _]]].
  destruct Hw as (_ & _ & Hs & m & Hf & _).
  pose proof (read_file_spec can_hold fuel path w1 m content Hf ltac:(lia) Hh w1 eq_refl) as Hr.
  destruct (read_file can_hold fuel path w1) as [t' [w2 [r|f]]]; [by destruct Hr|by destruct Hr as [_ [? _]]].
Qed.

(** ** A file system in memory *)

Definition entry : Type := chars * chars.
Record memfs := { mfiles : entry → option (Z * chars); mfds : Z → option (entry * chars); mnext : Z }.

Definition upd {A B : Type} `{EqDecision A} (f : A → B) (a : A) (b : B) : A → B := fun x => if decide (x = a) then b else f x.
Definition mem_key (p : chars) : entry := (directory_of p, filename p).
Definition set_files (f : entry → option (Z * chars)) (w : memfs) : memfs := {| mfiles := f; mfds := mfds w; mnext := mnext w |}.
Definition add_fd (e : entry) (d : chars) (w : memfs) : memfs :=
  {| mfiles := mfiles w; mfds := upd (mfds w) (mnext w) (Some (e, d)); mnext := mnext w + 1 |}.
Definition mem_stat (m : Z) : fstat := {| fs_mode := 32768 + m; fs_size := 0; fs_dev := 0; fs_ino := 0 |}.

(** At most three bytes are read or written at a time. *)
#[global] Instance mem_files : Files memfs entry := {|
  resolve := mem_key;
  file := mfiles;
  fd_entry w fd := fst <$> mfds w fd;
  unread w fd := from_option snd [] (mfds w fd);
  signals _ := 0%nat;
  s_open_read p w := match mfiles w (mem_key p) with Some (m, d) => (inr (mnext w), add_fd (mem_key p) d w) | None => (inl 2, w) end;
  s_open_trunc p w :=
    let m := from_option fst 420 (mfiles w (mem_key p)) in
    (inr (mnext w), add_fd (mem_key p) [] (set_files (upd (mfiles w) (mem_key p) (Some (m, []))) w));
  s_open_excl p w :=
    match mfiles w (mem_key p) with
    | Some _ => (inl EEXIST, w)
    | None => (inr (mnext w), add_fd (mem_key p) [] (set_files (upd (mfiles w) (mem_key p) (Some (420, []))) w))
    end;
  s_read fd n w := match mfds w fd with
    | Some (e, d) => (inr (take 3 d), {| mfiles := mfiles w; mfds := upd (mfds w) fd (Some (e, drop 3 d)); mnext := mnext w |})
    | None => (inl 9, w)
    end;
  s_write fd data w := match mfds w fd with
    | Some (e, _) => match mfiles w e with
                     | Some (m, c) => (inr (zlen (take 3 data)), set_files (upd (mfiles w) e (Some (m, c ++ take 3 data))) w)
                     | None => (inl EIO, w)
                     end
    | None => (inl 9, w)
    end;
  s_fstat fd w := match mfds w fd with
    | Some (e, _) => match mfiles w e with Some (m, _) => (inr (mem_stat m), w) | None => (inl 2, w) end
    | None => (inl 9, w)
    end;
  s_lstat p w := match mfiles w (mem_key p) with Some (m, _) => (inr (mem_stat m), w) | None => (inl 2, w) end;
  s_fchmod fd mode w := match mfds w fd with
    | Some (e, _) => match mfiles w e with
                     | Some (_, c) => (inr tt, set_files (upd (mfiles w) e (Some (mode, c))) w)
                     | None => (inl 2, w)
                     end
    | None => (inl 9, w)
    end;
  s_fsync _ w := (inr tt, w);
  s_close _ w := (inr tt, w);
  s_rename a b w := match mfiles w (mem_key a) with
    | Some f => (inr tt, set_files (upd (upd (mfiles w) (mem_key a) None) (mem_key b) (Some f)) w)
    | None => (inl 2, w)
    end;
  s_unlink p w := (inr tt, set_files (upd (mfiles w) (mem_key p) None) w);
  s_sync_dir _ w := w
|}.

Lemma upd_eq {A B : Type} `{EqDecision A} (f : A → B) a b : upd f a b a = b.
Proof. unfold upd. by rewrite decide_True. Qed.
Lemma upd_ne {A B : Type} `{EqDecision A} (f : A → B) a b x : x ≠ a → upd f a b x = f x.
Proof. intros. unfold upd. by rewrite decide_False. Qed.

Lemma filename_app d n : "/"%char ∉ n → filename (d ++ $"/" ++ n) = n.
Proof.
  intros Hn. unfold filename. assert (E : after_last_slash ($"/" ++ n) = Some n).
  { cbn. destruct (after_last_slash n) eqn:E; [|done]. exfalso. apply Hn. clear Hn. revert l E.
    induction n as [|c n IH]; cbn; [done|]. intros l. destruct (after_last_slash n) as [f|]; [intros [= <-]; right; eauto|].
    case_decide; [subst; intros _; left|done]. }
  induction d as [|c d IH]; cbn [app]; [by rewrite E|]. cbn [after_last_slash].
  destruct (after_last_slash (d ++ $"/" ++ n)) eqn:F; [done|]. exfalso. clear IH.
  revert F. clear -E. induction d as [|x d IH]; cbn [app]; [by rewrite E|]. cbn [after_last_slash].
  by destruct (after_last_slash (d ++ $"/" ++ n)); [|destruct IH].
Qed.

(** Updating one entry or one descriptor leaves the others. *)
Lemma same_except_upd k f (w : memfs) : same_except k w (set_files (upd (mfiles w) k f) w).
Proof. intros k' Hk. cbn. by rewrite upd_ne. Qed.
Lemma quiet_files f (w : memfs) : quiet w (set_files f w).
Proof. by split. Qed.
Lemma quiet_refl (w : memfs) : quiet w w.
Proof. by split. Qed.

#[global] Instance mem_laws : FilesLaws memfs entry.
Proof.
  split; cbn -[take drop].
  - intros p w. destruct (mfiles w (mem_key p)) as [[m d]|]; (split; [done|]); (split; [done|]); [|done].
    intros fd m' d' [= <-] [= _ <-]. cbn. by rewrite upd_eq.
  - intros fd n w _. destruct (mfds w fd) as [[e d]|] eqn:E; (split; [done|]); [|by rewrite E].
    split; [split; [|done]; intros q; cbn -[take drop]; unfold upd; case_decide; [subst; by rewrite E|done]|].
    cbn -[take drop]. rewrite upd_eq. cbn -[take drop]. rewrite take_drop. split; [done|]. by destruct d.
  - intros p w. split; [done|]. split; [|split; [cbn; by rewrite upd_eq|]].
    + intros k' Hk. cbn. by rewrite upd_ne.
    + eexists. split; [cbn; by rewrite upd_eq|]. by intros m0 d0 ->.
  - intros p w. destruct (mfiles w (mem_key p)) as [[m d]|]; (split; [done|]); [done|]. split; [|split; [cbn; by rewrite upd_eq|]].
    + intros k' Hk. cbn. by rewrite upd_ne.
    + split; [done|]. eexists. cbn. by rewrite upd_eq.
  - intros fd k data w Hd He. destruct (mfds w fd) as [[e u]|] eqn:E; [|done]. injection He as <-.
    destruct (mfiles w e) as [[m c]|] eqn:F; [|by split; [apply quiet_refl|]].
    split; [apply quiet_files|]. split; [|split; [apply same_except_upd|]].
    + unfold zlen. rewrite length_take. lia.
    + intros m' c' [= <- <-]. cbn -[take]. rewrite upd_eq. unfold zlen. rewrite Nat2Z.id, length_take.
      destruct (Nat.min_spec 3 (length data)) as [[_ ->]|[Hl ->]]; [done|]. by rewrite !take_ge.
  - intros fd w. destruct (mfds w fd) as [[e u]|]; [destruct (mfiles w e) as [[m c]|]|]; (split; [done|]); by split; [apply quiet_refl|].
  - intros p w. destruct (mfiles w (mem_key p)) as [[m c]|]; by split; [|apply quiet_refl].
  - intros fd k mode w He. destruct (mfds w fd) as [[e u]|] eqn:E; [|done]. injection He as <-.
    destruct (mfiles w e) as [[m c]|] eqn:F; [|by split; [apply quiet_refl|]].
    split; [apply quiet_files|]. split; [apply same_except_upd|]. intros m' c' [= <- <-]. cbn. by rewrite upd_eq.
  - intros fd w. by split; [|apply quiet_refl].
  - done.
  - intros a b w. destruct (mfiles w (mem_key a)) as [f|]; [|done]. split_and!; cbn.
    + by rewrite upd_eq.
    + intros Hne. by rewrite upd_ne, upd_eq.
    + intros k Ha Hb. by rewrite !upd_ne.
  - intros p w. split; [apply same_except_upd|]. cbn. by rewrite upd_eq.
  - done.
  - intros path n Hne Hs E. apply (f_equal snd) in E.
    change (filename (directory_of path ++ $"/" ++ n) = filename path) in E. rewrite filename_app in E by done. done.
Qed.

(** A directory with one file, replaced. *)
Definition mem_start : memfs :=
  {| mfiles := upd (fun _ => None) ($"etc", $"conf") (Some (384, $"old")); mfds := fun _ => None; mnext := 3 |}.

Lemma atomic_write_all_or_nothing_witness :
  let '(states, (w', o)) := write_file_atomic 42 (fun _ => 7) 100 0 $"etc/conf" $"new text" mem_start in
  Forall (old_or_new mem_start $"etc/conf" $"new text") states ∧
  match o with
  | Ok _ => same_except (resolve $"etc/conf") mem_start w' ∧ ∃ m, file w' (resolve $"etc/conf") = Some (m, $"new text") ∧
      ∀ st, (s_lstat $"etc/conf" mem_start).1 = inr st → is_reg (fs_mode st) = true → m = Z.land (fs_mode st) 511
  | Fault f => (∃ code what, f = Throw (SystemError code what)) ∧
      file w' (resolve $"etc/conf") = file mem_start (resolve $"etc/conf") ∧ (unlinks → same_files mem_start w')
  end.
Proof.
  apply (atomic_write_all_or_nothing 42 (fun _ => 7) 100 mem_start $"etc/conf" $"new text" 0);
    [unfold id_ok; lia|unfold id_ok; lia|vm_compute; discriminate|vm_compute; lia].
Defined.

Lemma write_read_roundtrip_witness :
  let '(_, (w1, o)) := write_file 100 $"etc/conf" $"text" mem_start in
  match o with
  | Ok _ => let '(_, (_, r)) := read_file (fun _ => true) 100 $"etc/conf" w1 in
            match r with Ok text => text = $"text" | Fault f => ∃ code what, f = Throw (SystemError code what) end
  | Fault f => ∃ code what, f = Throw (SystemError code what)
  end.
Proof. apply (write_read_roundtrip (fun _ => true) 100 mem_start $"etc/conf" $"text"); [cbn; lia|done]. Defined.

(** The runs of the two witnesses end normally. *)
Example mem_replaces :
  file (write_file_atomic 42 (fun _ => 7) 100 0 $"etc/conf" $"new text" mem_start).2.1 ($"etc", $"conf") = Some (384, $"new text").
Proof. vm_compute. reflexivity. Qed.
