(* ===== verification/LoopThreads.v ===== *)
(** * LoopThreads: the loop and the threads that call into it

    [EventLoop::queueInLoop] and [EventLoop::quit] may run in any thread while the loop's own thread
    is anywhere in [loop()]. This file splits those functions where another thread can interleave (the
    mutex protects only the access to [pendingFunctors_]; the wakeup follows it) and gives the step
    relation of the whole: the loop thread's program counter, the number of other threads between
    their push (or their store to [quit_]) and their [wakeup()], and the loop's members of
    [EventLoop]. [queue_splits] and [quit_splits] tie the pieces to the functions. *)

From S2P Require Import Prelude Channel Poller EventLoop.

Section Threads.
Context {T K E : Type} `{EK : EpollKernel K} `{EF : EventfdKernel E} `{ELw : !EventfdLaws E}.
Local Abbreviation L := (EventLoop T K E).

(** The locked part of [queueInLoop]. *)
(* @src EventLoop.cpp | void EventLoop::queueInLoop(const Functor& cb) | pendingFunctors_.emplace_back(cb); *)
Definition push (cb : T) (l : L) : L := set_pending (pendingFunctors_ l ++ [cb]) l.

Lemma queue_splits (cb : T) (l : L) :
  loop_queueInLoop cb l =
  if isInLoopThread l && negb (callingPendingFunctors_ l) then Ok (push cb l) else wakeup (push cb l).
Proof.
  unfold loop_queueInLoop, when, push.
  change (isInLoopThread (set_pending _ l)) with (isInLoopThread l).
  change (callingPendingFunctors_ (set_pending _ l)) with (callingPendingFunctors_ l).
  by destruct (isInLoopThread l), (callingPendingFunctors_ l).
Qed.

Lemma quit_splits (l : L) :
  quit l = if isInLoopThread l then Ok (set_quit true l) else wakeup (set_quit true l).
Proof.
  unfold quit, when. by destruct (isInLoopThread l).
Qed.

(** Where the loop thread is in [loop()]. [Handling b]: dispatching the active channels, the wakeup
    channel among those still to be handled when [b]. [Running fs]: inside [doPendingFunctors] with [fs]
    left of the swapped batch; [RunWaking fs]: there, between a functor's push and its wakeup. *)
Inductive pc :=
| Idle
| Top
| Polling
| Handling (woken : bool)
| Swapping
| Running (fs : list T)
| RunWaking (fs : list T).

(** [wakers] other threads have pushed or set [quit_] and not yet called [wakeup()]. The histories
    [pushed] and [ran] list the functors queued and run so far; [early] records that the loop's own
    thread queued a functor outside [loop()] that is still waiting. *)
Record TState := mkT {
  tl : L;
  at_ : pc;
  wakers : nat;
  pushed : list T;
  ran : list T;
  early : bool
}.

(* @src EventLoop.cpp | void EventLoop::loop() *)
Inductive loop_step : TState → TState → Prop :=
| s_enter l w p r e :
    looping_ l = false →
    let l1 := set_looping true l in
    let l2 := if started_ l1 then set_quit false l1 else l1 in
    loop_step (mkT l Idle w p r e) (mkT (set_started true l2) Top w p r e)
| s_exit l w p r e :
    quit_ l = true → loop_step (mkT l Top w p r e) (mkT (set_looping false l) Idle w p r e)
| s_poll l w p r e :
    quit_ l = false → loop_step (mkT l Top w p r e) (mkT l Polling w p r e)
| s_ready l w p r e b :
    (* epoll_wait returns: the wakeup channel is active exactly when the counter is not zero *)
    b = (0 <? efd_count (wakeupFd_ l)) →
    loop_step (mkT l Polling w p r e) (mkT l (Handling b) w p r e)
| s_read l l' w p r e :
    loop_handleRead l = Ok l' →
    loop_step (mkT l (Handling true) w p r e) (mkT l' (Handling false) w p r e)
| s_handled l w p r e :
    loop_step (mkT l (Handling false) w p r e) (mkT (set_calling true l) Swapping w p r e)
| s_swap l w p r e :
    loop_step (mkT l Swapping w p r e) (mkT (set_pending [] l) (Running (pendingFunctors_ l)) w p r false)
| s_run l f fs w p r e :
    loop_step (mkT l (Running (f :: fs)) w p r e) (mkT l (Running fs) w p (r ++ [f]) e)
| s_done l w p r e :
    loop_step (mkT l (Running []) w p r e) (mkT (set_calling false l) Top w p r e).

(** Calls made by the code the loop thread runs: event callbacks, functors, and the thread itself
    outside [loop()]. *)
(* @src EventLoop.cpp | void EventLoop::queueInLoop(const Functor& cb) *)
Inductive self_step : TState → TState → Prop :=
| s_push_idle l cb w p r e :
    self_step (mkT l Idle w p r e) (mkT (push cb l) Idle w (p ++ [cb]) r true)
| s_push_handling l cb b w p r e :
    self_step (mkT l (Handling b) w p r e) (mkT (push cb l) (Handling b) w (p ++ [cb]) r e)
| s_push_running l cb fs w p r e :
    self_step (mkT l (Running fs) w p r e) (mkT (push cb l) (RunWaking fs) w (p ++ [cb]) r e)
| s_wake_running l l' fs w p r e :
    wakeup l = Ok l' →
    self_step (mkT l (RunWaking fs) w p r e) (mkT l' (Running fs) w p r e)
| s_quit_self l a w p r e :
    (∃ b, a = Handling b) ∨ (∃ fs, a = Running fs) ∨ a = Idle →
    self_step (mkT l a w p r e) (mkT (set_quit true l) a w p r e).

(** Calls from other threads, at any moment. *)
(* @src EventLoop.cpp | void EventLoop::quit() *)
Inductive other_step : TState → TState → Prop :=
| s_push_other l cb a w p r e :
    other_step (mkT l a w p r e) (mkT (push cb l) a (S w) (p ++ [cb]) r e)
| s_quit_other l a w p r e :
    other_step (mkT l a w p r e) (mkT (set_quit true l) a (S w) p r e)
| s_wake_other l l' a w p r e :
    wakeup l = Ok l' →
    other_step (mkT l a (S w) p r e) (mkT l' a w p r e).

Definition thread_step (s s' : TState) : Prop := loop_step s s' ∨ self_step s s' ∨ other_step s s'.

(** A new loop: nothing queued, the counter at zero. *)
Definition thread_init (s : TState) : Prop :=
  at_ s = Idle ∧ wakers s = 0%nat ∧ pushed s = [] ∧ ran s = [] ∧ early s = false ∧
  pendingFunctors_ (tl s) = [] ∧ efd_count (wakeupFd_ (tl s)) = 0.

(** ** Invariant *)

(** Somebody has written the eventfd, or is about to. *)
Definition alarmed (s : TState) : Prop :=
  0 < efd_count (wakeupFd_ (tl s)) ∨ (0 < wakers s)%nat ∨ (∃ fs, at_ s = RunWaking fs).

(** The functors swapped out and not yet run. *)
Definition batch (a : pc) : list T :=
  match a with Running fs | RunWaking fs => fs | _ => [] end.

Definition after_swap (a : pc) : bool :=
  match a with Handling _ | Swapping => false | _ => true end.

(** Between the swap and the return of the next poll a waiting functor has an alarm raised for it; a
    loop about to block on a raised [quit_] too. *)
Definition wake_inv (s : TState) : Prop :=
  0 <= efd_count (wakeupFd_ (tl s)) ∧
  pushed s = ran s ++ batch (at_ s) ++ pendingFunctors_ (tl s) ∧
  (after_swap (at_ s) = true → pendingFunctors_ (tl s) ≠ [] → early s = false → alarmed s) ∧
  (at_ s = Polling → quit_ (tl s) = true → alarmed s).

(** Close the cases of the invariant that follow from it directly. *)
Ltac wake_solve :=
  unfold alarmed in *; cbn in *; rewrite <-?app_assoc, ?app_nil_r in *; cbn in *;
  split_and!; [try done|try done| |]; try naive_solver lia.

Lemma loop_step_inv s s' : loop_step s s' → wake_inv s → wake_inv s'.
Proof.
  intros St (H0 & Hp & Hw & Hq). destruct St as [l w p r e ? l1 l2| |l w p r e Hnq| |l l' w p r e Hr| | | |];
    unfold wake_inv; try solve [wake_solve].
  - (* enter *)
    assert (E1 : wakeupFd_ l2 = wakeupFd_ l) by (subst l2 l1; cbn; by destruct (started_ l)).
    assert (E2 : pendingFunctors_ l2 = pendingFunctors_ l) by (subst l2 l1; cbn; by destruct (started_ l)).
    unfold alarmed in *; cbn in *. rewrite E1, E2. split_and!; naive_solver.
  - (* poll *)
    unfold alarmed in *; cbn in *. split_and!; [done|done| |intros _ ?; congruence].
    intros _ H1 H2. destruct (Hw eq_refl H1 H2) as [?|[?|(fs & ?)]]; [auto..|done].
  - (* read *)
    unfold loop_handleRead in Hr. destruct (efd_read (wakeupFd_ l)) as [n e'] eqn:R.
    destruct (n =? 8); [|done]. injection Hr as <-.
    pose proof (efd_nonneg e'). wake_solve.
Qed.

Lemma self_step_inv s s' : self_step s s' → wake_inv s → wake_inv s'.
Proof.
  intros St (H0 & Hp & Hw & Hq).
  destruct St as [| | |l l' fs w p r e Hk|l a w p r e Ha]; unfold wake_inv; cbn in Hp; try subst p; try solve [wake_solve].
  apply wakeup_inv in Hk as (e' & -> & He). wake_solve.
Qed.

Lemma other_step_inv s s' : other_step s s' → wake_inv s → wake_inv s'.
Proof.
  intros St (H0 & Hp & Hw & Hq).
  destruct St as [| |l l' a w p r e Hk]; unfold wake_inv; cbn in Hp; try subst p; try solve [wake_solve].
  apply wakeup_inv in Hk as (e' & -> & He). wake_solve.
Qed.

Lemma threads_inv s0 s : thread_init s0 → rtc thread_step s0 s → wake_inv s.
Proof.
  intros (A & B & C & D & F & P & Z) R.
  assert (H0 : wake_inv s0).
  { unfold wake_inv, alarmed. rewrite A, C, D, P, Z. by split_and!. }
  revert H0. clear -R ELw. induction R as [|x y z Hxy R IH]; [done|].
  intros Hx. apply IH. destruct Hxy as [?|[?|?]]; eauto using loop_step_inv, self_step_inv, other_step_inv.
Qed.

End Threads.

(** ** Runs *)

(** A loop on the model kernels, owned by thread 1. *)
Definition sample_loop : EventLoop nat (gmap Z (Z * nat)) N :=
  mkLoop 0 false false false false false 1 0 (mkPoller 16 ∅ ∅) 0%N [] None [] 1.
Definition sample_start : TState := mkT sample_loop Idle 0 [] [] false.


(** A functor queued by the loop's own thread before [loop()] raises no alarm: the loop then blocks
    in its first poll, for up to [KPollTimeMs] milliseconds, with the functor waiting, although the
    comment at [queueInLoop] lists only event callbacks as the case without a wakeup. *)
Theorem queue_before_loop_waits :
  ∃ s, rtc thread_step sample_start s ∧ at_ s = Polling ∧ pendingFunctors_ (tl s) = [7%nat] ∧
    efd_count (wakeupFd_ (tl s)) = 0 ∧ wakers s = 0%nat ∧ KPollTimeMs = 10000 ∧
    loop_queueInLoop 7%nat sample_loop = Ok (push 7%nat sample_loop).
Proof.
  eexists. split.
  - eapply rtc_l; [right; left; apply (s_push_idle _ 7%nat)|].
    eapply rtc_l; [left; by apply s_enter|].
    eapply rtc_l; [left; by apply s_poll|]. reflexivity.
  - by split_and!.
Qed.
