(* ===== verification/SysUtils.v ===== *)
(** * SysUtils: blocking socket I/O with timeouts, whole-buffer transfers and lines

    Models [example/miniftpd_c/src/sysutils.cpp]. The state [kern] is what the kernel keeps for the
    descriptor a function works on, together with [errno]. Every system call takes the next entry of
    [replies]: an error number, or leave to transfer at most so many bytes; when the list is empty the call
    transfers all it can. A caller's buffer is a list of cells and a pointer into it an offset. *)

From S2P Require Import Prelude Buffer Sockets.

(** ** The kernel *)

Definition ETIMEDOUT : Z := 110.
Definition EINPROGRESS : Z := 115.
Definition EBADF : Z := 9.

(** What the next call meets. *)
Inductive reply := Done (n : Z) | Err (e : Z).

(** The bytes the peer sends before it closes, the bytes sent to it, the seconds until the descriptor
    becomes readable, writable or has an exceptional condition, [SO_ERROR], the descriptor and peer address
    the next [accept] yields, and the options and locks set on the descriptor. *)
Record kern := mkKern {
  errno : Z;
  replies : list reply;
  incoming : chars;
  outgoing : chars;
  readable : option Z;
  writable : option Z;
  exceptional : option Z;
  so_error : Z;
  accepted : Z * sockaddr_in;
  fl : Z;
  reuseaddr : bool;
  bound : option sockaddr_in;
  listening : bool;
  oobinline : bool;
  owner : Z;
  file_lock : Z
}.

Definition M (A : Type) : Type := kern → outcome (A * kern).
#[global] Instance M_ret : MRet M := fun A a k => Ok (a, k).
#[global] Instance M_bind : MBind M := fun A B f m k =>
  match m k with Ok (a, k') => f a k' | Fault e => Fault e end.

Definition exit_failure {A : Type} : M A := fun _ => Fault ExitFailure.
Definition undefined {A : Type} : M A := fun _ => Fault Undefined.
Definition lift {A : Type} (o : outcome A) : M A := fun k => a ← o; Ok (a, k).
Definition gets {A : Type} (f : kern → A) : M A := fun k => Ok (f k, k).
Definition get_errno : M Z := gets errno.
Definition with_errno (e : Z) (k : kern) : kern :=
  mkKern e (replies k) (incoming k) (outgoing k) (readable k) (writable k) (exceptional k) (so_error k) (accepted k)
         (fl k) (reuseaddr k) (bound k) (listening k) (oobinline k) (owner k) (file_lock k).
Definition set_errno (e : Z) : M unit := fun k => Ok (tt, with_errno e k).

Definition with_io (rs : list reply) (i o : chars) (k : kern) : kern :=
  mkKern (errno k) rs i o (readable k) (writable k) (exceptional k) (so_error k) (accepted k)
         (fl k) (reuseaddr k) (bound k) (listening k) (oobinline k) (owner k) (file_lock k).
Definition with_opts (f : Z) (r : bool) (b : option sockaddr_in) (l o : bool) (own lk : Z) (k : kern) : kern :=
  mkKern (errno k) (replies k) (incoming k) (outgoing k) (readable k) (writable k) (exceptional k) (so_error k) (accepted k)
         f r b l o own lk.

(** A call: -1 with [errno] set, or what [op] does when it may transfer [n] bytes ([None]: no limit). *)
Definition syscall (op : option Z → kern → Z * kern) : M Z := fun k =>
  match replies k with
  | Err e :: rs => Ok (-1, with_errno e (with_io rs (incoming k) (outgoing k) k))
  | Done n :: rs => Ok (op (Some n) (with_io rs (incoming k) (outgoing k) k))
  | [] => Ok (op None k)
  end.
(** A call without a transfer. *)
Definition plain (r : Z) (upd : kern → kern) : M Z := syscall (fun _ k => (r, upd k)).

(** How many of [avail] bytes are transferred. *)
Definition portion (least : Z) (n : option Z) (avail : Z) : Z :=
  match n with None => avail | Some n => Z.min avail (Z.max least n) end.

(** The first [n] queued bytes as far as the next reply lets them through, at least one unless the stream has
    ended, and the replies left. *)
Definition offer (n : Z) (k : kern) : chars * list reply :=
  let limit := match replies k with Done m :: _ => Some m | _ => None end in
  (take (Z.to_nat (portion 1 limit (Z.min n (zlen (incoming k))))) (incoming k), tail (replies k)).
(** [read(fd, _, n)]; [None] for -1. *)
Definition sys_read (n : Z) : M (option chars) := fun k =>
  let '(data, rs) := offer n k in
  match replies k with
  | Err e :: _ => Ok (None, with_errno e (with_io rs (incoming k) (outgoing k) k))
  | _ => Ok (Some data, with_io rs (drop (length data) (incoming k)) (outgoing k) k)
  end.
(** [recv(fd, _, n, MSG_PEEK)]: the same bytes, which stay queued. *)
Definition sys_peek (n : Z) : M (option chars) := fun k =>
  let '(data, rs) := offer n k in
  match replies k with
  | Err e :: _ => Ok (None, with_errno e (with_io rs (incoming k) (outgoing k) k))
  | _ => Ok (Some data, with_io rs (incoming k) (outgoing k) k)
  end.
(** [write(fd, data, |data|)]. *)
Definition sys_write (data : chars) : M Z := syscall (fun n k =>
  let c := portion 0 n (zlen data) in
  (c, with_io (replies k) (incoming k) (outgoing k ++ take (Z.to_nat c) data) k)).

(** [FD_SET]: a descriptor past [FD_SETSIZE] is outside the set. *)
Definition FD_SET (fd : Z) : M unit := if (0 <=? fd) && (fd <? 1024) then mret tt else undefined.

Definition within (limit : Z) (t : option Z) : bool := match t with Some t => t <=? limit | None => false end.
(** [select] on one descriptor, which may be in each of the three sets. Linux leaves the remaining time in
    the timeout, so a repeated call goes on waiting for the same instant. *)
Definition sys_select (rd wr ex : bool) (timeout : Z) : M Z := syscall (fun _ k =>
  ((if (rd && within timeout (readable k)) || (wr && within timeout (writable k)) || (ex && within timeout (exceptional k))
    then 1 else 0), k)).

(** The loop [do r = call; while (r < 0 && errno == EINTR)]. *)
Fixpoint retry (fuel : nat) (call : M Z) : M Z :=
  match fuel with
  | O => undefined
  | S fuel =>
      r ← call; e ← get_errno;
      if (r <? 0) && (e =? EINTR) then retry fuel call else mret r
  end.
(** Every repetition takes a reply. *)
Definition retrying (call : M Z) : M Z := fun k => retry (S (length (replies k))) call k.

(** ** Buffers of the caller *)

(** Write [data] at an offset; outside the buffer is undefined. *)
Definition store (off : nat) (data buf : chars) : outcome chars :=
  if decide (off + length data <= length buf)%nat
  then Ok (take off buf ++ data ++ drop (off + length data) buf) else Fault Undefined.
(** The bytes at an offset. *)
Definition fetch (off n : nat) (buf : chars) : chars := take n (drop off buf).

(** ** Whole-buffer transfers *)

(** The loop of [readn]: [off] is [bufp]. *)
Fixpoint readn_loop (fuel off : nat) (nleft count : Z) (buf : chars) : M (Z * chars) :=
  if 0 <? nleft then
    match fuel with
    | O => undefined
    | S fuel =>
        r ← sys_read nleft;
        match r with
        | None => e ← get_errno; if e =? EINTR then readn_loop fuel off nleft count buf else mret (-1, buf)
        | Some data =>
            if decide (data = []) then mret (i64 (u64 (count - nleft)), buf)
            else buf ← lift (store off data buf);
                 readn_loop fuel (off + length data) (u64 (nleft - zlen data)) count buf
        end
    end
  else mret (i64 count, buf).
(* @src miniftpd_c/src/sysutils.cpp | ssize_t readn( *)
Definition readn (off : nat) (count : Z) (buf : chars) : M (Z * chars) := fun k =>
  readn_loop (S (S (length (replies k) + Z.to_nat count))) off count count buf k.

(** The loop of [writen]: [rest] is what lies behind [bufp]. *)
Fixpoint writen_loop (fuel : nat) (rest : chars) (nleft count : Z) : M Z :=
  if 0 <? nleft then
    match fuel with
    | O => undefined
    | S fuel =>
        nwritten ← sys_write (take (Z.to_nat nleft) rest);
        if nwritten <? 0 then e ← get_errno; if e =? EINTR then writen_loop fuel rest nleft count else mret (-1)
        else if nwritten =? 0 then mret (-1)
        else writen_loop fuel (drop (Z.to_nat nwritten) rest) (u64 (nleft - nwritten)) count
    end
  else mret (i64 count).
(* @src miniftpd_c/src/sysutils.cpp | ssize_t writen( *)
Definition writen (data : chars) : M Z := fun k =>
  writen_loop (S (length (replies k) + length data)) data (zlen data) (zlen data) k.

(** ** Lines *)

(** [while (1)] around [recv]; the result is cut to [int]. *)
Fixpoint peek_loop (fuel off : nat) (len : Z) (buf : chars) : M (Z * chars) :=
  match fuel with
  | O => undefined
  | S fuel =>
      r ← sys_peek len;
      match r with
      | None => e ← get_errno; if e =? EINTR then peek_loop fuel off len buf else mret (-1, buf)
      | Some data =>
          buf ← lift (store off data buf);
          let ret := i32 (zlen data) in
          e ← get_errno;
          if (ret =? -1) && (e =? EINTR) then peek_loop fuel off len buf else mret (ret, buf)
      end
  end.
(* @src miniftpd_c/src/sysutils.cpp | ssize_t recv_peek( *)
Definition recv_peek (off : nat) (len : Z) (buf : chars) : M (Z * chars) := fun k =>
  peek_loop (S (length (replies k))) off len buf k.

Definition newline : char := "010"%char.
(** The [for] loop: the first newline among the bytes. *)
Fixpoint newline_at (l : chars) : option nat :=
  match l with
  | [] => None
  | c :: l' => if decide (c = newline) then Some O else S <$> newline_at l'
  end.

Fixpoint line_loop (fuel off : nat) (nleft : Z) (buf : chars) : M (Z * chars) :=
  match fuel with
  | O => undefined
  | S fuel =>
      r ← recv_peek off nleft buf; let '(nread, buf) := r in
      if nread <? 0 then mret (nread, buf) else
      if nread =? 0 then mret (0, buf) else
      match newline_at (fetch off (Z.to_nat nread) buf) with
      | Some i =>
          r ← readn off (Z.of_nat i + 1) buf; let '(nline, buf) := r in
          if negb (nline =? Z.of_nat i + 1) then exit_failure else mret (nline, buf)
      | None =>
          if nleft <=? nread then exit_failure else
          let nleft := u64 (nleft - nread) in
          r ← readn off nread buf; let '(n, buf) := r in
          if negb (n =? nread) then exit_failure else line_loop fuel (off + Z.to_nat nread) nleft buf
      end
  end.
(** Every round consumes a byte of [maxline]. *)
(* @src miniftpd_c/src/sysutils.cpp | ssize_t readline( *)
Definition readline (maxline : Z) (buf : chars) : M (Z * chars) := line_loop (S (Z.to_nat maxline)) 0 maxline buf.

(** ** Options of the descriptor *)

Definition set_fl (f : Z) (k : kern) : kern :=
  with_opts f (reuseaddr k) (bound k) (listening k) (oobinline k) (owner k) (file_lock k) k.
Definition set_reuse (k : kern) : kern :=
  with_opts (fl k) true (bound k) (listening k) (oobinline k) (owner k) (file_lock k) k.
Definition set_bound (a : sockaddr_in) (k : kern) : kern :=
  with_opts (fl k) (reuseaddr k) (Some a) (listening k) (oobinline k) (owner k) (file_lock k) k.
Definition set_listening (k : kern) : kern :=
  with_opts (fl k) (reuseaddr k) (bound k) true (oobinline k) (owner k) (file_lock k) k.
Definition set_oob (k : kern) : kern :=
  with_opts (fl k) (reuseaddr k) (bound k) (listening k) true (owner k) (file_lock k) k.
Definition set_owner (p : Z) (k : kern) : kern :=
  with_opts (fl k) (reuseaddr k) (bound k) (listening k) (oobinline k) p (file_lock k) k.
Definition set_lock (t : Z) (k : kern) : kern :=
  with_opts (fl k) (reuseaddr k) (bound k) (listening k) (oobinline k) (owner k) t k.

(** [fcntl(fd, F_GETFL)] and [fcntl(fd, F_SETFL, f)]. *)
Definition F_GETFL : M Z := syscall (fun _ k => (fl k, k)).
Definition F_SETFL (f : Z) : M Z := plain 0 (set_fl f).

(** Complement on 32 bits. *)
Definition lnot32 (z : Z) : Z := 2 ^ 32 - 1 - z.

(* @src miniftpd_c/src/sysutils.cpp | void activate_nonblock( *)
Definition activate_nonblock : M unit :=
  flags ← F_GETFL;
  if flags =? -1 then exit_failure else
  ret ← F_SETFL (Z.lor flags O_NONBLOCK);
  if ret =? -1 then exit_failure else mret tt.
(* @src miniftpd_c/src/sysutils.cpp | void deactivate_nonblock( *)
Definition deactivate_nonblock : M unit :=
  flags ← F_GETFL;
  if flags =? -1 then exit_failure else
  ret ← F_SETFL (Z.land flags (lnot32 O_NONBLOCK));
  if ret =? -1 then exit_failure else mret tt.
(* @src miniftpd_c/src/sysutils.cpp | void activate_oobinline( *)
Definition activate_oobinline : M unit :=
  ret ← plain 0 set_oob; if ret =? -1 then exit_failure else mret tt.
(* @src miniftpd_c/src/sysutils.cpp | void activate_sigurg( *)
Definition activate_sigurg (pid : Z) : M unit :=
  ret ← plain 0 (set_owner pid); if ret =? -1 then exit_failure else mret tt.

(** ** Waiting with a limit *)

(** [ret == 0] becomes a timeout, [ret == 1] success. *)
Definition timed (ret : Z) : M Z :=
  if ret =? 0 then set_errno ETIMEDOUT ;; mret (-1)
  else if ret =? 1 then mret 0 else mret ret.

(* @src miniftpd_c/src/sysutils.cpp | int read_timeout( *)
Definition read_timeout (fd wait_seconds : Z) : M Z :=
  if 0 <? wait_seconds then
    FD_SET fd ;; ret ← retrying (sys_select true false false wait_seconds); timed ret
  else mret 0.
(** The descriptor is put in the third set. *)
(* @src miniftpd_c/src/sysutils.cpp | int write_timeout( *)
Definition write_timeout (fd wait_seconds : Z) : M Z :=
  if 0 <? wait_seconds then
    FD_SET fd ;; ret ← retrying (sys_select false false true wait_seconds); timed ret
  else mret 0.

(** [accept]: the new descriptor, and its peer stored through a non-null [addr]. *)
Definition sys_accept (addr : option sockaddr_in) : M (Z * option sockaddr_in) :=
  ret ← syscall (fun _ k => ((accepted k).1, k));
  peer ← gets (fun k => (accepted k).2);
  mret (ret, if ret =? -1 then addr else (fun _ => peer) <$> addr).

(* @src miniftpd_c/src/sysutils.cpp | int accept_timeout( *)
Definition accept_timeout (fd : Z) (addr : option sockaddr_in) (wait_seconds : Z) : M (Z * option sockaddr_in) :=
  if 0 <? wait_seconds then
    FD_SET fd ;; ret ← retrying (sys_select true false false wait_seconds);
    if ret =? -1 then mret (-1, addr)
    else if ret =? 0 then set_errno ETIMEDOUT ;; mret (-1, addr)
    else sys_accept addr
  else sys_accept addr.

(** [getsockopt(SO_ERROR)]: the pending error, or [None] for -1. *)
Definition sys_so_error : M (option Z) :=
  r ← plain 0 id; err ← gets so_error; mret (if r =? -1 then None else Some err).

(** The conditional call of [deactivate_nonblock] before the result is returned. *)
Definition restore_blocking (wait_seconds ret : Z) : M Z :=
  if 0 <? wait_seconds then deactivate_nonblock ;; mret ret else mret ret.

(** [connect] without a reply succeeds at once. *)
(* @src miniftpd_c/src/sysutils.cpp | int connect_timeout( *)
Definition connect_timeout (fd wait_seconds : Z) : M Z :=
  (if 0 <? wait_seconds then activate_nonblock else mret tt) ;;
  ret ← plain 0 id; e ← get_errno;
  ret ← (if (ret <? 0) && (e =? EINPROGRESS)
         then FD_SET fd ;; retrying (sys_select false true false wait_seconds) else mret ret);
  if ret =? 0 then set_errno ETIMEDOUT ;; restore_blocking wait_seconds (-1) else
  if ret <? 0 then mret (-1) else
  if ret =? 1 then
    err ← sys_so_error;
    match err with
    | None => mret (-1)
    | Some err => if err =? 0 then restore_blocking wait_seconds 0
                  else set_errno err ;; restore_blocking wait_seconds (-1)
    end
  else restore_blocking wait_seconds ret.

(** ** Sockets *)

Section Setup.
(** The resolver: the host's name, the address of a name, the address a text denotes. *)
Context (gethostname : option chars) (gethostbyname : chars → option Z) (inet_aton : chars → option Z).

(** The text written to [ip]; [None] when -1 is returned and nothing was written. *)
(* @src miniftpd_c/src/sysutils.cpp | int get_local_ip( *)
Definition get_local_ip : option chars :=
  match gethostname with
  | None => None
  | Some host =>
      match gethostbyname host with
      | None => None
      | Some addr => Some (inet_ntop addr)
      end
  end.

(** [inet_addr] on a text that [inet_ntoa] wrote. *)
Definition inet_addr (s : chars) : Z := from_option id (2 ^ 32 - 1) (inet_pton s).

(** Without a local address [inet_addr] reads an uninitialised array. *)
(* @src miniftpd_c/src/sysutils.cpp | int tcp_client(uint16_t port) { *)
Definition tcp_client (fd port : Z) : M Z :=
  sock ← plain fd id;
  if sock <? 0 then exit_failure else
  if 0 <? port then
    r ← plain 0 set_reuse;
    if r <? 0 then exit_failure else
    match get_local_ip with
    | None => undefined
    | Some ip =>
        r ← plain 0 (set_bound (mkAddr AF_INET (htons port) (inet_addr ip)));
        if r <? 0 then exit_failure else mret sock
    end
  else mret sock.

(** [sin_addr] of the server's address; [None] when the name cannot be resolved. *)
Definition server_addr (host : option chars) : option Z :=
  match host with
  | Some host => match inet_aton host with Some a => Some a | None => gethostbyname host end
  | None => Some (htonl INADDR_ANY)
  end.
(* @src miniftpd_c/src/sysutils.cpp | int tcp_server( *)
Definition tcp_server (fd : Z) (host : option chars) (port : Z) : M Z :=
  listenfd ← plain fd id;
  if listenfd <? 0 then exit_failure else
  match server_addr host with
  | None => exit_failure
  | Some a =>
      r ← plain 0 set_reuse;
      if r <? 0 then exit_failure else
      r ← plain 0 (set_bound (mkAddr AF_INET (htons port) a));
      if r <? 0 then exit_failure else
      r ← plain 0 set_listening;
      if r <? 0 then exit_failure else mret listenfd
  end.
End Setup.

(** ** Locks *)

Definition F_RDLCK : Z := 0.
Definition F_WRLCK : Z := 1.
Definition F_UNLCK : Z := 2.
(** [fcntl(fd, F_SETLKW, &the_lock)] on the whole file. *)
Definition F_SETLKW (l_type : Z) : M Z := plain 0 (set_lock l_type).
(* @src miniftpd_c/src/sysutils.cpp | int lock_internal( *)
Definition lock_internal (lock_type : Z) : M Z := retrying (F_SETLKW (i16 lock_type)).
(* @src miniftpd_c/src/sysutils.cpp | int lock_file_read( *)
Definition lock_file_read : M Z := lock_internal F_RDLCK.
(* @src miniftpd_c/src/sysutils.cpp | int lock_file_write( *)
Definition lock_file_write : M Z := lock_internal F_WRLCK.
(* @src miniftpd_c/src/sysutils.cpp | int unlock_file( *)
Definition unlock_file : M Z := F_SETLKW F_UNLCK.

(** ** Passing descriptors *)

(** A process's descriptors with the open files they name, and the messages under way: the bytes and the
    open file of the control data. *)
Record proc := mkProc { fds : gmap Z Z; mail : list (chars * option Z) }.

(** [sendmsg] with one byte and [SCM_RIGHTS] for [fd]: the number of bytes sent or -1. [full] says that the
    queue takes no message. *)
Definition sendmsg (full : bool) (data : chars) (fd : Z) (p : proc) : Z * proc :=
  match fds p !! fd with
  | Some f => if full then (-1, p) else (zlen data, mkProc (fds p) (mail p ++ [(data, Some f)]))
  | None => (-1, p)
  end.
(** [recvmsg]: the number of bytes, and the new descriptor of the control data, if there is any. *)
Definition recvmsg (new_fd : Z) (p : proc) : Z * option Z * proc :=
  match mail p with
  | [] => (0, None, p)
  | (data, Some f) :: ms => (zlen data, Some new_fd, mkProc (<[new_fd := f]> (fds p)) ms)
  | (data, None) :: ms => (zlen data, None, mkProc (fds p) ms)
  end.

(* @src miniftpd_c/src/sysutils.cpp | void send_fd( *)
Definition send_fd (full : bool) (fd : Z) (p : proc) : outcome proc :=
  let sendchar := "000"%char in
  let '(ret, p) := sendmsg full [sendchar] fd p in
  if negb (ret =? 1) then Fault ExitFailure else Ok p.
(* @src miniftpd_c/src/sysutils.cpp | int recv_fd( *)
Definition recv_fd (new_fd : Z) (p : proc) : outcome (Z * proc) :=
  let '(ret, control, p) := recvmsg new_fd p in
  if negb (ret =? 1) then Fault ExitFailure else
  match control with
  | None => Fault ExitFailure
  | Some recv_fd => if recv_fd =? -1 then Fault ExitFailure else Ok (recv_fd, p)
  end.

(** ** Text of a [struct stat] *)

Definition S_IFMT : Z := 61440.
Definition S_IFREG : Z := 32768.
Definition S_IFDIR : Z := 16384.
Definition S_IFLNK : Z := 40960.
Definition S_IFIFO : Z := 4096.
Definition S_IFSOCK : Z := 49152.
Definition S_IFCHR : Z := 8192.
Definition S_IFBLK : Z := 24576.
(** [S_ISUID] is bit 11, [S_IRUSR] bit 8, [S_IXOTH] bit 0. *)
Definition bit (mode : Z) (i : Z) : bool := negb (Z.land mode (Z.shiftl 1 i) =? 0).

Definition type_char (mode : Z) : char :=
  let t := Z.land mode S_IFMT in
  if t =? S_IFREG then "-"%char else if t =? S_IFDIR then "d"%char else if t =? S_IFLNK then "l"%char else
  if t =? S_IFIFO then "p"%char else if t =? S_IFSOCK then "s"%char else if t =? S_IFCHR then "c"%char else
  if t =? S_IFBLK then "b"%char else "?"%char.

(** [perms[i] = c]. *)
Definition set_if (b : bool) (i : nat) (c : char) (perms : chars) : chars := if b then <[i := c]> perms else perms.
Definition special (b : bool) (i : nat) (on off : char) (perms : chars) : chars :=
  set_if b i (if decide (perms !! i = Some "x"%char) then on else off) perms.

(* @src miniftpd_c/src/sysutils.cpp | std::string statbuf_get_perms( *)
Definition statbuf_get_perms (mode : Z) : chars :=
  let perms := <[0%nat := type_char mode]> $"----------" in
  let perms := set_if (bit mode 8) 1 "r" perms in
  let perms := set_if (bit mode 7) 2 "w" perms in
  let perms := set_if (bit mode 6) 3 "x" perms in
  let perms := set_if (bit mode 5) 4 "r" perms in
  let perms := set_if (bit mode 4) 5 "w" perms in
  let perms := set_if (bit mode 3) 6 "x" perms in
  let perms := set_if (bit mode 2) 7 "r" perms in
  let perms := set_if (bit mode 1) 8 "w" perms in
  let perms := set_if (bit mode 0) 9 "x" perms in
  let perms := special (bit mode 11) 3 "s" "S" perms in
  let perms := special (bit mode 10) 6 "s" "S" perms in
  special (bit mode 9) 9 "t" "T" perms.

(** Subtraction of [time_t] values overflows outside 64 bits. [strftime] prints a local time with a format,
    [None] when the text does not fit. *)
(* @src miniftpd_c/src/sysutils.cpp | std::string statbuf_get_date( *)
Definition statbuf_get_date (strftime : chars → Z → option chars) (now st_mtime : Z) : outcome chars :=
  old ← (if now <? st_mtime then Ok true else
         let d := now - st_mtime in
         if (d <? INT64_MIN) || (INT64_MAX <? d) then Fault Undefined else Ok (60 * 60 * 24 * 182 <? d));
  let fmt := if old : bool then $"%b %e    %Y" else $"%b %e %H:%M" in
  Ok (from_option id [] (strftime fmt st_mtime)).

(** The clocks, as [timespec] values: [to_time_t] and [duration_cast] cut towards zero. *)
(* @src miniftpd_c/src/sysutils.cpp | int64_t get_time_sec() *)
Definition get_time_sec (system_ns : Z) : Z := i64 (system_ns ÷ 1000000000).
(* @src miniftpd_c/src/sysutils.cpp | int64_t get_time_usec() *)
Definition get_time_usec (steady_ns : Z) : Z := i64 (steady_ns ÷ 1000).

(** * Proofs *)

(** Only interruptions and partial transfers. *)
Definition benign (r : reply) : bool := match r with Done _ => true | Err e => e =? EINTR end.
Definition undisturbed (k : kern) : Prop := Forall (fun r => benign r = true) (replies k).

(** From [k] to [k'] the bytes [data] were read and some replies used; nothing was sent. *)
Definition moved (data : chars) (k k' : kern) : Prop :=
  incoming k = data ++ incoming k' ∧ outgoing k' = outgoing k ∧ replies k' `suffix_of` replies k.

Lemma sys_moved_refl k : moved [] k k.
Proof. by repeat split. Qed.

Lemma sys_moved_trans a b k1 k2 k3 : moved a k1 k2 → moved b k2 k3 → moved (a ++ b) k1 k3.
Proof.
  intros (I1 & O1 & R1) (I2 & O2 & R2). split; [by rewrite I1, I2, (assoc_L (++))|].
  split; [congruence|by etrans].
Qed.

Lemma moved_undisturbed a k k' : moved a k k' → undisturbed k → undisturbed k'.
Proof. intros (_ & _ & [r E]). unfold undisturbed. rewrite E, Forall_app. tauto. Qed.

Lemma moved_replies a k k' : moved a k k' → (length (replies k') <= length (replies k))%nat.
Proof. intros (_ & _ & R). by apply suffix_length. Qed.

Lemma moved_take a k k' n : moved a k k' → (length a <= n)%nat → take n (incoming k) = a ++ take (n - length a) (incoming k').
Proof. intros (-> & _ & _) L. by rewrite take_app, (take_ge a) by lia. Qed.

#[local] Hint Resolve sys_moved_refl sys_moved_trans moved_undisturbed moved_replies : moban.

(** What is offered is a non-empty prefix of what is queued. *)
Lemma offer_spec n k : 0 < n →
  ∃ data, offer n k = (data, tail (replies k)) ∧ data `prefix_of` incoming k ∧ zlen data <= n ∧
          (data = [] → incoming k = []) ∧ (replies k = [] → zlen data = Z.min n (zlen (incoming k))).
Proof.
  intros N. unfold offer. eexists. split; [reflexivity|].
  set (c := portion _ _ _). assert (C : 0 <= c <= Z.min n (zlen (incoming k)) ∧ (incoming k ≠ [] → 0 < c) ∧
    (replies k = [] → c = Z.min n (zlen (incoming k)))).
  { assert (P := zlen_nonneg (incoming k)). assert (Q : incoming k ≠ [] → 0 < zlen (incoming k)).
    { destruct (incoming k); [done|]. intros _. rewrite zlen_cons. pose proof (zlen_nonneg l). lia. }
    unfold c, portion. destruct (replies k) as [|[m|e] rs]; split_and?; try (intros X; specialize (Q X)); try done; lia. }
  clearbody c. destruct C as (C & C' & C''). assert (L : zlen (take (Z.to_nat c) (incoming k)) = c) by (unfold zlen in *; rewrite length_take; lia).
  split_and!.
  - by exists (drop (Z.to_nat c) (incoming k)); rewrite take_drop.
  - lia.
  - intros E. destruct (decide (incoming k = [])) as [|Q]; [done|]. specialize (C' Q).
    rewrite E, zlen_nil in L. lia.
  - intros E. rewrite L. by apply C''.
Qed.

Lemma sys_read_spec n k : 0 < n → undisturbed k →
  ∃ r k', sys_read n k = Ok (r, k') ∧
  match r with
  | None => errno k' = EINTR ∧ moved [] k k' ∧ (length (replies k') < length (replies k))%nat
  | Some data => moved data k k' ∧ zlen data <= n ∧ (data = [] → incoming k = [])
  end.
Proof.
  intros N U. destruct (offer_spec n k N) as (data & E & (rest & P) & L & Z & _).
  unfold sys_read. rewrite E. unfold undisturbed in U.
  destruct (replies k) as [|[m|e] rs] eqn:R; do 2 eexists; (split; [reflexivity|]); unfold moved; simpl; rewrite ?R.
  - split_and!; [by rewrite P, drop_app_length|done|done|done|done].
  - split_and!; [by rewrite P, drop_app_length|done|by apply suffix_cons_r|done|done].
  - apply Forall_cons in U as [U _]. apply Z.eqb_eq in U. subst e.
    split_and!; [done|done|done|by apply suffix_cons_r|lia].
Qed.

Lemma sys_peek_spec n k : 0 < n → undisturbed k →
  ∃ r k', sys_peek n k = Ok (r, k') ∧ moved [] k k' ∧
  match r with
  | None => errno k' = EINTR ∧ (length (replies k') < length (replies k))%nat
  | Some data => data `prefix_of` incoming k ∧ zlen data <= n ∧ (data = [] → incoming k = []) ∧
                 (replies k = [] → zlen data = Z.min n (zlen (incoming k)))
  end.
Proof.
  intros N U. destruct (offer_spec n k N) as (data & E & P & L & Z & F).
  unfold sys_peek. rewrite E. unfold undisturbed in U.
  destruct (replies k) as [|[m|e] rs] eqn:R; do 2 eexists; (split; [reflexivity|]); unfold moved; simpl; rewrite ?R.
  - split_and!; try done.
  - split_and!; try done. by apply suffix_cons_r.
  - apply Forall_cons in U as [U _]. apply Z.eqb_eq in U. subst e.
    split_and!; try done; [by apply suffix_cons_r|lia].
Qed.

(** Writing inside a buffer. *)
Definition stored (off : nat) (data buf : chars) : chars := take off buf ++ data ++ drop (off + length data) buf.

Lemma store_inside off data buf : (off + length data <= length buf)%nat → store off data buf = Ok (stored off data buf).
Proof. intros L. unfold store. by rewrite decide_True. Qed.

Lemma stored_length off data buf : (off + length data <= length buf)%nat → length (stored off data buf) = length buf.
Proof. intros L. unfold stored. rewrite !length_app, length_take, length_drop. lia. Qed.

Lemma stored_nil off buf : stored off [] buf = buf.
Proof. unfold stored. simpl. by rewrite Nat.add_0_r, take_drop. Qed.

Lemma stored_stored off a b buf : (off + length a + length b <= length buf)%nat →
  stored (off + length a) b (stored off a buf) = stored off (a ++ b) buf.
Proof.
  intros L. unfold stored.
  assert (T : length (take off buf ++ a) = (off + length a)%nat) by (rewrite length_app, length_take; lia).
  rewrite !(assoc_L (++) (take off buf) a _), length_app.
  rewrite take_app_length' by done. rewrite drop_app_add' by done.
  rewrite drop_drop. rewrite <-!(assoc_L (++)). do 4 f_equal. lia.
Qed.

Lemma stored_fetch off data buf : (off + length data <= length buf)%nat →
  fetch off (length data) (stored off data buf) = data.
Proof.
  intros L. unfold fetch, stored. rewrite drop_app_length' by (rewrite length_take; lia). by rewrite take_app_length.
Qed.

(** The loop of [readn] stores what is queued, as much as was asked for, and takes it off the queue. *)
Lemma readn_loop_spec fuel off nleft count buf k :
  undisturbed k → 0 <= nleft <= count → count < 2 ^ 63 → (off + Z.to_nat nleft <= length buf)%nat →
  (length (replies k) + Z.to_nat nleft < fuel)%nat →
  let got := take (Z.to_nat nleft) (incoming k) in
  ∃ k', readn_loop fuel off nleft count buf k = Ok ((count - nleft + zlen got, stored off got buf), k') ∧ moved got k k'.
Proof.
  revert off nleft buf k. induction fuel as [|fuel IH]; intros off nleft buf k U N C B F got; [lia|].
  simpl. zdec (0 <? nleft); cycle 1.
  { assert (G : got = []) by (unfold got; replace nleft with 0 by lia; reflexivity).
    clearbody got; subst got. rewrite stored_nil, zlen_nil, i64_small by (unfold INT64_MIN, INT64_MAX; lia).
    eexists. split; [|by apply sys_moved_refl]. unfold mret, M_ret. do 3 f_equal. lia. }
  destruct (sys_read_spec nleft k E U) as (r & k1 & R & S).
  unfold mbind, M_bind at 1. rewrite R. destruct r as [data|].
  - destruct S as (Mv & L & Z). destruct (decide (data = [])) as [->|D].
    + assert (G : got = []) by (unfold got; rewrite (Z eq_refl); apply take_nil).  clearbody got; subst got.
      rewrite stored_nil, zlen_nil, u64_small, i64_small by (unfold INT64_MIN, INT64_MAX; lia).
      exists k1. split; [|done]. unfold mret, M_ret. do 3 f_equal. lia.
    + assert (0 < zlen data) by (destruct data; [done|rewrite zlen_cons; pose proof (zlen_nonneg data); lia]).
      pose proof (moved_replies _ _ _ Mv). unfold zlen in *.
      unfold M_bind, lift. rewrite store_inside by lia. cbn [mbind outcome_bind].
      rewrite u64_small by lia.
      destruct (IH (off + length data)%nat (nleft - Z.of_nat (length data)) (stored off data buf) k1) as (k2 & E2 & Mv2);
        [by eapply moved_undisturbed|lia|lia|rewrite stored_length; lia|lia|].
      exists k2. rewrite E2.
      assert (G : got = data ++ take (Z.to_nat (nleft - Z.of_nat (length data))) (incoming k1)).
      { unfold got. rewrite (moved_take data k k1) by (done || lia). do 2 f_equal. lia. }
      clearbody got; subst got. split; [|by eapply sys_moved_trans].
      rewrite stored_stored by (rewrite length_take; lia). unfold zlen. rewrite length_app.
      do 3 f_equal. lia.
  - destruct S as (I & Mv & L). unfold M_bind, get_errno, gets. rewrite I, Z.eqb_refl.
    destruct (IH off nleft buf k1) as (k2 & E2 & Mv2); [by eapply moved_undisturbed|lia|lia|lia|lia|].
    assert (G : got = take (Z.to_nat nleft) (incoming k1)).
    { unfold got. by rewrite (moved_take [] k k1), Nat.sub_0_r by (done || simpl; lia). }
    clearbody got; subst got. exists k2. split; [done|]. by apply (sys_moved_trans [] _ _ k1).
Qed.

Lemma readn_spec off count buf k :
  undisturbed k → 0 <= count < 2 ^ 63 → (off + Z.to_nat count <= length buf)%nat →
  let got := take (Z.to_nat count) (incoming k) in
  ∃ k', readn off count buf k = Ok ((zlen got, stored off got buf), k') ∧ moved got k k'.
Proof.
  intros U C B got. destruct (readn_loop_spec (S (S (length (replies k) + Z.to_nat count))) off count count buf k)
    as (k' & E & Mv); [done|lia|lia|lia|lia|].
  exists k'. split; [|done]. unfold readn. rewrite E. do 3 f_equal. unfold got. lia.
Qed.

(** Peeking stores a non-empty prefix of the queue. *)
Lemma peek_loop_spec fuel off len buf k :
  undisturbed k → 0 < len < 2 ^ 31 → (off + Z.to_nat len <= length buf)%nat → (length (replies k) < fuel)%nat →
  ∃ data k', peek_loop fuel off len buf k = Ok ((zlen data, stored off data buf), k') ∧ moved [] k k' ∧
    data `prefix_of` incoming k ∧ zlen data <= len ∧ (data = [] → incoming k = []) ∧
    (replies k = [] → zlen data = Z.min len (zlen (incoming k))).
Proof.
  revert buf k. induction fuel as [|fuel IH]; intros buf k U N B F; [lia|].
  destruct (sys_peek_spec len k ltac:(lia) U) as (r & k1 & R & Mv & S).
  simpl. unfold mbind, M_bind at 1. rewrite R. destruct r as [data|].
  - destruct S as (P & L & Z & A). exists data, k1. pose proof (zlen_nonneg data).
    unfold M_bind, lift. rewrite store_inside by (unfold zlen in *; lia).
    cbn [mbind outcome_bind]. rewrite i32_small by lia.
    cbn. zdec (zlen data =? -1). by split_and!.
  - destruct S as (I & L). unfold M_bind, get_errno, gets. rewrite I, Z.eqb_refl.
    destruct (IH buf k1) as (data & k2 & E2 & Mv2 & P & Ln & Z & A); [by eapply moved_undisturbed|lia|lia|lia|].
    destruct Mv as (Ki & Ko & Kr). simpl in Ki. rewrite <-Ki in *.
    exists data, k2. split; [done|]. split; [by apply (sys_moved_trans [] [] _ k1)|].
    split_and!; try done. intros X. rewrite X in L. simpl in L. lia.
Qed.

Lemma recv_peek_spec off len buf k :
  undisturbed k → 0 < len < 2 ^ 31 → (off + Z.to_nat len <= length buf)%nat →
  ∃ data k', recv_peek off len buf k = Ok ((zlen data, stored off data buf), k') ∧ moved [] k k' ∧
    data `prefix_of` incoming k ∧ zlen data <= len ∧ (data = [] → incoming k = []) ∧
    (replies k = [] → zlen data = Z.min len (zlen (incoming k))).
Proof. intros. apply peek_loop_spec; [done..|lia]. Qed.

Lemma newline_at_app a b :
  newline_at (a ++ b) = match newline_at a with Some i => Some i | None => Nat.add (length a) <$> newline_at b end.
Proof.
  induction a as [|c a IH]; simpl; [by destruct (newline_at b)|].
  destruct (decide (c = newline)); [done|]. rewrite IH. by destruct (newline_at a), (newline_at b).
Qed.

Lemma newline_at_lt l i : newline_at l = Some i → (i < length l)%nat.
Proof.
  revert i. induction l as [|c l IH]; intros i; simpl; [done|].
  destruct (decide (c = newline)); [intros [= <-]; lia|].
  destruct (newline_at l) as [j|]; [|done]. intros [= <-]. specialize (IH j eq_refl). lia.
Qed.

Lemma newline_at_first pre rest : newline ∉ pre → newline_at (pre ++ newline :: rest) = Some (length pre).
Proof.
  induction pre as [|c pre IH]; simpl; intros N; [done|].
  apply not_elem_of_cons in N as [? N]. rewrite decide_False by congruence. by rewrite IH.
Qed.

Lemma newline_at_none l : newline ∉ l → newline_at l = None.
Proof.
  induction l as [|c l IH]; simpl; intros N; [done|].
  apply not_elem_of_cons in N as [? N]. rewrite decide_False by congruence. by rewrite IH.
Qed.

Lemma fetch_app off a b buf : fetch off (a + b) buf = fetch off a buf ++ fetch (off + a) b buf.
Proof. unfold fetch. rewrite <-drop_drop. by rewrite take_take_drop. Qed.

Lemma fetch_take off n b b' : take (off + n) b = take (off + n) b' → fetch off n b = fetch off n b'.
Proof. intros E. unfold fetch. by rewrite !take_drop_commute, E. Qed.

Lemma stored_take off data buf : (off <= length buf)%nat → take off (stored off data buf) = take off buf.
Proof. intros L. unfold stored. rewrite take_app_length' by (rewrite length_take; lia). done. Qed.

(** What a call of the loop does, by the first newline among the next [nleft] bytes of the queue. *)
Definition line_result (off : nat) (nleft : Z) (buf : chars) (k : kern) (o : outcome (Z * chars * kern)) : Prop :=
  match newline_at (take (Z.to_nat nleft) (incoming k)) with
  | Some i => ∃ n buf' k', o = Ok ((n, buf'), k') ∧ 0 < n <= Z.of_nat i + 1 ∧ length buf' = length buf ∧
      take off buf' = take off buf ∧ fetch off (S i) buf' = take (S i) (incoming k) ∧
      moved (take (S i) (incoming k)) k k' ∧ (replies k = [] → n = Z.of_nat i + 1)
  | None => if decide (nleft <= zlen (incoming k)) then o = Fault ExitFailure
            else ∃ buf' k', o = Ok ((0, buf'), k') ∧ incoming k' = []
  end.

(** Reading bytes that were peeked: [readn] gets all of them. *)
Lemma readn_peeked off m data buf k :
  undisturbed k → data `prefix_of` incoming k → (m <= length data)%nat → zlen data < 2 ^ 31 →
  (off + length data <= length buf)%nat →
  ∃ k', readn off (Z.of_nat m) (stored off data buf) k = Ok ((Z.of_nat m, stored off (take m data) (stored off data buf)), k') ∧
        moved (take m data) k k'.
Proof.
  intros U [rest P] Lm B L. unfold zlen in B.
  destruct (readn_spec off (Z.of_nat m) (stored off data buf) k) as (k' & E & Mv);
    [done|lia|rewrite stored_length; lia|].
  rewrite Nat2Z.id, P, take_app_le in E, Mv by lia. exists k'. split; [|done].
  rewrite E. unfold zlen. by rewrite length_take_le by lia.
Qed.

(** Bytes without a newline are read over. *)
Lemma line_result_skip off nleft data buf buf2 k k2 o :
  moved data k k2 → newline_at data = None → Z.of_nat (length data) < nleft → length buf2 = length buf →
  take off buf2 = take off buf → fetch off (length data) buf2 = data → (replies k = [] → incoming k = data) →
  line_result (off + length data) (nleft - Z.of_nat (length data)) buf2 k2 o → line_result off nleft buf k o.
Proof.
  intros Mv Ni Ln L2 T2 F2 A. unfold line_result.
  rewrite (moved_take data k k2) by (done || lia). rewrite newline_at_app, Ni.
  replace (Z.to_nat nleft - length data)%nat with (Z.to_nat (nleft - Z.of_nat (length data))) by lia.
  destruct (newline_at (take (Z.to_nat (nleft - Z.of_nat (length data))) (incoming k2))) as [i|] eqn:Ni2; simpl.
  - intros (n & buf' & k' & -> & Hn & Lb & Tb & Fb & Mb & _). exists n, buf', k'.
    rewrite (moved_take data k k2) by (done || lia).
    replace (S (length data + i) - length data)%nat with (S i) by lia.
    split; [done|]. split; [lia|]. split_and!; [congruence| | | |].
    + rewrite <-T2. assert (X := f_equal (take off) Tb). rewrite !take_take in X.
      by replace (off `min` (off + length data))%nat with off in X by lia.
    + replace (S (length data + i)) with (length data + S i)%nat by lia. rewrite fetch_app, Fb. f_equal.
      rewrite <-F2 at 2. by apply fetch_take.
    + by eapply sys_moved_trans.
    + intros R. exfalso. destruct Mv as (I & _). rewrite (A R) in I. apply (f_equal length) in I.
      rewrite length_app in I. destruct (incoming k2); [by rewrite take_nil in Ni2|simpl in I; lia].
  - destruct Mv as (I & _). apply (f_equal length) in I. rewrite length_app in I. unfold zlen.
    repeat case_decide; try lia; done.
Qed.

Lemma line_loop_spec fuel off nleft buf k :
  undisturbed k → 0 < nleft < 2 ^ 31 → (off + Z.to_nat nleft <= length buf)%nat → (Z.to_nat nleft < fuel)%nat →
  line_result off nleft buf k (line_loop fuel off nleft buf k).
Proof.
  revert off nleft buf k. induction fuel as [|fuel IH]; intros off nleft buf k U N B F; [lia|].
  destruct (recv_peek_spec off nleft buf k U N B) as (data & k1 & E1 & Mv1 & P & L & Z & A).
  simpl. unfold mbind at 1, M_bind at 1. rewrite E1. cbn iota beta.
  assert (Ik : incoming k1 = incoming k) by (destruct Mv1 as (I & _); by rewrite I).
  assert (U1 : undisturbed k1) by by eapply moved_undisturbed.
  assert (Lq : (length data <= length (incoming k))%nat) by by apply prefix_length.
  unfold zlen in L, A |- *. zdec (Z.of_nat (length data) <? 0). zdec (Z.of_nat (length data) =? 0).
  { assert (data = []) as -> by (destruct data; [done|simpl in *; lia]).
    unfold line_result. rewrite (Z eq_refl), take_nil. simpl. rewrite zlen_nil, decide_False by lia.
    eexists _, _. split; [done|]. by rewrite Ik, (Z eq_refl). }
  rewrite Nat2Z.id, stored_fetch by lia.
  destruct P as [rest P]. unfold line_result.
  destruct (newline_at data) as [i|] eqn:Ni.
  - pose proof (newline_at_lt _ _ Ni) as Li.
    destruct (readn_peeked off (S i) data buf k1) as (k2 & E2 & Mv2);
      [done|exists rest; congruence|lia|unfold zlen; lia|lia|].
    replace (Z.of_nat i + 1) with (Z.of_nat (S i)) by lia. unfold mbind, M_bind. rewrite E2, Z.eqb_refl. simpl negb.
    rewrite P, take_app_ge, newline_at_app, Ni by lia. cbn iota.
    assert (T : length (take (S i) data) = S i) by (rewrite length_take; lia).
    eexists _, _, k2. split; [done|]. split; [lia|]. rewrite take_app_le by lia. split_and!.
    + rewrite !stored_length; [done|lia|rewrite stored_length; lia].
    + rewrite !stored_take; [done|lia|rewrite stored_length; lia].
    + rewrite <-T at 1. apply stored_fetch. rewrite stored_length; lia.
    + by apply (sys_moved_trans [] _ _ k1).
    + intros _. lia.
  - zdec (nleft <=? Z.of_nat (length data)).
    { assert (nleft = Z.of_nat (length data)) as -> by lia.
      rewrite P, Nat2Z.id, take_app_length, Ni, decide_True by (unfold zlen; rewrite length_app; lia). done. }
    destruct (readn_peeked off (length data) data buf k1) as (k2 & E3 & Mv2);
      [done|exists rest; congruence|lia|unfold zlen; lia|lia|].
    rewrite firstn_all in E3, Mv2. unfold mbind, M_bind. rewrite E3, Z.eqb_refl. 
    rewrite u64_small by lia.
    assert (Mv : moved data k k2) by by apply (sys_moved_trans [] _ _ k1).
    set (buf2 := stored off data (stored off data buf)).
    assert (L2 : length buf2 = length buf) by (unfold buf2; rewrite !stored_length; [done|lia|rewrite stored_length; lia]).
    specialize (IH (off + length data)%nat (nleft - Z.of_nat (length data)) buf2 k2
                  ltac:(by eapply moved_undisturbed) ltac:(lia) ltac:(lia) ltac:(lia)).
    apply (line_result_skip off nleft data buf buf2 k k2); try done; try lia.
    + unfold buf2. rewrite !stored_take; [done|lia|rewrite stored_length; lia].
    + unfold buf2. apply stored_fetch. rewrite stored_length; lia.
    + intros R. specialize (A R). assert (X : length data = length (incoming k)) by lia.
      by rewrite P, length_app in X; destruct rest; [rewrite P, app_nil_r|simpl in X; lia].
Qed.

(** [writen] sends a prefix, and all of it when it returns the count. *)
(** Interruptions, and transfers of at least a byte. *)
Definition progressing (r : reply) : bool := match r with Done n => 0 <? n | Err e => e =? EINTR end.

Lemma writen_loop_spec fuel rest count k :
  zlen rest <= count < 2 ^ 63 → (length (replies k) + length rest < fuel)%nat →
  ∃ r k' sent, writen_loop fuel rest (zlen rest) count k = Ok (r, k') ∧ outgoing k' = outgoing k ++ sent ∧
    incoming k' = incoming k ∧ sent `prefix_of` rest ∧ (r = count ∧ sent = rest ∨ r = -1) ∧
    (Forall (fun r => progressing r = true) (replies k) → r = count).
Proof.
  revert rest k. induction fuel as [|fuel IH]; intros rest k C F; [lia|].
  pose proof (zlen_nonneg rest). simpl. zdec (0 <? zlen rest); cycle 1.
  { assert (rest = []) as -> by (apply zlen_0; lia). rewrite i64_small by (unfold INT64_MIN, INT64_MAX; lia).
    eexists _, k, []. split; [done|]. rewrite app_nil_r. split_and!; [done..|by left|done]. }
  assert (R : take (Z.to_nat (zlen rest)) rest = rest) by (unfold zlen; rewrite Nat2Z.id; apply firstn_all).
  rewrite R. unfold mbind at 1, M_bind at 1. unfold sys_write, syscall.
  assert (Step : ∀ c rs, 0 < c <= zlen rest → (length rs <= length (replies k))%nat →
    let k1 := with_io rs (incoming k) (outgoing k ++ take (Z.to_nat c) rest) k in
    ∃ r k' sent, writen_loop fuel (drop (Z.to_nat c) rest) (u64 (zlen rest - c)) count k1 = Ok (r, k') ∧
      outgoing k' = outgoing k ++ sent ∧ incoming k' = incoming k ∧ sent `prefix_of` rest ∧
      (r = count ∧ sent = rest ∨ r = -1) ∧ (Forall (fun r => progressing r = true) rs → r = count)).
  { intros c rs Hc Lr k1. unfold zlen in *.
    destruct (IH (drop (Z.to_nat c) rest) k1) as (r & k' & sent & E1 & O & I & [tl P] & V & D).
    { unfold zlen. rewrite length_drop. lia. }
    { rewrite length_drop. simpl. lia. }
    unfold zlen in E1. rewrite length_drop in E1.
    rewrite u64_small by lia. replace (Z.of_nat (length rest) - c) with (Z.of_nat (length rest - Z.to_nat c)) by lia.
    exists r, k', (take (Z.to_nat c) rest ++ sent). split; [done|].
    rewrite O, (assoc_L (++)). split; [done|]. split; [done|]. split.
    { exists tl. by rewrite <-(assoc_L (++)), <-P, take_drop. }
    split; [|done]. destruct V as [[-> ->] | ->]; [left|by right]. by rewrite take_drop. }
  destruct (replies k) as [|[m|e] rs] eqn:K; cbn [with_io replies].
  - unfold portion. zdec (zlen rest <? 0). zdec (zlen rest =? 0).
    destruct (Step (zlen rest) []) as (r & k' & sent & E3 & X); [lia|simpl; lia|].
    exists r, k', sent. rewrite R in *. split; [|exact X]. rewrite <-E3. f_equal.
  - set (c := portion 0 (Some m) (zlen rest)).
    assert (Hc : 0 <= c <= zlen rest ∧ (0 < m → 0 < c)) by (unfold c, portion; lia). destruct Hc as [Hc Hm]. clearbody c. zdec (c <? 0). zdec (c =? 0).
    + subst c. eexists _, _, []. split; [done|]. simpl. rewrite !app_nil_r.
      split_and!; [done..|apply prefix_nil|by right|].
      intros G. apply Forall_cons in G as [G _]. simpl in G. bool_prop. lia.
    + destruct (Step c rs) as (r & k' & sent & E3 & O & I & P & V & D); [lia|simpl; lia|].
      exists r, k', sent. split_and!; try done. intros G. apply Forall_cons in G as [_ G]. by apply D.
  - zdec (-1 <? 0). unfold get_errno, gets, mbind, M_bind. cbn [with_errno errno]. zdec (e =? EINTR).
    + destruct (IH rest (with_errno e (with_io rs (incoming k) (outgoing k) k))) as (r & k' & sent & E3 & O & I & P & V & D);
        [done|simpl in *; lia|]. exists r, k', sent. split_and!; try done. intros G. apply Forall_cons in G as [_ G]. by apply D.
    + eexists _, _, []. split; [done|]. simpl. rewrite !app_nil_r. split_and!; [done..|apply prefix_nil|by right|].
      intros G. apply Forall_cons in G as [G _]. simpl in G. bool_prop. lia.
Qed.

Lemma writen_spec data k :
  zlen data < 2 ^ 63 →
  ∃ r k' sent, writen data k = Ok (r, k') ∧ outgoing k' = outgoing k ++ sent ∧ incoming k' = incoming k ∧
    sent `prefix_of` data ∧ (r = zlen data ∧ sent = data ∨ r = -1) ∧
    (Forall (fun r => progressing r = true) (replies k) → r = zlen data).
Proof. intros B. apply writen_loop_spec; [lia|lia]. Qed.

(** ** Interrupted waits *)

(** [k] when [n] calls were interrupted and [rs] is still to come. *)
Definition after_signals (n : nat) (rs : list reply) (k : kern) : kern :=
  match n with O => k | S _ => with_errno EINTR (with_io rs (incoming k) (outgoing k) k) end.

Lemma with_errno_io e rs i o e' rs' i' o' k :
  with_errno e (with_io rs i o (with_errno e' (with_io rs' i' o' k))) = with_errno e (with_io rs i o k).
Proof. done. Qed.

(** A repeated call ends as the first one that is not interrupted. *)
Lemma retrying_interrupted (op : option Z → kern → Z * kern) n rs k :
  replies k = replicate n (Err EINTR) ++ rs → head rs ≠ Some (Err EINTR) → (∀ l k, 0 <= (op l k).1) →
  retrying (syscall op) k = syscall op (after_signals n rs k).
Proof.
  intros R H P. unfold retrying. set (fuel := length (replies k)).
  assert (F : (n <= fuel)%nat) by (unfold fuel; rewrite R, length_app, length_replicate; lia). clearbody fuel.
  revert fuel F k R. induction n as [|n IH]; intros fuel F k R; simpl in R |- *.
  - unfold get_errno, gets, mbind, M_bind, syscall. rewrite R. destruct rs as [|[m|e] rs]; simpl.
    + pose proof (P None k). destruct (op None k) as [r k']. simpl in *. by zdec (r <? 0).
    + pose proof (P (Some m) (with_io rs (incoming k) (outgoing k) k)).
      destruct (op (Some m) _) as [r k']. simpl in *. by zdec (r <? 0).
    + zdec (e =? EINTR); [subst e; by destruct H|done].
  - destruct fuel as [|fuel]; [lia|].
    cbn [retry]. unfold mbind at 1, M_bind at 1. unfold syscall at 1. rewrite R.
    unfold get_errno, gets, mbind, M_bind. cbn [with_errno errno]. cbn [Z.ltb Z.compare andb]. rewrite Z.eqb_refl.
    set (k1 := with_errno EINTR _). specialize (IH fuel ltac:(lia) k1 eq_refl).
    cbn [retry] in IH. unfold mbind, M_bind in IH. unfold get_errno, gets in IH.
    etrans; [exact IH|]. unfold k1. destruct n; [by rewrite app_nil_l|]. simpl after_signals. by rewrite with_errno_io.
Qed.

(** Only interruptions: the wait ends by the readiness of the descriptor. *)
Lemma select_waits rd wr ex t n k :
  replies k = replicate n (Err EINTR) →
  retrying (sys_select rd wr ex t) k =
    Ok (if (rd && within t (readable k)) || (wr && within t (writable k)) || (ex && within t (exceptional k)) then 1 else 0,
        after_signals n [] k).
Proof.
  intros R. unfold sys_select. rewrite (retrying_interrupted _ n []); [|by rewrite app_nil_r|done|].
  - unfold syscall. by destruct n; simpl; rewrite ?R.
  - intros l k'. simpl. by case_match.
Qed.

(** Calls that nothing disturbs. *)
Lemma plain_done x rs r upd k :
  replies k = Done x :: rs → plain r upd k = Ok (r, upd (with_io rs (incoming k) (outgoing k) k)).
Proof. intros R. unfold plain, syscall. by rewrite R. Qed.

Lemma activate_nonblock_done x y rs k :
  replies k = Done x :: Done y :: rs → 0 <= fl k →
  activate_nonblock k = Ok (tt, set_fl (Z.lor (fl k) O_NONBLOCK) (with_io rs (incoming k) (outgoing k) k)).
Proof.
  intros R F. unfold activate_nonblock, F_GETFL, F_SETFL, plain, syscall, mbind, M_bind. rewrite R. simpl.
  by zdec (fl k =? -1).
Qed.

Lemma activate_nonblock_quiet k : replies k = [] → 0 <= fl k →
  activate_nonblock k = Ok (tt, set_fl (Z.lor (fl k) O_NONBLOCK) k).
Proof.
  intros R F. unfold activate_nonblock, F_GETFL, F_SETFL, plain, syscall, mbind, M_bind. rewrite R.
  zdec (fl k =? -1). simpl. by rewrite R.
Qed.

Lemma restore_blocking_quiet wait ret k : replies k = [] → 0 <= fl k → 0 < wait →
  restore_blocking wait ret k = Ok (ret, set_fl (Z.land (fl k) (lnot32 O_NONBLOCK)) k).
Proof.
  intros R F W. unfold restore_blocking. rewrite (proj2 (Z.ltb_lt _ _) W).
  unfold deactivate_nonblock, F_GETFL, F_SETFL, plain, syscall, mbind, M_bind. rewrite R.
  zdec (fl k =? -1). simpl. by rewrite R.
Qed.

(** ** Properties *)


(** Waiting with a limit, through any number of signals: [read_timeout] succeeds exactly when the descriptor
    becomes readable in time, [accept_timeout] takes the connection then, [write_timeout] succeeds exactly when
    an exceptional condition arises, whether the descriptor is writable or not; otherwise -1 and [ETIMEDOUT]. *)
Theorem timeouts_report_readiness (n : nat) (fd wait : Z) (a : sockaddr_in) (k : kern) :
  replies k = replicate n (Err EINTR) → 0 <= fd < 1024 → 0 < wait →
  (∃ k', read_timeout fd wait k = Ok (if within wait (readable k) then 0 else -1, k') ∧
         (within wait (readable k) = false → errno k' = ETIMEDOUT)) ∧
  (∃ k', write_timeout fd wait k = Ok (if within wait (exceptional k) then 0 else -1, k') ∧
         (within wait (exceptional k) = false → errno k' = ETIMEDOUT)) ∧
  (∃ k', accept_timeout fd (Some a) wait k =
           Ok (if within wait (readable k) then ((accepted k).1, if (accepted k).1 =? -1 then Some a else Some (accepted k).2)
               else (-1, Some a), k') ∧
         (within wait (readable k) = false → errno k' = ETIMEDOUT)).
Proof.
  intros R F W. unfold read_timeout, write_timeout, accept_timeout, FD_SET.
  rewrite (proj2 (Z.ltb_lt _ _) W), (proj2 (Z.leb_le _ _) (proj1 F)), (proj2 (Z.ltb_lt _ _) (proj2 F)).
  unfold mbind, M_bind, mret, M_ret. cbn [andb]. rewrite !(select_waits _ _ _ wait n k R). simpl.
  destruct (within wait (readable k)), (within wait (exceptional k)); simpl; (split_and!; [by eexists..|]);
    destruct n; simpl; unfold plain, sys_accept, syscall, gets, mbind, M_bind, mret, M_ret; simpl; rewrite ?R; simpl; by eexists.
Qed.

(** [connect_timeout] on a connection in progress, through any number of signals: 0 when the socket becomes
    writable in time without an error, else -1 with the socket's error or [ETIMEDOUT], and the descriptor is
    blocking again. A connection that is established at once is reported as a timeout too. *)
Theorem connect_timeout_outcomes (n : nat) (fd wait x y : Z) (k : kern) :
  0 <= fd < 1024 → 0 < wait → 0 <= fl k →
  (replies k = Done x :: Done y :: Err EINPROGRESS :: replicate n (Err EINTR) →
   ∃ k', connect_timeout fd wait k = Ok (if within wait (writable k) && (so_error k =? 0) then 0 else -1, k') ∧
     fl k' = Z.land (Z.lor (fl k) O_NONBLOCK) (lnot32 O_NONBLOCK) ∧
     (within wait (writable k) = false → errno k' = ETIMEDOUT) ∧
     (within wait (writable k) = true → so_error k ≠ 0 → errno k' = so_error k)) ∧
  (replies k = [] → ∃ k', connect_timeout fd wait k = Ok (-1, k') ∧ errno k' = ETIMEDOUT ∧
     fl k' = Z.land (Z.lor (fl k) O_NONBLOCK) (lnot32 O_NONBLOCK)).
Proof.
  intros F W L. assert (L' : 0 <= Z.lor (fl k) O_NONBLOCK) by (apply Z.lor_nonneg; unfold O_NONBLOCK; lia).
  unfold connect_timeout. rewrite (proj2 (Z.ltb_lt _ _) W). split; intros R.
  - unfold mbind at 1, M_bind at 1. rewrite (activate_nonblock_done x y _ k R L).
    set (k1 := set_fl _ _).
    unfold plain at 1, get_errno, gets, mbind, M_bind, syscall at 1. simpl. unfold FD_SET.
    rewrite (proj2 (Z.leb_le _ _) (proj1 F)), (proj2 (Z.ltb_lt _ _) (proj2 F)). simpl. unfold mret at 1, M_ret at 1.
    set (k2 := with_errno _ _). rewrite (select_waits false true false wait n k2 eq_refl). simpl.
    assert (A : ∃ e i o, after_signals n [] k2 = with_errno e (with_io [] i o k1)) by (destruct n; by repeat eexists).
    destruct A as (e & i & o & ->). rewrite orb_false_r. destruct (within wait (writable k)) eqn:Wr; simpl.
    + unfold sys_so_error, plain, syscall, gets, mbind, M_bind, mret, M_ret. simpl.
      zdec (so_error k =? 0); unfold set_errno; rewrite restore_blocking_quiet by done; eexists; by split_and!.
    + unfold set_errno. rewrite restore_blocking_quiet by done. eexists. by split_and!.
  - unfold mbind at 1, M_bind at 1. rewrite (activate_nonblock_quiet k R L).
    unfold plain, get_errno, gets, mbind, M_bind, syscall. simpl. rewrite R. unfold mret, M_ret. simpl.
    unfold set_errno. rewrite restore_blocking_quiet by done. eexists. by split_and!.
Qed.

(** What [writen] sends, [readn] at the other end reads back, through signals and partial transfers. *)
Theorem transfer_roundtrip (data rest buf : chars) (k kr : kern) :
  Forall (fun r => progressing r = true) (replies k) → outgoing k = [] → zlen data < 2 ^ 63 → zlen data <= zlen buf →
  ∃ k', writen data k = Ok (zlen data, k') ∧
  (undisturbed kr → incoming kr = outgoing k' ++ rest →
   ∃ kr' buf', readn 0 (zlen data) buf kr = Ok ((zlen data, buf'), kr') ∧ take (length data) buf' = data ∧ incoming kr' = rest).
Proof.
  intros P O B L. unfold zlen in *.
  destruct (writen_spec data k) as (r & k' & sent & E & Ho & _ & _ & V & D); [unfold zlen; lia|].
  rewrite (D P) in *. unfold zlen in *. exists k'. split; [done|]. intros U I.
  rewrite O in Ho. simpl in Ho. destruct V as [[_ ->]|V]; [|lia].
  destruct (readn_spec 0 (Z.of_nat (length data)) buf kr U) as (kr' & Er & Mv); [lia|lia|].
  rewrite Nat2Z.id, I, Ho, take_app_length in Er, Mv. destruct Mv as (Mv & _).
  exists kr', (stored 0 data buf). split; [by unfold zlen in Er|]. split.
  - unfold stored. simpl. by rewrite take_app_length.
  - rewrite I, Ho in Mv. by simplify_list_eq.
Qed.

(** The mode bits a permission text shows. *)
Definition shown (i : nat) (c : char) (perms : chars) : bool := bool_decide (perms !! i = Some c).
Definition parse_perms (perms : chars) : Z :=
  let x i s := shown i "x" perms || shown i s perms in
  let sp i s t := shown i s perms || shown i t perms in
  foldl (fun m b => 2 * m + Z.b2z b) 0
    [sp 3%nat "s"%char "S"%char; sp 6%nat "s"%char "S"%char; sp 9%nat "t"%char "T"%char;
     shown 1 "r" perms; shown 2 "w" perms; x 3%nat "s"%char; shown 4 "r" perms; shown 5 "w" perms; x 6%nat "s"%char;
     shown 7 "r" perms; shown 8 "w" perms; x 9%nat "t"%char].

(** The low twelve bits of a mode. *)
Definition low_bits (mode : Z) : Z := foldl (fun m i => 2 * m + Z.b2z (bit mode i)) 0 [11; 10; 9; 8; 7; 6; 5; 4; 3; 2; 1; 0].

(** The ten characters. *)
Definition flag (b : bool) (c : char) : char := if b then c else "-"%char.
Definition exec (x b : bool) (on off : char) : char := if b then (if x then on else off) else flag x "x".

Lemma set_if_S b i c d l : set_if b (S i) c (d :: l) = d :: set_if b i c l.
Proof. by destruct b. Qed.
Lemma set_if_0 b c l : set_if b 0 c ("-"%char :: l) = flag b c :: l.
Proof. by destruct b. Qed.
Lemma special_S b i on off d l : special b (S i) on off (d :: l) = d :: special b i on off l.
Proof. unfold special. simpl lookup. by rewrite set_if_S. Qed.
Lemma special_0 b x on off l : special b 0 on off (flag x "x" :: l) = exec x b on off :: l.
Proof. by destruct b, x. Qed.

Lemma statbuf_get_perms_cells (mode : Z) :
  statbuf_get_perms mode =
    [type_char mode; flag (bit mode 8) "r"; flag (bit mode 7) "w"; exec (bit mode 6) (bit mode 11) "s" "S";
     flag (bit mode 5) "r"; flag (bit mode 4) "w"; exec (bit mode 3) (bit mode 10) "s" "S";
     flag (bit mode 2) "r"; flag (bit mode 1) "w"; exec (bit mode 0) (bit mode 9) "t" "T"].
Proof.
  unfold statbuf_get_perms. cbn [list_ascii_of_string insert list_insert].
  repeat first [rewrite set_if_S | rewrite set_if_0 | rewrite special_S | rewrite special_0]. reflexivity.
Qed.

(** The text shows the type and every permission bit of the mode. *)
Theorem perms_roundtrip (mode : Z) :
  parse_perms (statbuf_get_perms mode) = low_bits mode ∧ head (statbuf_get_perms mode) = Some (type_char mode).
Proof.
  rewrite statbuf_get_perms_cells. split; [|done]. unfold parse_perms, low_bits. cbn [foldl].
  assert (X : ∀ i x b on off l, l !! i = Some (exec x b on off) → on ≠ "x"%char → off ≠ "x"%char → on ≠ "-"%char → off ≠ "-"%char → on ≠ off →
    shown i "x" l || shown i on l = x ∧ shown i on l || shown i off l = b).
  { intros i x b on off l E ?????. unfold shown. rewrite E. unfold exec, flag.
    destruct b, x; split; repeat case_bool_decide; simplify_eq; done. }
  assert (F : ∀ i b c l, l !! i = Some (flag b c) → c ≠ "-"%char → shown i c l = b).
  { intros i b c l E ?. unfold shown. rewrite E. unfold flag. destruct b; case_bool_decide; simplify_eq; done. }
  erewrite !(fun i x b on off l E h1 h2 h3 h4 h5 => proj1 (X i x b on off l E h1 h2 h3 h4 h5)) by (reflexivity || done).
  erewrite !(fun i x b on off l E h1 h2 h3 h4 h5 => proj2 (X i x b on off l E h1 h2 h3 h4 h5)) by (reflexivity || done).
  erewrite !F by (reflexivity || done). reflexivity.
Qed.

Example perms_4755 : statbuf_get_perms (32768 + 2541) = $"-rwsr-xr-x".
Proof. vm_compute. reflexivity. Qed.

(** A descriptor that is passed names the same open file at the receiver. *)
Theorem fd_passing (fd new_fd f : Z) (p : proc) (q : gmap Z Z) :
  fds p !! fd = Some f → mail p = [] → new_fd ≠ -1 →
  ∃ p', send_fd false fd p = Ok p' ∧
  ∃ q', recv_fd new_fd (mkProc q (mail p')) = Ok (new_fd, q') ∧ fds q' !! new_fd = Some f.
Proof.
  intros F E N. unfold send_fd, sendmsg. rewrite F, E. eexists. split; [reflexivity|].
  unfold recv_fd, recvmsg. simpl. zdec (new_fd =? -1). eexists. split; [reflexivity|]. simpl. by rewrite lookup_insert_eq.
Qed.

(** ** Witnesses *)

Definition idle (rs : list reply) (i : chars) : kern :=
  mkKern 0 rs i [] (Some 1) (Some 1) None 0 (7, mkAddr AF_INET 80 1) 2 false None false false 0 2.

(** Two pieces of one line: the result counts only the second. *)
Example readline_counts_last_piece :
  fst <$> readline 10 (replicate 10 "."%char) (idle [Done 1; Done 1] ($"ab" ++ [newline] ++ $"cd")) =
    Ok (2, $"ab" ++ [newline] ++ $"cd" ++ $".....").
Proof. vm_compute. reflexivity. Qed.


Lemma timeouts_report_readiness_witness :
  (∃ k', read_timeout 5 3 (idle (replicate 2 (Err EINTR)) []) = Ok (0, k')) ∧
  (∃ k', write_timeout 5 3 (idle (replicate 2 (Err EINTR)) []) = Ok (-1, k') ∧ errno k' = ETIMEDOUT).
Proof.
  destruct (timeouts_report_readiness 2 5 3 (mkAddr 0 0 0) (idle (replicate 2 (Err EINTR)) []) eq_refl) as ((k1 & E1 & _) & (k2 & E2 & T) & _);
    [lia|lia|]. split; [by exists k1|]. exists k2. split; [exact E2|by apply T].
Defined.

Lemma connect_timeout_outcomes_witness :
  (∃ k', connect_timeout 5 3 (idle [Done 0; Done 0; Err EINPROGRESS; Err EINTR] []) = Ok (0, k') ∧ fl k' = 2) ∧
  (∃ k', connect_timeout 5 3 (idle [] []) = Ok (-1, k') ∧ errno k' = ETIMEDOUT).
Proof.
  destruct (connect_timeout_outcomes 1 5 3 0 0 (idle [Done 0; Done 0; Err EINPROGRESS; Err EINTR] [])) as (A & _); [lia|lia|simpl; lia|].
  destruct (connect_timeout_outcomes 1 5 3 0 0 (idle [] [])) as (_ & B); [lia|lia|simpl; lia|].
  destruct (A eq_refl) as (k1 & E1 & F1 & _). destruct (B eq_refl) as (k2 & E2 & T & _).
  split; [exists k1; split; [exact E1|rewrite F1; reflexivity]|by exists k2].
Defined.
