(* ===== verification/CStr.v ===== *)
(** * CStr: strings of the command reader

    Models [example/miniftpd_c/src/str.cpp]. A [char*] that is written to is the list of the array's cells; a
    [const char*] is given by the characters before its NUL. *)

From S2P Require Import Prelude Strings.

Definition NUL : char := "000"%char.

(** [strlen]; without a NUL it reads past the array. *)
Definition strlen (buf : chars) : outcome nat :=
  if decide (NUL ∈ buf) then Ok (length (c_str buf)) else Fault Undefined.

Definition is_crlf (c : char) : bool := (char_code c =? 13) || (char_code c =? 10).

(** The loop: [str[--len] = '\0'] while the last character is CR or LF. *)
Fixpoint trim_crlf_loop (len : nat) (buf : chars) : chars :=
  match len with
  | O => buf
  | S len => if from_option is_crlf false (buf !! len) then trim_crlf_loop len (<[len := NUL]> buf) else buf
  end.
(* @src miniftpd_c/src/str.cpp | void str_trim_crlf( *)
Definition str_trim_crlf (buf : chars) : outcome chars := len ← strlen buf; Ok (trim_crlf_loop len buf).

(** [std::string::find(c)]. *)
Fixpoint find_char (c : char) (s : chars) : option nat :=
  match s with
  | [] => None
  | x :: s' => if decide (x = c) then Some O else S <$> find_char c s'
  end.
(* @src miniftpd_c/src/str.cpp | std::pair<std::string, std::string> str_split( *)
Definition str_split (str : chars) (c : char) : chars * chars :=
  match find_char c str with
  | None => ([], str)
  | Some pos => (take pos str, drop (pos + 1) str)
  end.

(** [isspace] in the C locale. *)
Definition isspace (c : char) : bool := (char_code c =? 32) || ((9 <=? char_code c) && (char_code c <=? 13)).
(* @src miniftpd_c/src/str.cpp | bool str_all_space( *)
Fixpoint str_all_space (str : chars) : bool :=
  match str with
  | [] => true
  | c :: str => if negb (isspace c) then false else str_all_space str
  end.

(** A [char] is signed. *)
Definition char_value (c : char) : Z := i8 (char_code c).
(* @src miniftpd_c/src/str.cpp | void str_upper( *)
Fixpoint str_upper (str : chars) : chars :=
  match str with
  | [] => []
  | c :: str =>
      (if (97 <=? char_value c) && (char_value c <=? 122) then char_of_code (65 - 97 + char_value c) else c) :: str_upper str
  end.

(** ** Numbers of the C library *)

Fixpoint skip_space (s : chars) : chars :=
  match s with c :: s' => if isspace c then skip_space s' else s | [] => [] end.
(** An optional sign. *)
Definition take_sign (s : chars) : bool * chars :=
  match s with
  | "-"%char :: s' => (true, s')
  | "+"%char :: s' => (false, s')
  | _ => (false, s)
  end.
(** The value of the longest run of digits below [base], a base of at most ten, and whether there is a digit. *)
Fixpoint run_value (base acc : Z) (s : chars) : Z * bool :=
  match s with
  | c :: s' => if is_digit c && (char_code c - 48 <? base) then ((run_value base (base * acc + (char_code c - 48)) s').1, true)
               else (acc, false)
  | [] => (acc, false)
  end.

(** [atoll]: a value outside [long long] is undefined. *)
(* @src miniftpd_c/src/str.cpp | long long str_to_longlong( *)
Definition str_to_longlong (str : chars) : outcome Z :=
  let '(neg, s) := take_sign (skip_space str) in
  let v := (run_value 10 0 s).1 in
  let v := if neg : bool then - v else v in
  if (v <? INT64_MIN) || (INT64_MAX <? v) then Fault Undefined else Ok v.

(** [std::stoul(_, nullptr, 8)]: a minus sign negates in [unsigned long]; then the result is cut to 32 bits. *)
(* @src miniftpd_c/src/str.cpp | unsigned int str_octal_to_uint( *)
Definition str_octal_to_uint (str : chars) : outcome Z :=
  let '(neg, s) := take_sign (skip_space str) in
  let '(v, any) := run_value 8 0 s in
  if negb any then Fault (Throw (InvalidArgument "stoul"))
  else if UINT64_MAX <? v then Fault (Throw (OutOfRange "stoul"))
  else Ok (u32 (if neg : bool then u64 (- v) else v)).

(** * Proofs *)

Lemma c_str_app_NUL (s rest : chars) : NUL ∉ s → c_str (s ++ NUL :: rest) = s.
Proof.
  induction s as [|c s IH]; simpl; intros N; [done|]. apply not_elem_of_cons in N as [D N].
  rewrite decide_False by (intros ->; by apply D). by rewrite IH.
Qed.

Lemma c_str_split (buf : chars) : NUL ∈ buf → ∃ rest, buf = c_str buf ++ NUL :: rest ∧ NUL ∉ c_str buf.
Proof.
  induction buf as [|c buf IH]; [by intros ?%not_elem_of_nil|]. intros I. simpl.
  destruct (decide (c = "000"%char)) as [->|D].
  - exists buf. split; [done|apply not_elem_of_nil].
  - apply elem_of_cons in I as [I|I]; [by destruct D|]. destruct (IH I) as (rest & E & N). exists rest.
    split; [simpl; by rewrite <-E|]. apply not_elem_of_cons. split; [|done]. intros Q. by apply D.
Qed.

(** The loop splits the string at its last character that is neither CR nor LF. *)
Lemma trim_crlf_loop_spec (s rest : chars) :
  ∃ t z, s = t ++ z ∧ Forall (fun c => is_crlf c = true) z ∧ from_option is_crlf false (last t) = false ∧
         trim_crlf_loop (length s) (s ++ rest) = t ++ replicate (length z) NUL ++ rest.
Proof.
  revert rest. induction s as [|c s IH] using rev_ind; intros rest.
  { exists [], []. by split_and!. }
  rewrite length_app, Nat.add_comm. simpl.
  rewrite <-(assoc_L (++)), lookup_app_r, Nat.sub_diag by lia. simpl.
  destruct (is_crlf c) eqn:C.
  - rewrite insert_app_r_alt, Nat.sub_diag by lia. simpl.
    destruct (IH (NUL :: rest)) as (t & z & -> & F & L & E). exists t, (z ++ [c]).
    rewrite (assoc_L (++)). split; [done|]. split; [by apply Forall_app; split; [|constructor]|]. split; [done|].
    rewrite E, length_app, Nat.add_comm. simpl. f_equal.
    change (NUL :: replicate (length z) NUL ++ rest) with ((NUL :: replicate (length z) NUL) ++ rest).
    by rewrite <-replicate_S, replicate_S_end, <-(assoc_L (++)).
  - exists (s ++ [c]), []. rewrite app_nil_r, last_snoc, <-(assoc_L (++)). by split_and!.
Qed.

(** [str_trim_crlf] cuts the string before its trailing CRs and LFs and changes nothing but these. *)
Theorem str_trim_crlf_spec (s rest : chars) : NUL ∉ s →
  ∃ t z, s = t ++ z ∧ Forall (fun c => is_crlf c = true) z ∧ from_option is_crlf false (last t) = false ∧
    str_trim_crlf (s ++ NUL :: rest) = Ok (t ++ replicate (length z) NUL ++ NUL :: rest) ∧
    c_str (t ++ replicate (length z) NUL ++ NUL :: rest) = t.
Proof.
  intros N. destruct (trim_crlf_loop_spec s (NUL :: rest)) as (t & z & E & F & L & T). exists t, z.
  split_and!; [done..| |].
  - unfold str_trim_crlf, strlen. rewrite decide_True by set_solver. rewrite c_str_app_NUL by done. cbn. by rewrite T.
  - assert (NUL ∉ t) by set_solver. destruct (length z) as [|n]; simpl; by apply c_str_app_NUL.
Qed.

(** [str_split] cuts at the first separator; without one everything is on the right. *)
Theorem str_split_spec (s : chars) (c : char) :
  (c ∉ s → str_split s c = ([], s)) ∧ (∀ a b, s = a ++ c :: b → c ∉ a → str_split s c = (a, b)).
Proof.
  unfold str_split. split.
  - intros N. assert (E : find_char c s = None); [|by rewrite E].
    induction s as [|x s IH]; [done|]. apply not_elem_of_cons in N as [D N]. simpl.
    by rewrite decide_False, IH by congruence.
  - intros a b -> N. assert (E : find_char c (a ++ c :: b) = Some (length a)).
    { induction a as [|x a IH]; simpl; [by rewrite decide_True|]. apply not_elem_of_cons in N as [D N].
      by rewrite decide_False, IH by congruence. }
    rewrite E, take_app_length. f_equal. rewrite drop_app_ge by lia. by replace (length a + 1 - length a)%nat with 1%nat by lia.
Qed.

(** [str_upper] is the upper-casing of string_utils: ASCII letters only, bytes from 128 on untouched. *)
Theorem str_upper_to_upper (s : chars) : str_upper s = to_upper s.
Proof.
  assert (C : ∀ c, (if (97 <=? char_value c) && (char_value c <=? 122) then char_of_code (65 - 97 + char_value c) else c) = to_upper_ascii c).
  { intros [[] [] [] [] [] [] [] []]; vm_compute; reflexivity. }
  induction s as [|c s IH]; [done|]. cbn [str_upper]. by rewrite C, IH.
Qed.

Example octal_umask : str_octal_to_uint ($" 0755;") = Ok 493 ∧ str_octal_to_uint ($"-1") = Ok (2 ^ 32 - 1) ∧
  str_octal_to_uint ($"9") = Fault (Throw (InvalidArgument "stoul")).
Proof. vm_compute. done. Qed.

Example longlong_overflow : str_to_longlong ($"9223372036854775808") = Fault Undefined ∧
  str_to_longlong ($" -12x") = Ok (-12).
Proof. vm_compute. done. Qed.
