(* ===== verification/Threads.v ===== *)
(** * Threads: thread identity, named threads, file names

    Models [deps/common/base/current_thread.cpp], [thread.{h,cpp}], [demangle.cpp] and [utilities/short_file.h] on Linux. *)

From S2P Require Import Prelude.

Definition NUL : char := "000"%char.

(** ** current_thread *)

(** The thread-local cache; [threadName] has 32 cells. *)
(* @src current_thread.cpp | struct Cache { | char threadName[32] *)
Record Cache := mkCache { cache_tid : Z; tidStr : chars; threadName : chars }.
(** A text in an array of [n] cells. *)
Definition in_array (n : nat) (s : chars) : chars := s ++ replicate (n - length s) NUL.
(* @src current_thread.cpp | Cache() { *)
Definition newCache (gettid : Z) : Cache :=
  mkCache gettid (snprintf 32 (fill " " 6 (dec gettid))) (in_array 32 $"unKnown").

(* @src current_thread.cpp | int64_t id() noexcept *)
Definition id_ (c : Cache) : Z := cache_tid c.
(* @src current_thread.cpp | bool is_main() noexcept *)
Definition is_main (getpid : Z) (c : Cache) : bool := id_ c =? getpid.

(** [strncpy] fills up with NULs. *)
Definition strncpy (n : nat) (src buf : chars) : chars := in_array n (take n (c_str src)) ++ drop n buf.
(* @src current_thread.cpp | void set_thread_name( *)
Definition set_thread_name (name : chars) (c : Cache) : Cache :=
  let kMax := 32%nat in
  mkCache (cache_tid c) (tidStr c) (<[(kMax - 1)%nat := NUL]> (strncpy (kMax - 1) name (threadName c))).
(* @src current_thread.cpp | std::string thread_name() noexcept *)
Definition thread_name (c : Cache) : chars := c_str (threadName c).

(** ** Thread *)

(** The [std::thread] behind [thread_]: [None] once it has been moved away, else whether it is joinable. *)
(* @src base/thread.h | std::unique_ptr<std::thread> thread_; | pid_t tid_{-2}; *)
Record Thread := mkThread { thread_ : option bool; name_ : chars; tid_ : Z }.

(** What the new thread does to the rest of the program. *)
Inductive mon_event := SetValue (tid : Z) | Run (shown_as : chars) | LogError (name : chars).
(** [throws]: how [func] ends. *)
(* @src base/thread.cpp | void Thread::monitor_thread( *)
Definition monitor_thread (throws : bool) (name : chars) (c : Cache) : list mon_event * Cache :=
  let e1 := SetValue (id_ c) in
  let c := set_thread_name name c in
  let e2 := Run (thread_name c) in
  if throws then ([e1; e2; LogError name], set_thread_name $"crashed" c)
  else ([e1; e2], set_thread_name $"finished" c).

(** The constructor leaves no thread and the id -2. *)
(* @src base/thread.cpp | Thread::Thread( *)
Definition newThread (name : chars) : Thread := mkThread None name (-2).
(** [get_future().get()] waits for the value the new thread sets. *)
(* @src base/thread.cpp | Thread Thread::start_thread( *)
Definition start_thread (name : chars) (events : list mon_event) : option Thread :=
  match events with
  | SetValue tid :: _ => Some (mkThread (Some true) (name_ (newThread name)) tid)
  | _ => None
  end.
(* @src base/thread.h | void join() { *)
Definition join (t : Thread) : outcome Thread :=
  match thread_ t with
  | None => Fault Undefined
  | Some true => Ok (mkThread (Some false) (name_ t) (tid_ t))
  | Some false => Ok t
  end.
(** [std::thread::detach] of a thread that is not joinable throws [EINVAL]. *)
(* @src base/thread.h | void detach() const *)
Definition detach (t : Thread) : outcome Thread :=
  match thread_ t with
  | None => Fault Undefined
  | Some true => Ok (mkThread (Some false) (name_ t) (tid_ t))
  | Some false => Fault (Throw (SystemError 22 "Invalid argument"))
  end.
(** The destructor of a joinable [std::thread] terminates the program. *)
(* @src base/thread.h | std::unique_ptr<std::thread> thread_; *)
Definition destroy_thread (t : Thread) : outcome unit := if thread_ t is Some true then Fault Terminate else Ok tt.
(* @src base/thread.h | void set_tid( *)
Definition set_tid (tid : Z) (t : Thread) : Thread := mkThread (thread_ t) (name_ t) tid.
(** The defaulted move constructor copies the constant name and the id. *)
(* @src base/thread.h | Thread(Thread&&) = default; *)
Definition move_thread (t : Thread) : Thread * Thread := (t, mkThread None (name_ t) (tid_ t)).

(** ** demangle *)

(** [abi::__cxa_demangle]: its status, and the text if it could be demangled. *)
Section Demangle.
Context (cxa_demangle : chars → Z * option chars).
(* @src demangle.cpp | DemangleResult try_demangle(const char* name, int& status) { *)
Definition try_demangle_status (name : chars) : Z * option chars := cxa_demangle name.
(* @src demangle.cpp | DemangleResult try_demangle(const char* name) { *)
Definition try_demangle (name : chars) : option chars := (try_demangle_status name).2.
(* @src demangle.cpp | std::string demangle(const char* name, int& status) { *)
Definition demangle (name : chars) : Z * chars :=
  let '(status, result) := try_demangle_status name in
  (status, if result is Some text then text else c_str name).
End Demangle.

(** ** short_file *)

Definition is_slash (c : char) : bool := bool_decide (c = "/"%char) || (char_code c =? 92).
(* @src short_file.h | static constexpr const char* past_last_slash(const char* str, *)
Fixpoint past_last_slash_from (str last_pos : chars) : chars :=
  match str with
  | [] => last_pos
  | c :: str' => if is_slash c then past_last_slash_from str' str' else past_last_slash_from str' last_pos
  end.
(* @src short_file.h | static constexpr const char* past_last_slash(const char* str) { *)
Definition past_last_slash (str : chars) : chars := past_last_slash_from str str.

(** * Properties *)

Lemma c_str_in_array n s rest : NUL ∉ s → (length s < n)%nat → c_str (in_array n s ++ rest) = s.
Proof.
  unfold in_array. revert n. induction s as [|c s IH]; intros n N L; simpl in L.
  - destruct n; [lia|]. by rewrite Nat.sub_0_r.
  - apply not_elem_of_cons in N as [D N]. destruct n as [|n]; [lia|]. simpl.
    rewrite decide_False by (intros ->; by apply D). f_equal. apply (IH n); [done|lia].
Qed.

Lemma c_str_no_NUL s : NUL ∉ c_str s.
Proof.
  induction s as [|c s IH]; simpl; [by apply not_elem_of_nil|].
  destruct (decide (c = "000"%char)); [by apply not_elem_of_nil|]. apply not_elem_of_cons. split; [|done].
  intros E. by apply n.
Qed.

(** A name is shown cut to 31 characters, and never runs out of its array. *)
Theorem thread_name_set (name : chars) (c : Cache) : length (threadName c) = 32%nat →
  thread_name (set_thread_name name c) = take 31 (c_str name) ∧ length (threadName (set_thread_name name c)) = 32%nat.
Proof.
  intros L. unfold thread_name, set_thread_name, strncpy. cbn [threadName Nat.sub].
  set (s := take 31 (c_str name)). assert (Ls : (length s <= 31)%nat) by (unfold s; rewrite length_take; lia).
  assert (N : NUL ∉ s) by (unfold s; intros I; apply (c_str_no_NUL name); apply elem_of_take in I as (i & I & _); by eapply list_elem_of_lookup_2).
  assert (La : length (in_array 31 s) = 31%nat) by (unfold in_array; rewrite length_app, length_replicate; lia).
  assert (Ld : length (drop 31 (threadName c)) = 1%nat) by (rewrite length_drop; lia).
  rewrite insert_app_r_alt by lia. rewrite La. destruct (drop 31 (threadName c)) as [|x [|]]; [done| |done].
  simpl. split; [|rewrite length_app; simpl; lia].
  replace (in_array 31 s ++ [NUL]) with (in_array 32 s ++ []); [by apply c_str_in_array; [|lia]|].
  unfold in_array. rewrite app_nil_r, <-(assoc_L (++)). f_equal.
  replace (32 - length s)%nat with (S (31 - length s)) by lia. by rewrite replicate_S_end.
Qed.

(** A thread can be joined any number of times and also after [detach], but detached only while joinable. *)
Theorem thread_join_twice (name : chars) (events : list mon_event) (t : Thread) :
  start_thread name events = Some t →
  (∃ t', join t = Ok t' ∧ join t' = Ok t' ∧ detach t' = Fault (Throw (SystemError 22 "Invalid argument"))) ∧
  (∃ t', detach t = Ok t' ∧ join t' = Ok t') ∧ join (move_thread t).2 = Fault Undefined.
Proof. destruct events as [|[tid| |] es]; [done| |done|done]. intros [= <-]. split_and!; eexists; done. Qed.

(** A started thread has to be joined or detached before its object ends; whoever is left by a move may end. *)
Theorem thread_ends_joined (name : chars) (events : list mon_event) (t : Thread) :
  start_thread name events = Some t →
  destroy_thread t = Fault Terminate ∧
  (∀ t', join t = Ok t' ∨ detach t = Ok t' → destroy_thread t' = Ok tt) ∧
  destroy_thread (move_thread t).2 = Ok tt ∧ destroy_thread (move_thread t).1 = Fault Terminate.
Proof.
  destruct events as [|[tid| |] es]; [done| |done|done]. intros [= <-]. split_and!; try done.
  by intros t' [[= <-]|[= <-]].
Qed.

Lemma past_last_slash_from_spec (str w : chars) : Forall (fun c => is_slash c = false) w →
  ∃ pre, w ++ str = pre ++ past_last_slash_from str (w ++ str) ∧
    Forall (fun c => is_slash c = false) (past_last_slash_from str (w ++ str)) ∧
    (pre = [] ∨ from_option is_slash false (last pre) = true).
Proof.
  revert w. induction str as [|c str IH]; intros w F; simpl.
  - exists []. rewrite app_nil_r. by split_and!; [| |left].
  - destruct (is_slash c) eqn:S.
    + destruct (IH [] ltac:(constructor)) as (pre & E & Fr & L). simpl in E, Fr.
      exists (w ++ c :: pre). split_and!.
      * by rewrite <-(assoc_L (++)), <-app_comm_cons, <-E.
      * done.
      * right. rewrite last_app_cons. destruct L as [->|L]; [done|]. by destruct pre.
    + destruct (IH (w ++ [c])) as (pre & E & X); [by apply Forall_app; split; [|constructor]|].
      rewrite <-(assoc_L (++)) in E, X. by exists pre.
Qed.

(** [SHORT_FILE] is what follows the last slash or backslash. *)
Theorem past_last_slash_spec (str : chars) :
  ∃ pre, str = pre ++ past_last_slash str ∧ Forall (fun c => is_slash c = false) (past_last_slash str) ∧
    (pre = [] ∨ from_option is_slash false (last pre) = true).
Proof. apply (past_last_slash_from_spec str []). constructor. Qed.
