(* ===== verification/Logging.v ===== *)
(** * Logging: the registry of loggers and the cleaning of log directories

    Models [deps/common/log/logging.{h,cpp}]. A logger of spdlog is a number; its level, the records it takes
    and its flushes are kept beside the registry. *)

From stdpp Require Import sorting.
From S2P Require Import Prelude.

(* @src logging.h | enum LoggerType { *)
Inductive LoggerType := CONSOLE | RUNTIME.
#[global] Instance LoggerType_eq_dec : EqDecision LoggerType.
Proof. solve_decision. Defined.

Inductive level := Ltrace | Ldebug | Linfo | Lwarn | Lerr | Lcritical.

(** The two vectors, and what was asked of each logger: levels set, records, flushes. *)
Record registry := mkRegistry {
  loggers : LoggerType → option nat;
  disused_loggers : LoggerType → option nat;
  levels : gmap nat level;
  records : list (nat * level * chars);
  flushed : list nat
}.
(* @src logging.cpp | std::vector<std::shared_ptr<spdlog::logger>>& loggers() { | return loggers; *)
Definition no_loggers : registry := mkRegistry (fun _ => None) (fun _ => None) ∅ [] [].

Definition set_at (t : LoggerType) (l : option nat) (f : LoggerType → option nat) (u : LoggerType) : option nat :=
  if decide (u = t) then l else f u.

(** A null pointer is returned for a type without logger. *)
(* @src logging.cpp | spdlog::logger* get_logger( *)
Definition get_logger (type : LoggerType) (r : registry) : option nat := loggers r type.

(* @src logging.cpp | void register_logger(LoggerType type, *)
Definition register_logger (type : LoggerType) (logger : option nat) (r : registry) : registry :=
  mkRegistry (set_at type logger (loggers r)) (set_at type (loggers r type) (disused_loggers r)) (levels r) (records r) (flushed r).

Definition set_level_of (l : option nat) (lv : level) (m : gmap nat level) : gmap nat level :=
  match l with Some l => <[l := lv]> m | None => m end.
(* @src logging.cpp | void set_level( *)
Definition set_level (lv : level) (r : registry) : registry :=
  mkRegistry (loggers r) (disused_loggers r) (set_level_of (loggers r RUNTIME) lv (set_level_of (loggers r CONSOLE) lv (levels r)))
             (records r) (flushed r).

(* @src logging.cpp | void flush() { *)
Definition flush (r : registry) : registry :=
  mkRegistry (loggers r) (disused_loggers r) (levels r) (records r)
             (flushed r ++ omap (loggers r) [CONSOLE; RUNTIME]).

(** [get_logger(type)->log(...)]: a null logger is undefined behaviour. *)
Definition log_to (type : LoggerType) (lv : level) (msg : chars) (r : registry) : outcome registry :=
  match get_logger type r with
  | None => Fault Undefined
  | Some l => Ok (mkRegistry (loggers r) (disused_loggers r) (levels r) (records r ++ [(l, lv, msg)]) (flushed r))
  end.
Definition log_both (lv : level) (msg : chars) (r : registry) : outcome registry :=
  r ← log_to CONSOLE lv msg r; log_to RUNTIME lv msg r.
(* @src logging.h | void trace(spdlog::source_loc loc, *)
Definition log_trace : chars → registry → outcome registry := log_both Ltrace.
(* @src logging.h | void debug(spdlog::source_loc loc, *)
Definition log_debug : chars → registry → outcome registry := log_both Ldebug.
(* @src logging.h | void info(spdlog::source_loc loc, *)
Definition log_info : chars → registry → outcome registry := log_both Linfo.
(* @src logging.h | void warn(spdlog::source_loc loc, *)
Definition log_warn : chars → registry → outcome registry := log_both Lwarn.
(* @src logging.h | void error(spdlog::source_loc loc, *)
Definition log_error : chars → registry → outcome registry := log_both Lerr.
(* @src logging.h | void fatal(spdlog::source_loc loc, *)
Definition log_fatal : chars → registry → outcome registry := log_both Lcritical.

(** The initializer makes the loggers [l1] and [l2]. *)
(* @src logging.cpp | register_logger(LoggerType::CONSOLE, console_logger); | register_logger(LoggerType::RUNTIME, *)
Definition LogInitializer (l1 l2 : nat) (r : registry) : registry :=
  register_logger RUNTIME (Some l2) (register_logger CONSOLE (Some l1) r).

(** ** Cleaning a directory *)

(** An entry of the directory: its name and whether it is a regular file. *)
Definition entry : Type := chars * bool.
(** The order of names: bytewise. *)
Fixpoint name_le (a b : chars) : bool :=
  match a, b with
  | [], _ => true
  | _ :: _, [] => false
  | x :: a, y :: b =>
      if char_code x <? char_code y then true else if char_code y <? char_code x then false else name_le a b
  end.
Definition names_le (a b : chars) : Prop := name_le a b = true.
#[global] Instance names_le_dec : RelDecision names_le := fun a b => bool_eq_dec _ _.

(** [std::filesystem::remove] of one file after the other; it throws for a file that cannot be removed. *)
Fixpoint remove_loop (removable : chars → bool) (victims : list chars) (dir : list entry) : outcome unit * list entry :=
  match victims with
  | [] => (Ok tt, dir)
  | v :: victims =>
      if removable v then remove_loop removable victims (filter (fun e : entry => e.1 ≠ v) dir)
      else (Fault (Throw (SystemError 1 "filesystem error: cannot remove")), dir)
  end.

(** [is_file_needed] is [None] when it is empty. The directory left behind comes with the outcome. *)
(* @src logging.cpp | void clean_logfiles( *)
Definition clean_logfiles (removable : chars → bool) (is_dir : bool) (max_files : Z) (is_file_needed : option (chars → bool))
    (dir : list entry) : outcome unit * list entry :=
  if negb is_dir then (Ok tt, dir) else
  let needed (n : chars) := match is_file_needed with None => true | Some f => f n end in
  let entries := (filter (fun e : entry => e.2 && needed e.1 = true) dir).*1 in
  if max_files <? zlen entries then
    let sorted := merge_sort names_le entries in
    remove_loop removable (take (Z.to_nat (zlen sorted - max_files)) sorted) dir
  else (Ok tt, dir).

(** * Properties *)

Lemma name_le_refl a : name_le a a = true.
Proof. induction a as [|x a IH]; [done|]. simpl. zdec (char_code x <? char_code x). done. Qed.

#[global] Instance names_le_total : Total names_le.
Proof.
  unfold names_le. intros a. induction a as [|x a IH]; intros [|y b]; simpl; [by left|by left|by right|].
  zdec (char_code x <? char_code y); zdec (char_code y <? char_code x); [by left|by right|apply IH].
Qed.

#[global] Instance names_le_trans : Transitive names_le.
Proof.
  unfold names_le. intros a. induction a as [|x a IH]; intros [|y b] [|z c]; simpl; try done.
  zdec (char_code x <? char_code y); zdec (char_code y <? char_code x); zdec (char_code y <? char_code z);
    zdec (char_code z <? char_code y); zdec (char_code x <? char_code z); zdec (char_code z <? char_code x); try done.
  apply IH.
Qed.

Lemma remove_loop_spec removable victims dir : Forall (fun v => removable v = true) victims →
  remove_loop removable victims dir = (Ok tt, filter (fun e : entry => e.1 ∉ victims) dir).
Proof.
  revert dir. induction victims as [|v vs IH]; intros dir F; simpl.
  - f_equal. symmetry. induction dir as [|e dir IH]; [done|]. by rewrite filter_cons_True, IH by apply not_elem_of_nil.
  - apply Forall_cons in F as [-> F]. rewrite IH by done. rewrite list_filter_filter. f_equal.
    apply list_filter_iff. intros e. rewrite not_elem_of_cons. tauto.
Qed.

(** A file the cleaning may delete: a regular one that the filter names. *)
Definition wanted (f : option (chars → bool)) (e : entry) : bool :=
  e.2 && (match f with None => true | Some f => f e.1 end).
Definition candidates (f : option (chars → bool)) (dir : list entry) : list chars :=
  (filter (fun e : entry => wanted f e = true) dir).*1.

Lemma not_candidate f dir e : NoDup dir.*1 → e ∈ dir → wanted f e = false → e.1 ∉ candidates f dir.
Proof.
  unfold entry in *. intros N I C K. apply list_elem_of_fmap in K as (e' & E & [W I']%list_elem_of_filter).
  assert (e = e') as ->; [|congruence].
  apply list_elem_of_lookup_1 in I as [i I], I' as [j I'].
  assert (i = j) as ->; [|congruence].
  eapply NoDup_lookup; [exact N| |]; rewrite list_lookup_fmap; [by rewrite I|by rewrite I', E].
Qed.

(** C40. Of the regular files that the filter names, the last [max_files] in the order of names survive; everything
    else in the directory stays. *)
Theorem clean_logfiles_keeps_newest (removable : chars → bool) (max_files : Z) (f : option (chars → bool)) (dir : list entry) :
  0 <= max_files → NoDup dir.*1 → Forall (fun v => removable v = true) (candidates f dir) →
  ∃ victims kept dir',
    clean_logfiles removable true max_files f dir = (Ok tt, dir') ∧
    candidates f dir ≡ₚ victims ++ kept ∧ zlen kept = Z.min max_files (zlen (candidates f dir)) ∧
    (∀ v k, v ∈ victims → k ∈ kept → name_le v k = true) ∧
    (∀ e, e ∈ dir' ↔ e ∈ dir ∧ e.1 ∉ victims) ∧
    (∀ e, e ∈ dir → wanted f e = false → e ∈ dir').
Proof.
  intros M N R. unfold clean_logfiles. cbn [negb]. cbv zeta.
  change ((filter (fun e : entry => e.2 && _ = true) dir).*1) with (candidates f dir).
  pose proof (zlen_nonneg (candidates f dir)) as Z0.
  destruct (max_files <? zlen (candidates f dir)) eqn:E; bool_prop.
  - pose proof (merge_sort_Permutation names_le (candidates f dir)) as P.
    pose proof (StronglySorted_merge_sort names_le (candidates f dir)) as S.
    set (sorted := merge_sort names_le (candidates f dir)) in *. clearbody sorted.
    assert (L : length sorted = length (candidates f dir)) by by apply Permutation_length.
    set (n := Z.to_nat (zlen sorted - max_files)). exists (take n sorted), (drop n sorted).
    rewrite <-(take_drop n sorted) in S at 1.
    rewrite remove_loop_spec; cycle 1.
    { apply Forall_take. by rewrite P. }
    eexists. split; [reflexivity|]. split_and!.
    + by rewrite take_drop.
    + unfold zlen in *. rewrite length_drop. lia.
    + intros v k V K. by apply (StronglySorted_app_1_elem_of names_le _ _ v k S).
    + intros e. rewrite list_elem_of_filter. tauto.
    + intros e I C. apply list_elem_of_filter. split; [|done]. intros V. apply (not_candidate f dir e N I C).
      rewrite <-P. apply elem_of_take in V as (i & V & _). by eapply list_elem_of_lookup_2.
  - exists [], (candidates f dir), dir. split_and!; [done|done|lia|by intros ?? ?%not_elem_of_nil| |done].
    intros e. split; [|tauto]. intros I. split; [done|apply not_elem_of_nil].
Qed.

(** Registering twice drops the logger that was replaced first; the one replaced last is kept alive. *)
Theorem register_logger_keeps_one (t : LoggerType) (a b : nat) (r : registry) :
  let r' := register_logger t (Some b) (register_logger t (Some a) r) in
  get_logger t r' = Some b ∧ disused_loggers r' t = Some a ∧ (∀ u, u ≠ t → get_logger u r' = get_logger u r).
Proof. cbn. unfold get_logger, set_at. split_and!; intros; by repeat case_decide. Qed.

(** Logging reaches both loggers once they are registered; with one missing it is undefined. *)
Theorem log_needs_both (l1 l2 : nat) (msg : chars) :
  (∃ r', log_info msg (LogInitializer l1 l2 no_loggers) = Ok r' ∧ records r' = [(l1, Linfo, msg); (l2, Linfo, msg)]) ∧
  log_info msg (register_logger CONSOLE (Some l1) no_loggers) = Fault Undefined.
Proof. split; [by eexists|done]. Qed.

Lemma clean_logfiles_keeps_newest_witness :
  ∃ victims kept dir',
    clean_logfiles (fun _ => true) true 1 None [($"b.log", true); ($"a.log", true); ($"sub", false)] = (Ok tt, dir') ∧
    candidates None [($"b.log", true); ($"a.log", true); ($"sub", false)] ≡ₚ victims ++ kept ∧ zlen kept = 1 ∧
    ($"sub", false) ∈ dir'.
Proof.
  destruct (clean_logfiles_keeps_newest (fun _ => true) 1 None [($"b.log", true); ($"a.log", true); ($"sub", false)])
    as (v & k & d & E & P & L & _ & _ & S).
  - lia.
  - apply (bool_decide_unpack _). vm_compute. exact I.
  - apply Forall_true. done.
  - exists v, k, d. split_and!; [exact E|exact P|exact L|]. apply S; [|reflexivity].
    apply (bool_decide_unpack _). vm_compute. exact I.
Defined.

Example clean_logfiles_small :
  clean_logfiles (fun _ => true) true 1 None [($"b.log", true); ($"a.log", true); ($"sub", false)] =
    (Ok tt, [($"b.log", true); ($"sub", false)]).
Proof. vm_compute. reflexivity. Qed.
