(* ===== verification/Idioms.v ===== *)
(** * Idioms: scope guards and the lazy singleton

    Models [deps/common/utilities/defer.h] and [deps/common/utilities/singleton.h]. A guard is its cleanup;
    a scope is a body under a list of guards, in the order of their declarations, which may return or throw. The
    singleton is a function-local static: threads reach its initialisation in any order. *)

From S2P Require Import Prelude.

(** ** defer *)

Section Defer.
Context {W A : Type}.

(** What a body does: the state after it, and its value or the exception it lets out. *)
Definition scoped : Type := W → outcome (W * (A + exn)).

(** The destructor runs the cleanup; it is [noexcept], so that an exception out of the cleanup terminates. *)
(* @src defer.h | ~defer() { cleanup_function_(); } *)
Definition destroy_defer (cleanup_function_ : W → outcome W) (w : W) : outcome W :=
  match cleanup_function_ w with Fault (Throw _) => Fault Terminate | r => r end.

(** A guard declared before [body] in its scope, which the body leaves by returning or by throwing. *)
(* @src defer.h | defer<Function> make_defer( *)
Definition make_defer (cleanup : W → outcome W) (body : scoped) : scoped :=
  fun w => '(w, r) ← body w; w ← destroy_defer cleanup w; Ok (w, r).

(** Several guards: the first declared is the outermost. *)
Definition scope (guards : list (W → outcome W)) (body : scoped) : scoped := foldr make_defer body guards.

(** Leaving the scope, however the body ended, runs every cleanup once, the last declared first, and passes
    the body's value or exception on; nothing runs when the program ends in the body. *)
Theorem scope_cleans_up (guards : list (W → outcome W)) (body : scoped) (w : W) :
  scope guards body w = ('(w1, r) ← body w; w2 ← foldM destroy_defer (reverse guards) w1; Ok (w2, r)).
Proof.
  induction guards as [|g guards IH]; cbn [scope foldr].
  - destruct (body w) as [[w1 r]|]; done.
  - unfold make_defer at 1. change (foldr make_defer body guards w) with (scope guards body w). rewrite IH, reverse_cons.
    destruct (body w) as [[w1 r]|f]; cbn; [|done]. rewrite foldM_app.
    destruct (foldM destroy_defer (reverse guards) w1) as [w2|]; cbn; [|done].
    by destruct (destroy_defer g w2).
Qed.

(** An exception out of a cleanup terminates the program, also when the body had only returned. *)
Theorem throwing_cleanup_terminates (g : W → outcome W) (body : scoped) (w w1 : W) r e :
  body w = Ok (w1, r) → g w1 = Fault (Throw e) → scope [g] body w = Fault Terminate.
Proof. intros E1 E2. cbn. unfold make_defer. rewrite E1. cbn. unfold destroy_defer. by rewrite E2. Qed.
End Defer.

(** Two files closed in reverse order after a body that throws. *)
Example two_guards :
  scope [fun l => Ok (l ++ [1%nat]); fun l => Ok (l ++ [2%nat])] (fun l => Ok (l, @inr unit exn LengthError)) [] =
  Ok ([2%nat; 1%nat], inr LengthError).
Proof. reflexivity. Qed.

(** ** Singleton *)

(** The guard variable of [static T inst]: not initialised, being initialised by a thread, or done. *)
Inductive guard (T : Type) := Fresh | Busy (thread : nat) | Done (inst : T).
Arguments Fresh {T}.
Arguments Busy {T}.
Arguments Done {T}.

Section Singleton.
Context {T : Type}.

(** The guard, the constructor's calls that succeeded, and what [instance] returned, by thread. *)
Record singleton := mkSingleton { guard_ : guard T; constructed : list T; returned : list (nat * T) }.

(** A call of [instance] by thread [t]: it starts the constructor, waits while another thread runs it (no
    step), or returns; the constructor ends with an object, or throws, and the guard is open again. *)
(* @src singleton.h | static T& instance() { | } | Singleton::instance *)
Inductive instance_step (t : nat) : singleton → singleton → Prop :=
| step_enter s : guard_ s = Fresh → instance_step t s (mkSingleton (Busy t) (constructed s) (returned s))
| step_built s x : guard_ s = Busy t → instance_step t s (mkSingleton (Done x) (constructed s ++ [x]) (returned s ++ [(t, x)]))
| step_threw s : guard_ s = Busy t → instance_step t s (mkSingleton Fresh (constructed s) (returned s))
| step_get s x : guard_ s = Done x → instance_step t s (mkSingleton (Done x) (constructed s) (returned s ++ [(t, x)])).

Definition new_singleton : singleton := mkSingleton Fresh [] [].
Definition singleton_step (s s' : singleton) : Prop := ∃ t, instance_step t s s'.

(** The object is made at most once, and every call returns it. *)
Definition one_object (s : singleton) : Prop :=
  match guard_ s with
  | Done x => constructed s = [x] ∧ Forall (fun p => p.2 = x) (returned s)
  | _ => constructed s = [] ∧ returned s = []
  end.

Theorem singleton_once (s : singleton) : rtc singleton_step new_singleton s → one_object s.
Proof.
  intros H. pattern s. eapply rtc_ind_r; [| |exact H]; [done|]. clear s H.
  intros s s' _ [t St] I. unfold one_object in *. destruct St as [s E|s x E|s E|s x E]; cbn; rewrite E in I; destruct I as [I1 I2].
  - done.
  - rewrite I1, I2. split; [done|by constructor].
  - done.
  - split; [done|]. apply Forall_app. by split; [|constructor].
Qed.

(** A call can always go on, unless another thread is in the constructor. *)
Theorem instance_progress (t : nat) (s : singleton) :
  (∃ s', instance_step t s s') ∨ ∃ u, u ≠ t ∧ guard_ s = Busy u.
Proof.
  destruct (guard_ s) as [|u|x] eqn:E.
  - left. eexists. by apply step_enter.
  - destruct (decide (u = t)) as [->|N]; [left; eexists; by apply step_threw|right; eauto].
  - left. eexists. by apply (step_get t s x).
Qed.
End Singleton.
