(* ===== verification/Lifetime.v ===== *)
(** * Lifetime: who keeps a connection alive

    Models the references to one [TcpConnection] of a [TcpServer] with separate base and IO loops
    (TcpConnection.cpp, TcpServer.cpp): the server's table, the functors waiting in the two loops, and the
    [TcpConnectionPtr]s of other threads. [send] and [shutdown] called from another thread post functors that
    capture the bare [this]; [forceClose], [removeConnection] and [removeConnectionInLoop] post functors that own
    a reference. A call from another thread first tests [state_] and posts later; the loops run in between. *)

From S2P Require Import Prelude Channel TcpConnection.

(** The functors in the IO loop's queue. *)
(* @src TcpConnection.cpp | loop_->runInLoop([this, message] { sendInLoopByString(message); }); *)
Inductive functor := RawSend | RawShutdown | OwnForceClose | OwnDestroyed.
Definition raw (f : functor) : bool := match f with RawSend | RawShutdown => true | _ => false end.
#[global] Instance functor_eq_dec : EqDecision functor.
Proof. solve_decision. Defined.

(** Calls of other threads. *)
Inductive call := CSend | CShutdown | CForceClose.
(** Another thread: without a reference, with one, or past the test of [state_] in a call. *)
Inductive tpc := Away | Holds | Checked (o : call).
Definition holding (t : tpc) : bool := match t with Away => false | _ => true end.
Definition in_call (t : tpc) : bool := match t with Checked _ => true | _ => false end.

(** [closed] says that [handleClose] has disabled the channel; [removals] counts the functors
    [removeConnectionInLoop] in the base loop's queue. *)
Record life := mkLife {
  st : StateE;
  closed : bool;
  in_table : bool;
  io_queue : list functor;
  removals : nat;
  threads : list tpc
}.

(** The strong references: table, functors that own one, threads. *)
Definition alive (s : life) : bool :=
  in_table s || existsb (fun f => negb (raw f)) (io_queue s) || (0 <? removals s)%nat || existsb holding (threads s).

(** [handleClose]: the close callback posts the removal to the base loop. *)
(* @src TcpServer.cpp | void TcpServer::removeConnection( *)
Definition life_close (s : life) : life :=
  mkLife KDisconnected true (in_table s) (io_queue s) (S (removals s)) (threads s).

(** The base loop runs the first removal: erasing a name that is gone fails the assertion. *)
(* @src TcpServer.cpp | void TcpServer::removeConnectionInLoop( *)
Definition base_head (s : life) : outcome life :=
  match removals s with
  | O => Ok s
  | S n => assert_ (in_table s);;
           Ok (mkLife (st s) (closed s) false (io_queue s ++ [OwnDestroyed]) n (threads s))
  end.

(** The IO loop runs the first functor: a bare [this] needs the object, the others bring their reference. *)
(* @src TcpConnection.cpp | void TcpConnection::forceCloseInLoop() *)
Definition io_head (s : life) : outcome life :=
  match io_queue s with
  | [] => Ok s
  | f :: q =>
      let s' := mkLife (st s) (closed s) (in_table s) q (removals s) (threads s) in
      match f with
      | RawSend | RawShutdown => if alive s then Ok s' else Fault Undefined
      | OwnForceClose => if is_state (st s) KConnected || is_state (st s) KDisconnecting then Ok (life_close s') else Ok s'
      | OwnDestroyed => Ok (mkLife (if is_state (st s) KConnected then KDisconnected else st s) (closed s) (in_table s) q (removals s) (threads s))
      end
  end.

(** The test at the start of a call, and what the call does after it. *)
(* @src TcpConnection.cpp | void TcpConnection::forceClose() *)
Definition passes (o : call) (x : StateE) : bool :=
  match o with CForceClose => is_state x KConnected || is_state x KDisconnecting | _ => is_state x KConnected end.
(* @src TcpConnection.cpp | void TcpConnection::shutdown() *)
Definition posted (o : call) (s : life) : life :=
  mkLife (match o with CSend => st s | _ => KDisconnecting end) (closed s) (in_table s)
    (io_queue s ++ [match o with CSend => RawSend | CShutdown => RawShutdown | CForceClose => OwnForceClose end])
    (removals s) (threads s).

Definition with_thread (i : nat) (t : tpc) (s : life) : life :=
  mkLife (st s) (closed s) (in_table s) (io_queue s) (removals s) (<[i := t]> (threads s)).

Section Steps.
(** [prompt]: the connection is not closed while a thread is between the test and the posting. *)
Context (prompt : bool).
Definition gate (s : life) : Prop := prompt = true → existsb in_call (threads s) = false.

Inductive life_step : life → life → Prop :=
| l_take i s : threads s !! i = Some Away → alive s = true → life_step s (with_thread i Holds s)
| l_drop i s : threads s !! i = Some Holds → life_step s (with_thread i Away s)
| l_check i o s : threads s !! i = Some Holds → passes o (st s) = true → life_step s (with_thread i (Checked o) s)
| l_post i o s : threads s !! i = Some (Checked o) → life_step s (posted o (with_thread i Holds s))
| l_event s : closed s = false → alive s = true → gate s → life_step s (life_close s)
| l_io s s' : (head (io_queue s) = Some OwnForceClose → gate s) → io_head s = Ok s' → life_step s s'
| l_base s s' : base_head s = Ok s' → life_step s s'.
End Steps.

(** An established connection, known to the table only. *)
Definition established (n : nat) : life := mkLife KConnected false true [] 0 (replicate n Away).

(** ** Proofs *)

Definition no_raw (q : list functor) : Prop := Forall (fun f => raw f = false) q.
(** After [OwnDestroyed] nothing bare follows. *)
Definition covered (q : list functor) : Prop := no_raw q ∨ ∃ a b, q = a ++ OwnDestroyed :: b ∧ no_raw b.

Record life_inv (s : life) : Prop := {
  li_open : closed s = false →
    (st s = KConnected ∨ st s = KDisconnecting) ∧ in_table s = true ∧ removals s = 0%nat ∧ OwnDestroyed ∉ io_queue s;
  li_closed : closed s = true →
    st s = KDisconnected ∧ existsb in_call (threads s) = false ∧
    (in_table s = true ∧ removals s = 1%nat ∨ in_table s = false ∧ removals s = 0%nat ∧ covered (io_queue s))
}.

Lemma existsb_insert (p : tpc → bool) l i t : p t = false → existsb p l = false → existsb p (<[i := t]> l) = false.
Proof.
  intros P. revert i. induction l as [|x l IH]; intros [|i]; simpl; [done..| |].
  - intros [_ ->]%orb_false_iff. by rewrite P.
  - intros [-> H]%orb_false_iff. simpl. by apply IH.
Qed.

Lemma existsb_none (p : tpc → bool) l i t : existsb p l = false → l !! i = Some t → p t = false.
Proof.
  revert i. induction l as [|x l IH]; intros [|i]; simpl; [done..| |]; intros [Hx Hl]%orb_false_iff.
  - by intros [= <-].
  - by apply IH.
Qed.

(** Dropping the first functor keeps the rest covered. *)
Lemma covered_tail f q : covered (f :: q) → covered q.
Proof.
  intros [N|(a & b & E & N)]; [left; by apply Forall_cons in N as [_ N]|].
  destruct a as [|x a]; simpl in E; injection E as -> ->; [by left|right; by exists a, b].
Qed.

(** A bare functor at the front of a covered queue is followed by a reference. *)
Lemma covered_alive f q : covered (f :: q) → raw f = true → existsb (fun f => negb (raw f)) q = true.
Proof.
  intros [N|(a & b & E & N)] R; [apply Forall_cons in N as [N _]; by rewrite R in N|].
  destruct a as [|x a]; simpl in E; injection E as -> ->; [done|]. rewrite existsb_app. simpl. by rewrite orb_true_r.
Qed.

Lemma life_close_inv s : life_inv s → closed s = false → existsb in_call (threads s) = false → life_inv (life_close s).
Proof. intros [O _] C G. destruct (O C) as (_ & T & R & _). split; simpl; [done|]. intros _. rewrite R. by split_and!; [..|left]. Qed.

Lemma io_head_ok s : life_inv s → ∃ s', io_head s = Ok s'.
Proof.
  intros [O C]. unfold io_head. destruct (io_queue s) as [|f q] eqn:Q; [by eexists|].
  assert (A : raw f = true → alive s = true).
  { intros R. unfold alive. destruct (closed s); [|by destruct (O eq_refl) as (_ & -> & _)].
    destruct (C eq_refl) as (_ & _ & [[-> _]|(_ & _ & K)]); [done|]. rewrite Q in *. simpl.
    rewrite (covered_alive _ _ K R). by rewrite !orb_true_r. }
  destruct f; simpl in A; rewrite ?A by done; repeat case_match; by eexists.
Qed.

Lemma base_head_ok s : life_inv s → ∃ s', base_head s = Ok s'.
Proof.
  intros [O C]. unfold base_head. destruct (removals s) as [|n] eqn:R; [by eexists|].
  destruct (closed s); [|by destruct (O eq_refl) as (_ & _ & ? & _)].
  destruct (C eq_refl) as (_ & _ & [[-> _]|(_ & ? & _)]); [by eexists|done].
Qed.

Lemma with_thread_inv i t s : in_call t = false → life_inv s → life_inv (with_thread i t s).
Proof.
  intros T [O C]. split; simpl; [done|]. intros Cl. destruct (C Cl) as (? & ? & ?). split_and!; [done| |done].
  by apply existsb_insert.
Qed.

Lemma io_head_inv s s' : life_inv s → (head (io_queue s) = Some OwnForceClose → existsb in_call (threads s) = false) →
  io_head s = Ok s' → life_inv s'.
Proof.
  intros I G. pose proof I as [O C]. unfold io_head. destruct (io_queue s) as [|f q] eqn:Q; [by intros [= <-]|].
  set (s0 := mkLife (st s) (closed s) (in_table s) q (removals s) (threads s)).
  assert (I0 : life_inv s0).
  { split; simpl; intros Cl.
    - destruct (O Cl) as (? & ? & ? & N). split_and!; [done..|]. by apply not_elem_of_cons in N as [_ N].
    - destruct (C Cl) as (? & ? & K). split_and!; [done..|].
      destruct K as [?|(? & ? & K)]; [by left|right]. split_and!; [done..|]. by apply covered_tail in K. }
  destruct f; intros E.
  - destruct (alive s); [by injection E as <-|done].
  - destruct (alive s); [by injection E as <-|done].
  - destruct (closed s) eqn:Cl.
    + destruct (C eq_refl) as (St & _). rewrite St in E. by injection E as <-.
    + destruct (O eq_refl) as (St & _).
      assert (X : is_state (st s) KConnected || is_state (st s) KDisconnecting = true) by (destruct St as [-> | ->]; done).
      rewrite X in E. injection E as <-. apply (life_close_inv s0); [done|done|by apply G].
  - destruct (closed s) eqn:Cl.
    + destruct (C eq_refl) as (St & _). rewrite St in E. injection E as <-. unfold s0 in I0. rewrite St in I0. exact I0.
    + destruct (O eq_refl) as (_ & _ & _ & N). apply not_elem_of_cons in N as [N _]. done.
Qed.

Lemma base_head_inv s s' : life_inv s → base_head s = Ok s' → life_inv s'.
Proof.
  intros I. pose proof I as [O C]. unfold base_head. destruct (removals s) as [|n] eqn:R; [by intros [= <-]|].
  destruct (closed s) eqn:Cl; [|by destruct (O eq_refl) as (_ & _ & ? & _)].
  destruct (C eq_refl) as (St & T & [[-> [= ->]]|(_ & ? & _)]); [|done]. intros [= <-].
  split; simpl; [done|]. intros _. split_and!; [done..|]. right. split_and!; [done..|].
  right. exists (io_queue s), []. split; [done|constructor].
Qed.

Lemma posted_inv i o s : life_inv s → threads s !! i = Some (Checked o) → life_inv (posted o (with_thread i Holds s)).
Proof.
  intros [O C] T. assert (Cl : closed s = false).
  { destruct (closed s); [|done]. destruct (C eq_refl) as (_ & N & _). by apply (existsb_none _ _ _ _ N) in T. }
  destruct (O Cl) as (St & Tb & R & N). split; simpl; [|by rewrite Cl]. intros _.
  split_and!; [by destruct o; auto|done..|]. rewrite elem_of_app, list_elem_of_singleton. intros [?|?]; [done|by destruct o].
Qed.

Lemma life_step_inv s s' : life_step true s s' → life_inv s → life_inv s'.
Proof.
  intros [i s1 T A|i s1 T|i o s1 T P|i o s1 T|s1 Cl A G|s1 s2 G E|s1 s2 E] I.
  - by apply with_thread_inv.
  - by apply with_thread_inv.
  - destruct I as [O C]. split; simpl; [done|]. intros Cl. destruct (C Cl) as (St & _).
    rewrite St in P. by destruct o.
  - by apply posted_inv.
  - apply life_close_inv; [done..|by apply G].
  - eapply io_head_inv; [done| |done]. intros H. by apply G.
  - by eapply base_head_inv.
Qed.

Lemma established_inv n : life_inv (established n).
Proof. split; simpl; [|done]. intros _. split_and!; [by left|done..|]. apply not_elem_of_nil. Qed.

Lemma life_reach_inv n s : rtc (life_step true) (established n) s → life_inv s.
Proof.
  intros R. pose proof (established_inv n) as I. induction R as [|a b c S _ IH]; [done|].
  apply IH. by eapply life_step_inv.
Qed.

(** ** Properties *)

(** C15. In every interleaving in which no other thread is inside [send], [shutdown] or [forceClose], between the test
    of the state and the posting, at the moment the connection closes, every functor finds the connection
    alive, the table's entry is erased once, and the object is given up when its functors have run and no
    thread holds it. Without that discipline a thread whose test succeeded before the close makes a bare functor
    run on a destroyed object, and [forceClose] makes the connection close twice, which fails the assertion of
    [removeConnectionInLoop]. *)
Theorem functors_find_connection :
  (∀ n s, rtc (life_step true) (established n) s →
    (∃ s', io_head s = Ok s') ∧ (∃ s', base_head s = Ok s') ∧
    (closed s = true → io_queue s = [] → removals s = 0%nat → existsb holding (threads s) = false → alive s = false)) ∧
  (∃ s, rtc (life_step false) (established 1) s ∧ alive s = false ∧ io_head s = Fault Undefined) ∧
  (∃ s, rtc (life_step false) (established 1) s ∧ base_head s = Fault AssertFail).
Proof.
  split; [|split].
  - intros n s R. pose proof (life_reach_inv n s R) as I. split_and!; [by apply io_head_ok|by apply base_head_ok|].
    intros Cl Q Rm H. unfold alive. rewrite Q, Rm, H. destruct I as [_ C].
    destruct (C Cl) as (_ & _ & [[_ ?]|(-> & _)]); [congruence|done].
  - exists (mkLife KDisconnected true false [RawSend] 0 [Away]). split; [|split; reflexivity].
    eapply rtc_l; [by apply (l_take false 0)|]. eapply rtc_l; [by apply (l_check false 0 CSend)|].
    eapply rtc_l; [by apply l_event|]. eapply rtc_l; [by apply l_base|]. eapply rtc_l; [by apply l_io|].
    eapply rtc_l; [by apply (l_post false 0 CSend)|]. eapply rtc_l; [by apply (l_drop false 0)|]. apply rtc_refl.
  - exists (mkLife KDisconnected true false [] 1 [Holds]). split; [|reflexivity].
    eapply rtc_l; [by apply (l_take false 0)|]. eapply rtc_l; [by apply (l_check false 0 CForceClose)|].
    eapply rtc_l; [by apply l_event|]. eapply rtc_l; [by apply l_base|]. eapply rtc_l; [by apply l_io|].
    eapply rtc_l; [by apply (l_post false 0 CForceClose)|]. eapply rtc_l; [by apply l_io|]. apply rtc_refl.
Qed.

Lemma functors_find_connection_witness : ∃ s', io_head (established 2) = Ok s'.
Proof. destruct functors_find_connection as (H & _). destruct (H 2%nat (established 2) (rtc_refl _ _)) as (? & _). done. Defined.
